(* ===== verification/_CoqProject ===== *)
-Q . S2P
Prelude.v
RustStr.v
RustWords.v
RustPath.v
RustIo.v
KvConf.v
Cpio.v
CpioWalk.v
CpioArchive.v
CpioSim.v
Host.v
Kmod.v
RapidoLib.v
Cut.v
CutFind.v
CutKmods.v
CutManifest.v
CutSpec.v
CutTree.v
CutElfSpec.v
CutTermination.v
Elf.v
ElfStream.v
ElfSpec.v
ElfImage.v
CutKmodSpec.v
Argument.v
CutProgram.v
CutInclude.v
CutEnds.v
DracutCpio.v
Vm.v
Init.v
InitSpec.v
VmInit.v
VmSpec.v
Completion.v
CutImage.v
CutPanic.v
CutLinked.v
CutOrder.v
TestHost.v
KvConfTests.v
CpioTests.v
KmodTests.v
ToolTests.v
CutTests.v
DracutTests.v
