(* ===== verification/Prelude.v ===== *)
(** * rapido: a verification development

    rapido builds an initramfs for a kernel under test, boots it with qemu and
    runs scripts inside. The repository's own Rust code is modelled here:

      rapido-cut    reads a manifest and writes an initramfs archive with the
                    files, ELF executables, libraries and kernel modules named;
      rapido-vm     reads which resources an image asks for and starts qemu;
      rapido-init   is the first process in the machine; it is told on the
                    kernel command line, by rapido-vm, what to set up;
      dracut-cpio   archives a list of names, lscpio lists an archive, and
      bash-completion completes the command line of the front end;
      kv-conf, cpio, kmod-parser, the rapido library and the option parser of
                    crosvm are the libraries these programs share; rapido-cut
                    reads executables with the vendored rust-elf.

    The programs meet in three places, and the theorems follow them: the bytes of
    the archive (written by the cpio crate, read by its walker and by rapido-vm),
    the kernel command line (written by rapido-vm, read by rapido-init) and the
    configuration rapido.conf (read by all with kv-conf).

    ** Files

    This file: bytes, machine integers, errors, the state and error monad [SM]
    with its notations ([let*], [do*], [let?]), tactics, hints and shared lemmas.

    The standard library and the system, as far as the programs use them:
      RustStr, RustWords   strings, UTF-8, number parsing and formatting;
      RustPath             std::path: [components], [join], [parent], ...;
      RustIo               classes [Write], [ReadSeek] with their laws
                           ([WriteOk], ...), buffered readers, [io::copy];
      Host                 the file system and environment, as a record.

    The program (paths below src/src/):
      KvConf       kv-conf/src/lib.rs: [kv_process] (a line) and the
                   [kv_conf_process*] functions (a file);
      Cpio         cpio/src/lib.rs, the writer: [ArchiveState], [ArchiveMd],
                   [archive_path], [archive_symlink], [archive_file],
                   [archive_trailer];
      CpioWalk     cpio/src/lib.rs, [ArchiveWalker::next]; bin/lscpio.rs;
      Kmod         kmod-parser/src/lib.rs: [KmodContext], its five loaders, [find];
      RapidoLib    lib.rs: kernel release, kernel modules, rapido.conf;
      Argument     third_party/crosvm/argument.rs;
      Cut          bin/rapido-cut.rs: the state [CutState] all functions of the
                   tool share, [path_stat], [elf_deps], [gather_archive_dirs],
                   [gather_archive_elfs], [gather_archive_data];
      CutKmods     ... kernel modules, the module database, default links;
      CutManifest  ... the manifest and the sequence of [main];
      CutProgram   ... the command line, the output and [main];
      Elf          third_party/rust-elf/src/: integers of either byte order, the
                   headers and entries of either class, tables, strings;
      ElfStream    ... elf_stream.rs: [CachingReader], [open_stream], [dynamic],
                   [dynamic_symbol_table]; [elf_open], what [elf_deps] of
                   rapido-cut asks of a file;
      DracutCpio   bin/dracut-cpio.rs;
      Vm           bin/rapido-vm.rs;
      Init         bin/rapido-init.rs;
      Completion   bin/bash-completion.rs.

    Files of theorems only: CpioArchive, CpioSim (whole archives), CutFind (the order
    in which [path_stat] tries paths), CutSpec, CutTree,
    CutInclude, CutElfSpec, CutKmodSpec, CutTermination, CutEnds, CutLinked, CutImage,
    CutOrder, CutPanic (rapido-cut), ElfSpec,
    ElfImage (the ELF parser, with a reference writer of ELF files), VmSpec,
    InitSpec, VmInit (the protocol between the two). The other files end with their own theorems.

    The unit tests of the repository, run on the model: TestHost (a file system of
    directories and files), KvConfTests, CpioTests, KmodTests, ToolTests, CutTests,
    DracutTests (against a reference definition of what GNU cpio writes and extracts).
    Each test is a definition of its name, and holds: the model was not fitted
    to the theorems, it does what the authors expect of the program.

    A definition has the name of the function it models. Mutable references and
    early returns become a computation of [SM]: the state survives an error, as
    the mutations made before it do, and [Panic] is a third outcome beside [Ok]
    and [Err]. Arithmetic wraps around, as in a release build. The shared
    [HashSet]s of rapido-cut are fields of [CutState]; a set of paths is a set of
    component lists, because that is how Rust compares paths.

    ** Theorems

    Numbers are those of the doc comments ([C1] to [C40]).

    - Archives. A written archive is read back entry by entry (C2), by lscpio too
      (C38) and by rapido-vm, which gets the resources named in it (C7). Every
      writer receives the bytes an in-memory one would, or a prefix of them if it
      fails (C16); which requests fail (C24), which never panic (C23), where the
      data is aligned (C31), which metadata fits (C40).
      The walker and the resource reader end on any bytes (C22, C32).
    - rapido-cut. A successful run has written a whole archive, with no entry cut
      short by an error that was caught (C1). What the lines of manifests do, of
      every kind, is a sequence of steps (C4): entries that are new, distinct and
      after their parents; paths recorded without an entry, for filters and
      missing modules; and the autorun scripts, which are not looked up. A kernel module brings its dependencies (C9, C37) and
      an executable its libraries (C10): they are written in the same call, unless
      they were gathered or filtered out before. The libraries are those the file was linked
      with: a reference writer's file is read back by the parser (C11), which
      is safe on any bytes (C21); so the same holds of the bytes of every file
      that was linked (C8). A tree of data is mirrored, entry by entry, but for what a filter hides (C5),
      and an include is as good as the lines it stands for (C6). The program ends (C12)
      and does not panic (C25).
    - The machine. What rapido-vm puts on the kernel command line is what
      rapido-init reads (C3); rapido-vm starts the first machine that does not run
      (C19) and never panics (C33); init comes to switch the machine off whatever
      happens (C17), and starts a shell only on a machine that was set up (C13).
    - Parsers. Printed configurations, module databases, command lines and lists
      of names are read back (C14, C15, C20, C28, C30); the parsers end and do
      not panic (C26, C29); what holds of every result (C27, C34, C35); exact
      results (C36, C39); completion is that of a reference
      definition (C18).

    A theorem about the whole of a run is composed of lemmas about its steps: a
    predicate of computations (such as [emits] in CutSpec, [leads] in CutOrder, [writes] in CutImage,
    [keeps_libs] in CutElfSpec, [tame] in CutImage, [safe] in CutPanic) is closed under [sbind], and
    each operation is shown to satisfy it.

    ** Parameters, fuel and bounds

    The file system and the environment are a [Host]; streams are instances of
    the classes in RustIo. rapido-cut takes the ELF parser as an argument
    ([elf_open]); its theorems hold of every one, and ElfStream defines the one
    of the vendored crate. Further parameters are the standard library's hash, what stty, qemu
    and bash print, the outcome of every action init asks of the system, and the
    text of an error in a message. Theorems that need it say what is assumed of
    them: that the system never panics ([host_total]), that sizes and other
    metadata fit their types ([host_sane], [stat_ok]), that a directory
    listing has plain names, that the needed names of ELF files are in their string tables ([elf_wf]).

    The loops that follow the input carry fuel. For the readers of archives and
    of lines it is the length of the input and is proved to be enough (C22, C32,
    [kv_append_loop] of KvConf); [find] of the module database calls itself at most once, on the
    normalised name ([find_spec] of Kmod). The loops of rapido-cut over work stacks (executables,
    data, manifests) do not end on every host: a manifest may include itself. The
    first two are proved to end where the entries that can come up lie at
    finitely many paths ([gather_elfs_terminates] and [gather_data_terminates] of CutTermination), with
    the rounds that suffice, and with them the whole program, when the includes
    of the manifests have no cycle (C12). Elsewhere running out of
    fuel is the error [NoFuel], which no handler catches, so that a success is
    one of the program. A table of an ELF file has fewer entries than bytes.

    Limits of the code that show in the theorems: 32-bit fields and 4 GiB of an
    archive entry, names up to [PATH_MAX], lines of 100 KiB in a configuration and
    16 KiB in a manifest, machines 1 to 999, archives below 2^29 entries.

    ** Not modelled

    Messages on standard output and error, except the help text and what lscpio
    and bash-completion print. Of rust-elf, what the programs do not use: symbols,
    versions, notes, relocations, hash tables, compression and the reader of
    slices; the tests of third-party code.
    The library directories are those of x86_64. The front end
    (the shell script rapido), the autorun scripts, the manifests and the tools
    are not Rust. Concurrency does not occur: each program is one thread, and
    what other processes do to the file system meanwhile is left out. *)








From Stdlib Require Export ZArith Lia.
From stdpp Require Export strings gmap list.

Open Scope Z_scope.

(** ** Bytes and literals *)

(** A byte is a [Z] between 0 and 255; a Rust [&[u8]], [Vec<u8>], [String] or
    [OsString] is the list of its bytes (a [String] is its UTF-8 encoding). *)
Abbreviation bytes := (list Z).

(** The bytes of an ASCII literal: [B "abc"]. *)
Definition B (s : string) : bytes :=
  (fun a => Z.of_N (Ascii.N_of_ascii a)) <$> String.list_ascii_of_string s.

(** space and newline *)
Definition SPACE : Z := 32.
Definition NL : Z := 10.

(** The length of a byte string, as a machine integer. *)
Definition zlen (b : bytes) : Z := Z.of_nat (length b).

Definition byte_ok (b : Z) : Prop := 0 <= b < 256.

Abbreviation bytes_ok := (Forall byte_ok).

(** ** Machine integers *)

Definition U32_MAX : Z := 2 ^ 32 - 1.
Definition U64_MAX : Z := 2 ^ 64 - 1.

(** Arithmetic of a release build: it wraps around. *)
Definition wrap32 (n : Z) : Z := n mod 2 ^ 32.
Definition wrap64 (n : Z) : Z := n mod 2 ^ 64.

Definition u32_ok (n : Z) : Prop := 0 <= n < 2 ^ 32.
Definition u64_ok (n : Z) : Prop := 0 <= n < 2 ^ 64.

(** [u32::try_from] of a wider integer. *)
Definition u32_try_from (n : Z) : option Z :=
  if (0 <=? n) && (n <=? U32_MAX) then Some n else None.

(** ** Errors *)

(** [io::ErrorKind], the kinds the program makes or compares with. *)
Inductive ErrorKind :=
  | NotFound
  | PermissionDenied
  | BrokenPipe
  | InvalidInput
  | InvalidData
  | UnexpectedEof
  | Unsupported
  | StorageFull
  | OtherKind.

(** [io::Error]: a kind and, for [io::Error::new], the message. *)
Record io_error := IoError { kind : ErrorKind; msg : option bytes }.

(** [io::Error::from(kind)] *)
Definition err_from (k : ErrorKind) : io_error := IoError k None.
(** [io::Error::new(kind, "...")] *)
Definition err_new (k : ErrorKind) (m : string) : io_error := IoError k (Some (B m)).
(** [io::Error::new(kind, format!(..))] *)
Definition err_fmt (k : ErrorKind) (m : bytes) : io_error := IoError k (Some m).

#[export] Instance ErrorKind_eq_dec : EqDecision ErrorKind.
Proof. solve_decision. Defined.

#[export] Instance io_error_eq_dec : EqDecision io_error.
Proof. solve_decision. Defined.

(** The outcome of a fallible computation; [Panic] is an unwinding panic
    ([unwrap] of a [None], a failed [assert!], ...). *)
Inductive result (E A : Type) : Type :=
  | Ok (a : A)
  | Err (e : E)
  | Panic.
Arguments Ok {E A} a.
Arguments Err {E A} e.
Arguments Panic {E A}.

#[export] Instance result_eq_dec {E A} `{EqDecision E} `{EqDecision A} :
  EqDecision (result E A).
Proof. solve_decision. Defined.

Abbreviation io A := (result io_error A).

Definition is_ok {E A} (r : result E A) : bool :=
  match r with Ok _ => true | _ => false end.
Definition is_err {E A} (r : result E A) : bool :=
  match r with Err _ => true | _ => false end.

Definition rbind {E A B} (r : result E A) (f : A -> result E B) : result E B :=
  match r with Ok a => f a | Err e => Err e | Panic => Panic end.

(** [Option::unwrap] *)
Definition unwrap {E A} (o : option A) : result E A :=
  match o with Some a => Ok a | None => Panic end.

(** [Option::ok_or] *)
Definition ok_or {E A} (o : option A) (e : E) : result E A :=
  match o with Some a => Ok a | None => Err e end.

(** [Result::map_err] *)
Definition map_err {E F A} (f : E -> F) (r : result E A) : result F A :=
  match r with Ok a => Ok a | Err e => Err (f e) | Panic => Panic end.

(** ** Stateful computations *)

(** A computation over a state [S] that can fail: the state survives a failure,
    as the mutations made before an early return do. *)
Definition SM (S E A : Type) : Type := S -> result E A * S.

Definition sret {S E A} (a : A) : SM S E A := fun s => (Ok a, s).
Definition sfail {S E A} (e : E) : SM S E A := fun s => (Err e, s).
Definition spanic {S E A} : SM S E A := fun s => (Panic, s).
Definition slift {S E A} (r : result E A) : SM S E A := fun s => (r, s).
Definition sget {S E} : SM S E S := fun s => (Ok s, s).
Definition sput {S E} (s : S) : SM S E unit := fun _ => (Ok tt, s).
Definition smodify {S E} (f : S -> S) : SM S E unit := fun s => (Ok tt, f s).

Definition sbind {S E A B} (c : SM S E A) (f : A -> SM S E B) : SM S E B :=
  fun s => match c s with
           | (Ok a, s') => f a s'
           | (Err e, s') => (Err e, s')
           | (Panic, s') => (Panic, s')
           end.

(** Run a computation and hand its result, success or failure, to the caller
    (a [match] on a [Result] instead of [?]). A panic is not caught. *)
Definition stry {S E F A} (c : SM S E A) : SM S F (result E A) :=
  fun s => match c s with
           | (Panic, s') => (Panic, s')
           | (r, s') => (Ok r, s')
           end.

(** Run a computation on a part of the state. *)
Definition focus {S T E A} (get : S -> T) (put : T -> S -> S) (c : SM T E A) : SM S E A :=
  fun s => let '(r, t) := c (get s) in (r, put t s).

(** It does not panic. *)
Definition no_panic {S E A} (c : SM S E A) (s : S) : Prop := fst (c s) <> Panic.

(** [assert!] *)
Definition sassert {S E} (b : bool) : SM S E unit :=
  if b then sret tt else spanic.

Declare Scope rapido_scope.
Delimit Scope rapido_scope with rapido.
Open Scope rapido_scope.

Notation "'let?' x ':=' r 'in' k" := (rbind r (fun x => k))
  (at level 10, x pattern, r at level 100, k at level 200,
   format "'let?'  x  ':='  r  'in'  '//' k") : rapido_scope.
Notation "'let*' x ':=' c 'in' k" := (sbind c (fun x => k))
  (at level 10, x pattern, c at level 100, k at level 200,
   format "'let*'  x  ':='  c  'in'  '//' k") : rapido_scope.
Notation "'do*' c ';;' k" := (sbind c (fun _ => k))
  (at level 10, c at level 99, k at level 200,
   format "'do*'  c  ';;'  '//' k") : rapido_scope.

(** ** Automation *)

Create HintDb rapido.

(** Split the hypotheses of a computation that is known to have succeeded. *)
Ltac sinv :=
  repeat match goal with
  | H : context [let? _ := ?r in _] |- _ => unfold rbind in H
  | H : sbind ?c ?f ?s = _ |- _ => unfold sbind in H
  | H : (match ?x with _ => _ end) = _ |- _ => destruct x eqn:?; simplify_eq/=
  | H : (_, _) = (_, _) |- _ => simplify_eq/=
  end.

(** Decide the [Z] and [nat] comparisons of the goal. *)
Ltac zbool :=
  repeat match goal with
  | |- context [?a <? ?b] => destruct (Z.ltb_spec a b)
  | |- context [?a <=? ?b] => destruct (Z.leb_spec a b)
  | |- context [?a =? ?b] => destruct (Z.eqb_spec a b)
  end.
Ltac zbool_in H :=
  repeat match type of H with
  | context [?a <? ?b] => destruct (Z.ltb_spec a b)
  | context [?a <=? ?b] => destruct (Z.leb_spec a b)
  | context [?a =? ?b] => destruct (Z.eqb_spec a b)
  end.

(** ** Shared lemmas *)

Lemma sbind_ok {S E A C} (c : SM S E A) (f : A -> SM S E C) s a s' :
  c s = (Ok a, s') -> sbind c f s = f a s'.
Proof. unfold sbind. by intros ->. Qed.

Lemma sbind_err {S E A C} (c : SM S E A) (f : A -> SM S E C) s e s' :
  c s = (Err e, s') -> sbind c f s = (Err e, s').
Proof. unfold sbind. by intros ->. Qed.

Lemma sbind_inv_ok {S E A C} (c : SM S E A) (f : A -> SM S E C) s b s' :
  sbind c f s = (Ok b, s') -> exists a s1, c s = (Ok a, s1) /\ f a s1 = (Ok b, s').
Proof. unfold sbind. destruct (c s) as [[a|e|] s1] eqn:Hc; intros; simplify_eq; eauto. Qed.

Lemma sbind_assoc {S E A C D} (c : SM S E A) (f : A -> SM S E C) (g : C -> SM S E D) s :
  sbind (sbind c f) g s = sbind c (fun a => sbind (f a) g) s.
Proof. unfold sbind. by destruct (c s) as [[a|e|] s1]. Qed.

Lemma no_panic_bind {S E A C} (c : SM S E A) (f : A -> SM S E C) s :
  no_panic c s -> (forall a s', c s = (Ok a, s') -> no_panic (f a) s') -> no_panic (sbind c f) s.
Proof. unfold no_panic, sbind. intros Hc Hf. destruct (c s) as [[a|e|] s']; [by apply Hf|done|done]. Qed.

Lemma no_panic_try {S E F A C} (c : SM S E A) (f : result E A -> SM S F C) s :
  no_panic c s -> (forall r s', r <> Panic -> c s = (r, s') -> no_panic (f r) s') -> no_panic (sbind (stry c) f) s.
Proof. unfold no_panic, sbind, stry. intros Hc Hf. destruct (c s) as [[a|e|] s']; [by apply Hf..|done]. Qed.

Lemma sret_bind {S E A C} (a : A) (f : A -> SM S E C) s :
  sbind (sret a) f s = f a s.
Proof. done. Qed.

Lemma wrap32_small n : u32_ok n -> wrap32 n = n.
Proof. apply Z.mod_small. Qed.

Lemma wrap64_small n : u64_ok n -> wrap64 n = n.
Proof. apply Z.mod_small. Qed.

Lemma zlen_app a b : zlen (a ++ b) = zlen a + zlen b.
Proof. unfold zlen. rewrite length_app. lia. Qed.

Lemma zlen_nonneg b : 0 <= zlen b.
Proof. unfold zlen. lia. Qed.

Lemma u32_try_from_Some n m : u32_try_from n = Some m -> m = n /\ u32_ok n.
Proof.
  unfold u32_try_from, u32_ok, U32_MAX. destruct (0 <=? n) eqn:H1, (n <=? _) eqn:H2;
    simpl; intros; simplify_eq; lia.
Qed.

Lemma u32_try_from_ok n : u32_ok n -> u32_try_from n = Some n.
Proof.
  unfold u32_try_from, u32_ok, U32_MAX. intros H.
  replace (0 <=? n) with true by lia. replace (n <=? _) with true by lia. done.
Qed.

#[export] Hint Resolve wrap32_small wrap64_small u32_try_from_ok : rapido.

Lemma Forall_snoc {A} (P : A -> Prop) l x : Forall P (l ++ [x]) <-> Forall P l /\ P x.
Proof. by rewrite Forall_app, Forall_singleton. Qed.

Lemma wrap32_ok n : u32_ok (wrap32 n).
Proof. by apply Z.mod_pos_bound. Qed.
