(* ===== verification/RustStr.v ===== *)
(** * The part of Rust's [str] and integer formatting the program uses

    Byte strings are lists of byte values; a [str] is its UTF-8 encoding, so the
    ASCII operations ([split] at an ASCII character, [strip_prefix], ...) work on
    bytes and the Unicode ones ([trim], [split_whitespace]) on the characters
    the bytes encode. The second half models [from_str_radix], [parse] and the
    [{:08X}]-like formats, with their round trip. *)

From S2P Require Import Prelude.

(** ** Prefixes, suffixes, search *)

Fixpoint strip_prefix (p s : bytes) : option bytes :=
  match p, s with
  | [], _ => Some s
  | a :: p', b :: s' => if a =? b then strip_prefix p' s' else None
  | _ :: _, [] => None
  end.

Definition starts_with (p s : bytes) : bool :=
  match strip_prefix p s with Some _ => true | None => false end.

Definition strip_suffix (p s : bytes) : option bytes :=
  match strip_prefix (reverse p) (reverse s) with
  | Some r => Some (reverse r)
  | None => None
  end.

Definition ends_with (p s : bytes) : bool :=
  match strip_suffix p s with Some _ => true | None => false end.

(** [s.contains(p)] for a string [p] *)
Fixpoint contains (p s : bytes) : bool :=
  starts_with p s || match s with [] => false | _ :: s' => contains p s' end.

(** membership in an array of ASCII characters, the pattern [&['a', 'b']] *)
Definition one_of (cs : bytes) (c : Z) : bool := existsb (Z.eqb c) cs.

#[global] Arguments one_of : simpl never.
#[global] Arguments strip_suffix : simpl never.
#[global] Arguments ends_with : simpl never.

Definition contains_any (cs s : bytes) : bool := existsb (one_of cs) s.

(** first and last byte satisfying a predicate: [starts_with(&[..])] etc. *)
Definition starts_with_any (cs s : bytes) : bool :=
  match s with c :: _ => one_of cs c | [] => false end.
Definition ends_with_any (cs s : bytes) : bool :=
  match last s with Some c => one_of cs c | None => false end.

(** [s.strip_suffix(&[..])]: one character of the array *)
Definition strip_suffix_any (cs s : bytes) : option bytes :=
  if ends_with_any cs s then Some (removelast s) else None.

(** ** Splitting *)

Fixpoint split (f : Z -> bool) (s : bytes) : list bytes :=
  match s with
  | [] => [[]]
  | c :: r =>
      if f c then [] :: split f r
      else match split f r with
           | p :: ps => (c :: p) :: ps
           | [] => [[c]]
           end
  end.

(** [split_inclusive]: the separator stays at the end of each piece. *)
Fixpoint split_inclusive (f : Z -> bool) (s : bytes) : list bytes :=
  match s with
  | [] => []
  | c :: r =>
      if f c then [c] :: split_inclusive f r
      else match split_inclusive f r with
           | p :: ps => (c :: p) :: ps
           | [] => [[c]]
           end
  end.

(** [s.split_once(c)] *)
Fixpoint split_once (f : Z -> bool) (s : bytes) : option (bytes * bytes) :=
  match s with
  | [] => None
  | c :: r =>
      if f c then Some ([], r)
      else match split_once f r with
           | Some (a, b) => Some (c :: a, b)
           | None => None
           end
  end.

(** [s.rsplit_once(..)]: at the last separator *)
Definition rsplit_once (f : Z -> bool) (s : bytes) : option (bytes * bytes) :=
  match split_once f (reverse s) with
  | Some (a, b) => Some (reverse b, reverse a)
  | None => None
  end.

(** [s.replace(from, to)] for one ASCII character *)
Definition replace (from : Z) (to s : bytes) : bytes :=
  concat ((fun c => if c =? from then to else [c]) <$> s).

(** ** UTF-8 *)

Definition in_range (lo hi b : Z) : bool := (lo <=? b) && (b <=? hi).
Definition utf8_cont (b : Z) : bool := in_range 0x80 0xBF b.
Definition utf8_2 (b c1 : Z) : bool := in_range 0xC2 0xDF b && utf8_cont c1.
(** the first two bytes of a three byte sequence *)
Definition utf8_3_lead (b c1 : Z) : bool :=
  ((b =? 0xE0) && in_range 0xA0 0xBF c1)
  || (in_range 0xE1 0xEC b && utf8_cont c1)
  || ((b =? 0xED) && in_range 0x80 0x9F c1)
  || (in_range 0xEE 0xEF b && utf8_cont c1).
(** the first two bytes of a four byte sequence *)
Definition utf8_4_lead (b c1 : Z) : bool :=
  ((b =? 0xF0) && in_range 0x90 0xBF c1)
  || (in_range 0xF1 0xF3 b && utf8_cont c1)
  || ((b =? 0xF4) && in_range 0x80 0x8F c1).

(** [core::str::from_utf8]: the validity table *)
Fixpoint utf8_valid (s : bytes) : bool :=
  match s with
  | [] => true
  | b :: r =>
      if in_range 0 0x7F b then utf8_valid r
      else match r with
           | [] => false
           | c1 :: r1 =>
               if utf8_2 b c1 then utf8_valid r1
               else match r1 with
                    | [] => false
                    | c2 :: r2 =>
                        if utf8_3_lead b c1 && utf8_cont c2 then utf8_valid r2
                        else match r2 with
                             | [] => false
                             | c3 :: r3 =>
                                 utf8_4_lead b c1 && utf8_cont c2 && utf8_cont c3
                                 && utf8_valid r3
                             end
                    end
           end
  end.

Definition from_utf8 (s : bytes) : option bytes := if utf8_valid s then Some s else None.

(** U+FFFD *)
Definition REPLACEMENT : bytes := [0xEF; 0xBF; 0xBD].

(** [String::from_utf8_lossy]: each maximal invalid prefix becomes U+FFFD. *)
Fixpoint from_utf8_lossy (s : bytes) : bytes :=
  match s with
  | [] => []
  | b :: r =>
      if in_range 0 0x7F b then b :: from_utf8_lossy r
      else match r with
           | [] => REPLACEMENT
           | c1 :: r1 =>
               if utf8_2 b c1 then b :: c1 :: from_utf8_lossy r1
               else if utf8_3_lead b c1 then
                 match r1 with
                 | [] => REPLACEMENT
                 | c2 :: r2 =>
                     if utf8_cont c2 then b :: c1 :: c2 :: from_utf8_lossy r2
                     else REPLACEMENT ++ from_utf8_lossy r1
                 end
               else if utf8_4_lead b c1 then
                 match r1 with
                 | [] => REPLACEMENT
                 | c2 :: r2 =>
                     if utf8_cont c2 then
                       match r2 with
                       | [] => REPLACEMENT
                       | c3 :: r3 =>
                           if utf8_cont c3 then b :: c1 :: c2 :: c3 :: from_utf8_lossy r3
                           else REPLACEMENT ++ from_utf8_lossy r2
                       end
                     else REPLACEMENT ++ from_utf8_lossy r1
                 end
               else REPLACEMENT ++ from_utf8_lossy r
           end
  end.

(** The characters of a valid string, each as its encoding: a continuation byte
    belongs to the character before it. *)
Fixpoint chars (s : bytes) : list bytes :=
  match s with
  | [] => []
  | b :: r =>
      match chars r with
      | (c :: cs) :: rest => if utf8_cont c then (b :: c :: cs) :: rest
                             else [b] :: (c :: cs) :: rest
      | rest => [b] :: rest
      end
  end.

(** [char::is_whitespace], Unicode's White_Space, on the encoding *)
Definition white_space : list bytes :=
  [[0x09]; [0x0A]; [0x0B]; [0x0C]; [0x0D]; [0x20]; [0xC2; 0x85]; [0xC2; 0xA0];
   [0xE1; 0x9A; 0x80]; [0xE2; 0x80; 0x80]; [0xE2; 0x80; 0x81]; [0xE2; 0x80; 0x82];
   [0xE2; 0x80; 0x83]; [0xE2; 0x80; 0x84]; [0xE2; 0x80; 0x85]; [0xE2; 0x80; 0x86];
   [0xE2; 0x80; 0x87]; [0xE2; 0x80; 0x88]; [0xE2; 0x80; 0x89]; [0xE2; 0x80; 0x8A];
   [0xE2; 0x80; 0xA8]; [0xE2; 0x80; 0xA9]; [0xE2; 0x80; 0xAF]; [0xE2; 0x81; 0x9F];
   [0xE3; 0x80; 0x80]].

Definition is_whitespace (c : bytes) : bool := bool_decide (c ∈ white_space).

Fixpoint drop_while {A} (f : A -> bool) (l : list A) : list A :=
  match l with
  | x :: r => if f x then drop_while f r else l
  | [] => []
  end.

Definition trim_start (s : bytes) : bytes := concat (drop_while is_whitespace (chars s)).
Definition trim_end (s : bytes) : bytes :=
  concat (reverse (drop_while is_whitespace (reverse (chars s)))).
Definition trim (s : bytes) : bytes := trim_end (trim_start s).

Fixpoint words (cs : list bytes) : list bytes :=
  match cs with
  | [] => [[]]
  | c :: r =>
      if is_whitespace c then [] :: words r
      else match words r with
           | p :: ps => (c ++ p) :: ps
           | [] => [c]
           end
  end.

Definition nonempty (s : bytes) : bool := match s with [] => false | _ => true end.

Definition split_whitespace (s : bytes) : list bytes := List.filter nonempty (words (chars s)).

(** ** Integers *)

(** the value of a digit character in a radix of at most 36 *)
Definition to_digit (radix c : Z) : option Z :=
  let d := if in_range 48 57 c then c - 48
           else if in_range 65 90 c then c - 55
           else if in_range 97 122 c then c - 87
           else radix in
  if d <? radix then Some d else None.

Fixpoint from_digits (radix max acc : Z) (s : bytes) : option Z :=
  match s with
  | [] => Some acc
  | c :: r =>
      match to_digit radix c with
      | None => None
      | Some d =>
          let n := acc * radix + d in
          if n <=? max then from_digits radix max n r else None
      end
  end.

(** [uN::from_str_radix(s, radix)], [max] the largest [uN]: one leading ['+'] is
    accepted, an empty or sign-only string and an overflow are errors. *)
Definition from_str_radix (radix max : Z) (s : bytes) : option Z :=
  match s with
  | [] => None
  | [c] => if one_of (B "+-") c then None else from_digits radix max 0 [c]
  | c :: r => if c =? 43 then from_digits radix max 0 r else from_digits radix max 0 s
  end.

Definition parse_u32 : bytes -> option Z := from_str_radix 10 U32_MAX.
Definition parse_u64 : bytes -> option Z := from_str_radix 10 U64_MAX.

(** the digits of [n], most significant first; [fuel] bounds their number *)
Fixpoint digits_aux (fuel : nat) (radix n : Z) (acc : list Z) : list Z :=
  match fuel with
  | O => acc
  | S f => if n <? radix then n :: acc
           else digits_aux f radix (n / radix) (n mod radix :: acc)
  end.

Definition digits (radix n : Z) : list Z := digits_aux (S (Z.to_nat (Z.log2 n))) radix n [].

Definition digit_char (upper : bool) (d : Z) : Z :=
  if d <? 10 then 48 + d else (if upper then 55 else 87) + d.

(** pad with zeros on the left to a minimal width *)
Definition pad_left (c : Z) (width : nat) (s : bytes) : bytes :=
  replicate (width - length s)%nat c ++ s.

(** [{:0<width>X}] *)
Definition fmt_HEX (width : nat) (n : Z) : bytes :=
  pad_left 48 width (digit_char true <$> digits 16 n).
(** [{:0<width>x}] *)
Definition fmt_hex (width : nat) (n : Z) : bytes :=
  pad_left 48 width (digit_char false <$> digits 16 n).
(** [{:0<width>}] *)
Definition fmt_dec0 (width : nat) (n : Z) : bytes :=
  pad_left 48 width (digit_char false <$> digits 10 n).
(** [{}] *)
Definition fmt_dec (n : Z) : bytes := fmt_dec0 0 n.

(** [format!("{pad:.padlen$}")]: the first [padlen] characters of [pad] *)
Definition fmt_prec (padlen : nat) (pad : bytes) : bytes := take padlen pad.

(** [{:?}] of a string, in diagnostic messages; the escapes of control and quote
    characters are not reproduced. *)
Definition fmt_debug (s : bytes) : bytes := [34] ++ s ++ [34].

(** [l.join(sep)] *)
Fixpoint intercalate (sep : bytes) (l : list bytes) : bytes :=
  match l with
  | [] => []
  | [s] => s
  | s :: r => s ++ sep ++ intercalate sep r
  end.

(** ** Lemmas: prefixes and splitting *)

Lemma strip_prefix_spec p s r : strip_prefix p s = Some r <-> s = p ++ r.
Proof.
  revert s. induction p as [|a p IH]; intros s; simpl.
  { split; congruence. }
  destruct s as [|b s]; [done|].
  destruct (Z.eqb_spec a b) as [->|Hne].
  - rewrite IH. split; congruence.
  - split; congruence.
Qed.

Lemma strip_prefix_app p s : strip_prefix p (p ++ s) = Some s.
Proof. by apply strip_prefix_spec. Qed.

Lemma starts_with_spec p s : starts_with p s = true <-> exists r, s = p ++ r.
Proof.
  unfold starts_with. destruct (strip_prefix p s) as [r|] eqn:H.
  - apply strip_prefix_spec in H. naive_solver.
  - split; [done|]. intros [r Hr]. apply strip_prefix_spec in Hr. congruence.
Qed.

Lemma strip_suffix_spec p s r : strip_suffix p s = Some r <-> s = r ++ p.
Proof.
  unfold strip_suffix. destruct (strip_prefix (reverse p) (reverse s)) as [t|] eqn:H.
  - apply strip_prefix_spec, (f_equal reverse) in H.
    rewrite reverse_app, !reverse_involutive in H. subst s. split.
    + congruence.
    + intros ->%app_inv_tail. done.
  - split; [done|]. intros ->. rewrite reverse_app, strip_prefix_app in H. done.
Qed.

Lemma strip_suffix_app p s : strip_suffix p (s ++ p) = Some s.
Proof. by apply strip_suffix_spec. Qed.

Lemma ends_with_spec p s : ends_with p s = true <-> exists r, s = r ++ p.
Proof.
  unfold ends_with. destruct (strip_suffix p s) as [r|] eqn:H.
  - apply strip_suffix_spec in H. naive_solver.
  - split; [done|]. intros [r Hr]. apply strip_suffix_spec in Hr. congruence.
Qed.

Lemma one_of_spec cs c : one_of cs c = true <-> c ∈ cs.
Proof.
  unfold one_of. rewrite existsb_exists, list_elem_of_In. setoid_rewrite Z.eqb_eq.
  split; [intros (x & Hx & ->); done|eauto].
Qed.

Lemma split_inclusive_concat f s : concat (split_inclusive f s) = s.
Proof.
  induction s as [|c r IH]; [done|]. simpl. destruct (f c); simpl; [by rewrite IH|].
  destruct (split_inclusive f r); simpl in *; by rewrite <-IH.
Qed.

(** A piece: no separator but possibly its last character. *)
Definition piece_ok (f : Z -> bool) (p : bytes) : Prop :=
  exists q c, p = q ++ [c] /\ Forall (fun x => f x = false) q.

Lemma split_inclusive_pieces f s : Forall (piece_ok f) (split_inclusive f s).
Proof.
  induction s as [|c r IH]; [constructor|]. simpl. destruct (f c) eqn:Hc.
  { constructor; [|done]. exists [], c. done. }
  destruct (split_inclusive f r) as [|p ps].
  { constructor; [|done]. exists [], c. done. }
  inversion IH as [|? ? (q & d & -> & Hq) Hps]; subst. constructor; [|done].
  exists (c :: q), d. split; [done|]. by constructor.
Qed.

(** A piece that begins with a separator is that one character. *)
Lemma piece_ok_sep f c p : piece_ok f (c :: p) -> f c = true -> p = [].
Proof.
  intros (q & d & Heq & Hq) Hc. destruct q as [|x q]; simplify_eq/=; [done|].
  apply Forall_cons in Hq as [Hx _]. congruence.
Qed.

(** The pieces of a run without separators followed by a separator. *)
Lemma split_inclusive_run f q c r :
  Forall (fun x => f x = false) q -> f c = true ->
  split_inclusive f (q ++ c :: r) = (q ++ [c]) :: split_inclusive f r.
Proof.
  intros Hq Hc. induction Hq as [|x q Hx _ IH]; simpl; [by rewrite Hc|].
  by rewrite Hx, IH.
Qed.

Lemma split_inclusive_run_end f q :
  Forall (fun x => f x = false) q -> q <> [] -> split_inclusive f q = [q].
Proof.
  intros Hq Hne. induction Hq as [|x q Hx Hq IH]; [done|]. simpl. rewrite Hx.
  destruct q; [done|]. rewrite IH; done.
Qed.

Lemma split_once_spec f s a b :
  split_once f s = Some (a, b) ->
  exists c, s = a ++ c :: b /\ f c = true /\ Forall (fun x => f x = false) a.
Proof.
  revert a. induction s as [|x s IH]; intros a; simpl; [done|].
  destruct (f x) eqn:Hx.
  { intros; simplify_eq. exists x. done. }
  destruct (split_once f s) as [[a' b']|] eqn:Hs; [|done]. intros; simplify_eq.
  destruct (IH a' eq_refl) as (c & -> & Hc & Ha). exists c. split_and!; [done..|].
  by constructor.
Qed.

Lemma split_once_run f a c b :
  Forall (fun x => f x = false) a -> f c = true ->
  split_once f (a ++ c :: b) = Some (a, b).
Proof.
  intros Ha Hc. induction Ha as [|x a Hx _ IH]; simpl; [by rewrite Hc|].
  by rewrite Hx, IH.
Qed.

Lemma split_once_None f s : Forall (fun x => f x = false) s -> split_once f s = None.
Proof. induction 1 as [|x s Hx _ IH]; simpl; [done|]. by rewrite Hx, IH. Qed.

Lemma ends_with_snoc a q b : ends_with [a] (q ++ [b]) = (a =? b).
Proof.
  destruct (Z.eqb_spec a b) as [->|Hne].
  - apply ends_with_spec. by exists q.
  - apply not_true_is_false. intros (r & Hr)%ends_with_spec.
    apply app_inj_tail in Hr as [_ ?]. done.
Qed.

Lemma ends_with_any_snoc cs q b : ends_with_any cs (q ++ [b]) = one_of cs b.
Proof. unfold ends_with_any. by rewrite last_snoc. Qed.

Lemma ends_with_strip p s : ends_with p s = true -> exists r, strip_suffix p s = Some r.
Proof. unfold ends_with. destruct (strip_suffix p s); eauto. done. Qed.

Lemma strip_suffix_nil s : strip_suffix [] s = Some s.
Proof. apply strip_suffix_spec. by rewrite app_nil_r. Qed.

(** A string is a run without the given characters and, if it does not end
    there, one of them and a rest. *)
Lemma span_run (f : Z -> bool) s : exists q rest,
  s = q ++ rest /\ Forall (fun x => f x = false) q /\
  (rest = [] \/ exists c r, rest = c :: r /\ f c = true).
Proof.
  induction s as [|c s (q & rest & -> & Hq & Hrest)]; [by exists [], []; eauto|].
  destruct (f c) eqn:Hc.
  - exists [], (c :: q ++ rest). split_and!; [done..|]. right. eauto.
  - exists (c :: q), rest. split_and!; [done|by constructor|done].
Qed.

(** ** Lemmas: UTF-8 *)

Lemma utf8_valid_app a b : utf8_valid a = true -> utf8_valid b = true ->
  utf8_valid (a ++ b) = true.
Proof.
  intros Ha Hb. remember (length a) as n eqn:Hn. revert a Hn Ha.
  induction n as [n IH] using (well_founded_induction lt_wf). intros a Hn Ha.
  destruct a as [|x r]; [done|]. simpl in Ha |- *.
  destruct (in_range 0 127 x). { eapply IH; [|done|done]. simpl in Hn; lia. }
  destruct r as [|c1 r1]; [done|]. simpl in Ha |- *.
  destruct (utf8_2 x c1). { eapply IH; [|done|done]. simpl in Hn; lia. }
  destruct r1 as [|c2 r2]; [done|]. simpl in Ha |- *.
  destruct (utf8_3_lead x c1 && utf8_cont c2).
  { eapply IH; [|done|done]. simpl in Hn; lia. }
  destruct r2 as [|c3 r3]; [done|]. simpl in Ha |- *.
  apply andb_prop in Ha as [-> Ha]. simpl.
  eapply IH; [|done|done]. simpl in Hn; lia.
Qed.

Definition ascii_ok (c : Z) : Prop := 0 <= c < 128.

Lemma in_range_spec lo hi b : in_range lo hi b = true <-> lo <= b <= hi.
Proof. unfold in_range. lia. Qed.

Lemma utf8_valid_ascii s : Forall ascii_ok s -> utf8_valid s = true.
Proof.
  induction 1 as [|c s Hc _ IH]; [done|]. simpl. unfold ascii_ok in Hc.
  replace (in_range 0 127 c) with true; [done|]. symmetry. apply in_range_spec. lia.
Qed.

Lemma chars_ascii_cons c s : ascii_ok c ->
  (forall d, head s = Some d -> utf8_cont d = false) -> chars (c :: s) = [c] :: chars s.
Proof.
  intros Hc Hs. simpl. destruct s as [|d s]; [done|]. specialize (Hs d eq_refl).
  simpl. destruct (chars s) as [|[|e es] rest]; simpl; [by rewrite Hs| |].
  - by rewrite Hs.
  - destruct (utf8_cont e); by rewrite Hs.
Qed.

Lemma chars_concat s : concat (chars s) = s.
Proof.
  induction s as [|b r IH]; [done|]. simpl. destruct (chars r) as [|[|c cs] rest] eqn:Hr; simpl in *.
  - by rewrite <-IH.
  - by rewrite <-IH.
  - destruct (utf8_cont c); simpl; by rewrite <-IH.
Qed.

Lemma chars_head b s : exists cs rest, chars (b :: s) = (b :: cs) :: rest.
Proof.
  simpl. destruct (chars s) as [|[|c cs] rest]; eauto. destruct (utf8_cont c); eauto.
Qed.

(** [trim_start] leaves a string alone whose first byte is no white space. *)
Lemma trim_start_id b s :
  (forall cs, is_whitespace (b :: cs) = false) -> trim_start (b :: s) = b :: s.
Proof.
  intros Hb. unfold trim_start. destruct (chars_head b s) as (cs & rest & Hc).
  rewrite Hc. simpl. rewrite Hb. change (concat ((b :: cs) :: rest) = b :: s).
  by rewrite <-Hc, chars_concat.
Qed.

(** A byte no white space character starts with. *)
Definition not_space_byte (b : Z) : bool :=
  negb (one_of [0x09; 0x0A; 0x0B; 0x0C; 0x0D; 0x20; 0xC2; 0xE1; 0xE2; 0xE3] b).

Lemma not_space_byte_spec b cs : not_space_byte b = true -> is_whitespace (b :: cs) = false.
Proof.
  intros Hb. apply bool_decide_eq_false. intros Hin. unfold not_space_byte in Hb.
  unfold white_space in Hin.
  repeat (apply elem_of_cons in Hin as [Hin|Hin]; [injection Hin as -> _; done|]).
  by apply elem_of_nil in Hin.
Qed.

Lemma in_range_not lo hi b : ~ (lo <= b <= hi) -> in_range lo hi b = false.
Proof. unfold in_range. lia. Qed.

(** ** Lemmas: integers *)

(** The number a list of digits denotes. *)
Definition undigits (radix : Z) (acc : Z) (l : list Z) : Z :=
  foldl (fun a d => a * radix + d) acc l.

Lemma undigits_app radix acc l1 l2 :
  undigits radix acc (l1 ++ l2) = undigits radix (undigits radix acc l1) l2.
Proof. unfold undigits. by rewrite foldl_app. Qed.

Lemma undigits_zeros radix n l : undigits radix 0 (replicate n 0 ++ l) = undigits radix 0 l.
Proof. rewrite undigits_app. f_equal. induction n; simpl; [done|]. done. Qed.

Lemma digits_aux_undigits fuel radix n acc :
  2 <= radix -> 0 <= n < radix ^ Z.of_nat fuel ->
  undigits radix 0 (digits_aux fuel radix n acc) = undigits radix n acc.
Proof.
  intros Hr. revert n acc. induction fuel as [|f IH]; intros n acc Hn.
  { simpl in *. f_equal. lia. }
  simpl. zbool; [done|]. rewrite IH.
  - simpl. f_equal. pose proof (Z.div_mod n radix). lia.
  - rewrite Nat2Z.inj_succ, Z.pow_succ_r in Hn by lia.
    split; [apply Z.div_pos; lia|]. apply Z.div_lt_upper_bound; lia.
Qed.

Lemma digits_aux_range fuel radix n acc :
  2 <= radix -> 0 <= n -> Forall (fun d => 0 <= d < radix) acc ->
  Forall (fun d => 0 <= d < radix) (digits_aux fuel radix n acc).
Proof.
  intros Hr. revert n acc. induction fuel as [|f IH]; intros n acc Hn Hacc; [done|].
  simpl. zbool; [constructor; [lia|done]|].
  apply IH; [apply Z.div_pos; lia|]. constructor; [|done]. apply Z.mod_pos_bound. lia.
Qed.

Lemma digits_aux_length fuel radix n acc (w : nat) :
  2 <= radix -> 0 <= n < radix ^ Z.of_nat w -> (1 <= w)%nat ->
  (length (digits_aux fuel radix n acc) <= w + length acc)%nat.
Proof.
  intros Hr. revert n acc w. induction fuel as [|f IH]; intros n acc w Hn Hw; simpl; [lia|].
  zbool; [simpl; lia|].
  destruct w as [|[|w]]; [lia| |].
  { simpl Z.of_nat in Hn. rewrite Z.pow_1_r in Hn. lia. }
  etrans; [apply (IH _ _ (S w)); [|lia]|simpl; lia].
  rewrite (Nat2Z.inj_succ (S w)), Z.pow_succ_r in Hn by lia.
  split; [apply Z.div_pos; lia|]. apply Z.div_lt_upper_bound; lia.
Qed.

Lemma digits_fuel radix n :
  2 <= radix -> 0 <= n -> n < radix ^ Z.of_nat (S (Z.to_nat (Z.log2 n))).
Proof.
  intros Hr Hn. rewrite Nat2Z.inj_succ, Z2Nat.id by apply Z.log2_nonneg.
  destruct (Z.eq_dec n 0) as [->|Hz].
  { simpl. lia. }
  pose proof (Z.log2_spec n). apply Z.lt_le_trans with (2 ^ Z.succ (Z.log2 n)); [lia|].
  apply Z.pow_le_mono_l. lia.
Qed.

Lemma digits_undigits radix n : 2 <= radix -> 0 <= n -> undigits radix 0 (digits radix n) = n.
Proof.
  intros. unfold digits. rewrite digits_aux_undigits; [done|done|].
  split; [done|by apply digits_fuel].
Qed.

Lemma digits_range radix n :
  2 <= radix -> 0 <= n -> Forall (fun d => 0 <= d < radix) (digits radix n).
Proof. intros. by apply digits_aux_range. Qed.

Lemma digits_length radix n w :
  2 <= radix -> 0 <= n < radix ^ Z.of_nat w -> (1 <= w)%nat ->
  (length (digits radix n) <= w)%nat.
Proof.
  intros. unfold digits. etrans; [apply (digits_aux_length _ _ _ _ w); done|simpl; lia].
Qed.

Lemma digits_aux_nonempty fuel radix n acc :
  acc <> [] -> digits_aux fuel radix n acc <> [].
Proof.
  revert n acc. induction fuel as [|f IH]; intros n acc Hacc; simpl; [done|].
  zbool; [done|]. by apply IH.
Qed.

Lemma digits_nonempty radix n : digits radix n <> [].
Proof. unfold digits. simpl. zbool; [done|]. by apply digits_aux_nonempty. Qed.

Lemma to_digit_char up radix d :
  2 <= radix <= 36 -> 0 <= d < radix -> to_digit radix (digit_char up d) = Some d.
Proof.
  intros Hr Hd. unfold to_digit, digit_char, in_range.
  destruct (Z.ltb_spec d 10); destruct up;
    repeat match goal with |- context [(?a <=? ?b) && (?c <=? ?e)] =>
      first [ replace ((a <=? b) && (c <=? e)) with true by lia
            | replace ((a <=? b) && (c <=? e)) with false by lia ]
    end; cbv zeta iota;
    match goal with |- context [?a <? radix] => replace (a <? radix) with true by lia end;
    f_equal; lia.
Qed.

Lemma undigits_ge radix acc l :
  2 <= radix -> 0 <= acc -> Forall (fun d => 0 <= d < radix) l -> acc <= undigits radix acc l.
Proof.
  intros Hr Hacc Hl. revert acc Hacc. induction Hl as [|d l Hd _ IH]; intros acc Hacc; [done|].
  simpl. etrans; [|apply IH]; nia.
Qed.

Lemma from_digits_chars up radix max acc l :
  2 <= radix <= 36 -> 0 <= acc -> Forall (fun d => 0 <= d < radix) l ->
  undigits radix acc l <= max ->
  from_digits radix max acc (digit_char up <$> l) = Some (undigits radix acc l).
Proof.
  intros Hr Hacc Hl. revert acc Hacc.
  induction Hl as [|d l Hd Hl IH]; intros acc Hacc Hmax; [done|].
  simpl. rewrite to_digit_char by lia. cbv zeta. simpl in Hmax.
  pose proof (undigits_ge radix (acc * radix + d) l). 
  replace (_ <=? max) with true.
  - apply IH; [nia|done].
  - symmetry. apply Z.leb_le. etrans; [|exact Hmax]. apply undigits_ge; [lia|nia|done].
Qed.

Lemma digit_char_range up d : 0 <= d < 36 ->
  48 <= digit_char up d <= 122 /\ digit_char up d <> 43 /\ digit_char up d <> 45.
Proof. unfold digit_char. intros. destruct up; zbool; lia. Qed.

(** A digit string parses to its number: no sign character can be mistaken. *)
Lemma from_str_radix_digits up radix max l :
  2 <= radix <= 36 -> Forall (fun d => 0 <= d < radix) l -> l <> [] ->
  undigits radix 0 l <= max ->
  from_str_radix radix max (digit_char up <$> l) = Some (undigits radix 0 l).
Proof.
  intros Hr Hl Hne Hmax. rewrite <-(from_digits_chars up radix max 0) by (lia || done).
  destruct l as [|d l]; [done|]. apply Forall_cons in Hl as [Hd _].
  destruct (digit_char_range up d) as (H1 & H2 & H3); [lia|].
  unfold from_str_radix. rewrite fmap_cons. destruct (digit_char up <$> l) eqn:E.
  - replace (one_of _ _) with false; [done|]. unfold one_of. simpl.
    by rewrite !(proj2 (Z.eqb_neq _ _)) by done.
  - by rewrite (proj2 (Z.eqb_neq _ _)) by done.
Qed.

Lemma pad_left_digits up width l :
  pad_left 48 width (digit_char up <$> l)
  = digit_char up <$> (replicate (width - length l) 0 ++ l).
Proof.
  unfold pad_left. rewrite fmap_app, length_fmap. f_equal.
  by rewrite fmap_replicate.
Qed.

(** [uN::from_str_radix] reads back what the zero padded formats print. *)
Lemma from_str_radix_fmt up radix max width n :
  2 <= radix <= 36 -> 0 <= n <= max ->
  from_str_radix radix max (pad_left 48 width (digit_char up <$> digits radix n)) = Some n.
Proof.
  intros Hr Hn. rewrite pad_left_digits, from_str_radix_digits; [|done| | |].
  - by rewrite undigits_zeros, digits_undigits by lia.
  - apply Forall_app_2; [apply Forall_replicate; lia|apply digits_range; lia].
  - intros [_ H]%app_nil. by eapply digits_nonempty.
  - rewrite undigits_zeros, digits_undigits by lia. lia.
Qed.

Lemma from_str_radix_fmt_HEX max width n :
  0 <= n <= max -> from_str_radix 16 max (fmt_HEX width n) = Some n.
Proof. intros. apply from_str_radix_fmt; lia. Qed.

Lemma parse_u64_fmt_dec0 width n : 0 <= n <= U64_MAX -> parse_u64 (fmt_dec0 width n) = Some n.
Proof. intros. apply from_str_radix_fmt; lia. Qed.

Lemma length_pad_left c width s : (length s <= width)%nat -> length (pad_left c width s) = width.
Proof. intros. unfold pad_left. rewrite length_app, length_replicate. lia. Qed.

Lemma length_fmt_HEX8 n : u32_ok n -> length (fmt_HEX 8 n) = 8%nat.
Proof.
  intros Hn. apply length_pad_left. rewrite length_fmap. apply digits_length; [lia| |lia].
  exact Hn.
Qed.

Lemma fmt_HEX_chars width n : 0 <= n -> Forall (fun c => 48 <= c <= 122) (fmt_HEX width n).
Proof.
  intros Hn. unfold fmt_HEX. rewrite pad_left_digits. apply Forall_fmap.
  apply Forall_app_2; [apply Forall_replicate; unfold compose, digit_char; simpl; lia|].
  eapply Forall_impl; [apply (digits_range 16); lia|].
  intros d Hd. simpl in Hd. destruct (digit_char_range true d) as [? _]; [lia|]. simpl. lia.
Qed.

(** A parsed number is in range. *)
Lemma from_digits_range radix max acc s n :
  0 <= radix -> from_digits radix max acc s = Some n -> 0 <= acc <= max -> 0 <= n <= max.
Proof.
  intros Hr. revert acc. induction s as [|c s IH]; intros acc; simpl; [by intros [= <-]|].
  destruct (to_digit radix c) as [d|] eqn:Hd; [|done].
  assert (0 <= d).
  { revert Hd. unfold to_digit, in_range. repeat case_match; intros; simplify_eq; lia. }
  destruct (Z.leb_spec (acc * radix + d) max); [|done]. intros Hn Hacc. apply (IH _ Hn). nia.
Qed.

Lemma from_str_radix_range radix max s n :
  0 <= radix -> 0 <= max -> from_str_radix radix max s = Some n -> 0 <= n <= max.
Proof.
  intros Hr Hm Hs. unfold from_str_radix in Hs. destruct s as [|c [|c' s]]; [done| |].
  - destruct (one_of _ _); [done|]. by apply (from_digits_range radix max 0 _ _ Hr Hs).
  - destruct (c =? 43); by apply (from_digits_range radix max 0 _ _ Hr Hs).
Qed.

(** ** Printed numbers *)

Lemma parse_u32_fmt_dec n : u32_ok n -> parse_u32 (fmt_dec n) = Some n.
Proof. intros Hn. apply from_str_radix_fmt; unfold u32_ok, U32_MAX in *; lia. Qed.

Lemma fmt_dec0_digits width n : 0 <= n -> Forall (fun c => 48 <= c <= 57) (fmt_dec0 width n).
Proof.
  intros Hn. unfold fmt_dec0. rewrite pad_left_digits. apply Forall_fmap.
  apply Forall_app_2; [apply Forall_replicate; unfold digit_char; simpl; lia|].
  eapply Forall_impl; [apply (digits_range 10); lia|]. intros d Hd. simpl in Hd.
  unfold compose, digit_char. cbn [negb].
  destruct (Z.ltb_spec d 10); lia.
Qed.

Lemma fmt_dec_digits n : 0 <= n -> Forall (fun c => 48 <= c <= 57) (fmt_dec n).
Proof. apply fmt_dec0_digits. Qed.

Lemma fmt_dec_cons n : 0 <= n -> exists c r, fmt_dec n = c :: r /\ 48 <= c <= 57.
Proof.
  intros Hn. pose proof (fmt_dec_digits n Hn) as Hd. destruct (fmt_dec n) as [|c r] eqn:Hf.
  - unfold fmt_dec, fmt_dec0, pad_left in Hf. apply app_eq_nil in Hf as [_ Hf].
    apply fmap_nil_inv in Hf. by apply digits_nonempty in Hf.
  - exists c, r. split; [done|]. by apply Forall_cons in Hd as [? _].
Qed.

Lemma fmt_dec_ascii n : 0 <= n -> Forall ascii_ok (fmt_dec n).
Proof. intros Hn. eapply Forall_impl; [by apply fmt_dec_digits|]. unfold ascii_ok. simpl. lia. Qed.

Lemma fmt_dec_not_nil n : 0 <= n -> fmt_dec n <> [].
Proof. intros Hn. by destruct (fmt_dec_cons n Hn) as (c & r & -> & _). Qed.

Lemma fmt_hex_chars w n : 0 <= n -> Forall (fun c => 48 <= c <= 102) (fmt_hex w n).
Proof.
  intros Hn. unfold fmt_hex. rewrite pad_left_digits. apply Forall_fmap.
  apply Forall_app_2; [apply Forall_replicate; unfold compose, digit_char; simpl; lia|].
  eapply Forall_impl; [apply (digits_range 16); lia|]. intros d Hd. simpl in Hd.
  unfold compose, digit_char. destruct (Z.ltb_spec d 10); lia.
Qed.
