(* ===== verification/RustWords.v ===== *)
(** * Words of a string

    Lemmas on [split_whitespace] and [trim] that the parsers of the module
    database, the kernel command line and the QEMU arguments share. *)

From S2P Require Import Prelude RustStr.

(** ** Characters of a concatenation *)

(** A string that does not begin in the middle of a character. *)
Definition starts_char (s : bytes) : Prop := forall d, head s = Some d -> utf8_cont d = false.

Lemma chars_cons_start b t : starts_char t -> chars (b :: t) = [b] :: chars t.
Proof.
  intros Ht. destruct t as [|c t]; [done|]. specialize (Ht c eq_refl).
  destruct (chars_head c t) as (cs & rest & Hc). cbn [chars]. cbn [chars] in Hc.
  by rewrite Hc, Ht.
Qed.

Lemma chars_app s t : starts_char t -> chars (s ++ t) = chars s ++ chars t.
Proof.
  intros Ht. induction s as [|b s IH]; [done|]. destruct s as [|x s].
  { by apply chars_cons_start. }
  destruct (chars_head x s) as (cs & rest & Hc).
  change (match chars ((x :: s) ++ t) with
          | (c :: cs) :: rest => if utf8_cont c then (b :: c :: cs) :: rest
                                 else [b] :: (c :: cs) :: rest
          | rest => [b] :: rest end
          = match chars (x :: s) with
          | (c :: cs) :: rest => if utf8_cont c then (b :: c :: cs) :: rest
                                 else [b] :: (c :: cs) :: rest
          | rest => [b] :: rest end ++ chars t).
  rewrite IH, Hc. simpl. by destruct (utf8_cont x).
Qed.

(** A part of the characters of a string has these characters itself. *)
Lemma chars_concat_suffix s l1 l2 : chars s = l1 ++ l2 -> chars (concat l2) = l2.
Proof.
  revert l1. induction s as [|b r IH]; intros l1 H.
  { symmetry in H. by apply app_nil in H as [-> ->]. }
  destruct l1 as [|x l1]; [cbn [app] in H; by rewrite <-H, chars_concat|].
  simpl in H. destruct (chars r) as [|[|c cs] rest] eqn:Hr.
  - injection H as _ H. symmetry in H. by apply app_nil in H as [_ ->].
  - apply (IH l1). by injection H.
  - destruct (utf8_cont c).
    + apply (IH ((c :: cs) :: l1)). injection H as _ ->. done.
    + apply (IH l1). by injection H.
Qed.

Lemma chars_concat_prefix s l1 l2 : chars s = l1 ++ l2 -> chars (concat l1) = l1.
Proof.
  revert l1. induction s as [|b r IH]; intros l1 H.
  { symmetry in H. by apply app_nil in H as [-> ->]. }
  destruct l1 as [|x l1]; [done|]. simpl in H.
  destruct r as [|c0 r].
  { simpl in H. injection H as <- H. symmetry in H. by apply app_nil in H as [-> ->]. }
  destruct (chars_head c0 r) as (cs & rest & Hr). rewrite Hr in *. cbn [chars] in *.
  destruct (utf8_cont c0) eqn:Hc; injection H as <- H.
  - specialize (IH ((c0 :: cs) :: l1)). simpl in IH. rewrite H in IH. specialize (IH eq_refl).
    simpl. cbn [chars] in IH. rewrite IH. by rewrite Hc.
  - simpl. specialize (IH l1 H). destruct l1 as [|y l1]; [done|].
    injection H as <- H. change (chars ([b] ++ concat ((c0 :: cs) :: l1)) = [b] :: (c0 :: cs) :: l1).
    rewrite chars_app; [by rewrite IH|]. by intros d [= <-].
Qed.

(** ** Words *)

Lemma words_nonempty cs : words cs <> [].
Proof. destruct cs as [|c cs]; [done|]. simpl. destruct (is_whitespace c); [done|]. by destruct (words cs). Qed.

Lemma words_app_space a sp b : is_whitespace sp = true -> words (a ++ sp :: b) = words a ++ words b.
Proof.
  intros Hs. induction a as [|c a IH]; simpl; [by rewrite Hs|]. rewrite IH.
  destruct (is_whitespace c); [done|]. pose proof (words_nonempty a).
  by destruct (words a).
Qed.

Lemma words_run cs : Forall (fun c => is_whitespace c = false) cs -> words cs = [concat cs].
Proof. induction 1 as [|c cs Hc _ IH]; [done|]. simpl. by rewrite Hc, IH. Qed.

Definition space_char (c : bytes) : Prop := is_whitespace c = true.

Lemma words_drop_start cs :
  List.filter nonempty (words (drop_while is_whitespace cs)) = List.filter nonempty (words cs).
Proof.
  induction cs as [|c cs IH]; [done|]. simpl. destruct (is_whitespace c) eqn:Hc; [done|].
  simpl. by rewrite Hc.
Qed.

Lemma words_drop_end cs :
  List.filter nonempty (words (reverse (drop_while is_whitespace (reverse cs))))
  = List.filter nonempty (words cs).
Proof.
  induction cs as [|c cs IH] using rev_ind; [done|]. rewrite reverse_snoc. simpl.
  destruct (is_whitespace c) eqn:Hc.
  - rewrite IH, words_app_space by done. rewrite List.filter_app. simpl. by rewrite app_nil_r.
  - by rewrite reverse_cons, reverse_involutive.
Qed.

Lemma drop_while_suffix {A} (f : A -> bool) l : exists l1, l = l1 ++ drop_while f l.
Proof.
  induction l as [|x l [l1 IH]]; [by exists []|]. simpl. destruct (f x); [|by exists []].
  exists (x :: l1). simpl. by f_equal.
Qed.

(** Trimming does not change the words. *)
Lemma split_whitespace_trim s : split_whitespace (trim s) = split_whitespace s.
Proof.
  unfold split_whitespace, trim, trim_end, trim_start.
  destruct (drop_while_suffix is_whitespace (chars s)) as [l1 Hl].
  pose proof (chars_concat_suffix _ _ _ Hl) as Hc. rewrite Hc.
  set (cs := drop_while is_whitespace (chars s)) in *.
  destruct (drop_while_suffix is_whitespace (reverse cs)) as [l2 Hl2].
  apply (f_equal reverse) in Hl2. rewrite reverse_involutive, reverse_app in Hl2.
  rewrite Hl2 in Hc at 2. rewrite (chars_concat_prefix _ _ _ Hc).
  rewrite words_drop_end. unfold cs. apply words_drop_start.
Qed.

(** ** Strings without white space *)

(** A word: not empty, no white space, not beginning within a character. *)
Definition word (s : bytes) : Prop :=
  s <> [] /\ Forall (fun b => not_space_byte b = true) s /\ starts_char s.

Lemma word_chars s : Forall (fun b => not_space_byte b = true) s ->
  Forall (fun c => is_whitespace c = false) (chars s).
Proof.
  induction 1 as [|b s Hb _ IH]; [done|]. destruct s as [|c s].
  { constructor; [|done]. by apply not_space_byte_spec. }
  destruct (chars_head c s) as (cs & rest & Hc). rewrite Hc in IH.
  apply Forall_cons in IH as [Hcs IH].
  change (Forall (fun c => is_whitespace c = false) (match chars (c :: s) with
          | (c :: cs) :: rest => if utf8_cont c then (b :: c :: cs) :: rest
                                 else [b] :: (c :: cs) :: rest
          | rest => [b] :: rest end)).
  rewrite Hc. destruct (utf8_cont c); repeat (apply Forall_cons; split); try done;
    by apply not_space_byte_spec.
Qed.

Lemma split_whitespace_word s : word s -> split_whitespace s = [s].
Proof.
  intros (Hne & Hs & _). unfold split_whitespace.
  rewrite words_run by (by apply word_chars). rewrite chars_concat. by destruct s.
Qed.

Lemma trim_word s : word s -> trim s = s.
Proof.
  intros (Hne & Hs & _). apply word_chars in Hs. unfold trim, trim_end, trim_start.
  assert (forall l, Forall (fun c => is_whitespace c = false) l -> drop_while is_whitespace l = l) as Hd.
  { intros l Hl. destruct Hl as [|c l Hc _]; [done|]. simpl. by rewrite Hc. }
  rewrite (Hd (chars s)), chars_concat by done.
  rewrite (Hd (reverse (chars s))) by (by apply Forall_reverse).
  by rewrite reverse_involutive, chars_concat.
Qed.


Lemma split_whitespace_space s t : starts_char t ->
  split_whitespace (s ++ SPACE :: t) = split_whitespace s ++ split_whitespace t.
Proof.
  intros Ht. unfold split_whitespace. rewrite chars_app by (by intros d [= <-]).
  rewrite chars_cons_start by done. rewrite words_app_space by done. apply List.filter_app.
Qed.

(** A final newline is no word. *)
Lemma split_whitespace_newline s : split_whitespace (s ++ [10]) = split_whitespace s.
Proof.
  unfold split_whitespace. rewrite chars_app by (by intros d [= <-]).
  change (chars [10]) with [[10]]. rewrite words_app_space by done. rewrite List.filter_app.
  simpl. by rewrite app_nil_r.
Qed.

(** The words of a line " w1 w2 ... ", and of "w0 w1 w2 ...". *)
Definition spaced (ws : list bytes) : bytes := concat ((fun w => SPACE :: w) <$> ws).

Lemma split_whitespace_spaced s ws : Forall word ws ->
  split_whitespace (s ++ spaced ws) = split_whitespace s ++ ws.
Proof.
  intros Hws. revert s. induction Hws as [|w ws Hw Hws IH]; intros s.
  { unfold spaced. simpl. by rewrite !app_nil_r. }
  change (s ++ spaced (w :: ws)) with (s ++ SPACE :: w ++ spaced ws).
  replace (s ++ SPACE :: w ++ spaced ws) with ((s ++ SPACE :: w) ++ spaced ws)
    by by rewrite <-app_assoc.
  rewrite IH, split_whitespace_space by apply Hw. rewrite (split_whitespace_word w) by done.
  by rewrite <-app_assoc.
Qed.

Lemma spaced_snoc ws w : spaced (ws ++ [w]) = spaced ws ++ SPACE :: w.
Proof. unfold spaced. rewrite fmap_app, concat_app. simpl. by rewrite app_nil_r. Qed.

Lemma last_app_word {A} (s w : list A) : w <> [] -> last (s ++ w) = last w.
Proof. intros Hw. rewrite last_app. destruct w as [|x w _] using rev_ind; [done|]. by rewrite last_snoc. Qed.

#[export] Hint Resolve trim_word split_whitespace_word : rapido.
