(* ===== verification/RustPath.v ===== *)
(** * The part of Rust's [std::path] (on Unix) the program uses

    A [Path] or [PathBuf] is its bytes. [components] is the normalised view that
    Rust's path equality and hashing use, so a [HashSet<PathBuf>] is modelled as
    a set of component lists ([path_key]). The operations that return a
    sub-path ([parent], [strip_prefix]) return bytes of the original. *)

From S2P Require Import Prelude RustStr.

Abbreviation path := (list Z).

Definition SEP : Z := 47.
Definition is_sep (c : Z) : bool := c =? SEP.

Inductive Component :=
  | RootDir
  | CurDir
  | ParentDir
  | Normal (name : bytes).

#[export] Instance Component_eq_dec : EqDecision Component.
Proof. solve_decision. Defined.

#[export] Instance Component_countable : Countable Component.
Proof.
  refine (inj_countable'
    (fun c => match c with RootDir => inl 0 | CurDir => inl 1 | ParentDir => inl 2
                         | Normal n => inr n end)
    (fun s => match s with inl 0 => RootDir | inl 1 => CurDir | inl _ => ParentDir
                         | inr n => Normal n end) _).
  by intros [].
Defined.

Definition is_absolute (p : path) : bool := starts_with_any [SEP] p.

(** a segment between separators that is no component *)
Definition skip_seg (s : bytes) : bool := bool_decide (s = [] \/ s = B ".").

Definition seg_component (s : bytes) : list Component :=
  if skip_seg s then [] else if bool_decide (s = B "..") then [ParentDir] else [Normal s].

(** what precedes the body ("/", "." or nothing) and the body's segments *)
Definition split_body (p : path) : bytes * list bytes :=
  match p with
  | c :: r =>
      if is_sep c then ([SEP], split is_sep r)
      else match split is_sep p with
           | s :: _ => if bool_decide (s = B ".") then (B ".", split is_sep r)
                       else ([], split is_sep p)
           | [] => ([], [])
           end
  | [] => ([], [])
  end.

(** [Path::components] *)
Definition components (p : path) : list Component :=
  let '(pre, segs) := split_body p in
  (if bool_decide (pre = [SEP]) then [RootDir]
   else if bool_decide (pre = B ".") then [CurDir] else [])
  ++ concat (seg_component <$> segs).

(** the identity of a path as a key of a hash set *)
Definition path_key (p : path) : list Component := components p.

Fixpoint join_segs (l : list bytes) : bytes :=
  match l with
  | [] => []
  | [s] => s
  | s :: r => s ++ SEP :: join_segs r
  end.

Definition trim_left_segs (l : list bytes) : list bytes := drop_while skip_seg l.
Definition trim_right_segs (l : list bytes) : list bytes :=
  reverse (drop_while skip_seg (reverse l)).

(** [Path::parent] *)
Definition parent (p : path) : option path :=
  let '(pre, segs) := split_body p in
  match trim_right_segs segs with
  | [] => if bool_decide (pre = B ".") then Some [] else None
  | segs' => Some (pre ++ join_segs (trim_right_segs (removelast segs')))
  end.

(** [Path::file_name] *)
Definition file_name (p : path) : option bytes :=
  match last (trim_right_segs (snd (split_body p))) with
  | Some s => if bool_decide (s = B "..") then None else Some s
  | None => None
  end.

Definition DOT : Z := 46.
Definition is_dot (c : Z) : bool := c =? DOT.

(** [Path::file_stem]: the file name without its last extension *)
Definition file_stem (p : path) : option bytes :=
  match file_name p with
  | None => None
  | Some n => match rsplit_once is_dot n with
              | Some ([], _) => Some n
              | Some (stem, _) => Some stem
              | None => Some n
              end
  end.

(** [Path::extension] *)
Definition extension (p : path) : option bytes :=
  match file_name p with
  | None => None
  | Some n => match rsplit_once is_dot n with
              | Some ([], _) => None
              | Some (_, ext) => Some ext
              | None => None
              end
  end.

(** [Path::strip_prefix("/")] *)
Definition strip_root (p : path) : option path :=
  match split_body p with
  | (pre, segs) =>
      if bool_decide (pre = [SEP])
      then Some (join_segs (trim_left_segs (trim_right_segs segs))) else None
  end.

(** [Path::strip_prefix("./")] and [strip_prefix(".")]: one [CurDir] component *)
Definition strip_curdir (p : path) : option path :=
  match split_body p with
  | (pre, segs) =>
      if bool_decide (pre = B ".")
      then Some (join_segs (trim_left_segs (trim_right_segs segs))) else None
  end.

(** [PathBuf::push]; [join] is [push] on a copy. *)
Definition push (base p : path) : path :=
  if is_absolute p then p
  else match last base with
       | None => p
       | Some c => if is_sep c then base ++ p else base ++ SEP :: p
       end.
Abbreviation join := push.

(** [PathBuf::pop] *)
Definition pop (p : path) : option path := parent p.

Definition component_os_str (c : Component) : bytes :=
  match c with
  | RootDir => [SEP]
  | CurDir => B "."
  | ParentDir => B ".."
  | Normal n => n
  end.

(** [std::path::absolute]; [cwd] is the current directory. *)
Definition absolute (cwd p : path) : io path :=
  if bool_decide (p = []) then Err (err_from InvalidInput)
  else
    let cs := components (match strip_curdir p with Some q => q | None => p end) in
    let '(base, cs') :=
      if is_absolute p then
        if starts_with (B "//") p && negb (starts_with (B "///") p)
        then (B "//", tail cs) else ([], cs)
      else (cwd, cs) in
    let n := foldl (fun acc c => push acc (component_os_str c)) base cs' in
    Ok (if ends_with [SEP] p then push n [] else n).

(** [Ord] of [OsString]: lexicographic on bytes *)
Fixpoint bytes_leb (a b : bytes) : bool :=
  match a, b with
  | [], _ => true
  | _ :: _, [] => false
  | x :: a', y :: b' => if x <? y then true else if x =? y then bytes_leb a' b' else false
  end.

(** ** Plain file names and normalised absolute paths *)

(** A name that is one [Normal] component. *)
Definition plain_name (n : bytes) : Prop :=
  n <> [] /\ n <> B "." /\ n <> B ".." /\ Forall (fun c => is_sep c = false) n.

(** "/a/b/c" *)
Definition render (ns : list bytes) : path := SEP :: join_segs ns.

Lemma split_run f s : Forall (fun c => f c = false) s -> split f s = [s].
Proof. induction 1 as [|c s Hc _ IH]; [done|]. simpl. by rewrite Hc, IH. Qed.

Lemma split_app_sep f s c r :
  Forall (fun c => f c = false) s -> f c = true -> split f (s ++ c :: r) = s :: split f r.
Proof.
  intros Hs Hc. induction Hs as [|x s Hx _ IH]; simpl; [by rewrite Hc|]. by rewrite Hx, IH.
Qed.

Lemma split_join_segs ns :
  ns <> [] -> Forall plain_name ns -> split is_sep (join_segs ns) = ns.
Proof.
  intros Hne Hns. induction Hns as [|n ns (_ & _ & _ & Hn) Hns IH]; [done|].
  destruct ns as [|m ns]; simpl.
  { by apply split_run. }
  rewrite split_app_sep by done. f_equal. by apply IH.
Qed.

Lemma plain_name_seg n : plain_name n -> skip_seg n = false.
Proof.
  intros (? & ? & _). unfold skip_seg. apply bool_decide_eq_false. by intros [|].
Qed.

Lemma plain_name_component n : plain_name n -> seg_component n = [Normal n].
Proof.
  intros Hn. unfold seg_component. rewrite plain_name_seg by done.
  destruct Hn as (_ & _ & ? & _). by rewrite bool_decide_eq_false_2.
Qed.

Lemma split_body_render ns : ns <> [] -> Forall plain_name ns ->
  split_body (render ns) = ([SEP], ns).
Proof.
  intros. unfold split_body, render. change (is_sep SEP) with true. simpl.
  by rewrite split_join_segs.
Qed.

Lemma components_render ns : Forall plain_name ns ->
  components (render ns) = RootDir :: (Normal <$> ns).
Proof.
  intros Hns. destruct ns as [|n ns]; [done|].
  unfold components. rewrite split_body_render by done.
  rewrite bool_decide_eq_true_2 by done. simpl. f_equal.
  revert n Hns. induction ns as [|m ns IH]; intros n Hns; apply Forall_cons in Hns as [Hn Hns];
    simpl; rewrite plain_name_component by done; [done|]. simpl. f_equal. by apply IH.
Qed.

Lemma render_inj ns ms : Forall plain_name ns -> Forall plain_name ms ->
  components (render ns) = components (render ms) -> ns = ms.
Proof.
  intros Hn Hm. rewrite !components_render by done. intros [= H].
  revert H. apply list_fmap_eq_inj. by intros ? ? [= ->].
Qed.

Lemma join_segs_snoc ns n : ns <> [] -> join_segs (ns ++ [n]) = join_segs ns ++ SEP :: n.
Proof.
  intros Hne. induction ns as [|m ns IH]; [done|]. destruct ns as [|k ns]; [done|].
  change (m ++ SEP :: join_segs ((k :: ns) ++ [n]) = (m ++ SEP :: join_segs (k :: ns)) ++ SEP :: n).
  rewrite IH by done. by rewrite <-app_assoc.
Qed.

Lemma last_join_segs ns : ns <> [] -> Forall plain_name ns ->
  exists c, last (SEP :: join_segs ns) = Some c /\ is_sep c = false.
Proof.
  intros Hne Hns. destruct ns as [|n ns _] using rev_ind; [done|].
  apply Forall_app in Hns as [_ Hn]. apply Forall_singleton in Hn as (Hn0 & _ & _ & Hsep).
  destruct n as [|c n _] using rev_ind; [done|].
  apply Forall_app in Hsep as [_ Hc]. apply Forall_cons in Hc as [Hc _].
  exists c. split; [|exact Hc]. destruct ns as [|m ns].
  - simpl join_segs. change (SEP :: n ++ [c]) with ((SEP :: n) ++ [c]). by rewrite last_snoc.
  - rewrite join_segs_snoc by done.
    change (SEP :: join_segs (m :: ns) ++ SEP :: n ++ [c])
      with ((SEP :: join_segs (m :: ns)) ++ (SEP :: n) ++ [c]).
    by rewrite app_assoc, last_snoc.
Qed.

Lemma plain_name_relative n : plain_name n -> is_absolute n = false.
Proof.
  intros (_ & _ & _ & Hn). destruct n as [|c n]; [done|]. apply Forall_cons in Hn as [Hc _].
  unfold is_absolute, starts_with_any, one_of. simpl. unfold is_sep in Hc. by rewrite Hc.
Qed.

Lemma push_render ns n : Forall plain_name ns -> plain_name n ->
  push (render ns) n = render (ns ++ [n]).
Proof.
  intros Hns Hn. unfold push. rewrite plain_name_relative by done.
  destruct ns as [|m ns]; [done|].
  destruct (last_join_segs (m :: ns)) as (c & Hl & Hc); [done..|].
  unfold render. rewrite Hl, Hc, join_segs_snoc by done. done.
Qed.

Lemma trim_right_plain ns : Forall plain_name ns -> trim_right_segs ns = ns.
Proof.
  intros Hns. unfold trim_right_segs. destruct ns as [|n ns _] using rev_ind; [done|].
  rewrite reverse_snoc. simpl. apply Forall_app in Hns as [_ Hn].
  apply Forall_cons in Hn as [Hn _]. rewrite plain_name_seg by done. by rewrite reverse_cons, reverse_involutive.
Qed.

Lemma parent_render ns n : Forall plain_name (ns ++ [n]) ->
  parent (render (ns ++ [n])) = Some (render ns).
Proof.
  intros Hns. unfold parent. rewrite split_body_render; [|by destruct ns|done].
  rewrite trim_right_plain by done. pose proof (removelast_last ns n) as Hr.
  destruct (ns ++ [n]) as [|m l] eqn:E; [by destruct ns|]. rewrite Hr.
  rewrite trim_right_plain; [done|]. rewrite <-E in Hns. by apply Forall_app in Hns as [? _].
Qed.

Lemma parent_root : parent (render []) = None.
Proof. done. Qed.

#[export] Hint Resolve plain_name_seg plain_name_component plain_name_relative : rapido.

(** ** Components of parents and children *)

Lemma skip_seg_component s : skip_seg s = true -> seg_component s = [].
Proof. intros H. unfold seg_component. by rewrite H. Qed.

Lemma seg_component_single s : skip_seg s = false -> exists c, seg_component s = [c].
Proof. intros H. unfold seg_component. rewrite H. case_bool_decide; eauto. Qed.

Definition segs_components (segs : list bytes) : list Component := concat (seg_component <$> segs).

Lemma segs_components_app a b : segs_components (a ++ b) = segs_components a ++ segs_components b.
Proof. unfold segs_components. by rewrite fmap_app, concat_app. Qed.

Lemma segs_components_skip segs : Forall (fun s => skip_seg s = true) segs ->
  segs_components segs = [].
Proof.
  induction 1 as [|s segs Hs _ IH]; [done|]. change (seg_component s ++ segs_components segs = []).
  by rewrite skip_seg_component, IH.
Qed.

Lemma drop_while_split {A} (f : A -> bool) l : exists l1, l = l1 ++ drop_while f l /\
  Forall (fun x => f x = true) l1 /\
  (drop_while f l = [] \/ exists x r, drop_while f l = x :: r /\ f x = false).
Proof.
  induction l as [|x l (l1 & Hl & Hf & Hr)].
  { exists []. split_and!; [done|constructor|by left]. }
  simpl. destruct (f x) eqn:Hx.
  - exists (x :: l1). split_and!; [by rewrite Hl at 1|by constructor|done].
  - exists []. split_and!; [done|constructor|]. right. eauto.
Qed.

(** Trailing separators and dots are no components. *)
Lemma trim_right_split segs : exists l2, segs = trim_right_segs segs ++ l2 /\
  Forall (fun s => skip_seg s = true) l2 /\
  (trim_right_segs segs = [] \/ exists r x, trim_right_segs segs = r ++ [x] /\ skip_seg x = false).
Proof.
  unfold trim_right_segs. destruct (drop_while_split skip_seg (reverse segs)) as (l1 & Hl & Hf & Hr).
  exists (reverse l1). split_and!.
  - rewrite <-reverse_app, <-Hl. by rewrite reverse_involutive.
  - by apply Forall_reverse.
  - destruct Hr as [->|(x & r & -> & Hx)]; [by left|]. right. rewrite reverse_cons. eauto.
Qed.

Lemma trim_right_components segs : segs_components (trim_right_segs segs) = segs_components segs.
Proof.
  destruct (trim_right_split segs) as (l2 & Hl & Hf & _). rewrite Hl at 2.
  by rewrite segs_components_app, (segs_components_skip l2), app_nil_r.
Qed.

Definition no_sep (s : bytes) : Prop := Forall (fun c => is_sep c = false) s.

Lemma split_no_sep s : Forall no_sep (split is_sep s).
Proof.
  induction s as [|c s IH]; simpl; [by repeat constructor|].
  destruct (is_sep c) eqn:Hc; [by repeat constructor|].
  destruct (split is_sep s) as [|p ps]; [by repeat constructor|].
  apply Forall_cons in IH as [Hp Hps]. by repeat constructor.
Qed.

Lemma split_join segs : segs <> [] -> Forall no_sep segs -> split is_sep (join_segs segs) = segs.
Proof.
  intros Hne Hns. induction Hns as [|n ns Hn Hns IH]; [done|].
  destruct ns as [|m ns]; simpl; [by apply split_run|].
  rewrite split_app_sep by done. f_equal. by apply IH.
Qed.

Lemma components_absolute r : components (SEP :: r) = RootDir :: segs_components (split is_sep r).
Proof. done. Qed.

Lemma is_absolute_cons p : is_absolute p = true -> exists r, p = SEP :: r.
Proof.
  destruct p as [|c r]; [done|]. unfold is_absolute, starts_with_any, one_of. simpl.
  intros H. exists r. f_equal. lia.
Qed.

Lemma components_join_segs segs : Forall no_sep segs ->
  components (SEP :: join_segs segs) = RootDir :: segs_components segs.
Proof.
  intros Hs. rewrite components_absolute. destruct segs as [|s segs]; [done|].
  by rewrite split_join.
Qed.

Lemma parent_absolute p : is_absolute p = true ->
  match parent p with
  | None => components p = [RootDir]
  | Some d => is_absolute d = true /\ exists c, components p = components d ++ [c]
  end.
Proof.
  intros (r & ->)%is_absolute_cons. unfold parent, split_body.
  change (is_sep SEP) with true. cbv beta iota.
  destruct (trim_right_split (split is_sep r)) as (l2 & Hl & Hf & Hlast).
  pose proof (split_no_sep r) as Hns. rewrite Hl in Hns. apply Forall_app in Hns as [Hns _].
  rewrite components_absolute, <-(trim_right_components (split is_sep r)).
  destruct (trim_right_segs (split is_sep r)) as [|s0 segs0] eqn:Ht.
  { done. }
  destruct Hlast as [?|(segs & x & Hx & Hsk)]; [done|]. rewrite Hx in Hns |- *.
  rewrite removelast_last. cbn [app]. split; [done|].
  apply Forall_app in Hns as [Hns _]. destruct (seg_component_single x Hsk) as [c Hc].
  exists c. rewrite components_join_segs.
  - rewrite trim_right_components, segs_components_app.
    change (segs_components [x]) with (seg_component x ++ []). by rewrite app_nil_r, Hc.
  - destruct (trim_right_split segs) as (l3 & Hl3 & _ & _). rewrite Hl3 in Hns.
    by apply Forall_app in Hns as [? _].
Qed.

(** A name below an absolute path. *)
Lemma split_app_any f s c n : f c = true -> split f (s ++ c :: n) = split f s ++ split f n.
Proof.
  intros Hc. induction s as [|d s IH]; simpl; [by rewrite Hc|]. rewrite IH.
  destruct (f d); [done|]. destruct (split f s) eqn:E; [|done].
  exfalso. clear -E. destruct s as [|x s]; simpl in E; [done|]. destruct (f x); [done|].
  by destruct (split f s).
Qed.

Lemma split_snoc_sep s n : split is_sep (s ++ SEP :: n) = split is_sep s ++ split is_sep n.
Proof. by apply split_app_any. Qed.

Lemma components_push d n : is_absolute d = true -> plain_name n ->
  components (push d n) = components d ++ [Normal n].
Proof.
  intros (r & ->)%is_absolute_cons Hn. unfold push. rewrite plain_name_relative by done.
  assert (segs_components (split is_sep n) = [Normal n]) as Hsn.
  { rewrite split_run by apply Hn. change (segs_components [n]) with (seg_component n ++ []).
    by rewrite app_nil_r, plain_name_component. }
  destruct r as [|c r _] using rev_ind.
  - simpl. change (SEP :: n) with (SEP :: n). rewrite components_absolute, Hsn. done.
  - rewrite app_comm_cons, last_snoc. destruct (is_sep c) eqn:Hc.
    + apply Z.eqb_eq in Hc as ->. rewrite <-app_assoc. cbn [app].
      rewrite !components_absolute, !split_snoc_sep, !segs_components_app, Hsn. simpl.
      by rewrite app_nil_r.
    + rewrite <-!app_comm_cons, !components_absolute, split_snoc_sep, segs_components_app, Hsn.
      done.
Qed.

Lemma split_body_no_sep p : Forall no_sep (snd (split_body p)).
Proof.
  unfold split_body. destruct p as [|c r]; [constructor|]. destruct (is_sep c); [apply split_no_sep|].
  pose proof (split_no_sep (c :: r)) as Hn. destruct (split is_sep (c :: r)) as [|s ss]; [constructor|].
  case_bool_decide; [apply split_no_sep|done].
Qed.

(** Names among the components are plain. *)
Lemma components_plain p : Forall (fun c => match c with Normal n => plain_name n | _ => True end)
  (components p).
Proof.
  assert (forall segs, Forall no_sep segs ->
    Forall (fun c => match c with Normal n => plain_name n | _ => True end) (segs_components segs)) as Hs.
  { induction 1 as [|s segs Hs _ IH]; [constructor|].
    change (segs_components (s :: segs)) with (seg_component s ++ segs_components segs).
    apply Forall_app_2; [|done]. unfold seg_component. destruct (skip_seg s) eqn:Hk; [constructor|].
    case_bool_decide; repeat constructor; try done; intros ->; by apply bool_decide_eq_false in Hk; destruct Hk; auto. }
  unfold components. pose proof (split_body_no_sep p) as Hb. destruct (split_body p) as [pre segs].
  apply Forall_app_2; [by repeat case_bool_decide; repeat constructor|by apply Hs].
Qed.

(** The name of a file has no separator. *)
Lemma file_name_no_sep p n : file_name p = Some n -> no_sep n.
Proof.
  unfold file_name. pose proof (split_body_no_sep p) as Hb. generalize dependent (snd (split_body p)). intros segs Hb.
  assert (forall l, Forall no_sep l -> Forall no_sep (drop_while skip_seg l)) as Hd.
  { induction 1; simpl; [constructor|]. destruct (skip_seg _); [done|by constructor]. }
  assert (Forall no_sep (trim_right_segs segs)) as Ht by by apply Forall_reverse, Hd, Forall_reverse.
  destruct (last (trim_right_segs segs)) as [s|] eqn:Hl; [|done]. case_bool_decide; [done|]. intros [= <-].
  apply last_Some in Hl as [l Hl]. rewrite Hl in Ht. by apply Forall_app in Ht as [_ [? _]%Forall_cons].
Qed.

(** The components of an absolute path after the root. *)
Lemma components_root p : is_absolute p = true -> exists cs, components p = RootDir :: cs /\
  (RootDir ∉ cs) /\ (CurDir ∉ cs).
Proof.
  intros (r & ->)%is_absolute_cons. rewrite components_absolute.
  exists (segs_components (split is_sep r)). split; [done|].
  assert (forall segs, (RootDir ∉ segs_components segs) /\ (CurDir ∉ segs_components segs)) as H;
    [|apply H].
  induction segs as [|s segs [H1 H2]]; [by split; apply not_elem_of_nil|].
  change (segs_components (s :: segs)) with (seg_component s ++ segs_components segs).
  rewrite !not_elem_of_app. unfold seg_component. destruct (skip_seg s);
    [by split_and!; try apply not_elem_of_nil|]. case_bool_decide;
    split_and!; try done; by intros ?%list_elem_of_singleton.
Qed.

(** What is joined to an absolute path is absolute, and so is what [absolute] gives. *)
Lemma push_absolute d p : is_absolute d = true -> is_absolute (push d p) = true.
Proof.
  unfold push. destruct (is_absolute p) eqn:Hp; [done|]. intros [r ->]%is_absolute_cons.
  destruct (last (SEP :: r)) as [c|] eqn:Hl; [by destruct (is_sep c)|by apply last_None in Hl].
Qed.

Lemma foldl_push_absolute d cs : is_absolute d = true ->
  is_absolute (foldl (fun acc c => push acc (component_os_str c)) d cs) = true.
Proof. revert d. induction cs as [|c cs IH]; intros d Hd; [done|]. simpl. by apply IH, push_absolute. Qed.

Lemma absolute_is_absolute cwd p q : is_absolute cwd = true -> absolute cwd p = Ok q -> is_absolute q = true.
Proof.
  intros Hcwd. unfold absolute. case_bool_decide as Hne; [done|].
  set (cs := components _). destruct (is_absolute p) eqn:Hp.
  - assert (exists l, cs = RootDir :: l) as [l Hl].
    { subst cs. apply is_absolute_cons in Hp as [r ->]. eexists. apply components_absolute. }
    clearbody cs. subst cs. destruct (_ && _); intros [= <-]; cbn [tail foldl];
      (destruct (ends_with _ _); [apply push_absolute|]; by apply foldl_push_absolute).
  - intros [= <-]. destruct (ends_with _ _); [apply push_absolute|]; by apply foldl_push_absolute.
Qed.

Lemma absolute_no_panic cwd p : absolute cwd p <> Panic.
Proof. unfold absolute. by repeat case_match. Qed.

(** It only refuses the empty path. *)
Lemma absolute_ok cwd p : p <> [] -> is_ok (absolute cwd p) = true.
Proof. unfold absolute. intros Hp. rewrite bool_decide_eq_false_2 by done. by repeat case_match. Qed.

(** A path with an absolute parent is absolute. *)
Lemma join_segs_head s segs : s <> [] -> head (join_segs (s :: segs)) = head s.
Proof. intros Hs. destruct segs; simpl; [done|]. by destruct s. Qed.

Lemma parent_is_absolute p d : parent p = Some d -> is_absolute d = true -> is_absolute p = true.
Proof.
  destruct p as [|c r]; [done|]. unfold parent, split_body. destruct (is_sep c) eqn:Hc.
  { intros _ _. apply Z.eqb_eq in Hc as ->. done. }
  destruct (split is_sep (c :: r)) as [|s segs] eqn:Hs; [done|].
  assert (exists s', s = c :: s') as [s' ->].
  { simpl in Hs. rewrite Hc in Hs. destruct (split is_sep r); simplify_eq; eauto. }
  case_bool_decide as Hdot.
  - injection Hdot as -> _. destruct (trim_right_segs _); [by intros [= <-]|].
    by intros [= <-].
  - destruct (trim_right_split ((c :: s') :: segs)) as (l2 & Hl & _ & _).
    destruct (trim_right_segs ((c :: s') :: segs)) as [|s1 segs1]; [done|].
    injection Hl as <- _. intros [= <-]. cbn [app].
    destruct segs1 as [|s2 segs1]; [done|].
    change (removelast ((c :: s') :: s2 :: segs1)) with ((c :: s') :: removelast (s2 :: segs1)).
    destruct (trim_right_split ((c :: s') :: removelast (s2 :: segs1))) as (l3 & Hl3 & _ & _).
    destruct (trim_right_segs ((c :: s') :: removelast (s2 :: segs1))) as [|s3 segs3]; [done|].
    injection Hl3 as <- _. pose proof (join_segs_head (c :: s') segs3) as Hh.
    destruct (join_segs ((c :: s') :: segs3)) as [|c' r']; [done|]. injection (Hh ltac:(done)) as ->.
    unfold is_absolute, starts_with_any, one_of. simpl. unfold is_sep, SEP in Hc.
    intros H. destruct (Z.eqb_spec c 47); [done|]. lia.
Qed.
