(* ===== verification/RustIo.v ===== *)
(** * Readers and writers

    The program is generic over [Write], [Read], [BufRead] and [Seek] streams.
    Writers and seekable readers are type classes with laws, so that the
    archive code is proved for every stream that keeps the contract of
    [std::io]; the instances are an in-memory vector, a device of limited size
    and an in-memory cursor. *)

From S2P Require Import Prelude RustStr.

(** ** [Write] *)

Class Write (W : Type) := {
  (** [write_all] (and [write!], which formats and then writes it all) *)
  write_all : bytes -> W -> io unit * W;
  (** [flush]: what was written reaches its destination *)
  flush : W -> io unit * W;
  (** everything written so far *)
  written : W -> bytes;
}.

(** The contract of [write_all]: on success the buffer is appended, on failure
    a prefix of it; it does not panic. A flush writes nothing new. *)
Class WriteOk (W : Type) `{Write W} := {
  write_all_ok : forall b w w', write_all b w = (Ok tt, w') -> written w' = written w ++ b;
  write_all_err : forall b w e w', write_all b w = (Err e, w') ->
    exists p q, b = p ++ q /\ written w' = written w ++ p;
  write_all_total : forall b w w', write_all b w <> (Panic, w');
  flush_ok : forall w w', flush w = (Ok tt, w') -> written w' = written w;
  flush_total : forall w w', flush w <> (Panic, w');
}.

(** [Vec<u8>] behind a cursor at its end *)
Record Vector := MkVector { vec_data : bytes }.

#[export] Instance vector_write : Write Vector := {|
  write_all b w := (Ok tt, MkVector (vec_data w ++ b));
  flush w := (Ok tt, w);
  written := vec_data;
|}.

#[export] Instance vector_write_ok : WriteOk Vector.
Proof. split; simpl; intros; simplify_eq; done. Qed.

(** A device with room for a number of further bytes. *)
Record Device := MkDevice { dev_data : bytes; dev_room : nat }.

Definition device_write_all (b : bytes) (w : Device) : io unit * Device :=
  if (length b <=? dev_room w)%nat
  then (Ok tt, MkDevice (dev_data w ++ b) (dev_room w - length b))
  else (Err (err_from StorageFull), MkDevice (dev_data w ++ take (dev_room w) b) 0).

#[export] Instance device_write : Write Device := {|
  write_all := device_write_all;
  flush w := (Ok tt, w);
  written := dev_data;
|}.

#[export] Instance device_write_ok : WriteOk Device.
Proof.
  split; simpl; unfold device_write_all; intros b w; intros.
  - case_match; by simplify_eq/=.
  - case_match; simplify_eq/=. exists (take (dev_room w) b), (drop (dev_room w) b).
    by rewrite take_drop.
  - by case_match.
  - by simplify_eq.
  - done.
Qed.

(** ** [Read], [BufRead] *)

(** A source: the bytes it delivers, and the error that follows them, if any
    (a plain end of file otherwise). *)
Record Reader := MkReader { rd_data : bytes; rd_err : option io_error }.

Definition reader_of (b : bytes) : Reader := MkReader b None.

(** [io::copy(reader, writer)]: everything up to the end of the source *)
Definition io_copy {W} `{Write W} (r : Reader) : SM W io_error Z := fun w =>
  match write_all (rd_data r) w with
  | (Ok _, w') => (match rd_err r with
                   | Some e => Err e
                   | None => Ok (Z.of_nat (length (rd_data r)))
                   end, w')
  | (Err e, w') => (Err e, w')
  | (Panic, w') => (Panic, w')
  end.

Definition is_nl (c : Z) : bool := c =? NL.

(** The bytes up to and including the next separator, and the rest. *)
Fixpoint take_until (f : Z -> bool) (s : bytes) : bytes * bytes :=
  match s with
  | [] => ([], [])
  | c :: r => if f c then ([c], r) else let '(a, b) := take_until f r in (c :: a, b)
  end.

(** [BufRead::read_line]: the line read is appended to [buf] when it is valid
    UTF-8; the number of bytes read, 0 at the end. *)
Definition read_line (r : Reader) (buf : bytes) : io Z * Reader * bytes :=
  let '(line, rest) := take_until is_nl (rd_data r) in
  match rd_err r with
  | Some e =>
      if ends_with [NL] line then
        if utf8_valid line
        then (Ok (Z.of_nat (length line)), MkReader rest (rd_err r), buf ++ line)
        else (Err (err_from InvalidData), MkReader rest (rd_err r), buf)
      else (Err e, MkReader rest None, buf)
  | None =>
      if utf8_valid line
      then (Ok (Z.of_nat (length line)), MkReader rest None, buf ++ line)
      else (Err (err_from InvalidData), MkReader rest None, buf)
  end.

(** One line of [BufRead::lines]: without its "\n" or "\r\n". *)
Definition chomp (line : bytes) : bytes :=
  match strip_suffix [NL] line with
  | Some l => match strip_suffix [13] l with Some l' => l' | None => l end
  | None => line
  end.

Definition line_item (line : bytes) : io bytes :=
  if utf8_valid line then Ok (chomp line) else Err (err_from InvalidData).

(** [BufRead::lines]: the items of the iterator, in order. *)
Definition lines (r : Reader) : list (io bytes) :=
  let raw := split_inclusive is_nl (rd_data r) in
  match rd_err r with
  | None => line_item <$> raw
  | Some e => (line_item <$> List.filter (ends_with [NL]) raw) ++ [Err e]
  end.

(** ** [Read + Seek] *)

Class ReadSeek (R : Type) := {
  (** [read_exact] of a number of bytes *)
  read_exact : nat -> R -> io bytes * R;
  (** [seek(SeekFrom::Current(off))] for a non-negative offset *)
  seek_current : Z -> R -> io Z * R;
}.

(** A file or [Cursor] opened for reading: contents and position. *)
Record Cursor := MkCursor { cur_data : bytes; cur_pos : nat }.

Definition cursor_read_exact (n : nat) (c : Cursor) : io bytes * Cursor :=
  let rest := drop (cur_pos c) (cur_data c) in
  if (n <=? length rest)%nat
  then (Ok (take n rest), MkCursor (cur_data c) (cur_pos c + n))
  else (Err (err_from UnexpectedEof),
        MkCursor (cur_data c) (Nat.max (cur_pos c) (length (cur_data c)))).

Definition cursor_seek_current (off : Z) (c : Cursor) : io Z * Cursor :=
  let pos := (cur_pos c + Z.to_nat off)%nat in
  (Ok (Z.of_nat pos), MkCursor (cur_data c) pos).

#[export] Instance cursor_read_seek : ReadSeek Cursor := {|
  read_exact := cursor_read_exact;
  seek_current := cursor_seek_current;
|}.

(** ** Lemmas *)

Lemma take_until_app f s a b : take_until f s = (a, b) -> s = a ++ b.
Proof.
  revert a b. induction s as [|c s IH]; intros a b; simpl; [by intros [= <- <-]|].
  destruct (f c); [by intros [= <- <-]|].
  destruct (take_until f s) as [a' b'] eqn:Hs. intros [= <- <-]. simpl. f_equal. by apply IH.
Qed.

Lemma take_until_run f q c r :
  Forall (fun x => f x = false) q -> f c = true ->
  take_until f (q ++ c :: r) = (q ++ [c], r).
Proof.
  intros Hq Hc. induction Hq as [|x q Hx _ IH]; simpl; [by rewrite Hc|]. by rewrite Hx, IH.
Qed.

Lemma take_until_run_end f q : Forall (fun x => f x = false) q -> take_until f q = (q, []).
Proof. induction 1 as [|x q Hx _ IH]; simpl; [done|]. by rewrite Hx, IH. Qed.

Lemma take_until_nil f s a b : take_until f s = (a, b) -> a = [] -> s = [].
Proof.
  intros H ->. destruct s as [|c s]; [done|]. simpl in H.
  destruct (f c); [done|]. by destruct (take_until f s).
Qed.

(** Reading a line never grows the source; it shrinks unless nothing is left. *)
Lemma read_line_progress r buf n r' buf' :
  read_line r buf = (Ok n, r', buf') ->
  n = 0 /\ r' = r /\ buf' = buf /\ rd_data r = [] \/
  0 < n /\ (length (rd_data r') < length (rd_data r))%nat.
Proof.
  unfold read_line. destruct (take_until is_nl (rd_data r)) as [line rest] eqn:Ht.
  pose proof (take_until_app _ _ _ _ Ht) as Hd. intros Hr.
  assert (rd_data r' = rest /\ rd_err r' = rd_err r /\ n = Z.of_nat (length line)
          /\ buf' = buf ++ line) as (H1 & H2 & -> & ->).
  { repeat case_match; simplify_eq/=; done. }
  destruct line as [|c line].
  - left. split_and!; [done| |by rewrite app_nil_r|by eapply take_until_nil].
    destruct r, r'; simpl in *; by subst.
  - right. rewrite Hd, H1, length_app. simpl. lia.
Qed.

Lemma read_line_no_panic r buf : fst (fst (read_line r buf)) <> Panic.
Proof. unfold read_line. destruct (take_until is_nl (rd_data r)). by repeat case_match. Qed.

Lemma cursor_read_exact_app pre b post :
  cursor_read_exact (length b) (MkCursor (pre ++ b ++ post) (length pre))
  = (Ok b, MkCursor (pre ++ b ++ post) (length pre + length b)).
Proof.
  unfold cursor_read_exact. simpl. rewrite drop_app_length, length_app.
  replace (_ <=? _)%nat with true by (symmetry; apply Nat.leb_le; lia).
  by rewrite take_app_length.
Qed.

#[export] Hint Resolve write_all_ok write_all_err : rapido.

(** Complete lines of valid text are read back one by one. *)
Definition line_ok (l : bytes) : Prop :=
  utf8_valid l = true /\ Forall (fun c => is_nl c = false) l /\ last l <> Some 13.

Lemma line_item_ok l : line_ok l -> line_item (l ++ [NL]) = Ok l.
Proof.
  intros (Hu & Hn & Hl). unfold line_item. rewrite utf8_valid_app by done. f_equal.
  unfold chomp. rewrite strip_suffix_app. destruct (strip_suffix [13] l) as [r|] eqn:Hr; [|done].
  apply strip_suffix_spec in Hr as ->. by rewrite last_snoc in Hl.
Qed.

Lemma lines_text ls : Forall line_ok ls ->
  lines (reader_of (concat ((fun l => l ++ [NL]) <$> ls))) = Ok <$> ls.
Proof.
  unfold lines. simpl rd_err. cbv iota. simpl rd_data.
  induction 1 as [|l ls Hl _ IH]; [done|]. rewrite !fmap_cons. cbn [concat].
  rewrite <-app_assoc. cbn [app]. rewrite split_inclusive_run by (apply Hl || done).
  rewrite fmap_cons, line_item_ok by done. by f_equal.
Qed.

(** Reading one line of such a text. *)
Lemma read_line_text l rest : line_ok l ->
  read_line (reader_of (l ++ NL :: rest)) []
  = (Ok (Z.of_nat (length l) + 1), reader_of rest, l ++ [NL]).
Proof.
  intros (Hu & Hn & _). unfold read_line. simpl rd_data.
  rewrite take_until_run by done. simpl rd_err. cbv iota.
  rewrite utf8_valid_app by done. rewrite length_app. simpl length.
  by replace (Z.of_nat (length l + 1)) with (Z.of_nat (length l) + 1) by lia.
Qed.
