(* ===== verification/KvConf.v ===== *)
(** * kv-conf: the [key=value] configuration parser (src/src/kv-conf/src/lib.rs)

    [kv_process] handles one (possibly joined) line: key checks, quoting,
    escapes, [${VAR}] substitution, trailing comments and multi-line quotes.
    The [kv_conf_process*] functions drive it over a reader and collect a map.
    Line numbers and the messages of the errors are those of the code. *)

From S2P Require Import Prelude RustStr RustIo.

Definition CONF_LINE_MAX : Z := 1024 * 100.

(** the characters with a role in a value *)
Definition BACKSLASH : Z := 92.
Definition DQUOTE : Z := 34.
Definition SQUOTE : Z := 39.
Definition TAB : Z := 9.
Definition DOLLAR : Z := 36.

(** backslash, double quote, single quote, space, tab, dollar *)
Definition specials : bytes := [BACKSLASH; DQUOTE; SQUOTE; SPACE; TAB; DOLLAR].
(** backslash, slash, both quotes, space, tab, dollar, hash, dot, back quote *)
Definition bad_key_chars : bytes :=
  [BACKSLASH; 47; DQUOTE; SQUOTE; SPACE; TAB; DOLLAR; 35; 46; 96].

Abbreviation kvmap := (gmap bytes bytes).
(** [Result<_, &'static str>] *)
Abbreviation kvres A := (result bytes A).

Definition kv_var_sub (block : bytes) (m : kvmap) : kvres bytes :=
  match split_inclusive (one_of (B "{}")) block with
  | first :: rest =>
      if bool_decide (first = B "{") then
        match rest with
        | [] => Err (B "no closing brace for variable")
        | var :: rest' =>
            match strip_suffix (B "}") var with
            | None => Err (B "no closing brace for variable")
            | Some key =>
                match m !! key with
                | None => Err (B "invalid variable substitution: not seen")
                | Some val =>
                    Ok (val ++ match rest' with t :: _ => t | [] => [] end)
                end
            end
        end
      else Err (B "variables must be wrapped in {} braces")
  | [] => Err (B "variables must be wrapped in {} braces")
  end.

Inductive Quoted := QNo | QSingle | QDouble.

#[export] Instance Quoted_eq_dec : EqDecision Quoted.
Proof. solve_decision. Defined.

(** the local variables of the loop over the blocks of a value *)
Record KvState := MkKv {
  inquote : Quoted;
  escape_next : bool;
  comment_next : bool;
  var_next : bool;
  unquoted_val : bytes;
}.

Definition kv_init : KvState := MkKv QNo false false false [].

Definition push_val (st : KvState) (s : bytes) : KvState :=
  MkKv (inquote st) (escape_next st) (comment_next st) (var_next st) (unquoted_val st ++ s).

(** how an iteration ends *)
Inductive flow := Next (st : KvState) | Break (st : KvState).

(** the [escape_next] case: the block starts with the escaped character *)
Definition kv_escaped (st : KvState) (block : bytes) : kvres flow :=
  if starts_with_any specials block then
    if bool_decide (length block = 1%nat)
    then Ok (Next (MkKv (inquote st) false (comment_next st) (var_next st)
                        (unquoted_val st ++ block)))
    else Err (B "expected escaped char at split boundary")
  else if starts_with [NL] block && negb (bool_decide (inquote st = QNo)) then Ok (Break st)
  else Err (B "bad escape").

(** the [comment_next] case: only a comment or white space may follow *)
Definition kv_comment (st : KvState) (block : bytes) : kvres flow :=
  if negb (bool_decide (inquote st = QNo)) then Panic
  else if starts_with (B "#") block then Ok (Break st)
  else if bool_decide (trim_start block = []) then Ok (Next st)
  else Err (B "unexpected whitespace").

(** a quote character [q] ends the block: toggle the mode [mine] unless the
    [other] kind of quote is open *)
Definition kv_quote (st : KvState) (q : Z) (mine other : Quoted) (block : bytes) : kvres flow :=
  let '(mode, sfx) :=
    if bool_decide (inquote st = QNo) then (mine, [q])
    else if bool_decide (inquote st = mine) then (QNo, [q])
    else (other, []) in
  let? s := unwrap (strip_suffix sfx block) in
  Ok (Next (MkKv mode (escape_next st) (comment_next st) (var_next st) (unquoted_val st ++ s))).

(** the block proper, by its last character *)
Definition kv_text (st : KvState) (block : bytes) : kvres flow :=
  if ends_with [BACKSLASH] block && negb (bool_decide (inquote st = QSingle)) then
    let? s := unwrap (strip_suffix [BACKSLASH] block) in
    Ok (Next (MkKv (inquote st) true (comment_next st) (var_next st) (unquoted_val st ++ s)))
  else if ends_with [DQUOTE] block then kv_quote st DQUOTE QDouble QSingle block
  else if ends_with [SQUOTE] block then kv_quote st SQUOTE QSingle QDouble block
  else if ends_with_any [SPACE; TAB] block && bool_decide (inquote st = QNo) then
    let? s := unwrap (strip_suffix_any [SPACE; TAB] block) in
    Ok (Next (MkKv (inquote st) (escape_next st) true (var_next st) (unquoted_val st ++ s)))
  else if ends_with [DOLLAR] block && negb (bool_decide (inquote st = QSingle)) then
    let? s := unwrap (strip_suffix [DOLLAR] block) in
    Ok (Next (MkKv (inquote st) (escape_next st) (comment_next st) true (unquoted_val st ++ s)))
  else if ends_with [NL] block then
    let? s := unwrap (strip_suffix [NL] block) in Ok (Next (push_val st s))
  else Ok (Next (push_val st block)).

Definition clear_var (st : KvState) : KvState :=
  MkKv (inquote st) (escape_next st) (comment_next st) false (unquoted_val st).

(** one iteration of the loop of [kv_process] *)
Definition kv_block (varmap : kvmap) (st : KvState) (block : bytes) : kvres flow :=
  if escape_next st then kv_escaped st block
  else if comment_next st then kv_comment st block
  else if var_next st then
    let? got := kv_var_sub block varmap in kv_text (clear_var st) got
  else kv_text st block.

Fixpoint kv_blocks (varmap : kvmap) (st : KvState) (blocks : list bytes) : kvres KvState :=
  match blocks with
  | [] => Ok st
  | b :: bs =>
      let? f := kv_block varmap st b in
      match f with
      | Next st' => kv_blocks varmap st' bs
      | Break st' => Ok st'
      end
  end.

(** what is kept of a line whose quote is still open *)
Definition kv_multiline (q : Quoted) (trimmed_line : bytes) : bytes :=
  let ml := trim_end trimmed_line in
  match strip_suffix [BACKSLASH] ml, q with
  | Some ml1, QDouble =>
      let ml2 := trim_end ml1 in
      if bool_decide (length ml1 = length ml2) then ml2 else ml2 ++ [SPACE]
  | _, _ => ml ++ [SPACE]
  end.

(** [kv_process]: the outcome and what the line buffer holds afterwards *)
Definition kv_process (line : bytes) (varmap : kvmap) : kvres (option (bytes * bytes)) * bytes :=
  let trimmed_line := trim_start line in
  if bool_decide (trimmed_line = []) || starts_with (B "#") trimmed_line then (Ok None, [])
  else
    match split_once (Z.eqb 61) trimmed_line with
    | None => (Err (B "missing ="), line)
    | Some (key, val) =>
        if bool_decide (key = []) then (Err (B "empty key"), line)
        else if contains_any bad_key_chars key then (Err (B "invalid key"), line)
        else
          match kv_blocks varmap kv_init (split_inclusive (one_of specials) val) with
          | Panic => (Panic, line)
          | Err e => (Err e, line)
          | Ok st =>
              if bool_decide (inquote st = QNo) then (Ok (Some (key, unquoted_val st)), [])
              else (Ok None, kv_multiline (inquote st) trimmed_line)
          end
    end.

(** ["line {}: {}"] *)
Definition line_msg (linenum : Z) (m : bytes) : bytes :=
  B "line " ++ fmt_dec linenum ++ B ": " ++ m.

Definition kv_read_line (rdr : Reader) (linenum : Z) (buf : bytes) : io Z * Reader * bytes :=
  match read_line rdr buf with
  | (Ok n, rdr', buf') =>
      if (n =? 0) && negb (bool_decide (buf' = []))
      then (Err (err_fmt InvalidInput (line_msg linenum (B "unexpected EOF"))), rdr', buf')
      else if CONF_LINE_MAX <? n
      then (Err (err_fmt InvalidInput (line_msg linenum (B "too long"))), rdr', buf')
      else (Ok n, rdr', buf')
  | other => other
  end.

(** The loop of [kv_conf_process_append] ([None]) and of
    [kv_conf_process_append_separate] ([Some varmap]); [None] when [fuel] lines
    were not enough. *)
Fixpoint kv_loop (fuel : nat) (sep : option kvmap) (linenum : Z) (rdr : Reader)
    (buffer : bytes) (m : kvmap) : option (io unit * kvmap) :=
  match fuel with
  | O => None
  | S f =>
      match kv_read_line rdr linenum buffer with
      | (Err e, _, _) => Some (Err e, m)
      | (Panic, _, _) => Some (Panic, m)
      | (Ok n, rdr', buffer') =>
          if n =? 0 then Some (Ok tt, m)
          else
            match kv_process buffer' (default m sep) with
            | (Panic, _) => Some (Panic, m)
            | (Err e, _) => Some (Err (err_fmt InvalidInput (line_msg linenum e)), m)
            | (Ok kv, buffer'') =>
                kv_loop f sep (linenum + 1) rdr' buffer''
                  (match kv with Some (k, v) => <[k := v]> m | None => m end)
            end
      end
  end.

(** a line takes at least one byte of the reader *)
Definition kv_fuel (rdr : Reader) : nat := S (length (rd_data rdr)).

Definition kv_conf_process_append (rdr : Reader) (m : kvmap) : io unit * kvmap :=
  default (Panic, m) (kv_loop (kv_fuel rdr) None 1 rdr [] m).

Definition kv_conf_process_append_separate (rdr : Reader) (varmap m : kvmap) : io unit * kvmap :=
  default (Panic, m) (kv_loop (kv_fuel rdr) (Some varmap) 1 rdr [] m).

Definition kv_conf_process (rdr : Reader) : io kvmap :=
  match kv_conf_process_append rdr ∅ with
  | (Ok _, m) => Ok m
  | (Err e, _) => Err e
  | (Panic, _) => Panic
  end.

(** ** Panic freedom and the errors of a line *)

(** A comment can only be expected outside quotes. *)
Definition kv_inv (st : KvState) : Prop := comment_next st = true -> inquote st = QNo.

Definition flow_state (f : flow) : KvState := match f with Next st | Break st => st end.

(** The messages [kv_process] reports. *)
Definition kv_errors : list bytes :=
  [B "missing ="; B "empty key"; B "invalid key"; B "bad escape"; B "unexpected whitespace";
   B "variables must be wrapped in {} braces"; B "no closing brace for variable";
   B "invalid variable substitution: not seen"].

(** The outcome of a step that is no panic, keeps the invariant and fails only
    with a reported message. *)
Definition kv_safe (r : kvres flow) : Prop :=
  match r with
  | Ok f => kv_inv (flow_state f)
  | Err e => e ∈ kv_errors
  | Panic => False
  end.

Ltac kv_err := unfold kv_errors; repeat (apply elem_of_cons; first [left; reflexivity | right]).

Lemma kv_var_sub_err block m r : kv_var_sub block m = r ->
  match r with Ok _ => True | Err e => e ∈ kv_errors | Panic => False end.
Proof. intros <-. unfold kv_var_sub. repeat case_match; simplify_eq; try done; kv_err. Qed.

Lemma kv_quote_safe st q mine other block :
  ends_with [q] block = true -> comment_next st = false ->
  kv_safe (kv_quote st q mine other block).
Proof.
  intros Hq Hc. apply ends_with_strip in Hq as [s Hs]. unfold kv_quote.
  repeat case_bool_decide; simpl; rewrite ?Hs, ?strip_suffix_nil;
    unfold kv_safe, kv_inv; simpl; congruence.
Qed.

(** A stripped suffix that was tested for first. *)
Ltac kv_strip H :=
  apply ends_with_strip in H as [? ->]; unfold kv_safe, kv_inv; simpl; congruence.

Lemma kv_text_safe st block : comment_next st = false -> kv_safe (kv_text st block).
Proof.
  intros Hc. unfold kv_text.
  destruct (ends_with [BACKSLASH] block && _) eqn:H1.
  { apply andb_prop in H1 as [H1 _]. kv_strip H1. }
  destruct (ends_with [DQUOTE] block) eqn:H2; [by apply kv_quote_safe|].
  destruct (ends_with [SQUOTE] block) eqn:H3; [by apply kv_quote_safe|].
  destruct (ends_with_any [SPACE; TAB] block && _) eqn:H4.
  { apply andb_prop in H4 as [H4 HN%bool_decide_eq_true]. unfold strip_suffix_any.
    rewrite H4. unfold kv_safe, kv_inv. simpl. done. }
  destruct (ends_with [DOLLAR] block && _) eqn:H5.
  { apply andb_prop in H5 as [H5 _]. kv_strip H5. }
  destruct (ends_with [NL] block) eqn:H6; [kv_strip H6|].
  unfold kv_safe, kv_inv. simpl. congruence.
Qed.

Lemma kv_block_safe m st block :
  kv_inv st -> piece_ok (one_of specials) block -> kv_safe (kv_block m st block).
Proof.
  intros Hinv Hp. unfold kv_block. destruct (escape_next st).
  { unfold kv_escaped. destruct (starts_with_any specials block) eqn:Hs.
    - destruct block as [|c p]; [done|]. apply piece_ok_sep in Hp as ->; [|done].
      rewrite bool_decide_eq_true_2 by done. exact Hinv.
    - case_match; [exact Hinv|]. kv_err. }
  destruct (comment_next st) eqn:Hc.
  { unfold kv_comment. rewrite (Hinv Hc). simpl.
    case_match; [exact Hinv|]. case_match; [exact Hinv|]. kv_err. }
  destruct (var_next st); [|by apply kv_text_safe].
  destruct (kv_var_sub block m) eqn:Hv; pose proof (kv_var_sub_err _ _ _ Hv); simpl;
    [by apply kv_text_safe|done|done].
Qed.

Lemma kv_blocks_safe m st bs :
  kv_inv st -> Forall (piece_ok (one_of specials)) bs ->
  match kv_blocks m st bs with Ok _ => True | Err e => e ∈ kv_errors | Panic => False end.
Proof.
  intros Hinv Hbs. revert st Hinv. induction Hbs as [|b bs Hb _ IH]; intros st Hinv; [done|].
  simpl. pose proof (kv_block_safe m st b Hinv Hb) as Hs.
  destruct (kv_block m st b) as [[st'|st']| |]; simpl in *; [by apply IH|done..].
Qed.

Lemma kv_process_outcome line m :
  match kv_process line m with
  | (Ok _, _) => True
  | (Err e, line') => e ∈ kv_errors /\ line' = line
  | (Panic, _) => False
  end.
Proof.
  unfold kv_process. destruct (_ || _); [done|].
  destruct (split_once _ _) as [[key val]|]; [|split; [kv_err|done]].
  destruct (bool_decide _); [split; [kv_err|done]|].
  destruct (contains_any _ _); [split; [kv_err|done]|].
  pose proof (kv_blocks_safe m kv_init (split_inclusive (one_of specials) val)) as Hs.
  destruct (kv_blocks _ _ _).
  - by destruct (bool_decide _).
  - split; [|done]. apply Hs; [by intros ?|apply split_inclusive_pieces].
  - apply Hs; [by intros ?|apply split_inclusive_pieces].
Qed.

(** ** Printing: a quoted value reads back *)

(** escape every character with a role *)
Definition kv_escape (v : bytes) : bytes :=
  concat ((fun c => if one_of specials c then [BACKSLASH; c] else [c]) <$> v).

(** the line [key="value"], escaped *)
Definition kv_print (k v : bytes) : bytes :=
  k ++ 61 :: DQUOTE :: kv_escape v ++ [DQUOTE; NL].

(** the line [key='value'] *)
Definition kv_print_single (k v : bytes) : bytes := k ++ 61 :: SQUOTE :: v ++ [SQUOTE; NL].

(** A key the parser accepts, at the start of a line: no forbidden character, no
    equals sign, and no white space in front. *)
Definition key_ok (k : bytes) : Prop :=
  contains_any bad_key_chars k = false /\ Forall (fun c => Z.eqb 61 c = false) k /\
  exists c r, k = c :: r /\ not_space_byte c = true.

Definition quoting (q : Quoted) (acc : bytes) : KvState := MkKv q false false false acc.

Lemma kv_escape_cons c r :
  kv_escape (c :: r) = (if one_of specials c then [BACKSLASH; c] else [c]) ++ kv_escape r.
Proof. done. Qed.

Lemma kv_escape_run q r :
  Forall (fun c => one_of specials c = false) q -> kv_escape (q ++ r) = q ++ kv_escape r.
Proof.
  intros Hq. induction Hq as [|c q Hc _ IH]; [done|].
  cbn [app]. by rewrite kv_escape_cons, Hc, IH.
Qed.

Lemma kv_escape_special c r : one_of specials c = true ->
  kv_escape (c :: r) = BACKSLASH :: c :: kv_escape r.
Proof. intros Hc. by rewrite kv_escape_cons, Hc. Qed.

Lemma kv_block_dq_end m acc q :
  kv_block m (quoting QDouble acc) (q ++ [DQUOTE]) = Ok (Next (quoting QNo (acc ++ q))).
Proof.
  unfold kv_block, kv_text, kv_quote; simpl. rewrite !ends_with_snoc. simpl.
  by rewrite strip_suffix_app.
Qed.

Lemma kv_block_dq_escape m acc q :
  kv_block m (quoting QDouble acc) (q ++ [BACKSLASH])
  = Ok (Next (MkKv QDouble true false false (acc ++ q))).
Proof.
  unfold kv_block, kv_text; simpl. rewrite !ends_with_snoc. simpl.
  by rewrite strip_suffix_app.
Qed.

Lemma kv_block_dq_escaped m acc c : one_of specials c = true ->
  kv_block m (MkKv QDouble true false false acc) [c] = Ok (Next (quoting QDouble (acc ++ [c]))).
Proof. intros Hc. unfold kv_block, kv_escaped, starts_with_any. simpl. by rewrite Hc. Qed.

Lemma kv_block_nl m acc : kv_block m (quoting QNo acc) [NL] = Ok (Next (quoting QNo acc)).
Proof.
  transitivity (@Ok bytes flow (Next (quoting QNo (acc ++ [])))); [done|by rewrite app_nil_r].
Qed.

(** Inside double quotes an escaped value is read back, whatever it holds. *)
Lemma kv_blocks_escaped m v acc :
  kv_blocks m (quoting QDouble acc) (split_inclusive (one_of specials) (kv_escape v ++ [DQUOTE; NL]))
  = Ok (quoting QNo (acc ++ v)).
Proof.
  remember (length v) as n eqn:Hn. revert v acc Hn.
  induction n as [n IH] using (well_founded_induction lt_wf). intros v acc Hn.
  destruct (span_run (one_of specials) v) as (q & rest & -> & Hq & [->|(c & r & -> & Hc)]).
  - rewrite kv_escape_run by done. change (kv_escape []) with (@nil Z). rewrite !app_nil_r.
    rewrite split_inclusive_run by done. change (split_inclusive _ [NL]) with [[NL]].
    cbn [kv_blocks]. rewrite kv_block_dq_end. cbn [rbind]. by rewrite kv_block_nl.
  - rewrite kv_escape_run, kv_escape_special by done.
    change ((BACKSLASH :: c :: kv_escape r)) with ([BACKSLASH] ++ c :: kv_escape r).
    rewrite <-!app_assoc. cbn [app]. rewrite split_inclusive_run by done.
    change (c :: kv_escape r ++ [DQUOTE; NL]) with ([] ++ c :: (kv_escape r ++ [DQUOTE; NL])).
    rewrite split_inclusive_run by done. cbn [kv_blocks app].
    rewrite kv_block_dq_escape. cbn [rbind]. rewrite kv_block_dq_escaped by done. cbn [rbind].
    rewrite (IH (length r)); [|rewrite Hn, length_app; simpl; lia|done].
    by rewrite <-!app_assoc.
Qed.

Lemma kv_block_sq_end m acc q :
  kv_block m (quoting QSingle acc) (q ++ [SQUOTE]) = Ok (Next (quoting QNo (acc ++ q))).
Proof.
  unfold kv_block, kv_text, kv_quote; simpl. rewrite !ends_with_snoc. simpl.
  by rewrite strip_suffix_app.
Qed.

Lemma kv_quote_inert acc block :
  kv_quote (quoting QSingle acc) DQUOTE QDouble QSingle block
  = Ok (Next (quoting QSingle (acc ++ block))).
Proof.
  transitivity (let? s := unwrap (strip_suffix [] block) in
                @Ok bytes flow (Next (quoting QSingle (acc ++ s)))); [done|].
  by rewrite strip_suffix_nil.
Qed.

(** Inside single quotes every other character stands for itself. *)
Lemma kv_block_sq_text m acc q c : one_of specials c = true -> c <> SQUOTE ->
  kv_block m (quoting QSingle acc) (q ++ [c]) = Ok (Next (quoting QSingle (acc ++ q ++ [c]))).
Proof.
  intros Hc Hs. apply one_of_spec in Hc.
  change (kv_block m (quoting QSingle acc) (q ++ [c])) with (kv_text (quoting QSingle acc) (q ++ [c])).
  unfold kv_text. rewrite kv_quote_inert.
  rewrite (bool_decide_eq_true_2 (inquote _ = QSingle)), (bool_decide_eq_false_2 (inquote _ = QNo))
    by done.
  rewrite !ends_with_snoc, !andb_false_r.
  destruct (Z.eqb_spec DQUOTE c) as [_|_]; [done|].
  destruct (Z.eqb_spec SQUOTE c) as [<-|_]; [done|].
  destruct (Z.eqb_spec NL c) as [<-|_]; [|done].
  exfalso. revert Hc. apply (bool_decide_unpack _). vm_compute. exact I.
Qed.

Lemma kv_blocks_single m v acc : Forall (fun c => c <> SQUOTE) v ->
  kv_blocks m (quoting QSingle acc) (split_inclusive (one_of specials) (v ++ [SQUOTE; NL]))
  = Ok (quoting QNo (acc ++ v)).
Proof.
  remember (length v) as n eqn:Hn. revert v acc Hn.
  induction n as [n IH] using (well_founded_induction lt_wf). intros v acc Hn Hv.
  destruct (span_run (one_of specials) v) as (q & rest & -> & Hq & [->|(c & r & -> & Hc)]).
  - rewrite app_nil_r. rewrite split_inclusive_run by done.
    change (split_inclusive _ [NL]) with [[NL]].
    cbn [kv_blocks]. rewrite kv_block_sq_end. cbn [rbind]. by rewrite kv_block_nl.
  - apply Forall_app in Hv as [_ Hv]. apply Forall_cons in Hv as [Hcs Hr].
    rewrite <-app_assoc. cbn [app]. rewrite split_inclusive_run by done.
    cbn [kv_blocks]. rewrite kv_block_sq_text by done. cbn [rbind].
    rewrite (IH (length r)); [|rewrite Hn, length_app; simpl; lia|done|done].
    by rewrite <-!app_assoc.
Qed.

Lemma contains_bad_special k : contains_any bad_key_chars k = false ->
  Forall (fun c => one_of bad_key_chars c = false) k.
Proof.
  unfold contains_any. induction k as [|c k IH]; [constructor|]. simpl.
  intros [? ?]%orb_false_elim. constructor; auto.
Qed.

(** The frame every quoted line shares: the key is split off and kept. *)
Lemma kv_process_quoted k q rest m st :
  key_ok k -> kv_blocks m kv_init (split_inclusive (one_of specials) (q :: rest)) = Ok st ->
  inquote st = QNo ->
  kv_process (k ++ 61 :: q :: rest) m = (Ok (Some (k, unquoted_val st)), []).
Proof.
  intros (Hbad & Heq & c & r & Hk & Hc) Hst Hq. unfold kv_process.
  assert (trim_start (k ++ 61 :: q :: rest) = k ++ 61 :: q :: rest) as ->.
  { rewrite Hk. apply trim_start_id. intros; by apply not_space_byte_spec. }
  assert (starts_with (B "#") (k ++ 61 :: q :: rest) = false) as ->.
  { apply contains_bad_special in Hbad. rewrite Hk in Hbad |- *.
    apply Forall_cons in Hbad as [Hb _].
    apply not_true_is_false. intros (s & Hs)%starts_with_spec. simpl in Hs.
    injection Hs as -> _. done. }
  rewrite bool_decide_eq_false_2 by (by destruct k). cbn [orb].
  rewrite split_once_run by done. rewrite bool_decide_eq_false_2 by (by rewrite Hk).
  rewrite Hbad, Hst. by rewrite bool_decide_eq_true_2 by done.
Qed.

Lemma kv_process_print_eq k v m : key_ok k ->
  kv_process (kv_print k v) m = (Ok (Some (k, v)), []).
Proof.
  intros Hk. unfold kv_print. erewrite kv_process_quoted; [|done| |].
  - by instantiate (1 := quoting QNo v).
  - change (DQUOTE :: kv_escape v ++ [DQUOTE; NL]) with ([] ++ DQUOTE :: (kv_escape v ++ [DQUOTE; NL])).
    rewrite split_inclusive_run by done. cbn [kv_blocks app].
    change (kv_block m kv_init [DQUOTE]) with (@Ok bytes flow (Next (quoting QDouble []))).
    cbn [rbind]. apply kv_blocks_escaped.
  - done.
Qed.

Lemma kv_process_print_single_eq k v m : key_ok k -> Forall (fun c => c <> SQUOTE) v ->
  kv_process (kv_print_single k v) m = (Ok (Some (k, v)), []).
Proof.
  intros Hk Hv. unfold kv_print_single. erewrite kv_process_quoted; [|done| |].
  - by instantiate (1 := quoting QNo v).
  - change (SQUOTE :: v ++ [SQUOTE; NL]) with ([] ++ SQUOTE :: (v ++ [SQUOTE; NL])).
    rewrite split_inclusive_run by done. cbn [kv_blocks app].
    change (kv_block m kv_init [SQUOTE]) with (@Ok bytes flow (Next (quoting QSingle []))).
    cbn [rbind]. by apply kv_blocks_single.
  - done.
Qed.

(** ** The driver: termination, keys, whole files *)

Lemma kv_read_line_ok rdr linenum buf n rdr' buf' :
  kv_read_line rdr linenum buf = (Ok n, rdr', buf') -> n <> 0 ->
  (length (rd_data rdr') < length (rd_data rdr))%nat.
Proof.
  unfold kv_read_line. destruct (read_line rdr buf) as [[[k|e|] r1] b1] eqn:Hr; try done.
  intros H Hn. assert (k = n /\ r1 = rdr') as [-> ->].
  { destruct (_ && _); [done|]. destruct (_ <? _); [done|]. by simplify_eq. }
  apply read_line_progress in Hr as [(? & _)|[_ ?]]; done.
Qed.

Lemma kv_read_line_no_panic rdr linenum buf rdr' buf' :
  kv_read_line rdr linenum buf <> (Panic, rdr', buf').
Proof.
  unfold kv_read_line, read_line. destruct (take_until is_nl (rd_data rdr)) as [l r].
  destruct (rd_err rdr), (ends_with [NL] l), (utf8_valid l); simpl; try done;
    destruct (_ && _); try done; destruct (_ <? _); done.
Qed.

(** One line per iteration: the fuel is enough, and nothing panics. *)
Lemma kv_loop_total fuel sep linenum rdr buffer m :
  (length (rd_data rdr) < fuel)%nat ->
  exists r m', kv_loop fuel sep linenum rdr buffer m = Some (r, m') /\ r <> Panic.
Proof.
  revert linenum rdr buffer m. induction fuel as [|f IH]; intros linenum rdr buffer m Hf; [lia|].
  simpl. destruct (kv_read_line rdr linenum buffer) as [[[n|e|] rdr'] buffer'] eqn:Hr.
  - destruct (Z.eqb_spec n 0) as [_|Hn]; [eauto|].
    pose proof (kv_read_line_ok _ _ _ _ _ _ Hr Hn).
    pose proof (kv_process_outcome buffer' (default m sep)) as Ho.
    destruct (kv_process _ _) as [[kv|e|] buffer'']; [|eauto|done].
    apply IH. lia.
  - eauto.
  - by apply kv_read_line_no_panic in Hr.
Qed.

Lemma kv_append_loop rdr m : exists r m',
  kv_loop (kv_fuel rdr) None 1 rdr [] m = Some (r, m') /\
  kv_conf_process_append rdr m = (r, m') /\ r <> Panic.
Proof.
  destruct (kv_loop_total (kv_fuel rdr) None 1 rdr [] m) as (r & m' & H & Hr);
    [unfold kv_fuel; lia|].
  exists r, m'. unfold kv_conf_process_append. by rewrite H.
Qed.

(** What every key of a parsed map satisfies. *)
Definition kv_key_valid (k : bytes) : Prop := k <> [] /\ contains_any bad_key_chars k = false.
Definition kv_map_valid (m : kvmap) : Prop := forall k v, m !! k = Some v -> kv_key_valid k.

Lemma kv_process_key line m k v line' :
  kv_process line m = (Ok (Some (k, v)), line') -> kv_key_valid k.
Proof.
  unfold kv_process. destruct (_ || _); [done|].
  destruct (split_once _ _) as [[key val]|]; [|done].
  destruct (bool_decide_reflect (key = [])); [done|].
  destruct (contains_any _ _) eqn:Hc; [done|].
  destruct (kv_blocks _ _ _); [|done..]. destruct (bool_decide _); [|done].
  intros. simplify_eq. done.
Qed.

Lemma kv_map_valid_insert m k v : kv_map_valid m -> kv_key_valid k -> kv_map_valid (<[k := v]> m).
Proof.
  intros Hm Hk k' v'. rewrite lookup_insert. case_decide; [by subst|]. apply Hm.
Qed.

Lemma kv_loop_keys fuel sep linenum rdr buffer m r m' :
  kv_map_valid m -> kv_loop fuel sep linenum rdr buffer m = Some (r, m') -> kv_map_valid m'.
Proof.
  revert linenum rdr buffer m. induction fuel as [|f IH]; intros linenum rdr buffer m Hm; [done|].
  simpl. destruct (kv_read_line rdr linenum buffer) as [[[n|e|] rdr'] buffer'];
    [|intros; by simplify_eq..].
  destruct (n =? 0); [intros; by simplify_eq|].
  destruct (kv_process _ _) as [[kv|e|] buffer''] eqn:Hp; [|intros; by simplify_eq..].
  apply IH. destruct kv as [[k v]|]; [|done].
  apply kv_map_valid_insert; [done|]. by eapply kv_process_key.
Qed.

(** The assignments made by the loop when variables come from elsewhere do not
    depend on the map they are stored in. *)
Definition insert_all (kvs : list (bytes * bytes)) (m : kvmap) : kvmap :=
  foldl (fun m kv => <[kv.1 := kv.2]> m) m kvs.

Lemma kv_loop_separate fuel varmap linenum rdr buffer :
  (length (rd_data rdr) < fuel)%nat ->
  exists r kvs, forall m,
    kv_loop fuel (Some varmap) linenum rdr buffer m = Some (r, insert_all kvs m).
Proof.
  revert linenum rdr buffer. induction fuel as [|f IH]; intros linenum rdr buffer Hf; [lia|].
  simpl. destruct (kv_read_line rdr linenum buffer) as [[[n|e|] rdr'] buffer'] eqn:Hr;
    [|by exists (Err e), []|by exists Panic, []].
  destruct (Z.eqb_spec n 0) as [_|Hn]; [by exists (Ok tt), []|].
  destruct (kv_process _ _) as [[kv|e|] buffer'']; [|by eexists _, []|by exists Panic, []].
  pose proof (kv_read_line_ok _ _ _ _ _ _ Hr Hn).
  destruct (IH (linenum + 1) rdr' buffer'') as (r & kvs & Hk); [lia|].
  exists r. destruct kv as [[k v]|].
  - exists ((k, v) :: kvs). intros m. by rewrite Hk.
  - by exists kvs.
Qed.

(** A printed configuration: one quoted line per entry. *)
Definition kv_print_conf (kvs : list (bytes * bytes)) : bytes :=
  concat ((fun kv => kv_print kv.1 kv.2) <$> kvs).

(** An entry that fits on a line of the file. *)
Definition kv_entry_ok (kv : bytes * bytes) : Prop :=
  key_ok kv.1 /\ Forall (fun c => is_nl c = false) kv.1 /\
  Forall (fun c => is_nl c = false) kv.2 /\ utf8_valid kv.1 = true /\ utf8_valid kv.2 = true /\
  Z.of_nat (length (kv_print kv.1 kv.2)) <= CONF_LINE_MAX.

Lemma kv_escape_ascii c : ascii_ok c ->
  utf8_valid (if one_of specials c then [BACKSLASH; c] else [c]) = true.
Proof.
  intros Hc. assert (ascii_ok BACKSLASH) by (split; done). apply utf8_valid_ascii.
  destruct (one_of specials c); eauto using Forall_cons_2, Forall_nil_2.
Qed.

Lemma specials_ascii c : one_of specials c = true -> in_range 0 127 c = true.
Proof.
  intros Hc%one_of_spec. revert c Hc. apply Forall_forall. repeat constructor.
Qed.

Lemma kv_escape_high c r : in_range 0 127 c = false -> kv_escape (c :: r) = c :: kv_escape r.
Proof.
  intros Hc. rewrite kv_escape_cons. destruct (one_of specials c) eqn:Hs; [|done].
  apply specials_ascii in Hs. congruence.
Qed.

Lemma high_cont c : utf8_cont c = true -> in_range 0 127 c = false.
Proof. unfold utf8_cont, in_range. lia. Qed.
Lemma utf8_2_high b c : utf8_2 b c = true -> in_range 0 127 c = false.
Proof. unfold utf8_2, utf8_cont, in_range. lia. Qed.
Lemma utf8_3_lead_high b c : utf8_3_lead b c = true -> in_range 0 127 c = false.
Proof. unfold utf8_3_lead, utf8_cont, in_range. lia. Qed.
Lemma utf8_4_lead_high b c : utf8_4_lead b c = true -> in_range 0 127 c = false.
Proof. unfold utf8_4_lead, utf8_cont, in_range. lia. Qed.

Lemma utf8_valid_escape v : utf8_valid v = true -> utf8_valid (kv_escape v) = true.
Proof.
  remember (length v) as n eqn:Hn. revert v Hn.
  induction n as [n IH] using (well_founded_induction lt_wf). intros v Hn Hv.
  destruct v as [|b r]; [done|]. simpl in Hv, Hn.
  destruct (in_range 0 127 b) eqn:Hb.
  { rewrite kv_escape_cons. apply utf8_valid_app.
    - apply kv_escape_ascii. apply in_range_spec in Hb. unfold ascii_ok. lia.
    - eapply IH; [|done|done]. lia. }
  rewrite kv_escape_high by done. destruct r as [|c1 r1]; [done|]. simpl in Hn.
  destruct (utf8_2 b c1) eqn:H2.
  { rewrite kv_escape_high by (by eapply utf8_2_high). simpl. rewrite Hb, H2.
    eapply IH; [|done|done]. lia. }
  destruct r1 as [|c2 r2]; [done|]. simpl in Hn.
  destruct (utf8_3_lead b c1 && utf8_cont c2) eqn:H3.
  { pose proof H3 as [Ha Hc]%andb_prop.
    rewrite !kv_escape_high by eauto using utf8_3_lead_high, high_cont.
    simpl. rewrite Hb, H2, H3. eapply IH; [|done|done]. lia. }
  destruct r2 as [|c3 r3]; [done|]. simpl in Hn.
  pose proof Hv as [[[Ha Hc]%andb_prop Hd]%andb_prop Hr]%andb_prop.
  rewrite !kv_escape_high by eauto using utf8_4_lead_high, high_cont.
  simpl. rewrite Hb, H2, H3, Ha, Hc, Hd. simpl. eapply IH; [|done|done]. lia.
Qed.

Lemma kv_escape_no_nl v : Forall (fun c => is_nl c = false) v ->
  Forall (fun c => is_nl c = false) (kv_escape v).
Proof.
  induction 1 as [|c v Hc _ IH]; [constructor|]. rewrite kv_escape_cons.
  apply Forall_app. split; [|done]. destruct (one_of specials c); repeat constructor; done.
Qed.

(** the line without its newline *)
Definition kv_print_body (k v : bytes) : bytes := k ++ 61 :: DQUOTE :: kv_escape v ++ [DQUOTE].

Lemma kv_print_line k v : kv_print k v = kv_print_body k v ++ [NL].
Proof. unfold kv_print, kv_print_body. rewrite <-app_assoc. simpl. by rewrite <-app_assoc. Qed.

Lemma kv_read_printed kv rest linenum : kv_entry_ok kv ->
  exists n, kv_read_line (reader_of (kv_print kv.1 kv.2 ++ rest)) linenum []
            = (Ok n, reader_of rest, kv_print kv.1 kv.2) /\ n <> 0.
Proof.
  intros (_ & Hk & Hv & Huk & Huv & Hlen). unfold kv_read_line, read_line, reader_of. simpl.
  rewrite kv_print_line, <-app_assoc. cbn [app]. rewrite take_until_run.
  - rewrite <-kv_print_line.
    assert (utf8_valid (kv_print kv.1 kv.2) = true) as ->.
    { unfold kv_print. apply utf8_valid_app; [done|].
      change (61 :: DQUOTE :: kv_escape kv.2 ++ [DQUOTE; NL])
        with ([61; DQUOTE] ++ kv_escape kv.2 ++ [DQUOTE; NL]).
      repeat (apply utf8_valid_app; [first [done|by apply utf8_valid_escape]|]). done. }
    cbn [app]. exists (Z.of_nat (length (kv_print kv.1 kv.2))).
    assert (0 < Z.of_nat (length (kv_print kv.1 kv.2))).
    { rewrite kv_print_line, length_app. simpl. lia. }
    replace (_ =? 0) with false by lia. cbn [andb].
    replace (CONF_LINE_MAX <? _) with false by lia. split; [done|lia].
  - unfold kv_print_body. apply Forall_app. split; [done|].
    repeat (constructor; [done|]). apply Forall_app. split; [by apply kv_escape_no_nl|].
    by repeat constructor.
  - done.
Qed.

Lemma kv_loop_printed kvs fuel linenum m :
  Forall kv_entry_ok kvs -> (length kvs < fuel)%nat ->
  kv_loop fuel None linenum (reader_of (kv_print_conf kvs)) [] m
  = Some (Ok tt, insert_all kvs m).
Proof.
  intros Hkvs. revert fuel linenum m.
  induction Hkvs as [|[k v] kvs Hkv _ IH]; intros fuel linenum m Hf.
  { destruct fuel; [simpl in *; lia|]. done. }
  destruct fuel as [|f]; [lia|]. change (kv_print_conf ((k, v) :: kvs))
    with (kv_print k v ++ kv_print_conf kvs).
  destruct (kv_read_printed (k, v) (kv_print_conf kvs) linenum Hkv) as (n & Hr & Hn).
  simpl fst in Hr; simpl snd in Hr. cbn [kv_loop]. rewrite Hr.
  rewrite (proj2 (Z.eqb_neq _ _) Hn).
  rewrite kv_process_print_eq by apply Hkv. rewrite IH by (simpl in *; lia). done.
Qed.

Lemma kv_print_conf_length kvs : (length kvs <= length (kv_print_conf kvs))%nat.
Proof.
  induction kvs as [|[k v] kvs IH]; [done|].
  change (kv_print_conf ((k, v) :: kvs)) with (kv_print k v ++ kv_print_conf kvs).
  rewrite kv_print_line, !length_app. simpl. lia.
Qed.

(** ** Properties *)

(** C15. Printing and parsing are inverse: a configuration file made of one
    escaped, double quoted line per entry is read back entry by entry (a later
    entry overwrites an earlier one), whatever the values hold: quotes,
    backslashes, dollar signs, spaces and any UTF-8 text. *)
Theorem kv_conf_roundtrip kvs :
  Forall kv_entry_ok kvs ->
  kv_conf_process (reader_of (kv_print_conf kvs)) = Ok (insert_all kvs ∅).
Proof.
  intros Hkvs. unfold kv_conf_process, kv_conf_process_append.
  rewrite kv_loop_printed; [done|done|]. unfold kv_fuel. simpl.
  pose proof (kv_print_conf_length kvs). lia.
Qed.

Lemma kv_conf_roundtrip_witness :
  kv_conf_process (reader_of (kv_print_conf
    [(B "A", B "x y$z"); (B "B_1", [DQUOTE; BACKSLASH; SQUOTE]); (B "A", [])]))
  = Ok (insert_all [(B "A", B "x y$z"); (B "B_1", [DQUOTE; BACKSLASH; SQUOTE]); (B "A", [])] ∅).
Proof.
  apply (kv_conf_roundtrip [(B "A", B "x y$z"); (B "B_1", [DQUOTE; BACKSLASH; SQUOTE]); (B "A", [])]).
  repeat constructor; try (vm_compute; reflexivity); try (vm_compute; discriminate);
    eexists _, _; split; reflexivity.
Defined.

(** Single quotes are literal: a value without a single quote is read back
    unchanged from [key='value'], no character in it is special. *)
Theorem kv_process_single_quoted k v m :
  key_ok k -> Forall (fun c => c <> SQUOTE) v ->
  kv_process (kv_print_single k v) m = (Ok (Some (k, v)), []).
Proof. apply kv_process_print_single_eq. Qed.

Lemma kv_process_single_quoted_witness :
  kv_process (kv_print_single (B "k") (B "a\${k} # b")) ∅ = (Ok (Some (B "k", B "a\${k} # b")), []).
Proof.
  apply (kv_process_single_quoted (B "k") (B "a\${k} # b") ∅).
  - split_and!; [reflexivity|by repeat constructor|by eexists _, _].
  - repeat constructor; discriminate.
Defined.

(** C26. Every line is handled: [kv_process] never panics (no [unwrap] or
    [assert] of it can fail), and when it fails the line is kept and the
    message is one of eight; the message ["expected escaped char at split
    boundary"] is not among them, that branch is dead. *)
Theorem kv_process_safe line m :
  match kv_process line m with
  | (Ok _, _) => True
  | (Err e, line') =>
      line' = line /\ e ∈ kv_errors /\ e <> B "expected escaped char at split boundary"
  | (Panic, _) => False
  end.
Proof.
  pose proof (kv_process_outcome line m) as H.
  destruct (kv_process line m) as [[o|e|] l]; [done| |done].
  destruct H as [He ->]. split_and!; [done..|]. intros ->. revert He.
  apply (bool_decide_unpack (_ ∉ _)). vm_compute. exact I.
Qed.

(** Parsing terminates on every source, also one that fails to deliver: the
    loop stops within one iteration per byte, with a result and no panic. *)
Theorem kv_conf_process_append_terminates rdr m :
  exists r m', kv_loop (kv_fuel rdr) None 1 rdr [] m = Some (r, m') /\
    kv_conf_process_append rdr m = (r, m') /\ r <> Panic.
Proof. apply kv_append_loop. Qed.

(** C27. Keys are well formed: whatever is read, every key of the resulting map
    is non-empty and without quotes, slashes, spaces, dollar, hash, dot or back
    quote, provided the map it is added to has such keys. *)
Theorem kv_conf_keys_valid rdr m :
  kv_map_valid m -> kv_map_valid (snd (kv_conf_process_append rdr m)).
Proof.
  intros Hm. destruct (kv_append_loop rdr m) as (r & m' & Hl & -> & _).
  by eapply kv_loop_keys.
Qed.

Lemma kv_conf_keys_valid_witness :
  kv_map_valid (snd (kv_conf_process_append (reader_of (B "a=1")) (∅ : kvmap))).
Proof. apply (kv_conf_keys_valid (reader_of (B "a=1")) ∅). intros k v H. by rewrite lookup_empty in H. Defined.

(** With a separate variable map the entries stored do not depend on the map
    they are stored in: the same assignments are made to every map. *)
Theorem kv_separate_independent rdr varmap :
  exists r kvs, forall m,
    kv_conf_process_append_separate rdr varmap m = (r, insert_all kvs m).
Proof.
  destruct (kv_loop_separate (kv_fuel rdr) varmap 1 rdr []) as (r & kvs & H).
  { unfold kv_fuel. lia. }
  exists r, kvs. intros m. unfold kv_conf_process_append_separate. by rewrite H.
Qed.

(** C39. What a variable reference followed by text becomes: the value and the
    text up to and including the next brace; the text after that is lost. *)
Theorem kv_var_sub_spec key val text m :
  Forall (fun c => one_of (B "{}") c = false) key -> m !! key = Some val ->
  kv_var_sub (B "{" ++ key ++ B "}" ++ text) m
  = Ok (val ++ match split_inclusive (one_of (B "{}")) text with t :: _ => t | [] => [] end).
Proof.
  intros Hk Hm. unfold kv_var_sub.
  change (B "{" ++ key ++ B "}" ++ text) with ([] ++ 123 :: (key ++ 125 :: text)).
  rewrite split_inclusive_run by done. rewrite split_inclusive_run by done.
  rewrite bool_decide_eq_true_2 by done.
  change [125] with (B "}"). by rewrite strip_suffix_app, Hm.
Qed.

Lemma kv_var_sub_spec_witness :
  kv_var_sub (B "{" ++ B "a" ++ B "}" ++ B "-{b}") {[B "a" := B "1"]} = Ok (B "1" ++ B "-{").
Proof.
  apply (kv_var_sub_spec (B "a") (B "1") (B "-{b}") {[B "a" := B "1"]});
    [by repeat constructor|apply lookup_singleton_eq].
Defined.
