(* ===== verification/Cpio.v ===== *)
(** * cpio: writing newc archives (src/src/cpio/src/lib.rs)

    The archive state counts the bytes emitted and the inode numbers handed out;
    [archive_path], [archive_symlink], [archive_file] and [archive_trailer] emit
    one entry each, over any writer. The theorems at the end describe the bytes
    of a successful call and keep the state's invariants; the reader and the
    round trip are in [CpioWalk] and [CpioArchive]. *)

From S2P Require Import Prelude RustStr RustPath RustIo.

Definition NEWC_HDR_LEN : Z := 110.
Definition PATH_MAX : Z := 4096.

Definition S_IFIFO : Z := 0x1000. (* 0o010000 *)
Definition S_IFCHR : Z := 0x2000. (* 0o020000 *)
Definition S_IFDIR : Z := 0x4000. (* 0o040000 *)
Definition S_IFBLK : Z := 0x6000. (* 0o060000 *)
Definition S_IFREG : Z := 0x8000. (* 0o100000 *)
Definition S_IFLNK : Z := 0xa000. (* 0o120000 *)
Definition S_IFSOCK : Z := 0xc000. (* 0o140000 *)
Definition S_IFMT : Z := 0xf000. (* 0o170000 *)

Record ArchiveProperties := MkProps {
  initial_ino : Z;
  data_align : Z;
  namesize_max : Z;
  initial_data_off : Z;
  fixed_mtime : option Z;
  fixed_uid : option Z;
  fixed_gid : option Z;
}.

Definition props_default : ArchiveProperties :=
  MkProps 0 0 PATH_MAX 0 None None None.

Record ArchiveState := MkState { props : ArchiveProperties; off : Z; ino : Z }.

Definition state_new (p : ArchiveProperties) : ArchiveState := MkState p 0 (initial_ino p).

Record ArchiveMd := MkMd {
  nlink : Z;
  mode : Z;
  uid : Z;
  gid : Z;
  mtime : Z;
  rmajor : Z;
  rminor : Z;
  len : Z;
}.

#[export] Instance ArchiveMd_eq_dec : EqDecision ArchiveMd.
Proof. solve_decision. Defined.

(** [std::fs::Metadata], as reported by stat *)
Record Metadata := MkStat {
  st_mtime : Z;
  st_mode : Z;
  st_rdev : Z;
  st_nlink : Z;
  st_len : Z;
  st_uid : Z;
  st_gid : Z;
}.

Definition file_type (m : Z) : Z := Z.land m S_IFMT.
Definition is_type (m t : Z) : bool := file_type m =? t.

(** the major and minor numbers of a 64 bit [dev_t], cast to [u32] *)
Definition rdev_major (rd : Z) : Z :=
  wrap32 (Z.lor (Z.land (Z.shiftr rd 32) 0xfffff000) (Z.land (Z.shiftr rd 8) 0x00000fff)).
Definition rdev_minor (rd : Z) : Z :=
  wrap32 (Z.lor (Z.land (Z.shiftr rd 12) 0xffffff00) (Z.land rd 0x000000ff)).

(** [ArchiveMd::from] *)
Definition archive_md_from (state : ArchiveState) (md : Metadata) : io ArchiveMd :=
  let? mt := match fixed_mtime (props state) with
             | Some t => Ok t
             | None => ok_or (u32_try_from (st_mtime md))
                             (err_new InvalidInput "mtime too large for cpio")
             end in
  let '(nl, rmaj, rmin) :=
    if is_type (st_mode md) S_IFBLK || is_type (st_mode md) S_IFCHR
    then (u32_try_from (st_nlink md), rdev_major (st_rdev md), rdev_minor (st_rdev md))
    else if is_type (st_mode md) S_IFREG then (Some 1, 0, 0)
    else (u32_try_from (st_nlink md), 0, 0) in
  let? l := ok_or (u32_try_from (st_len md)) (err_new InvalidInput "file too large for newc") in
  let? nl' := ok_or nl (err_new InvalidInput "nlink too large") in
  Ok {| nlink := nl'; mode := st_mode md;
        uid := match fixed_uid (props state) with Some u => u | None => st_uid md end;
        gid := match fixed_gid (props state) with Some g => g | None => st_gid md end;
        mtime := mt; rmajor := rmaj; rminor := rmin; len := l |}.

Definition path_trim_prefixes (p : path) : io bytes :=
  let outpath := match strip_root p with
                 | Some q => if bool_decide (q = []) then p else q
                 | None => p
                 end in
  let fname := match strip_curdir outpath with
               | Some q => if bool_decide (q = []) then outpath else q
               | None => outpath
               end in
  if PATH_MAX <=? Z.of_nat (length fname) + 1 then Err (err_new InvalidInput "path too long")
  else Ok fname.

(** [alignment] is not zero: every caller passes 4, 512 or a tested [data_align]. *)
Definition archive_padlen (off alignment : Z) : Z :=
  (alignment - Z.land off (alignment - 1)) mod alignment.

(** the thirteen fields [NEWC_HDR_FMT] formats after the magic *)
Record NewcHdr := MkHdr {
  h_ino : Z; h_mode : Z; h_uid : Z; h_gid : Z; h_nlink : Z; h_mtime : Z; h_filesize : Z;
  h_major : Z; h_minor : Z; h_rmajor : Z; h_rminor : Z; h_namesize : Z; h_chksum : Z;
}.

Definition hdr_fields (h : NewcHdr) : list Z :=
  [h_ino h; h_mode h; h_uid h; h_gid h; h_nlink h; h_mtime h; h_filesize h; h_major h;
   h_minor h; h_rmajor h; h_rminor h; h_namesize h; h_chksum h].

Definition newc_magic : bytes := B "070701".

(** [NEWC_HDR_FMT] with [magic = "070701"] *)
Definition newc_hdr_fmt (h : NewcHdr) : bytes :=
  newc_magic ++ concat (fmt_HEX 8 <$> hdr_fields h).

Definition zeros (n : Z) : bytes := replicate (Z.to_nat n) 0.

(** ["\0\0\0"] *)
Definition pad3 : bytes := [0; 0; 0].

Section Writer.
Context {W : Type} `{Write W}.

Definition Arch (A : Type) : Type := SM (ArchiveState * W) io_error A.

(** [writer.write_all(b)?] and [write!(writer, ..)?] *)
Definition emit (b : bytes) : Arch unit := fun '(st, w) =>
  let '(r, w') := write_all b w in (r, (st, w')).

(** [writer.flush()] *)
Definition flush_writer : Arch unit := fun '(st, w) =>
  let '(r, w') := flush w in (r, (st, w')).

(** [state.off += n] *)
Definition add_off (n : Z) : Arch unit :=
  smodify (fun '(st, w) => (MkState (props st) (wrap64 (off st + n)) (ino st), w)).

Definition get_state : Arch ArchiveState := fun '(st, w) => (Ok st, (st, w)).

(** [let i = state.ino; state.ino += 1; i] *)
Definition next_ino : Arch Z := fun '(st, w) =>
  (Ok (ino st), (MkState (props st) (off st) (wrap32 (ino st + 1)), w)).

(** the header of an entry, with the inode number allotted to it *)
Definition emit_hdr (md : ArchiveMd) (filesize namesize : Z) : Arch unit :=
  let* i := next_ino in
  do* emit (newc_hdr_fmt {| h_ino := i; h_mode := mode md; h_uid := uid md; h_gid := gid md;
              h_nlink := nlink md; h_mtime := mtime md; h_filesize := filesize;
              h_major := 0; h_minor := 0; h_rmajor := rmajor md; h_rminor := rminor md;
              h_namesize := namesize; h_chksum := 0 |}) ;;
  add_off NEWC_HDR_LEN.

(** the zero bytes after a name or a data segment *)
Definition emit_zeros (n : Z) : Arch unit :=
  do* emit (zeros n) ;; add_off n.

(** the padding after a data segment *)
Definition emit_padding : Arch unit :=
  let* st := get_state in
  let dpad_len := archive_padlen (off st) 4 in
  do* emit (fmt_prec (Z.to_nat dpad_len) pad3) ;;
  add_off dpad_len.

Definition archive_path (p : path) (md : ArchiveMd) : Arch unit :=
  let* fname := slift (path_trim_prefixes p) in
  if (is_type (mode md) S_IFREG && (0 <? len md)) || is_type (mode md) S_IFLNK then
    sfail (err_new InvalidInput "archive_path does not support data files or symlinks")
  else
    do* emit_hdr md 0 (zlen fname + 1) ;;
    do* emit fname ;;
    do* add_off (zlen fname) ;;
    let* st := get_state in
    emit_zeros (1 + archive_padlen (wrap64 (off st + 1)) 4).

Definition archive_symlink (p : path) (md : ArchiveMd) (symlink_tgt : path) : Arch unit :=
  let* fname := slift (path_trim_prefixes p) in
  if PATH_MAX <=? zlen symlink_tgt then
    sfail (err_new InvalidInput "symlink path too long")
  else if negb (is_type (mode md) S_IFLNK) then sfail (err_from InvalidInput)
  else
    do* emit_hdr md (zlen symlink_tgt) (zlen fname + 1) ;;
    do* emit fname ;;
    do* add_off (zlen fname) ;;
    let* st := get_state in
    do* emit_zeros (1 + archive_padlen (wrap64 (off st + 1)) 4) ;;
    do* emit symlink_tgt ;;
    do* add_off (zlen symlink_tgt) ;;
    emit_padding.

(** the zeros injected after the file name to align the data segment *)
Definition data_align_seek (st : ArchiveState) (fname : bytes) (md : ArchiveMd) : io Z :=
  let p := props st in
  if (0 <? data_align p) && (data_align p <? len md) then
    let l := archive_padlen
               (wrap64 (initial_data_off p + off st + NEWC_HDR_LEN + zlen fname + 1))
               (data_align p) in
    let padded_namesize := l + zlen fname + 1 in
    if namesize_max p <? padded_namesize then Ok 0
    else unwrap (u32_try_from l)
  else Ok 0.

(** the data segment of [archive_file] *)
Definition copy_data (md : ArchiveMd) (reader : Reader) : Arch unit :=
  if 0 <? len md then
    let* copied := (fun '(st, w) => let '(r, w') := io_copy reader w in (r, (st, w'))) in
    if negb (copied =? len md) then
      sfail (err_new UnexpectedEof "copy returned unexpected length")
    else
      do* add_off (len md) ;;
      emit_padding
  else sret tt.

(** how many zeros follow the name: its terminator, and either the injected
    alignment (asserted to keep the 4-byte alignment) or the padding *)
Definition name_zeros (seek : Z) : Arch Z :=
  let* st := get_state in
  if 0 <? seek then
    do* sassert (archive_padlen (wrap64 (off st + (1 + seek))) 4 =? 0) ;;
    sret (1 + seek)
  else sret (1 + archive_padlen (wrap64 (off st + 1)) 4).

Definition archive_file (p : path) (md : ArchiveMd) (reader : Reader) : Arch unit :=
  let* fname := slift (path_trim_prefixes p) in
  if negb (is_type (mode md) S_IFREG) then sfail (err_new InvalidInput "not a file")
  else
    let* st := get_state in
    let* seek := slift (data_align_seek st fname md) in
    do* emit_hdr md (len md) (zlen fname + 1 + seek) ;;
    do* emit fname ;;
    do* add_off (zlen fname) ;;
    let* seek_len := name_zeros seek in
    do* emit_zeros seek_len ;;
    copy_data md reader.

Definition trailer_name : bytes := B "TRAILER!!!".

Definition archive_trailer : Arch Z :=
  do* emit (newc_hdr_fmt {| h_ino := 0; h_mode := 0; h_uid := 0; h_gid := 0; h_nlink := 1;
              h_mtime := 0; h_filesize := 0; h_major := 0; h_minor := 0; h_rmajor := 0;
              h_rminor := 0; h_namesize := zlen trailer_name + 1; h_chksum := 0 |}) ;;
  do* add_off NEWC_HDR_LEN ;;
  let* st := get_state in
  let padding_len := archive_padlen (wrap64 (off st + (zlen trailer_name + 1))) 4 in
  do* emit (trailer_name ++ [0] ++ fmt_prec (Z.to_nat padding_len) pad3) ;;
  do* add_off (zlen trailer_name + 1 + padding_len) ;;
  let* st := get_state in
  sret (off st).
End Writer.

Arguments Arch W A : clear implicits.

(** ** Padding arithmetic *)

Lemma land_pow2 x k : 0 <= k -> Z.land x (2 ^ k - 1) = x mod 2 ^ k.
Proof. intros. rewrite <-Z.land_ones by lia. by rewrite Z.ones_equiv, Z.sub_1_r. Qed.

(** For a power of two the padding is the distance to the next multiple. *)
Lemma padlen_pow2 x k : 0 <= k -> archive_padlen x (2 ^ k) = (- x) mod 2 ^ k.
Proof.
  intros Hk. unfold archive_padlen. rewrite land_pow2 by done.
  pose proof (Z.pow_pos_nonneg 2 k).
  replace (2 ^ k - x mod 2 ^ k) with (- (x mod 2 ^ k) + 1 * 2 ^ k) by lia.
  rewrite Z_mod_plus_full.
  rewrite (Z.div_mod x (2 ^ k)) at 2 by lia.
  replace (- (2 ^ k * (x / 2 ^ k) + x mod 2 ^ k))
    with (- (x mod 2 ^ k) + (- (x / 2 ^ k)) * 2 ^ k) by lia.
  by rewrite Z_mod_plus_full.
Qed.

Lemma padlen4 x : archive_padlen x 4 = (- x) mod 4.
Proof. apply (padlen_pow2 x 2). lia. Qed.

Lemma padlen4_range x : 0 <= archive_padlen x 4 < 4.
Proof. rewrite padlen4. by apply Z.mod_pos_bound. Qed.

Lemma padlen4_sum x : (x + archive_padlen x 4) mod 4 = 0.
Proof. rewrite padlen4, Zplus_mod_idemp_r. by rewrite Z.add_opp_diag_r. Qed.

Lemma padlen4_shift a x : a mod 4 = 0 -> archive_padlen (a + x) 4 = archive_padlen x 4.
Proof.
  intros Ha. rewrite !padlen4. rewrite (Z.div_mod a 4), Ha by lia.
  replace (- (4 * (a / 4) + 0 + x)) with (- x + (- (a / 4)) * 4) by lia.
  by rewrite Z_mod_plus_full.
Qed.

(** Any alignment that is a multiple of four, power of two or not, leaves the
    position a multiple of four. *)
Lemma land_mod4 x a : a mod 4 = 0 -> 0 < a -> Z.land x (a - 1) mod 4 = x mod 4.
Proof.
  intros Ha Hp. change 4 with (2 ^ 2). rewrite <-!Z.land_ones by lia.
  rewrite <-Z.land_assoc. f_equal. rewrite Z.land_ones by lia.
  change (Z.ones 2) with 3. rewrite Z.sub_1_r.
  rewrite (Z.div_mod a 4), Ha by lia. change (2 ^ 2) with 4.
  replace (Z.pred (4 * (a / 4) + 0)) with (3 + (a / 4 - 1) * 4) by lia.
  by rewrite Z_mod_plus_full.
Qed.

Lemma padlen_mod4 x a : a mod 4 = 0 -> 0 < a -> (x + archive_padlen x a) mod 4 = 0.
Proof.
  intros Ha Hp. pose proof (land_mod4 x a Ha Hp) as Hl.
  assert (exists q, a = 4 * q) as [q ->].
  { exists (a / 4). pose proof (Z.div_mod a 4). lia. }
  unfold archive_padlen. set (y := Z.land x (4 * q - 1)) in *.
  rewrite (Z.mod_eq (4 * q - y) (4 * q)) by lia.
  replace (x + (4 * q - y - 4 * q * ((4 * q - y) / (4 * q))))
    with (x - y + (q - q * ((4 * q - y) / (4 * q))) * 4) by lia.
  rewrite Z_mod_plus_full, Zminus_mod, Hl. by rewrite Z.sub_diag.
Qed.

Lemma zlen_zeros n : 0 <= n -> zlen (zeros n) = n.
Proof. intros. unfold zlen, zeros. rewrite length_replicate. lia. Qed.

Lemma fmt_prec_pad3 n : 0 <= n < 4 -> fmt_prec (Z.to_nat n) pad3 = zeros n.
Proof.
  intros Hn. assert (n = 0 \/ n = 1 \/ n = 2 \/ n = 3) as [->|[->|[->| ->]]] by lia; done.
Qed.

(** ** The header *)

Definition hdr_ok (h : NewcHdr) : Prop := Forall u32_ok (hdr_fields h).

Lemma newc_hdr_length h : hdr_ok h -> zlen (newc_hdr_fmt h) = NEWC_HDR_LEN.
Proof.
  intros Hh. unfold newc_hdr_fmt. rewrite zlen_app.
  assert (forall l, Forall u32_ok l -> zlen (concat (fmt_HEX 8 <$> l)) = 8 * Z.of_nat (length l)) as Hl.
  { induction 1 as [|n l Hn _ IH]; [done|]. rewrite fmap_cons. cbn [concat].
    rewrite zlen_app, IH. unfold zlen. rewrite length_fmt_HEX8 by done. simpl length. lia. }
  rewrite Hl by done. done.
Qed.

Definition md_ok (md : ArchiveMd) : Prop :=
  u32_ok (nlink md) /\ u32_ok (mode md) /\ u32_ok (uid md) /\ u32_ok (gid md) /\
  u32_ok (mtime md) /\ u32_ok (rmajor md) /\ u32_ok (rminor md) /\ u32_ok (len md).

Definition props_ok (p : ArchiveProperties) : Prop :=
  u32_ok (initial_ino p) /\ u32_ok (data_align p) /\ u32_ok (namesize_max p) /\
  u64_ok (initial_data_off p).

(** The state between two entries: the offset is 4-byte aligned and the machine
    integers are in range. *)
Definition state_ok (st : ArchiveState) : Prop :=
  props_ok (props st) /\ off st mod 4 = 0 /\ 0 <= off st /\ u32_ok (ino st).

(** Room for one more entry, of at most 16 GiB, before the offset wraps. *)
Definition off_room (st : ArchiveState) : Prop := off st < 2 ^ 64 - 2 ^ 34.

(** The header of the entry written for a path. *)
Definition entry_hdr (i : Z) (md : ArchiveMd) (filesize namesize : Z) : NewcHdr :=
  {| h_ino := i; h_mode := mode md; h_uid := uid md; h_gid := gid md; h_nlink := nlink md;
     h_mtime := mtime md; h_filesize := filesize; h_major := 0; h_minor := 0;
     h_rmajor := rmajor md; h_rminor := rminor md; h_namesize := namesize; h_chksum := 0 |}.

(** An entry of the archive format: header, name with its terminator and [seek]
    more zeros counted in namesize, padding, data, padding. *)
Definition entry_bytes (h : NewcHdr) (fname : bytes) (seek : Z) (data : bytes) : bytes :=
  newc_hdr_fmt h ++ fname ++ zeros (1 + seek)
  ++ zeros (archive_padlen (NEWC_HDR_LEN + (zlen fname + 1 + seek)) 4)
  ++ data ++ zeros (archive_padlen (zlen data) 4).

Lemma entry_hdr_ok i md fs ns :
  u32_ok i -> md_ok md -> u32_ok fs -> u32_ok ns -> hdr_ok (entry_hdr i md fs ns).
Proof.
  intros Hi (? & ? & ? & ? & ? & ? & ? & ?) Hfs Hns.
  assert (u32_ok 0) by (split; done). unfold hdr_ok, hdr_fields. simpl.
  repeat (apply Forall_cons; split; [done|]). constructor.
Qed.

Lemma entry_bytes_length h fname seek data :
  hdr_ok h -> 0 <= seek ->
  zlen (entry_bytes h fname seek data)
  = NEWC_HDR_LEN + (zlen fname + 1 + seek)
    + archive_padlen (NEWC_HDR_LEN + (zlen fname + 1 + seek)) 4
    + zlen data + archive_padlen (zlen data) 4.
Proof.
  intros Hh Hs. unfold entry_bytes. rewrite !zlen_app, newc_hdr_length by done.
  rewrite !zlen_zeros by (lia || apply padlen4_range). lia.
Qed.

(** Entries keep the archive 4-byte aligned. *)
Lemma entry_bytes_aligned h fname seek data :
  hdr_ok h -> 0 <= seek -> zlen (entry_bytes h fname seek data) mod 4 = 0.
Proof.
  intros Hh Hs. rewrite entry_bytes_length by done.
  set (n := NEWC_HDR_LEN + _). replace (_ + _) with
    ((n + archive_padlen n 4) + (zlen data + archive_padlen (zlen data) 4)) by lia.
  rewrite Zplus_mod, !padlen4_sum. done.
Qed.

(** ** What a successful call wrote *)

Lemma path_trim_ok p fname : path_trim_prefixes p = Ok fname -> zlen fname + 1 < PATH_MAX.
Proof. unfold path_trim_prefixes, zlen. zbool; intros; simplify_eq; lia. Qed.

(** The state after an entry of [b] bytes. *)
Definition after (st : ArchiveState) (b : bytes) : ArchiveState :=
  MkState (props st) (off st + zlen b) (wrap32 (ino st + 1)).

(** [off += n], with the offset in range *)
Definition adv (st : ArchiveState) (n : Z) : ArchiveState :=
  MkState (props st) (wrap64 (off st + n)) (ino st).

Lemma after_ok st b : state_ok st -> zlen b mod 4 = 0 -> state_ok (after st b).
Proof.
  intros (Hp & Ha & Ho & Hi) Hb. unfold after. split_and!; simpl; [done| |pose proof (zlen_nonneg b); lia|].
  - rewrite Zplus_mod, Ha, Hb. done.
  - apply Z.mod_pos_bound. done.
Qed.

Lemma wrap64_add_l a b : wrap64 (wrap64 a + b) = wrap64 (a + b).
Proof. apply Zplus_mod_idemp_l. Qed.

Lemma adv_adv st a b : adv (adv st a) b = adv st (a + b).
Proof. unfold adv. simpl. by rewrite wrap64_add_l, Z.add_assoc. Qed.

(** The offset arithmetic of one entry does not wrap. *)
Lemma adv_small st n : 0 <= off st -> 0 <= n -> off st + n < 2 ^ 64 ->
  adv st n = MkState (props st) (off st + n) (ino st).
Proof. intros. unfold adv. rewrite wrap64_small by (unfold u64_ok; lia). done. Qed.

Section Writer_facts.
Context {W : Type} `{WriteOk W}.
Implicit Types (st : ArchiveState) (w : W).

Lemma add_off_eq n st w : add_off n (st, w) = (Ok tt, (adv st n, w)).
Proof. done. Qed.

Lemma emit_inv b st w s' :
  emit b (st, w) = (Ok tt, s') -> exists w', s' = (st, w') /\ written w' = written w ++ b.
Proof.
  unfold emit. destruct (write_all b w) as [r w'] eqn:Hw. intros [= -> <-].
  exists w'. split; [done|]. by apply write_all_ok.
Qed.

(** What a flush leaves, after which the number [n] is returned. *)
Lemma flush_inv (n m : Z) st w s' :
  (do* flush_writer ;; sret n) (st, w) = (Ok m, s') -> exists w',
  flush w = (Ok tt, w') /\ m = n /\ s' = (st, w') /\ written w' = written w.
Proof.
  unfold sbind, flush_writer. destruct (flush w) as [[[]|e|] w'] eqn:Hf; [|done..]. intros [= <- <-].
  exists w'. split_and!; try done. by apply flush_ok.
Qed.

Lemma emit_off_inv {A} b n (k : unit -> Arch W A) st w r :
  sbind (emit b) (fun _ => sbind (add_off n) k) (st, w) = r -> is_ok (fst r) = true ->
  exists w', written w' = written w ++ b /\ k tt (adv st n, w') = r.
Proof.
  intros <- Hr. unfold sbind in *.
  destruct (emit b (st, w)) as [[[]|e|] s] eqn:He; [|done..].
  apply emit_inv in He as (w' & -> & Hw). exists w'. split; [done|]. done.
Qed.

Lemma emit_zeros_inv n st w s' :
  emit_zeros n (st, w) = (Ok tt, s') ->
  exists w', s' = (adv st n, w') /\ written w' = written w ++ zeros n.
Proof.
  unfold emit_zeros. intros (u & s & He & Ha)%sbind_inv_ok. destruct u.
  apply emit_inv in He as (w' & -> & Hw). exists w'.
  rewrite add_off_eq in Ha. by simplify_eq.
Qed.

Lemma emit_padding_inv st w s' :
  emit_padding (st, w) = (Ok tt, s') ->
  exists w', s' = (adv st (archive_padlen (off st) 4), w') /\
    written w' = written w ++ zeros (archive_padlen (off st) 4).
Proof.
  unfold emit_padding. unfold sbind at 1. cbn [get_state]. cbv zeta.
  rewrite fmt_prec_pad3 by apply padlen4_range.
  intros (u & s & He & Ha)%sbind_inv_ok. destruct u.
  apply emit_inv in He as (w' & -> & Hw). exists w'.
  rewrite add_off_eq in Ha. by simplify_eq.
Qed.

Lemma emit_hdr_inv md fs ns st w s' :
  emit_hdr md fs ns (st, w) = (Ok tt, s') ->
  exists w', s' = (adv (MkState (props st) (off st) (wrap32 (ino st + 1))) NEWC_HDR_LEN, w')
    /\ written w' = written w ++ newc_hdr_fmt (entry_hdr (ino st) md fs ns).
Proof.
  unfold emit_hdr. intros (i & s & Hi & Hs)%sbind_inv_ok. cbn in Hi. simplify_eq.
  apply sbind_inv_ok in Hs as (u & s & He & Ha). destruct u.
  apply emit_inv in He as (w' & -> & Hw). exists w'.
  rewrite add_off_eq in Ha. by simplify_eq.
Qed.
End Writer_facts.

(** Take a successful sequence of steps apart. *)
Ltac arch_inv :=
  repeat match goal with
  | H : sbind (slift _) _ _ = (Ok _, _) |- _ =>
      apply sbind_inv_ok in H as (? & ? & ? & H)
  | H : sbind get_state _ _ = (Ok _, _) |- _ => unfold sbind at 1 in H; cbn [get_state] in H
  | H : sbind (emit_hdr _ _ _) _ _ = (Ok _, _) |- _ =>
      apply sbind_inv_ok in H as ([] & ? & (? & -> & ?)%emit_hdr_inv & H)
  | H : sbind (emit_zeros _) _ _ = (Ok _, _) |- _ =>
      apply sbind_inv_ok in H as ([] & ? & (? & -> & ?)%emit_zeros_inv & H)
  | H : emit_padding _ = (Ok _, _) |- _ => apply emit_padding_inv in H as (? & ? & ?)
  | H : emit_zeros _ _ = (Ok _, _) |- _ => apply emit_zeros_inv in H as (? & ? & ?)
  | H : sbind (emit _) _ _ = (Ok _, _) |- _ =>
      apply sbind_inv_ok in H as ([] & ? & (? & -> & ?)%emit_inv & H)
  | H : sbind (add_off _) _ _ = (Ok _, _) |- _ => unfold sbind at 1 in H; rewrite add_off_eq in H
  | H : slift _ _ = (Ok _, _) |- _ => unfold slift in H
  | H : sfail _ _ = (Ok _, _) |- _ => discriminate H
  | H : (_, _) = (_, _) |- _ => simplify_eq
  end.

Lemma off_adv st n : off (adv st n) = wrap64 (off st + n).
Proof. done. Qed.

(** Collect the additions to the offset into one. *)
Ltac norm_off := rewrite ?adv_adv, ?off_adv, ?wrap64_add_l; cbn [off ino props].
Ltac norm_off_in H := rewrite ?adv_adv, ?off_adv, ?wrap64_add_l in H; cbn [off ino props] in H.

(** Turn the chain of writes into one equation on the goal. *)
Ltac chain_writes :=
  repeat match goal with
  | Hw : written ?y = written ?z ++ _, Hz : written ?z = _ |- _ =>
      rewrite Hz in Hw; clear Hz; rewrite <-?app_assoc in Hw
  end;
  match goal with
  | Hw : written ?y = _ |- context [written ?y] => rewrite Hw; clear Hw
  end;
  rewrite <-?app_assoc; norm_off.

Lemma zeros_add a b : 0 <= a -> 0 <= b -> zeros (a + b) = zeros a ++ zeros b.
Proof. intros. unfold zeros. rewrite <-replicate_add. f_equal. lia. Qed.

(** The length of header, name field and its padding. *)
Definition name_end (n : Z) : Z := NEWC_HDR_LEN + n + archive_padlen (NEWC_HDR_LEN + n) 4.

Lemma name_end_aligned n : name_end n mod 4 = 0.
Proof. apply padlen4_sum. Qed.

Lemma name_end_bound n : 0 <= n -> NEWC_HDR_LEN + n <= name_end n < NEWC_HDR_LEN + n + 4.
Proof. intros. unfold name_end. pose proof (padlen4_range (NEWC_HDR_LEN + n)). lia. Qed.

Lemma entry_bytes_length' h fname seek data : hdr_ok h -> 0 <= seek ->
  zlen (entry_bytes h fname seek data)
  = name_end (zlen fname + 1 + seek) + zlen data + archive_padlen (zlen data) 4.
Proof. intros. rewrite entry_bytes_length by done. done. Qed.

(** The position after a name and its terminator, as the padding sees it. *)
Lemma name_padlen st n :
  state_ok st -> off_room st -> 0 <= n < 2 ^ 33 ->
  archive_padlen (wrap64 (off st + (NEWC_HDR_LEN + n))) 4
  = archive_padlen (NEWC_HDR_LEN + n) 4.
Proof.
  intros (_ & Ha & Ho & _) Hroom Hn. unfold off_room, NEWC_HDR_LEN in *.
  rewrite wrap64_small by (unfold u64_ok; lia). by apply padlen4_shift.
Qed.

Lemma name_padlen_1 st n :
  state_ok st -> off_room st -> 0 <= n < 2 ^ 32 ->
  archive_padlen (wrap64 (off st + (NEWC_HDR_LEN + n) + 1)) 4
  = archive_padlen (NEWC_HDR_LEN + (n + 1)) 4.
Proof.
  intros. rewrite <-(name_padlen st) by (done || lia). do 2 f_equal. lia.
Qed.

(** The position after a data segment, as the padding sees it. *)
Lemma data_padlen st n d :
  state_ok st -> off_room st -> 0 <= n < 2 ^ 33 -> 0 <= d < 2 ^ 32 ->
  archive_padlen (wrap64 (off st + (name_end n + d))) 4 = archive_padlen d 4.
Proof.
  intros (_ & Ha & Ho & _) Hroom Hn Hd. unfold off_room in *.
  pose proof (name_end_bound n). unfold NEWC_HDR_LEN in *.
  rewrite wrap64_small by (unfold u64_ok; lia). rewrite Z.add_assoc. apply padlen4_shift.
  by rewrite Zplus_mod, Ha, name_end_aligned.
Qed.

(** The state after the additions of a whole entry. *)
Lemma adv_after st b :
  0 <= off st -> off_room st -> zlen b < 2 ^ 34 ->
  adv (MkState (props st) (off st) (wrap32 (ino st + 1))) (zlen b) = after st b.
Proof.
  intros Ho Hr Hb. pose proof (zlen_nonneg b). unfold off_room in Hr.
  apply adv_small; simpl; lia.
Qed.

(** An unaligned name: its zeros in one piece. *)
Lemma entry_bytes_plain h fname data :
  entry_bytes h fname 0 data
  = newc_hdr_fmt h ++ fname
    ++ zeros (1 + archive_padlen (NEWC_HDR_LEN + (zlen fname + 1)) 4)
    ++ data ++ zeros (archive_padlen (zlen data) 4).
Proof.
  unfold entry_bytes. rewrite !Z.add_0_r.
  rewrite zeros_add by (apply padlen4_range || lia). by rewrite <-!app_assoc.
Qed.

Lemma data_align_seek_ok st fname md seek :
  data_align_seek st fname md = Ok seek -> zlen fname + 1 < PATH_MAX ->
  props_ok (props st) -> 0 <= seek /\ zlen fname + 1 + seek < 2 ^ 32.
Proof.
  intros H Hlen (_ & _ & Hm & _). unfold data_align_seek in H.
  pose proof (zlen_nonneg fname). unfold PATH_MAX, u32_ok in *.
  destruct (_ && _); [|simplify_eq; lia].
  destruct (_ <? _) eqn:Hlt in H; [simplify_eq; lia|].
  destruct (u32_try_from _) as [l|] eqn:Hl; simplify_eq/=.
  apply u32_try_from_Some in Hl as [-> Hl]. unfold u32_ok in Hl. lia.
Qed.

Section Writer_specs.
Context {W : Type} `{WriteOk W}.
Implicit Types (st : ArchiveState) (w : W).

Lemma archive_path_ok p md st w st' w' :
  archive_path p md (st, w) = (Ok tt, (st', w')) ->
  state_ok st -> off_room st -> md_ok md ->
  exists fname, path_trim_prefixes p = Ok fname /\
    let b := entry_bytes (entry_hdr (ino st) md 0 (zlen fname + 1)) fname 0 [] in
    written w' = written w ++ b /\ st' = after st b.
Proof.
  intros Hrun Hst Hroom Hmd. pose proof Hst as (Hp & Ha & Ho & Hi).
  unfold archive_path in Hrun. arch_inv.
  rename x into fname, H1 into Hf. exists fname. split; [done|].
  destruct (_ || _); arch_inv.
  pose proof (path_trim_ok _ _ Hf) as Hlen. pose proof (zlen_nonneg fname) as Hpos.
  unfold PATH_MAX in *.
  set (b := entry_bytes _ _ _ _).
  assert (hdr_ok (entry_hdr (ino st) md 0 (zlen fname + 1))) as Hh.
  { apply entry_hdr_ok; try done; unfold u32_ok; lia. }
  chain_writes.
  assert (zlen b = name_end (zlen fname + 1)) as Hb.
  { unfold b. rewrite entry_bytes_length' by done.
    change (archive_padlen (zlen []) 4) with 0. change (zlen []) with 0.
    by rewrite !Z.add_0_r. }
  rewrite name_padlen_1 by (done || lia). split.
  - unfold b. rewrite entry_bytes_plain.
    change (zeros (archive_padlen (zlen []) 4)) with (@nil Z). by rewrite !app_nil_r.
  - rewrite <-adv_after; [f_equal|done|done|].
    + rewrite Hb. unfold name_end. lia.
    + rewrite Hb. pose proof (name_end_bound (zlen fname + 1)). unfold NEWC_HDR_LEN in *. lia.
Qed.

Lemma archive_symlink_ok p md tgt st w st' w' :
  archive_symlink p md tgt (st, w) = (Ok tt, (st', w')) ->
  state_ok st -> off_room st -> md_ok md ->
  exists fname, path_trim_prefixes p = Ok fname /\ zlen tgt < PATH_MAX /\
    let b := entry_bytes (entry_hdr (ino st) md (zlen tgt) (zlen fname + 1)) fname 0 tgt in
    written w' = written w ++ b /\ st' = after st b.
Proof.
  intros Hrun Hst Hroom Hmd. pose proof Hst as (Hp & Ha & Ho & Hi).
  unfold archive_symlink in Hrun. arch_inv.
  rename x into fname, H1 into Hf. exists fname. split; [done|].
  destruct (Z.leb_spec PATH_MAX (zlen tgt)); [arch_inv|].
  destruct (negb _); arch_inv. split; [done|].
  pose proof (path_trim_ok _ _ Hf) as Hlen. pose proof (zlen_nonneg fname) as Hpos.
  pose proof (zlen_nonneg tgt) as Htpos. unfold PATH_MAX in *.
  set (b := entry_bytes _ _ _ _).
  assert (hdr_ok (entry_hdr (ino st) md (zlen tgt) (zlen fname + 1))) as Hh.
  { apply entry_hdr_ok; try done; unfold u32_ok; lia. }
  chain_writes. rewrite name_padlen_1 by (done || lia).
  set (P := archive_padlen (NEWC_HDR_LEN + (zlen fname + 1)) 4).
  replace (NEWC_HDR_LEN + zlen fname + (1 + P + zlen tgt))
    with (name_end (zlen fname + 1) + zlen tgt) by (unfold name_end; lia).
  rewrite data_padlen by (done || lia).
  assert (zlen b = name_end (zlen fname + 1) + zlen tgt + archive_padlen (zlen tgt) 4) as Hb.
  { unfold b. rewrite entry_bytes_length' by done. by rewrite Z.add_0_r. }
  split.
  - unfold b. by rewrite entry_bytes_plain.
  - pose proof (padlen4_range (zlen tgt)). rewrite <-adv_after; [f_equal|done|done|].
    + rewrite Hb. unfold name_end. lia.
    + rewrite Hb. pose proof (name_end_bound (zlen fname + 1)). unfold NEWC_HDR_LEN in *. lia.
Qed.
(** The data an entry carries: the whole source, when a length is announced. *)
Definition entry_data (md : ArchiveMd) (rd : Reader) : bytes :=
  if 0 <? len md then rd_data rd else [].

Lemma io_copy_inv rd st w n s' :
  (fun '(st, w) => let '(r, w') := io_copy rd w in (r, (st, w'))) (st, w) = (Ok n, s') ->
  exists w', s' = (st, w') /\ written w' = written w ++ rd_data rd /\ n = zlen (rd_data rd)
    /\ rd_err rd = None.
Proof.
  unfold io_copy. cbn. destruct (write_all (rd_data rd) w) as [[[]|e|] w1] eqn:Hw; [|done..].
  apply write_all_ok in Hw. destruct (rd_err rd); [done|]. intros. simplify_eq.
  by exists w1.
Qed.

Lemma copy_data_inv md rd st w s' :
  copy_data md rd (st, w) = (Ok tt, s') -> 0 <= len md ->
  zlen (entry_data md rd) = len md /\
  (len md = 0 /\ s' = (st, w) \/
   0 < len md /\ exists w',
     let st1 := adv st (len md) in
     s' = (adv st1 (archive_padlen (off st1) 4), w') /\
     written w' = written w ++ rd_data rd ++ zeros (archive_padlen (off st1) 4)).
Proof.
  unfold copy_data, entry_data. intros Hrun Hlen. destruct (Z.ltb_spec 0 (len md)).
  - apply sbind_inv_ok in Hrun as (n & s & Hc & Hrun).
    apply io_copy_inv in Hc as (w1 & -> & Hw1 & -> & _).
    destruct (Z.eqb_spec (zlen (rd_data rd)) (len md)) as [Hn|]; [|done].
    cbn [negb] in Hrun. arch_inv. split; [done|]. right. split; [done|].
    eexists. split; [done|]. by rewrite H3, Hw1, <-app_assoc.
  - unfold sret in Hrun. simplify_eq. split; [|left; split; [lia|done]].
    change (zlen []) with 0. lia.
Qed.

(** The zeros after a file name, aligned or not: the terminator, the injected
    zeros, and the padding, which is none when zeros were injected. *)
Lemma name_zeros_inv st w seek n r s' :
  name_zeros seek (adv (MkState (props st) (off st) (wrap32 (ino st + 1))) (NEWC_HDR_LEN + n), w)
    = (Ok r, s') ->
  state_ok st -> off_room st -> 0 <= seek -> 0 <= n -> n + 1 + seek < 2 ^ 32 ->
  s' = (adv (MkState (props st) (off st) (wrap32 (ino st + 1))) (NEWC_HDR_LEN + n), w) /\
  r = 1 + seek + archive_padlen (NEWC_HDR_LEN + (n + 1 + seek)) 4.
Proof.
  intros Hrun Hst Hroom Hseek Hn Hsum. unfold name_zeros in Hrun. unfold sbind at 1 in Hrun.
  cbn [get_state] in Hrun. rewrite off_adv, !wrap64_add_l in Hrun. cbn [off] in Hrun.
  destruct (Z.ltb_spec 0 seek).
  - replace (off st + (NEWC_HDR_LEN + n) + (1 + seek))
      with (off st + (NEWC_HDR_LEN + (n + 1 + seek))) in Hrun by lia.
    rewrite name_padlen in Hrun by (done || lia). unfold sassert in Hrun.
    destruct (Z.eqb_spec (archive_padlen (NEWC_HDR_LEN + (n + 1 + seek)) 4) 0) as [->|]; [|done].
    unfold sbind, sret in Hrun. simplify_eq. split; [done|]. lia.
  - assert (seek = 0) as -> by lia. rewrite name_padlen_1 in Hrun by (done || lia).
    rewrite !Z.add_0_r. unfold sret in Hrun. by simplify_eq.
Qed.

Lemma archive_file_ok p md rd st w st' w' :
  archive_file p md rd (st, w) = (Ok tt, (st', w')) ->
  state_ok st -> off_room st -> md_ok md ->
  exists fname seek, path_trim_prefixes p = Ok fname /\ data_align_seek st fname md = Ok seek /\
    0 <= seek /\ zlen fname + 1 + seek < 2 ^ 32 /\ zlen (entry_data md rd) = len md /\
    let b := entry_bytes (entry_hdr (ino st) md (len md) (zlen fname + 1 + seek)) fname seek
               (entry_data md rd) in
    written w' = written w ++ b /\ st' = after st b.
Proof.
  intros Hrun Hst Hroom Hmd. pose proof Hst as (Hp & Ha & Ho & Hi).
  assert (u32_ok (len md)) as Hlen by apply Hmd.
  unfold archive_file in Hrun. arch_inv. rename x into fname, H1 into Hf.
  destruct (negb _); arch_inv. rename x into seek, H1 into Hseek.
  exists fname, seek. pose proof (path_trim_ok _ _ Hf) as Hfl. pose proof (zlen_nonneg fname).
  destruct (data_align_seek_ok _ _ _ _ Hseek Hfl Hp) as [Hs0 Hs1].
  do 4 (split; [done|]).
  apply sbind_inv_ok in Hrun as (r & s1 & Hr & Hrun). rewrite adv_adv in Hr.
  apply name_zeros_inv in Hr as [-> ->]; [|done..|lia|lia].
  arch_inv. rewrite adv_adv in Hrun.
  set (base := MkState (props st) (off st) (wrap32 (ino st + 1))) in *.
  set (N := zlen fname + 1 + seek) in *.
  replace (NEWC_HDR_LEN + zlen fname + _) with (name_end N) in Hrun by (unfold name_end; lia).
  apply copy_data_inv in Hrun as [Hdata Hcase]; [|unfold u32_ok in Hlen; lia].
  split; [done|]. set (b := entry_bytes _ _ _ _).
  assert (hdr_ok (entry_hdr (ino st) md (len md) N)) as Hh.
  { apply entry_hdr_ok; try done. unfold u32_ok. lia. }
  assert (zlen b = name_end N + len md + archive_padlen (len md) 4) as Hb.
  { unfold b. rewrite entry_bytes_length' by done. by rewrite Hdata. }
  assert (zlen b < 2 ^ 34) as Hbb.
  { rewrite Hb. pose proof (padlen4_range (len md)). pose proof (name_end_bound N).
    unfold NEWC_HDR_LEN, u32_ok in *. lia. }
  assert (written x0 = written w ++ newc_hdr_fmt (entry_hdr (ino st) md (len md) N) ++ fname
          ++ zeros (1 + seek) ++ zeros (archive_padlen (NEWC_HDR_LEN + N) 4)) as Hx0.
  { rewrite <-zeros_add by (apply padlen4_range || lia). by rewrite H4, H3, H2, <-!app_assoc. }
  destruct Hcase as [[H0len Hs]|[Hpos (w3 & Hs & Hw)]]; simplify_eq; cbv zeta.
  - assert (entry_data md rd = []) as He by (unfold entry_data; by rewrite H0len).
    unfold b, entry_bytes in Hb |- *. rewrite He. split.
    + rewrite Hx0. change (zeros (archive_padlen (zlen []) 4)) with (@nil Z).
      by rewrite !app_nil_r.
    + rewrite <-He. change (adv base (name_end N) = after st b). rewrite <-adv_after by done.
      f_equal. unfold b. rewrite entry_bytes_length' by done. rewrite He.
      change (archive_padlen (zlen []) 4) with 0. change (zlen []) with 0. by rewrite !Z.add_0_r.
  - assert (entry_data md rd = rd_data rd) as He.
    { unfold entry_data. by replace (0 <? len md) with true by lia. }
    assert (archive_padlen (off (adv (adv base (name_end N)) (len md))) 4
            = archive_padlen (len md) 4) as Hpad.
    { rewrite adv_adv, off_adv. apply (data_padlen st); [done|done|lia|by apply Hlen]. }
    cbv zeta in Hw. rewrite Hpad in Hw |- *. split.
    + rewrite Hw, Hx0. unfold b, entry_bytes. by rewrite Hdata, He, <-!app_assoc.
    + rewrite <-adv_after, Hb, !adv_adv by done. f_equal. lia.
Qed.

Lemma archive_trailer_ok st w n st' w' :
  archive_trailer (st, w) = (Ok n, (st', w')) -> state_ok st -> off_room st ->
  let b := entry_bytes (entry_hdr 0 (MkMd 1 0 0 0 0 0 0 0) 0 (zlen trailer_name + 1))
             trailer_name 0 [] in
  written w' = written w ++ b /\ n = off st + zlen b /\ off st' = n.
Proof.
  intros Hrun Hst Hroom. pose proof Hst as (Hp & Ha & Ho & Hi).
  unfold archive_trailer in Hrun. arch_inv. unfold sret in Hrun.
  norm_off_in H2. norm_off_in Hrun.
  assert (archive_padlen (wrap64 (off st + NEWC_HDR_LEN + (zlen trailer_name + 1))) 4 = 3) as Hpad.
  { rewrite <-Z.add_assoc. by apply (name_padlen st 11). }
  rewrite Hpad in H2, Hrun. unfold off_room in Hroom.
  change (zlen trailer_name + 1 + 3) with 14 in Hrun.
  change (NEWC_HDR_LEN + 14) with 124 in Hrun.
  rewrite (adv_small st 124), wrap64_small in Hrun by (unfold u64_ok; lia).
  simplify_eq/=. rewrite entry_bytes_length by (repeat constructor || done).
  split_and!; [|done..]. by rewrite H2, H1, <-!app_assoc.
Qed.
End Writer_specs.
