(* ===== verification/CpioWalk.v ===== *)
(** * cpio: reading newc archives (src/src/cpio/src/lib.rs, src/src/bin/lscpio.rs)

    [ArchiveWalker::next] over any seekable reader, the name of an entry, and
    lscpio. The facts show what one step consumes, so that every walk ends, and that arbitrary input never makes the walker panic. *)

From S2P Require Import Prelude RustStr RustPath RustIo Cpio.

(** ** Definitions *)

Record ArchiveEnt := MkEnt { ent_md : ArchiveMd; namesize : Z; name : bytes }.

#[export] Instance ArchiveEnt_eq_dec : EqDecision ArchiveEnt.
Proof. solve_decision. Defined.

(** [s.split_once('\0')], or all of it *)
Definition is_nul (c : Z) : bool := c =? 0.
Definition before_nul (s : bytes) : bytes :=
  match split_once is_nul s with None => s | Some (stripped, _) => stripped end.

(** [&name[0..namesize - 1]] *)
Definition ent_name (e : ArchiveEnt) : bytes := take (Z.to_nat (namesize e - 1)) (name e).

(** [ArchiveEnt::name_str] *)
Definition name_str (e : ArchiveEnt) : io bytes :=
  let? s := unwrap (from_utf8 (ent_name e)) in
  Ok (before_nul s).

(** [chunks_exact(n)]: what does not fill a chunk is left out *)
Fixpoint chunks_aux (count n : nat) (l : bytes) : list bytes :=
  match count with
  | O => []
  | S c => take n l :: chunks_aux c n (drop n l)
  end.
Definition chunks_exact (n : nat) (l : bytes) : list bytes :=
  chunks_aux (length l / n) n l.

(** one header field: eight hexadecimal digits *)
Definition hdr_field (f : bytes) : io Z :=
  let invalid := Err (err_new InvalidData "invalid hdr field") in
  match from_utf8 f with
  | Some s => match from_str_radix 16 U32_MAX s with Some u => Ok u | None => invalid end
  | None => invalid
  end.

(** [md_iter.nth(n).unwrap()?] *)
Definition iter_nth (n : nat) (it : list (io Z)) : io (Z * list (io Z)) :=
  match drop n it with
  | [] => Panic
  | r :: rest => let? u := r in Ok (u, rest)
  end.

Definition archive_read_newc_md (hdr_md : bytes) : io (ArchiveMd * Z) :=
  let it := hdr_field <$> chunks_exact 8 hdr_md in
  let? (mode, it) := iter_nth 1 it in
  let? (uid, it) := iter_nth 0 it in
  let? (gid, it) := iter_nth 0 it in
  let? (nlink, it) := iter_nth 0 it in
  let? (mtime, it) := iter_nth 0 it in
  let? (len, it) := iter_nth 0 it in
  let? (rmajor, it) := iter_nth 2 it in
  let? (rminor, it) := iter_nth 0 it in
  let? (namesize, _) := iter_nth 0 it in
  if (namesize =? 0) || (PATH_MAX + 1 <? namesize) then
    Err (err_new InvalidData "invalid namesize")
  else Ok (MkMd nlink mode uid gid mtime rmajor rminor len, namesize).

(** [try_into().unwrap()] of a [u64] to an [i64] *)
Definition to_i64 (n : Z) : io Z := unwrap (if n <? 2 ^ 63 then Some n else None).

Section Walker.
Context {R : Type} `{ReadSeek R}.

(** [archive_read_newc_md] and what follows a header with the right magic *)
Definition walk_entry (hdr_md : bytes) : SM R io_error (option ArchiveEnt) :=
  let* (md, namesize) := slift (archive_read_newc_md hdr_md) in
  let* fbuf := read_exact (Z.to_nat namesize) in
  let npad := archive_padlen (NEWC_HDR_LEN + namesize) 4 in
  let dlen := len md in
  let dpad := archive_padlen dlen 4 in
  let* seeklen := slift (to_i64 (npad + dlen + dpad)) in
  do* seek_current seeklen ;;
  if bool_decide (take (Z.to_nat (namesize - 1)) fbuf = trailer_name) then sret None
  else sret (Some (MkEnt md namesize (fbuf ++ zeros (PATH_MAX + 1 - namesize)))).

(** [ArchiveWalker::next]: an iterator item is [Some] of a result; here the
    end of the iteration is [Ok None]. *)
Definition next : SM R io_error (option ArchiveEnt) := fun r =>
  match read_exact (Z.to_nat NEWC_HDR_LEN) r with
  | (Err e, r') => if bool_decide (kind e = UnexpectedEof) then (Ok None, r') else (Err e, r')
  | (Panic, r') => (Panic, r')
  | (Ok hdr_buf, r') =>
      match strip_prefix newc_magic hdr_buf with
      | Some hdr_md => walk_entry hdr_md r'
      | None => (Err (err_new InvalidInput "invalid newc hdr"), r')
      end
  end.

(** [while let Some(ent) = walker.next() { let ent = ent?; ... }]; the entries
    come in order, [None] says the fuel did not suffice. *)
Fixpoint walk {S} (f : ArchiveEnt -> S -> io unit * S) (fuel : nat) (r : R) (s : S) :
    option (io unit * S) :=
  match fuel with
  | O => None
  | Datatypes.S fuel =>
      match next r with
      | (Err e, _) => Some (Err e, s)
      | (Panic, _) => Some (Panic, s)
      | (Ok None, _) => Some (Ok tt, s)
      | (Ok (Some ent), r') =>
          match f ent s with
          | (Ok _, s') => walk f fuel r' s'
          | (Err e, s') => Some (Err e, s')
          | (Panic, s') => Some (Panic, s')
          end
      end
  end.

(** all entries up to the end *)
Definition collect (e : ArchiveEnt) (l : list ArchiveEnt) : io unit * list ArchiveEnt :=
  (Ok tt, l ++ [e]).

(** the body of the loop of lscpio: the line printed for an entry *)
Definition lscpio_ent (e : ArchiveEnt) (out : bytes) : io unit * bytes :=
  match from_utf8 (name e) with
  | Some s =>
      match split_once is_nul s with
      | None => (Err (err_from InvalidData), out)
      | Some (n_before_term, _) =>
          let l := fmt_dec (len (ent_md e)) in
          (Ok tt, out ++ l ++ replicate (9 - length l) 32 ++ [32] ++ n_before_term ++ [NL])
      end
  | None => (Err (err_from InvalidData), out)
  end.

Definition lscpio (fuel : nat) (r : R) : option (io unit * bytes) := walk lscpio_ent fuel r [].

(** [main] of lscpio, with all the arguments; [open_in] opens a file to read *)
Definition lscpio_main (open_in : path -> io R) (fuel : nat) (args : list bytes) :
    option (io unit * bytes) :=
  match args with
  | [_; p] =>
      match open_in p with
      | Ok f => lscpio fuel f
      | Err e => Some (Err e, [])
      | Panic => Some (Panic, [])
      end
  | _ => Some (Err (err_from InvalidInput), B "Usage: lscpio INITRAMFS" ++ [NL])
  end.
End Walker.

(** ** The contract of a seekable reader *)

(** [avail] is what lies ahead of the position. *)
Class ReadSeekOk (R : Type) `{ReadSeek R} := {
  avail : R -> bytes;
  read_exact_ok : forall n r b r', read_exact n r = (Ok b, r') ->
    length b = n /\ avail r = b ++ avail r';
  read_exact_total : forall n r r', read_exact n r <> (Panic, r');
  seek_current_ok : forall off r p r', seek_current off r = (Ok p, r') -> 0 <= off ->
    avail r' = drop (Z.to_nat off) (avail r);
  seek_current_total : forall off r r', seek_current off r <> (Panic, r');
}.

(** A reader that does not fail of itself: memory, or a healthy disk. *)
Class Reliable (R : Type) `{ReadSeekOk R} := {
  read_exact_succeeds : forall n r, (n <= length (avail r))%nat ->
    exists b r', read_exact n r = (Ok b, r');
  read_exact_eof : forall n r, (length (avail r) < n)%nat ->
    exists e r', read_exact n r = (Err e, r') /\ kind e = UnexpectedEof;
  seek_current_succeeds : forall off r, 0 <= off -> exists p r', seek_current off r = (Ok p, r');
}.

#[export] Program Instance cursor_ok : ReadSeekOk Cursor := {|
  avail c := drop (cur_pos c) (cur_data c);
|}.
Next Obligation.
  intros n [d pos] b c' Hr. cbn -[Nat.leb] in Hr. unfold cursor_read_exact in Hr.
  cbn -[Nat.leb] in *. destruct (Nat.leb_spec n (length (drop pos d))); [|done].
  injection Hr as <- <-. cbn. split; [rewrite length_take; lia|].
  by rewrite <-drop_drop, take_drop.
Qed.
Next Obligation. intros n c c'. cbn. unfold cursor_read_exact. by case_match. Qed.
Next Obligation.
  intros off [d pos] p c' Hs Ho. injection Hs as <- <-. cbn. by rewrite drop_drop.
Qed.
Next Obligation. done. Qed.

#[export] Instance cursor_reliable : Reliable Cursor.
Proof.
  split; cbn; unfold cursor_read_exact; intros.
  - rewrite (proj2 (Nat.leb_le _ _)); eauto.
  - rewrite (proj2 (Nat.leb_gt _ _)); eauto.
  - unfold cursor_seek_current. eauto.
Qed.

(** ** Header fields *)

Lemma chunks_exact_concat n ls :
  (0 < n)%nat -> Forall (fun l => length l = n) ls -> chunks_exact n (concat ls) = ls.
Proof.
  intros Hn Hls.
  assert (length (concat ls) = (length ls * n)%nat) as Hlen.
  { induction Hls as [|l ls Hl _ IH]; [done|]. simpl. rewrite length_app, IH. lia. }
  unfold chunks_exact. rewrite Hlen, Nat.div_mul by lia. clear Hlen.
  induction Hls as [|l ls Hl _ IH]; [done|]. simpl.
  rewrite take_app_length', drop_app_length' by done. by rewrite IH.
Qed.

Lemma hdr_field_fmt n : u32_ok n -> hdr_field (fmt_HEX 8 n) = Ok n.
Proof.
  intros Hn. unfold hdr_field, from_utf8, u32_ok in *. rewrite utf8_valid_ascii.
  - assert (from_str_radix 16 U32_MAX (fmt_HEX 8 n) = Some n) as ->; [|done].
    apply from_str_radix_fmt_HEX. unfold U32_MAX. lia.
  - eapply Forall_impl; [apply fmt_HEX_chars; lia|]. unfold ascii_ok. simpl. lia.
Qed.

(** The fields of a formatted header are read back. *)
Lemma hdr_fields_fmt h : hdr_ok h ->
  hdr_field <$> chunks_exact 8 (concat (fmt_HEX 8 <$> hdr_fields h)) = Ok <$> hdr_fields h.
Proof.
  intros Hh. rewrite chunks_exact_concat; [|lia|].
  - rewrite <-list_fmap_compose. apply Forall_fmap_ext. eapply Forall_impl; [exact Hh|]. intros n Hn. by apply hdr_field_fmt.
  - apply Forall_fmap. eapply Forall_impl; [exact Hh|]. intros n Hn. by apply length_fmt_HEX8.
Qed.

Definition md_of_hdr (h : NewcHdr) : ArchiveMd :=
  MkMd (h_nlink h) (h_mode h) (h_uid h) (h_gid h) (h_mtime h) (h_rmajor h) (h_rminor h)
    (h_filesize h).

Lemma archive_read_newc_md_fmt h :
  hdr_ok h -> 0 < h_namesize h <= PATH_MAX + 1 ->
  archive_read_newc_md (concat (fmt_HEX 8 <$> hdr_fields h)) = Ok (md_of_hdr h, h_namesize h).
Proof.
  intros Hh Hns. unfold archive_read_newc_md. rewrite hdr_fields_fmt by done.
  cbn -[PATH_MAX Z.eqb Z.ltb]. replace (h_namesize h =? 0) with false by lia.
  by replace (PATH_MAX + 1 <? h_namesize h) with false by lia.
Qed.

Lemma hdr_field_range f u : hdr_field f = Ok u -> u32_ok u.
Proof.
  unfold hdr_field. destruct (from_utf8 f); [|done].
  destruct (from_str_radix 16 U32_MAX _) eqn:E; [|done]. intros [= ->].
  apply from_str_radix_range in E; unfold u32_ok, U32_MAX in *; lia.
Qed.

Lemma hdr_field_no_panic f : hdr_field f <> Panic.
Proof. unfold hdr_field. by repeat case_match. Qed.

(** Thirteen fields are enough for every [unwrap]; the values are 32-bit. *)
Definition read_md_ok (r : io (ArchiveMd * Z)) : Prop :=
  match r with
  | Ok (md, ns) => md_ok md /\ 0 < ns <= PATH_MAX + 1
  | Err e => kind e = InvalidData
  | Panic => False
  end.

Lemma iter_nth_ok n pre f l (k : Z * list (io Z) -> io (ArchiveMd * Z)) :
  length pre = n -> (forall u, u32_ok u -> read_md_ok (k (u, l))) ->
  read_md_ok (rbind (iter_nth n (pre ++ hdr_field f :: l)) k).
Proof.
  intros Hn Hk. unfold iter_nth. rewrite drop_app_length' by done.
  pose proof (hdr_field_no_panic f) as Hp. pose proof (hdr_field_range f) as Hr.
  destruct (hdr_field f) as [u|e|] eqn:E; simpl; [by apply Hk, Hr| |done].
  revert E. unfold hdr_field. repeat case_match; intros; simplify_eq; done.
Qed.

Lemma archive_read_newc_md_safe hdr_md :
  length hdr_md = 104%nat -> read_md_ok (archive_read_newc_md hdr_md).
Proof.
  intros Hlen. unfold archive_read_newc_md, chunks_exact. rewrite Hlen.
  change (104 / 8)%nat with 13%nat. cbn [chunks_aux]. rewrite !fmap_cons. cbv zeta.
  apply (iter_nth_ok 1 [_]); [done|]; intros ? ?.
  do 5 (apply (iter_nth_ok 0 []); [done|]; intros ? ?).
  apply (iter_nth_ok 2 [_; _]); [done|]; intros ? ?.
  do 2 (apply (iter_nth_ok 0 []); [done|]; intros ? ?).
  destruct (_ || _) eqn:E; simpl; [done|]. split; [by unfold md_ok|].
  apply orb_false_iff in E as [E1 E2]. unfold u32_ok in *. lia.
Qed.

(** ** One step of the walker *)

Section Walk_facts.
Context {R : Type} `{ReadSeekOk R}.
Implicit Types r : R.

(** What follows the magic is 104 bytes long. *)
Lemma hdr_rest_length hdr md :
  strip_prefix newc_magic hdr = Some md -> length hdr = Z.to_nat NEWC_HDR_LEN ->
  length md = 104%nat.
Proof.
  intros ->%strip_prefix_spec. rewrite length_app.
  change (Z.to_nat NEWC_HDR_LEN) with 110%nat. change (length newc_magic) with 6%nat. lia.
Qed.

Lemma seeklen_ok md ns : u32_ok (len md) ->
  let n := archive_padlen (NEWC_HDR_LEN + ns) 4 + len md + archive_padlen (len md) 4 in
  0 <= n /\ to_i64 n = Ok n.
Proof.
  intros Hl n. pose proof (padlen4_range (NEWC_HDR_LEN + ns)).
  pose proof (padlen4_range (len md)). unfold u32_ok in Hl. split; [lia|].
  unfold to_i64. by replace (n <? 2 ^ 63) with true by lia.
Qed.

(** A step never panics; when it yields an entry at least its header and one
    byte of name were consumed, and the entry has its fields in range. *)
Definition ent_ok (e : ArchiveEnt) : Prop :=
  md_ok (ent_md e) /\ 0 < namesize e <= PATH_MAX + 1 /\ zlen (name e) = PATH_MAX + 1.

Lemma walk_entry_safe md r : length md = 104%nat ->
  match walk_entry md r with
  | (Ok (Some e), r') => ent_ok e /\ (length (avail r') < length (avail r))%nat
  | (r', _) => r' <> Panic
  end.
Proof.
  intros Hmd. pose proof (archive_read_newc_md_safe md Hmd) as Hs. unfold walk_entry, sbind.
  unfold slift at 1. destruct (archive_read_newc_md md) as [[amd ns]|e|]; [|done..].
  destruct Hs as [Hok Hns].
  destruct (read_exact (Z.to_nat ns) r) as [[b|e|] r1] eqn:Hr; [|done|by apply read_exact_total in Hr].
  apply read_exact_ok in Hr as [Hb Hav].
  destruct (seeklen_ok amd ns) as [Hseek Heq]; [apply Hok|].
  unfold slift. cbv zeta. rewrite Heq.
  destruct (seek_current _ r1) as [[p|e|] r2] eqn:Hs; [|done|by apply seek_current_total in Hs].
  apply seek_current_ok in Hs; [|done]. case_bool_decide; [done|]. unfold sret. split.
  - split_and!; [done|simpl; lia..|]. simpl. rewrite zlen_app, zlen_zeros by lia.
    unfold zlen. lia.
  - rewrite Hs, Hav, length_app, length_drop. lia.
Qed.

Lemma next_safe r :
  match next r with
  | (Ok (Some e), r') => ent_ok e /\ (length (avail r') < length (avail r))%nat
  | (r', _) => r' <> Panic
  end.
Proof.
  unfold next. destruct (read_exact _ r) as [[b|e|] r1] eqn:Hr;
    [|by case_bool_decide|by apply read_exact_total in Hr].
  apply read_exact_ok in Hr as [Hb Hav]. destruct (strip_prefix _ b) as [md|] eqn:Hp; [|done].
  pose proof (walk_entry_safe md r1 (hdr_rest_length _ _ Hp Hb)) as Hw.
  destruct (walk_entry md r1) as [[[e|]|e|] r2]; try done.
  destruct Hw as [He Hlt]. split; [done|]. rewrite Hav, length_app. lia.
Qed.

(** Every walk ends within one step per byte, and without a panic of its own. *)
Lemma walk_total {S} (f : ArchiveEnt -> S -> io unit * S) fuel r s :
  (forall e s, fst (f e s) <> Panic) -> (length (avail r) < fuel)%nat ->
  exists x s', walk f fuel r s = Some (x, s') /\ x <> Panic.
Proof.
  intros Hf. revert r s. induction fuel as [|fuel IH]; intros r s Hlt; [lia|]. simpl.
  pose proof (next_safe r) as Hn. destruct (next r) as [[[e|]|e|] r']; [|by eauto..|done].
  destruct Hn as [_ Hn]. pose proof (Hf e s) as Hp.
  destruct (f e s) as [[[]|e'|] s']; [|by eauto|done]. apply IH. lia.
Qed.

(** What the loop body keeps, the loop keeps. *)
Lemma walk_inv {S} (f : ArchiveEnt -> S -> io unit * S) (P : S -> Prop) fuel r s x s' :
  (forall e s, ent_ok e -> P s -> P (snd (f e s))) ->
  walk f fuel r s = Some (x, s') -> P s -> P s'.
Proof.
  intros Hf. revert r s. induction fuel as [|fuel IH]; intros r s; simpl; [done|].
  pose proof (next_safe r) as Hn. destruct (next r) as [[[e|]|e|] r']; [|by intros [= <- <-]..].
  destruct Hn as [He _]. intros Hw Hs. pose proof (Hf e s He Hs) as Hp.
  destruct (f e s) as [[[]|e'|] s1]; [by eapply IH|by simplify_eq..].
Qed.
End Walk_facts.

(** ** A step over an entry the writer made *)

Section Walk_entry.
Context {R : Type} `{Reliable R}.
Implicit Types r : R.

Lemma read_exact_app b rest r : avail r = b ++ rest ->
  exists r', read_exact (length b) r = (Ok b, r') /\ avail r' = rest.
Proof.
  intros Hav. destruct (read_exact_succeeds (length b) r) as (b' & r' & Hr).
  { rewrite Hav, length_app. lia. }
  pose proof (read_exact_ok _ _ _ _ Hr) as [Hl Heq]. rewrite Hav in Heq.
  apply app_inj_1 in Heq as [-> ->]; [|done]. eauto.
Qed.

(** The name buffer: the file name and zeros up to the end. *)
Definition name_buf (fname : bytes) : bytes := fname ++ zeros (PATH_MAX + 1 - zlen fname).

(** What the walker compares with the trailer name. *)
Lemma name_take fname seek ns : 0 <= seek -> ns = zlen fname + 1 + seek ->
  take (Z.to_nat (ns - 1)) (fname ++ zeros (1 + seek)) = fname ++ zeros seek.
Proof.
  intros Hs ->. rewrite (Z.add_comm 1 seek), zeros_add, app_assoc by lia. apply take_app_length'.
  pose proof (zlen_app fname (zeros seek)) as Hz. rewrite zlen_zeros in Hz by lia.
  unfold zlen in *. lia.
Qed.

Lemma next_entry h fname seek data rest r :
  avail r = entry_bytes h fname seek data ++ rest ->
  hdr_ok h -> 0 <= seek -> h_namesize h = zlen fname + 1 + seek ->
  zlen fname + 1 + seek <= PATH_MAX + 1 -> zlen data = h_filesize h ->
  exists r', avail r' = rest /\
    next r = (Ok (if bool_decide (fname ++ zeros seek = trailer_name) then None
                  else Some (MkEnt (md_of_hdr h) (zlen fname + 1 + seek) (name_buf fname))), r').
Proof.
  intros Hav Hh Hseek Hns Hmax Hdata.
  pose proof (zlen_nonneg fname) as Hpos. pose proof (newc_hdr_length h Hh) as Hhl.
  remember (zlen fname + 1 + seek) as ns eqn:Hnsd.
  set (npad := archive_padlen (NEWC_HDR_LEN + ns) 4) in *.
  pose proof (padlen4_range (NEWC_HDR_LEN + ns)) as Hnp. fold npad in Hnp.
  pose proof (padlen4_range (zlen data)) as Hdp.
  assert (avail r = newc_hdr_fmt h ++ (fname ++ zeros (1 + seek)) ++ zeros npad ++ data
          ++ zeros (archive_padlen (zlen data) 4) ++ rest) as Hav'.
  { rewrite Hav. unfold entry_bytes, npad. by rewrite Hnsd, <-!app_assoc. }
  destruct (read_exact_app _ _ _ Hav') as (r1 & Hr1 & Hav1).
  assert (length (newc_hdr_fmt h) = Z.to_nat NEWC_HDR_LEN) as Hhn
    by (unfold zlen in Hhl; unfold NEWC_HDR_LEN in *; lia).
  destruct (read_exact_app _ _ _ Hav1) as (r2 & Hr2 & Hav2).
  assert (length (fname ++ zeros (1 + seek)) = Z.to_nat ns) as Hnn.
  { pose proof (zlen_app fname (zeros (1 + seek))) as Hz. rewrite zlen_zeros in Hz by lia.
    unfold zlen in *. lia. }
  rewrite Hhn in Hr1. rewrite Hnn in Hr2.
  unfold next. rewrite Hr1. unfold newc_hdr_fmt. rewrite strip_prefix_app.
  unfold walk_entry, sbind. unfold slift at 1.
  rewrite archive_read_newc_md_fmt by (done || lia).
  rewrite Hns, Hr2. cbv zeta. change (len (md_of_hdr h)) with (h_filesize h). fold npad.
  assert (u32_ok (h_filesize h)) as Hfs.
  { apply (proj1 (Forall_forall _ _) Hh). repeat constructor. }
  destruct (seeklen_ok (md_of_hdr h) ns Hfs) as [Hsk Heq]. simpl in Hsk, Heq. fold npad in Hsk, Heq.
  unfold slift. rewrite Heq.
  destruct (seek_current_succeeds (npad + h_filesize h + archive_padlen (h_filesize h) 4) r2 Hsk)
    as (q & r3 & Hr3). rewrite Hr3.
  pose proof (seek_current_ok _ _ _ _ Hr3 Hsk) as Hav3.
  exists r3. split.
  - rewrite Hav3, Hav2, <-Hdata, !app_assoc, drop_app_length'; [done|].
    pose proof (zlen_app (zeros npad ++ data) (zeros (archive_padlen (zlen data) 4))) as Hz.
    rewrite (zlen_app (zeros npad)), !(zlen_zeros _) in Hz by lia. symmetry. apply Nat2Z.inj.
    change (Z.of_nat (length ((zeros npad ++ data) ++ zeros (archive_padlen (zlen data) 4))))
      with (zlen ((zeros npad ++ data) ++ zeros (archive_padlen (zlen data) 4))).
    rewrite Hz. pose proof (zlen_nonneg data). lia.
  - rewrite name_take by lia. case_bool_decide; [done|]. unfold sret. do 4 f_equal. unfold name_buf.
    rewrite <-app_assoc. f_equal.
    rewrite <-zeros_add by lia. f_equal. lia.
Qed.
End Walk_entry.
