(* ===== verification/CpioArchive.v ===== *)
(** * Whole archives: what the writer and the reader of the cpio crate promise

    A client of the crate makes a sequence of requests and ends it with the
    trailer. The theorems state the layout and the state invariant of every
    request, the alignment of data segments, that a failing writer holds a
    prefix of the archive, and that the walker reads every entry back. *)

From S2P Require Import Prelude RustStr RustPath RustIo Cpio CpioWalk.

(** ** Requests *)

Inductive request :=
  | ReqPath (p : path) (md : ArchiveMd)
  | ReqSymlink (p : path) (md : ArchiveMd) (symlink_tgt : path)
  | ReqFile (p : path) (md : ArchiveMd) (reader : Reader).

Definition run_request {W} `{Write W} (q : request) : Arch W unit :=
  match q with
  | ReqPath p md => archive_path p md
  | ReqSymlink p md tgt => archive_symlink p md tgt
  | ReqFile p md rd => archive_file p md rd
  end.

Fixpoint run_requests {W} `{Write W} (qs : list request) : Arch W unit :=
  match qs with
  | [] => sret tt
  | q :: qs => do* run_request q ;; run_requests qs
  end.

(** an archive: the requests in order, then the trailer *)
Definition archive {W} `{Write W} (qs : list request) : Arch W Z :=
  do* run_requests qs ;; archive_trailer.

Definition req_path (q : request) : path :=
  match q with ReqPath p _ | ReqSymlink p _ _ | ReqFile p _ _ => p end.
Definition req_md (q : request) : ArchiveMd :=
  match q with ReqPath _ md | ReqSymlink _ md _ | ReqFile _ md _ => md end.
(** the data segment of the entry *)
Definition req_data (q : request) : bytes :=
  match q with
  | ReqPath _ _ => []
  | ReqSymlink _ _ tgt => tgt
  | ReqFile _ md rd => entry_data md rd
  end.

Definition req_ok (q : request) : Prop := md_ok (req_md q).

(** the metadata in the header: the length is the one of the data segment *)
Definition stored_md (q : request) : ArchiveMd :=
  let md := req_md q in
  MkMd (nlink md) (mode md) (uid md) (gid md) (mtime md) (rmajor md) (rminor md)
    (zlen (req_data q)).

(** Only the names of files with data are followed by alignment. *)
Definition req_plain (q : request) : Prop :=
  match q with ReqFile _ md _ => len md <= 0 | _ => True end.

(** The entry [run_request q] writes in the state [st]. *)
Record entry_for (st : ArchiveState) (q : request) (fname : bytes) (seek : Z) : Prop := {
  ef_name : path_trim_prefixes (req_path q) = Ok fname;
  ef_seek : 0 <= seek;
  ef_namesize : zlen fname + 1 + seek < 2 ^ 32;
  ef_max : seek = 0 \/ zlen fname + 1 + seek <= namesize_max (props st);
  ef_data : u32_ok (zlen (req_data q));
  ef_plain : req_plain q -> seek = 0;
}.

Definition req_hdr (st : ArchiveState) (q : request) (fname : bytes) (seek : Z) : NewcHdr :=
  entry_hdr (ino st) (req_md q) (zlen (req_data q)) (zlen fname + 1 + seek).
Definition req_bytes (st : ArchiveState) (q : request) (fname : bytes) (seek : Z) : bytes :=
  entry_bytes (req_hdr st q fname seek) fname seek (req_data q).

Lemma data_align_seek_max st fname md seek :
  data_align_seek st fname md = Ok seek -> seek = 0 \/ zlen fname + 1 + seek <= namesize_max (props st).
Proof.
  unfold data_align_seek. destruct (_ && _); [|intros; simplify_eq; by left].
  destruct (Z.ltb_spec (namesize_max (props st))
    (archive_padlen (wrap64 (initial_data_off (props st) + off st + NEWC_HDR_LEN + zlen fname + 1))
       (data_align (props st)) + zlen fname + 1)); [intros; simplify_eq; by left|].
  destruct (u32_try_from _) as [l|] eqn:Hl; [|done]. apply u32_try_from_Some in Hl as [-> _].
  intros [= <-]. right. lia.
Qed.

Lemma req_hdr_ok st q fname seek :
  state_ok st -> req_ok q -> entry_for st q fname seek -> hdr_ok (req_hdr st q fname seek).
Proof.
  intros Hst Hq He. pose proof (zlen_nonneg fname). destruct He as [? ? ? ? Hd _].
  apply entry_hdr_ok; [apply Hst|done|done|]. unfold u32_ok. lia.
Qed.

Lemma req_bytes_bound st q fname seek :
  state_ok st -> req_ok q -> entry_for st q fname seek ->
  zlen (req_bytes st q fname seek) mod 4 = 0 /\ zlen (req_bytes st q fname seek) < 2 ^ 34.
Proof.
  intros Hst Hq He. pose proof (req_hdr_ok _ _ _ _ Hst Hq He) as Hh. destruct He as [? Hs Hn ? Hd _].
  split; [by apply entry_bytes_aligned|]. unfold req_bytes. rewrite entry_bytes_length' by done.
  pose proof (zlen_nonneg fname). pose proof (name_end_bound (zlen fname + 1 + seek)).
  pose proof (padlen4_range (zlen (req_data q))). unfold u32_ok, NEWC_HDR_LEN in *. lia.
Qed.

Section Requests.
Context {W : Type} `{WriteOk W}.
Implicit Types (st : ArchiveState) (w : W).

Lemma run_request_ok q st w st' w' :
  run_request q (st, w) = (Ok tt, (st', w')) -> state_ok st -> off_room st -> req_ok q ->
  exists fname seek, entry_for st q fname seek /\
    written w' = written w ++ req_bytes st q fname seek /\
    st' = after st (req_bytes st q fname seek).
Proof.
  intros Hrun Hst Hroom Hmd. destruct q as [p md|p md tgt|p md rd]; simpl in Hrun.
  - apply archive_path_ok in Hrun as (fname & Hf & Hb); [|done..].
    pose proof (path_trim_ok _ _ Hf) as Hl. pose proof (zlen_nonneg fname).
    unfold req_bytes, req_hdr. exists fname, 0. rewrite Z.add_0_r. split; [|done].
    split; simpl; [done|done| |by left|done|done]. unfold PATH_MAX in Hl. lia.
  - apply archive_symlink_ok in Hrun as (fname & Hf & Ht & Hb); [|done..].
    pose proof (path_trim_ok _ _ Hf) as Hl. pose proof (zlen_nonneg fname).
    pose proof (zlen_nonneg tgt).
    unfold req_bytes, req_hdr. exists fname, 0. rewrite Z.add_0_r. split; [|done].
    unfold PATH_MAX in *. split; simpl; [done|done|lia|by left| |done]. unfold u32_ok. lia.
  - apply archive_file_ok in Hrun as (fname & seek & Hf & Hs & H0s & Hn & Hd & Hb); [|done..].
    unfold req_bytes, req_hdr. exists fname, seek. simpl. rewrite Hd. split; [|done].
    split; simpl; [done|done|done| | |].
    + by eapply data_align_seek_max.
    + rewrite Hd. apply Hmd.
    + intros Hl. revert Hs. unfold data_align_seek.
      destruct (Z.ltb_spec 0 (data_align (props st))), (Z.ltb_spec (data_align (props st)) (len md));
        simpl; try lia; by intros [= <-].
Qed.
End Requests.

(** ** Sequences of requests *)

(** The bytes [b] written for requests, and the state they lead to. *)
Inductive archived : ArchiveState -> list request -> bytes -> ArchiveState -> Prop :=
  | archived_nil st : archived st [] [] st
  | archived_cons st q fname seek qs b st' :
      entry_for st q fname seek -> archived (after st (req_bytes st q fname seek)) qs b st' ->
      archived st (q :: qs) (req_bytes st q fname seek ++ b) st'.

(** Room for a number of entries before the 64-bit offset wraps. *)
Definition room_for (st : ArchiveState) (n : nat) : Prop :=
  off st + Z.of_nat (S n) * 2 ^ 34 <= 2 ^ 64.

Lemma room_off st n : room_for st (S n) -> off_room st.
Proof. unfold room_for, off_room. lia. Qed.

Lemma wrap32_add_l a b : wrap32 (wrap32 a + b) = wrap32 (a + b).
Proof. apply Zplus_mod_idemp_l. Qed.

Lemma after_state_ok st q fname seek :
  state_ok st -> req_ok q -> entry_for st q fname seek ->
  state_ok (after st (req_bytes st q fname seek)).
Proof. intros Hst Hq He. apply after_ok; [done|]. by apply req_bytes_bound. Qed.

Lemma archived_state st qs b st' :
  archived st qs b st' -> state_ok st -> Forall req_ok qs ->
  state_ok st' /\ props st' = props st /\ off st' = off st + zlen b /\
  ino st' = wrap32 (ino st + Z.of_nat (length qs)) /\ zlen b <= Z.of_nat (length qs) * 2 ^ 34.
Proof.
  intros Ha. induction Ha as [st|st q fname seek qs b st' He Ha IH]; intros Hst Hqs.
  - change (zlen []) with 0. rewrite !Z.add_0_r. destruct Hst as (? & ? & ? & ?).
    split_and!; try done. by rewrite wrap32_small.
  - apply Forall_cons in Hqs as [Hq Hqs]. pose proof (req_bytes_bound _ _ _ _ Hst Hq He).
    destruct IH as (H1 & H2 & H3 & H4 & H5); [by apply after_state_ok|done|].
    rewrite H3, H4, zlen_app. split_and!; [done|done|simpl; lia| |cbn [length]; lia].
    unfold after at 1. cbn [ino]. rewrite wrap32_add_l. f_equal. cbn [length]. lia.
Qed.

Section Sequences.
Context {W : Type} `{WriteOk W}.
Implicit Types (st : ArchiveState) (w : W).

Lemma run_requests_ok qs st w st' w' :
  run_requests qs (st, w) = (Ok tt, (st', w')) -> state_ok st -> room_for st (length qs) ->
  Forall req_ok qs ->
  exists b, archived st qs b st' /\ written w' = written w ++ b.
Proof.
  revert st w. induction qs as [|q qs IH]; intros st w Hrun Hst Hroom Hqs; simpl in Hrun.
  { unfold sret in Hrun. simplify_eq. exists []. rewrite app_nil_r. split; [constructor|done]. }
  apply Forall_cons in Hqs as [Hq Hqs].
  apply sbind_inv_ok in Hrun as ([] & [st1 w1] & Hr & Hrun).
  apply run_request_ok in Hr as (fname & seek & He & Hw & ->); [|done|by eapply room_off|done].
  pose proof (req_bytes_bound _ _ _ _ Hst Hq He).
  apply IH in Hrun as (b & Hb & Hw'); [|by apply after_state_ok| |done].
  - exists (req_bytes st q fname seek ++ b). split; [by econstructor|].
    by rewrite Hw', Hw, app_assoc.
  - unfold room_for in *. cbn [length after off] in *. lia.
Qed.

(** The trailer is an entry without metadata. *)
Definition trailer_bytes : bytes :=
  entry_bytes (entry_hdr 0 (MkMd 1 0 0 0 0 0 0 0) 0 (zlen trailer_name + 1)) trailer_name 0 [].

Lemma archive_ok qs st w n st' w' :
  archive qs (st, w) = (Ok n, (st', w')) -> state_ok st -> room_for st (S (length qs)) ->
  Forall req_ok qs ->
  exists b st1, archived st qs b st1 /\ written w' = written w ++ b ++ trailer_bytes /\
    n = off st + zlen (b ++ trailer_bytes) /\ off st' = n.
Proof.
  intros Hrun Hst Hroom Hqs. unfold archive in Hrun.
  apply sbind_inv_ok in Hrun as ([] & [st1 w1] & Hr & Hrun).
  apply run_requests_ok in Hr as (b & Hb & Hw); [|done|unfold room_for in *; lia|done].
  pose proof (archived_state _ _ _ _ Hb Hst Hqs) as (H1 & H2 & H3 & H4 & H5).
  apply archive_trailer_ok in Hrun as (Hw' & -> & Hoff); [|done|].
  - exists b, st1. split; [done|]. rewrite Hw', Hw, H3, zlen_app, app_assoc. split; [done|].
    split; [unfold trailer_bytes; lia|]. rewrite Hoff, H3. unfold trailer_bytes. lia.
  - unfold off_room, room_for in *. lia.
Qed.
End Sequences.

(** ** Metadata and properties *)

Lemma archive_md_from_fields st md amd :
  archive_md_from st md = Ok amd -> mode amd = st_mode md /\ len amd = st_len md.
Proof.
  unfold archive_md_from. destruct (match fixed_mtime _ with Some _ => _ | None => _ end); cbn [rbind]; [|done..].
  destruct (if _ || _ then _ else _) as [[nl x] y].
  destruct (u32_try_from (st_len md)) as [l|] eqn:Hl; cbn [ok_or rbind]; [|done].
  apply u32_try_from_Some in Hl as [-> _]. destruct nl; cbn [ok_or rbind]; [|done]. by intros [= <-].
Qed.

Lemma archive_md_from_no_panic st md : archive_md_from st md <> Panic.
Proof.
  unfold archive_md_from.
  destruct (fixed_mtime _); [|destruct (u32_try_from (st_mtime md))]; cbn [ok_or rbind]; try done;
    (destruct (if _ || _ then _ else _) as [[nl x] y]; destruct (u32_try_from (st_len md)); [|done];
     by destruct nl).
Qed.

(** Only the properties of the archive matter to the conversion. *)
Lemma archive_md_from_props st st' md : props st = props st' -> archive_md_from st md = archive_md_from st' md.
Proof. unfold archive_md_from. by intros ->. Qed.

Section Props.
Context {W : Type} `{Write W}.

(** No request changes the properties. *)
Definition keeps_props {A} (c : Arch W A) : Prop := forall a, props (fst (snd (c a))) = props (fst a).

Lemma keeps_props_slift {A} (r : io A) : keeps_props (slift r).
Proof. by intros a. Qed.
Lemma keeps_props_sret {A} (a : A) : keeps_props (sret a).
Proof. done. Qed.
Lemma keeps_props_sfail {A} e : keeps_props (@sfail _ _ A e).
Proof. done. Qed.
Lemma keeps_props_state : keeps_props get_state.
Proof. by intros [st w]. Qed.
Lemma keeps_props_ino : keeps_props next_ino.
Proof. by intros [st w]. Qed.
Lemma keeps_props_off n : keeps_props (add_off n).
Proof. by intros [st w]. Qed.
Lemma keeps_props_assert b : keeps_props (sassert b).
Proof. by destruct b. Qed.
Lemma keeps_props_emit b : keeps_props (emit b).
Proof. intros [st w]. unfold emit. by destruct (write_all b w). Qed.
Lemma keeps_props_bind {A C} (c : Arch W A) (f : A -> Arch W C) :
  keeps_props c -> (forall a, keeps_props (f a)) -> keeps_props (sbind c f).
Proof.
  intros Hc Hf a. specialize (Hc a). unfold sbind. destruct (c a) as [[x|e|] a1]; [|done..].
  by rewrite (Hf x a1).
Qed.
End Props.

#[export] Hint Resolve keeps_props_slift keeps_props_sret keeps_props_sfail keeps_props_state keeps_props_ino
  keeps_props_off keeps_props_assert keeps_props_emit : rapido.

Ltac keeps_props_step :=
  repeat first
    [ progress auto with rapido
    | match goal with
      | |- keeps_props (sbind _ _) => apply keeps_props_bind; [|let x := fresh "x" in intros x]
      | |- keeps_props (if ?b then _ else _) => destruct b
      end
    | progress unfold emit_hdr, emit_zeros, emit_padding, name_zeros ].

Lemma keeps_props_copy {W} `{Write W} md rd : keeps_props (W := W) (copy_data md rd).
Proof.
  unfold copy_data. destruct (0 <? len md); keeps_props_step.
  intros [st w]. by destruct (io_copy rd w).
Qed.

#[export] Hint Resolve keeps_props_copy : rapido.

Lemma run_request_props {W} `{Write W} q : keeps_props (W := W) (run_request q).
Proof.
  destruct q; simpl; unfold archive_path, archive_symlink, archive_file; keeps_props_step.
Qed.

Lemma run_requests_props {W} `{Write W} qs : keeps_props (W := W) (run_requests qs).
Proof. induction qs; simpl; keeps_props_step. apply run_request_props. Qed.

(** ** Reading back *)

(** A name that is text: UTF-8 without NUL. *)
Definition text_name (s : bytes) : Prop :=
  utf8_valid s = true /\ Forall (fun c => is_nul c = false) s.

(** The entry the walker yields for a request. *)
Record ent_for (q : request) (e : ArchiveEnt) (fname : bytes) : Prop := {
  em_trim : path_trim_prefixes (req_path q) = Ok fname;
  em_name : name e = name_buf fname;
  em_namesize : zlen fname + 1 <= namesize e <= PATH_MAX + 1;
  em_plain : req_plain q -> namesize e = zlen fname + 1;
  em_md : ent_md e = stored_md q;
  em_str : text_name fname -> name_str e = Ok fname;
}.

Lemma zeros_utf8 n : utf8_valid (zeros n) = true.
Proof. apply utf8_valid_ascii, Forall_replicate. unfold ascii_ok. lia. Qed.

Lemma zeros_cons n : 0 < n -> zeros n = 0 :: zeros (n - 1).
Proof.
  intros. assert (zeros n = zeros (1 + (n - 1))) as -> by (f_equal; lia).
  by rewrite zeros_add by lia.
Qed.

Lemma before_nul_zeros s n : Forall (fun c => is_nul c = false) s -> before_nul (s ++ zeros n) = s.
Proof.
  intros Hs. unfold before_nul. destruct (Z.ltb_spec 0 n) as [Hn|Hn].
  - by rewrite zeros_cons, split_once_run by done.
  - unfold zeros. replace (Z.to_nat n) with 0%nat by lia. rewrite app_nil_r.
    by rewrite split_once_None.
Qed.

(** The injected zeros are stripped from the name. *)
Lemma name_str_buf e fname :
  name e = name_buf fname -> zlen fname + 1 <= namesize e <= PATH_MAX + 1 -> text_name fname ->
  name_str e = Ok fname.
Proof.
  intros Hn Hns [Hu Hz]. unfold name_str, ent_name. rewrite Hn. unfold name_buf.
  set (k := namesize e - 1 - zlen fname). replace (PATH_MAX + 1 - zlen fname)
    with (k + (PATH_MAX + 2 - namesize e)) by lia.
  pose proof (zlen_nonneg fname). rewrite zeros_add, app_assoc, take_app_length' by
    (lia || (rewrite length_app; unfold zeros, k, zlen in *; rewrite length_replicate; lia)).
  unfold from_utf8. rewrite utf8_valid_app by (done || apply zeros_utf8). simpl.
  by rewrite before_nul_zeros.
Qed.

(** Names that end the walk early, or that the name buffer cannot tell apart. *)
Definition req_readable (q : request) : Prop :=
  path_trim_prefixes (req_path q) <> Ok trailer_name.

Lemma not_trailer fname seek : fname <> trailer_name -> 0 <= seek ->
  fname ++ zeros seek <> trailer_name.
Proof.
  intros Hf Hs Heq. destruct (decide (seek = 0)) as [->|Hne].
  { change (zeros 0) with (@nil Z) in Heq. by rewrite app_nil_r in Heq. }
  replace seek with (seek - 1 + 1) in Heq by lia. rewrite zeros_add in Heq by lia.
  rewrite app_assoc in Heq. apply (f_equal last) in Heq. change (zeros 1) with [0] in Heq.
  rewrite last_snoc in Heq. done.
Qed.

Section Reading.
Context {R : Type} `{Reliable R}.
Implicit Types r : R.

Lemma next_request st q fname seek rest r :
  state_ok st -> req_ok q -> entry_for st q fname seek -> namesize_max (props st) <= PATH_MAX + 1 ->
  req_readable q -> avail r = req_bytes st q fname seek ++ rest ->
  exists e r', next r = (Ok (Some e), r') /\ avail r' = rest /\ ent_for q e fname.
Proof.
  intros Hst Hq He Hmax Hread Hav. pose proof (req_hdr_ok _ _ _ _ Hst Hq He) as Hh.
  destruct He as [Hf Hs Hn Hm Hd Hpl]. pose proof (path_trim_ok _ _ Hf). pose proof (zlen_nonneg fname).
  destruct (next_entry _ _ _ _ _ _ Hav Hh Hs) as (r' & Hav' & Hr); [done|lia|done|].
  rewrite bool_decide_eq_false_2 in Hr.
  - eexists _, r'. split; [exact Hr|]. split; [done|].
    split; [done|done| | |done|].
    + simpl. lia.
    + simpl. intros Hp. rewrite Hpl by done. lia.
    + apply name_str_buf; [done|simpl; lia].
  - apply not_trailer; [|done]. intros ->. by apply Hread.
Qed.

Lemma walk_archived st qs b st' rest r fuel l :
  archived st qs b st' -> state_ok st -> Forall req_ok qs -> Forall req_readable qs ->
  namesize_max (props st) <= PATH_MAX + 1 -> avail r = b ++ rest ->
  exists ents r', walk collect (length qs + fuel) r l = walk collect fuel r' (l ++ ents) /\
    avail r' = rest /\ Forall2 (fun q e => exists fname, ent_for q e fname) qs ents.
Proof.
  intros Ha. revert r l.
  induction Ha as [st|st q fname seek qs b st' He Ha IH]; intros r l Hst Hqs Hrd Hmax Hav.
  { exists [], r. rewrite app_nil_r. split_and!; [done|done|constructor]. }
  apply Forall_cons in Hqs as [Hq Hqs]. apply Forall_cons in Hrd as [Hr Hrd].
  rewrite <-app_assoc in Hav.
  destruct (next_request _ _ _ _ _ _ Hst Hq He Hmax Hr Hav) as (e & r1 & Hn & Hav1 & Hef).
  destruct (IH r1 (l ++ [e])) as (ents & r' & Hw & Hav' & Hall);
    [by apply after_state_ok|done..|].
  exists (e :: ents), r'. split_and!; [|done|by constructor; [exists fname|]].
  simpl. rewrite Hn. cbn [collect]. by rewrite Hw, <-app_assoc.
Qed.

Lemma walk_trailer rest r fuel l : avail r = trailer_bytes ++ rest ->
  walk collect (S fuel) r l = Some (Ok tt, l).
Proof.
  intros Hav. unfold trailer_bytes in Hav. destruct (next_entry _ _ _ _ _ _ Hav) as (r' & _ & Hr);
    [by repeat constructor|done..|].
  simpl. by rewrite Hr, bool_decide_eq_true_2.
Qed.
End Reading.

(** What a walk over an archive yields. *)
Lemma walk_back {W R} `{WriteOk W} `{Reliable R} qs p (w w' : W) n st' (r : R) rest :
  archive qs (state_new p, w) = (Ok n, (st', w')) ->
  written w = [] -> props_ok p -> namesize_max p <= PATH_MAX + 1 ->
  Z.of_nat (length qs) < 2 ^ 29 -> Forall req_ok qs -> Forall req_readable qs ->
  avail r = written w' ++ rest ->
  n = zlen (written w') /\
  exists ents, walk collect (S (length qs)) r [] = Some (Ok tt, ents) /\
    Forall2 (fun q e => exists fname, ent_for q e fname) qs ents.
Proof.
  intros Hrun Hw Hp Hmax Hlen Hqs Hrd Hav.
  assert (state_ok (state_new p)) as Hst by (split_and!; [done|done|done|apply Hp]).
  apply archive_ok in Hrun as (b & st1 & Hb & Hw' & -> & _); [|done| |done].
  - rewrite Hw in Hw'. rewrite Hw' in Hav |- *. split; [done|].
    cbn [app] in Hav. rewrite <-app_assoc in Hav.
    destruct (walk_archived _ _ _ _ _ r 1 [] Hb Hst Hqs Hrd Hmax Hav) as (ents & r' & Hwk & Hav' & Hall).
    exists ents. rewrite Nat.add_1_r in Hwk. rewrite Hwk. by erewrite walk_trailer.
  - unfold room_for, state_new. simpl off. lia.
Qed.

(** ** Listing *)

(** The effect of the loop body on entries in order, up to the first error. *)
Fixpoint fold_ents {S} (f : ArchiveEnt -> S -> io unit * S) (l : list ArchiveEnt) (s : S) :
    io unit * S :=
  match l with
  | [] => (Ok tt, s)
  | e :: l => match f e s with
              | (Ok _, s') => fold_ents f l s'
              | (r, s') => (r, s')
              end
  end.

(** A client's loop sees the entries [collect] gathers. *)
Lemma walk_fold {R S} `{ReadSeek R} (f : ArchiveEnt -> S -> io unit * S) fuel (r : R) l l' s :
  walk collect fuel r l = Some (Ok tt, l') ->
  exists ents, l' = l ++ ents /\ walk f fuel r s = Some (fold_ents f ents s).
Proof.
  revert r l s. induction fuel as [|fuel IH]; intros r l s; simpl; [done|].
  destruct (next r) as [[[e|]|e|] r']; [| |done..].
  - cbn [collect]. intros Hw.
    destruct (f e s) as [[[]|er|] s'] eqn:Hf.
    + destruct (IH _ _ s' Hw) as (ents & -> & ->). exists (e :: ents).
      rewrite <-app_assoc. split; [done|]. simpl. by rewrite Hf.
    + destruct (IH _ _ s Hw) as (ents & -> & _). exists (e :: ents).
      rewrite <-app_assoc. split; [done|]. simpl. by rewrite Hf.
    + destruct (IH _ _ s Hw) as (ents & -> & _). exists (e :: ents).
      rewrite <-app_assoc. split; [done|]. simpl. by rewrite Hf.
  - intros [= <-]. exists []. by rewrite app_nil_r.
Qed.

(** The line lscpio prints for a request. *)
Definition list_line (q : request) (fname : bytes) : bytes :=
  let l := fmt_dec (zlen (req_data q)) in
  l ++ replicate (9 - length l) 32 ++ [32] ++ fname ++ [NL].

Definition req_text (q : request) : Prop :=
  forall fname, path_trim_prefixes (req_path q) = Ok fname -> text_name fname.

Lemma lscpio_ent_line q e fname out :
  ent_for q e fname -> text_name fname ->
  lscpio_ent e out = (Ok tt, out ++ list_line q fname).
Proof.
  intros [Hf Hn _ _ Hm _] [Hu Hz]. pose proof (path_trim_ok _ _ Hf). unfold lscpio_ent.
  rewrite Hn, Hm. unfold name_buf, from_utf8. rewrite utf8_valid_app by (done || apply zeros_utf8).
  by rewrite zeros_cons, split_once_run by (done || unfold PATH_MAX in *; lia).
Qed.

Lemma fold_lscpio qs ents out :
  Forall2 (fun q e => exists fname, ent_for q e fname) qs ents -> Forall req_text qs ->
  exists fnames, Forall2 (fun q f => path_trim_prefixes (req_path q) = Ok f) qs fnames /\
    fold_ents lscpio_ent ents out = (Ok tt, out ++ concat (zip_with list_line qs fnames)).
Proof.
  intros Hall. revert out. induction Hall as [|q e qs ents [fname He] _ IH]; intros out Ht.
  { exists []. simpl. rewrite app_nil_r. split; [constructor|done]. }
  apply Forall_cons in Ht as [Hq Ht]. pose proof (em_trim _ _ _ He) as Hf.
  destruct (IH (out ++ list_line q fname) Ht) as (fs & Hfs & Hfold).
  exists (fname :: fs). split; [by constructor|]. simpl.
  rewrite (lscpio_ent_line q e fname) by auto. rewrite Hfold. by rewrite <-app_assoc.
Qed.

(** C2. Round trip of the archive format: after any sequence of requests that
    succeeds and the trailer, over any writer, a walk over the bytes written
    (and whatever follows them), with any reliable reader, ends regularly and
    yields one entry per request, in order, with its name and its metadata. The
    side conditions: no file is called like the trailer, which would end the
    walk, and injected alignment stays within the name buffer of the reader. *)
Theorem archive_walk_roundtrip {W R} `{WriteOk W} `{Reliable R} qs p (w w' : W) n st' (r : R) rest :
  archive qs (state_new p, w) = (Ok n, (st', w')) ->
  written w = [] -> props_ok p -> namesize_max p <= PATH_MAX + 1 ->
  Z.of_nat (length qs) < 2 ^ 29 -> Forall req_ok qs -> Forall req_readable qs ->
  avail r = written w' ++ rest ->
  n = zlen (written w') /\
  exists ents, walk collect (S (length qs)) r [] = Some (Ok tt, ents) /\
    Forall2 (fun q e => exists fname, ent_for q e fname) qs ents.
Proof. apply walk_back. Qed.

(** C38. lscpio on an archive the crate has written prints one line per entry, in
    order: the length of the data segment, padded to nine columns, and the name. *)
Theorem lscpio_lists_archive {W R} `{WriteOk W} `{Reliable R} qs p (w w' : W) n st' (r : R) rest :
  archive qs (state_new p, w) = (Ok n, (st', w')) ->
  written w = [] -> props_ok p -> namesize_max p <= PATH_MAX + 1 ->
  Z.of_nat (length qs) < 2 ^ 29 -> Forall req_ok qs -> Forall req_readable qs ->
  Forall req_text qs -> avail r = written w' ++ rest ->
  exists fnames, Forall2 (fun q f => path_trim_prefixes (req_path q) = Ok f) qs fnames /\
    lscpio (S (length qs)) r = Some (Ok tt, concat (zip_with list_line qs fnames)).
Proof.
  intros Hrun Hw Hp Hmax Hlen Hqs Hrd Ht Hav.
  destruct (walk_back qs p w w' n st' r rest) as (_ & ents & Hwk & Hall); [done..|].
  destruct (walk_fold lscpio_ent _ _ _ _ [] Hwk) as (ents' & Heq & Hls). simplify_eq/=.
  unfold lscpio. destruct (fold_lscpio _ _ [] Hall Ht) as (fs & Hfs & Hfold).
  exists fs. split; [done|]. simpl. simpl in Hls. by rewrite Hls, Hfold.
Qed.

(** C22. Arbitrary input is safe: whatever the bytes, the walk ends within one
    step per byte, without panic, and lscpio does too; every entry yielded has
    its header fields in range, a name size of at most the name buffer, and a
    full buffer. *)
Theorem archive_walk_safe {R} `{ReadSeekOk R} (r : R) :
  exists x ents, walk collect (S (length (avail r))) r [] = Some (x, ents) /\ x <> Panic /\
    Forall ent_ok ents /\
    exists y out, lscpio (S (length (avail r))) r = Some (y, out) /\ y <> Panic.
Proof.
  destruct (walk_total collect (S (length (avail r))) r []) as (x & ents & Hw & Hx);
    [done|lia|].
  exists x, ents. split_and!; [done|done| |].
  - eapply (walk_inv collect (Forall ent_ok)); [|exact Hw|constructor].
    intros e l He Hl. cbn. by apply Forall_app_2; [|constructor].
  - apply walk_total; [|lia]. intros e s. unfold lscpio_ent. by repeat case_match.
Qed.

(** ** Alignment of data segments *)

Lemma wrap64_mod4 x : wrap64 x mod 4 = x mod 4.
Proof. apply Z.mod_mod_divide. by exists (2 ^ 62). Qed.

(** The position of the data segment, counted from the start of the image. *)
Definition data_pos (st : ArchiveState) (fname : bytes) (seek : Z) : Z :=
  initial_data_off (props st) + off st + name_end (zlen fname + 1 + seek).

Definition name_pos (st : ArchiveState) (fname : bytes) : Z :=
  initial_data_off (props st) + off st + NEWC_HDR_LEN + zlen fname + 1.

Lemma data_align_seek_fits st fname md k :
  data_align (props st) = 2 ^ k -> 0 <= k < 32 -> 2 ^ k < len md -> u64_ok (name_pos st fname) ->
  (- name_pos st fname) mod 2 ^ k + zlen fname + 1 <= namesize_max (props st) ->
  data_align_seek st fname md = Ok ((- name_pos st fname) mod 2 ^ k).
Proof.
  intros Hk Hkr Hlen Hpos Hmax. pose proof (Z.pow_pos_nonneg 2 k). unfold data_align_seek.
  rewrite Hk. replace ((0 <? 2 ^ k) && (2 ^ k <? len md)) with true by lia.
  unfold name_pos in *. rewrite wrap64_small, padlen_pow2 by (done || lia). cbv zeta.
  set (l := _ mod 2 ^ k) in *.
  replace (namesize_max (props st) <? _) with false by lia.
  rewrite u32_try_from_ok; [done|]. pose proof (Z.mod_pos_bound (- name_pos st fname) (2 ^ k)).
  assert (2 ^ k < 2 ^ 32) by (apply Z.pow_lt_mono_r; lia). unfold u32_ok, name_pos in *. lia.
Qed.

Lemma aligned_data_pos st fname k :
  state_ok st -> initial_data_off (props st) mod 4 = 0 -> 2 <= k ->
  data_pos st fname ((- name_pos st fname) mod 2 ^ k) mod 2 ^ k = 0.
Proof.
  intros (_ & Ha & _ & _) Hi Hk. set (seek := (- name_pos st fname) mod 2 ^ k).
  assert ((name_pos st fname + seek) mod 2 ^ k = 0) as Hal.
  { unfold seek. rewrite Zplus_mod_idemp_r. by rewrite Z.add_opp_diag_r. }
  assert ((NEWC_HDR_LEN + (zlen fname + 1 + seek)) mod 4 = 0) as H4.
  { assert ((name_pos st fname + seek) mod 4 = 0) as Hal4.
    { apply Z.mod_divide in Hal; [|lia]. apply Z.mod_divide; [done|].
      etrans; [|exact Hal]. exists (2 ^ (k - 2)). change 4 with (2 ^ 2).
      rewrite <-Z.pow_add_r by lia. f_equal. lia. }
    unfold name_pos in Hal4.
    replace (initial_data_off (props st) + off st + NEWC_HDR_LEN + zlen fname + 1 + seek)
      with (initial_data_off (props st) + (off st + (NEWC_HDR_LEN + (zlen fname + 1 + seek))))
      in Hal4 by lia.
    by rewrite Zplus_mod, Hi, (Zplus_mod (off st)), Ha, !Z.add_0_l, !Zmod_mod in Hal4. }
  unfold data_pos, name_end. rewrite padlen4, (Z.mod_opp_l_z _ 4 ltac:(done) H4), Z.add_0_r.
  etrans; [|exact Hal]. f_equal. unfold name_pos. lia.
Qed.

(** C31. Data alignment: with [data_align = 2^k] of at least 4 and an initial
    offset that is a multiple of 4, the data segment of a file longer than
    [data_align] starts at a multiple of [data_align] in the image, whenever the
    zeros this needs fit into [namesize_max]; the entry is otherwise laid out as
    usual. *)
Theorem archive_file_data_aligned {W} `{WriteOk W} p md rd st (w w' : W) st' k fname :
  archive_file p md rd (st, w) = (Ok tt, (st', w')) ->
  state_ok st -> off_room st -> md_ok md -> path_trim_prefixes p = Ok fname ->
  data_align (props st) = 2 ^ k -> 2 <= k < 32 -> 2 ^ k < len md ->
  initial_data_off (props st) mod 4 = 0 -> u64_ok (name_pos st fname) ->
  (- name_pos st fname) mod 2 ^ k + zlen fname + 1 <= namesize_max (props st) ->
  exists pre, written w' = written w ++ pre ++ rd_data rd ++ zeros (archive_padlen (len md) 4) /\
    (initial_data_off (props st) + off st + zlen pre) mod 2 ^ k = 0.
Proof.
  intros Hrun Hst Hroom Hmd Hf Hk Hkr Hlen Hi Hpos Hmax.
  apply archive_file_ok in Hrun as (fname' & seek & Hf' & Hs & Hs0 & Hn & Hd & Hw & _); [|done..].
  rewrite Hf in Hf'. injection Hf' as <-. rewrite (data_align_seek_fits st fname md k) in Hs by (done || lia). injection Hs as <-.
  assert (entry_data md rd = rd_data rd) as He.
  { unfold entry_data. pose proof (Z.pow_pos_nonneg 2 k). by replace (0 <? len md) with true by lia. }
  rewrite He in *. set (seek := (- name_pos st fname) mod 2 ^ k) in *.
  set (h := entry_hdr _ _ _ _) in Hw.
  exists (newc_hdr_fmt h ++ fname ++ zeros (1 + seek)
     ++ zeros (archive_padlen (NEWC_HDR_LEN + (zlen fname + 1 + seek)) 4)).
  split; [rewrite Hw; unfold entry_bytes; by rewrite Hd, <-!app_assoc|].
  assert (hdr_ok h) as Hh.
  { apply entry_hdr_ok; [apply Hst|done|apply Hmd|]. pose proof (zlen_nonneg fname).
    unfold u32_ok. lia. }
  pose proof (padlen4_range (NEWC_HDR_LEN + (zlen fname + 1 + seek))).
  rewrite !zlen_app, !zlen_zeros, newc_hdr_length by (done || lia).
  rewrite <-(aligned_data_pos st fname k) by (done || lia). fold seek. unfold data_pos, name_end.
  f_equal. lia.
Qed.

(** ** Panics *)

Lemma no_panic_emit {W} `{WriteOk W} b st (w : W) : no_panic (emit b) (st, w).
Proof.
  unfold no_panic, emit. destruct (write_all b w) as [[[]|e|] w'] eqn:Hw; try done.
  by apply write_all_total in Hw.
Qed.

(** the computations that emit and count, for which nothing can go wrong *)
Lemma no_panic_flush {W} `{WriteOk W} st (w : W) : no_panic flush_writer (st, w).
Proof.
  unfold no_panic, flush_writer. destruct (flush w) as [[[]|e|] w'] eqn:Hw; try done.
  by apply flush_total in Hw.
Qed.

Ltac np := repeat first
  [ apply no_panic_emit | apply no_panic_flush | done
  | progress unfold emit_hdr, emit_zeros, emit_padding
  | apply no_panic_bind; [|intros ? [? ?] ?] ].

Section Panics.
Context {W : Type} `{WriteOk W}.

Lemma no_panic_copy_data md rd st (w : W) : no_panic (copy_data md rd) (st, w).
Proof.
  unfold copy_data. case_match; [|done]. apply no_panic_bind.
  - unfold no_panic, io_copy. simpl.
    destruct (write_all (rd_data rd) w) as [[[]|e|] w'] eqn:Hw; simpl; [by case_match|done|].
    by apply write_all_total in Hw.
  - intros n [st' w'] _. case_match; np.
Qed.

Lemma no_panic_trim p (s : ArchiveState * W) : no_panic (slift (path_trim_prefixes p)) s.
Proof. unfold no_panic, slift, path_trim_prefixes. simpl. by case_match. Qed.

Lemma data_align_seek_total st fname md :
  props_ok (props st) -> zlen fname + 1 < PATH_MAX -> data_align_seek st fname md <> Panic.
Proof.
  intros (_ & _ & Hm & _) Hf. unfold data_align_seek. destruct (_ && _) eqn:Hd; [|done].
  apply andb_true_iff in Hd as [Hd _]. set (l := archive_padlen _ _).
  destruct (Z.ltb_spec (namesize_max (props st)) (l + zlen fname + 1)) as [|Hle]; [done|].
  rewrite u32_try_from_ok; [done|]. pose proof (zlen_nonneg fname). unfold u32_ok in *.
  assert (0 <= l) by (apply Z.mod_pos_bound; lia). lia.
Qed.

(** The injected zeros end at a multiple of four. *)
Lemma data_align_seek_mod4 st fname md seek :
  off st mod 4 = 0 -> data_align (props st) mod 4 = 0 -> initial_data_off (props st) mod 4 = 0 ->
  data_align_seek st fname md = Ok seek -> seek = 0 \/
  (NEWC_HDR_LEN + (zlen fname + 1 + seek)) mod 4 = 0.
Proof.
  intros Ha Hda Hio. unfold data_align_seek. destruct (_ && _) eqn:Hd; [|intros [= <-]; by left].
  apply andb_true_iff in Hd as [Hd _].
  set (x := wrap64 _). set (a := archive_padlen x _).
  destruct (namesize_max (props st) <? a + zlen fname + 1); [intros [= <-]; by left|].
  destruct (u32_try_from _) as [l|] eqn:Hl; [|done]. intros [= <-]. right.
  apply u32_try_from_Some in Hl as [-> _].
  pose proof (padlen_mod4 x _ Hda ltac:(lia)) as Hx. fold a in Hx.
  rewrite Zplus_mod in Hx. unfold x in Hx. rewrite wrap64_mod4 in Hx.
  rewrite <-Zplus_mod in Hx.
  replace (initial_data_off (props st) + off st + NEWC_HDR_LEN + zlen fname + 1 + a)
    with (initial_data_off (props st) + (off st + (NEWC_HDR_LEN + (zlen fname + 1 + a))))
    in Hx by lia.
  by rewrite Zplus_mod, Hio, (Zplus_mod (off st)), Ha, !Z.add_0_l, !Zmod_mod in Hx.
Qed.

Lemma no_panic_name_zeros st n seek (w : W) :
  off st mod 4 = 0 -> (seek = 0 \/ (NEWC_HDR_LEN + (n + 1 + seek)) mod 4 = 0) ->
  no_panic (name_zeros seek) (adv st (NEWC_HDR_LEN + n), w).
Proof.
  intros Ha Hs. unfold name_zeros. apply no_panic_bind; [done|].
  intros st1 s [= <- <-]. destruct (Z.ltb_spec 0 seek) as [Hlt|]; [|done].
  destruct Hs as [->|Hs]; [lia|]. apply no_panic_bind; [|done].
  unfold sassert. rewrite padlen4, off_adv, wrap64_add_l.
  rewrite (Z.mod_opp_l_z _ 4); [done|done|]. rewrite wrap64_mod4.
  replace (off st + (NEWC_HDR_LEN + n) + (1 + seek))
    with (off st + (NEWC_HDR_LEN + (n + 1 + seek))) by lia.
  by rewrite Zplus_mod, Ha, Hs.
Qed.

Lemma no_panic_file p md rd st (w : W) :
  props_ok (props st) -> off st mod 4 = 0 -> data_align (props st) mod 4 = 0 ->
  initial_data_off (props st) mod 4 = 0 -> no_panic (archive_file p md rd) (st, w).
Proof.
  intros Hp Ha Hda Hio. unfold archive_file. apply no_panic_bind; [apply no_panic_trim|].
  intros fname s [= Hf <-]. apply path_trim_ok in Hf. case_match; [np|].
  apply no_panic_bind; [done|]. intros st1 s [= <- <-].
  apply no_panic_bind; [by apply data_align_seek_total|].
  intros seek s [= Hs <-]. apply data_align_seek_mod4 in Hs; [|done..].
  apply no_panic_bind; [np|]. intros [] s (w1 & -> & _)%emit_hdr_inv.
  apply no_panic_bind; [np|]. intros [] s (w2 & -> & _)%emit_inv.
  apply no_panic_bind; [done|]. intros [] s Hadd. rewrite add_off_eq in Hadd.
  injection Hadd as <-. apply no_panic_bind.
  - rewrite adv_adv. by apply no_panic_name_zeros.
  - intros n [st2 w3] _. np. apply no_panic_copy_data.
Qed.

(** What is added to the offset in an entry ends at a multiple of four, even when
    the offset wraps around. *)
Lemma state_ok_adv st n : props_ok (props st) -> u32_ok (ino st) -> (off st + n) mod 4 = 0 ->
  state_ok (adv st n).
Proof.
  intros Hp Hi Hn. unfold adv. split_and!; simpl; [done| |by apply Z.mod_pos_bound|done].
  by rewrite wrap64_mod4.
Qed.

Lemma wrap_pad4 x a : (x + (a + archive_padlen (wrap64 (x + a)) 4)) mod 4 = 0.
Proof.
  rewrite padlen4, Z.add_assoc, Zplus_mod_idemp_r.
  rewrite <-(Zplus_mod_idemp_l (x + a)), <-(wrap64_mod4 (x + a)), Zplus_mod_idemp_l. by rewrite Z.add_opp_diag_r.
Qed.

(** the file data and their padding, or nothing after a name that ends aligned *)
Lemma copy_data_state_ok md rd st (w : W) st' w' :
  copy_data md rd (st, w) = (Ok tt, (st', w')) -> state_ok st -> state_ok st'.
Proof.
  unfold copy_data. intros Hr Hst. destruct (0 <? len md); [|unfold sret in Hr; by simplify_eq].
  apply sbind_inv_ok in Hr as (n & [st1 w1] & Hc & Hr). destruct (io_copy rd w) as [r1 w2]. injection Hc as -> <- <-.
  destruct (negb _); [done|]. unfold sbind at 1 in Hr. rewrite add_off_eq in Hr.
  apply emit_padding_inv in Hr as (w3 & [= -> ->] & _). rewrite adv_adv. destruct Hst as (Hp & _ & _ & Hi).
  apply state_ok_adv; [done|done|]. apply (wrap_pad4 (off st) (len md)).
Qed.

(** the zeros after a name *)
Lemma name_zeros_state_ok seek st (w : W) k st' w' : name_zeros seek (st, w) = (Ok k, (st', w')) ->
  props_ok (props st) -> u32_ok (ino st) -> state_ok (adv st' k).
Proof.
  unfold name_zeros. unfold sbind at 1. cbn [get_state]. intros Hr Hp Hi. destruct (0 <? seek).
  - apply sbind_inv_ok in Hr as ([] & s & Ha & Hr). unfold sassert in Ha.
    destruct (Z.eqb_spec (archive_padlen (wrap64 (off st + (1 + seek))) 4) 0) as [Hz|]; [|done].
    unfold sret in Ha, Hr. simplify_eq. apply state_ok_adv; [done..|].
    pose proof (wrap_pad4 (off st') (1 + seek)) as Hw. by rewrite Hz, Z.add_0_r in Hw.
  - unfold sret in Hr. simplify_eq. apply state_ok_adv; [done..|]. apply wrap_pad4.
Qed.

Lemma request_state_ok q st (w : W) st' w' : run_request q (st, w) = (Ok tt, (st', w')) ->
  state_ok st -> data_align (props st) mod 4 = 0 -> initial_data_off (props st) mod 4 = 0 -> state_ok st'.
Proof.
  intros Hr Hst Hda Hio. pose proof Hst as (Hp & Ha & _ & _). destruct q as [p md|p md tgt|p md rd]; simpl in Hr.
  - unfold archive_path in Hr. apply sbind_inv_ok in Hr as (fname & s0 & [= _ <-] & Hr). destruct (_ || _); [done|].
    arch_inv. apply state_ok_adv; [done|apply wrap32_ok|apply wrap_pad4].
  - unfold archive_symlink in Hr. apply sbind_inv_ok in Hr as (fname & s0 & [= _ <-] & Hr). destruct (_ <=? _); [done|].
    destruct (negb _); [done|]. arch_inv. apply state_ok_adv; [done|apply wrap32_ok|apply padlen4_sum].
  - unfold archive_file in Hr. apply sbind_inv_ok in Hr as (fname & s0 & [= Hf <-] & Hr). destruct (negb _); [done|].
    unfold sbind at 1 in Hr. cbn [get_state] in Hr. apply sbind_inv_ok in Hr as (seek & s0 & [= Hs <-] & Hr).
    apply data_align_seek_mod4 in Hs; [|done..].
    apply sbind_inv_ok in Hr as ([] & s0 & (w1 & -> & _)%emit_hdr_inv & Hr).
    apply sbind_inv_ok in Hr as ([] & s0 & (w2 & -> & _)%emit_inv & Hr).
    unfold sbind at 1 in Hr. rewrite add_off_eq in Hr.
    apply sbind_inv_ok in Hr as (k & [st1 w3] & Hk & Hr).
    apply sbind_inv_ok in Hr as ([] & s0 & (w4 & -> & _)%emit_zeros_inv & Hr).
    eapply copy_data_state_ok; [exact Hr|]. apply (name_zeros_state_ok _ _ _ _ _ _ Hk); cbn [props ino]; [done|apply wrap32_ok].
Qed.

Lemma no_panic_request q st (w : W) :
  state_ok st -> data_align (props st) mod 4 = 0 -> initial_data_off (props st) mod 4 = 0 ->
  no_panic (run_request q) (st, w).
Proof.
  intros (Hp & Ha & _ & _) Hda Hio. destruct q as [p md|p md tgt|p md rd]; simpl.
  - unfold archive_path. apply no_panic_bind; [apply no_panic_trim|].
    intros fname [st' w'] _. case_match; np.
  - unfold archive_symlink. apply no_panic_bind; [apply no_panic_trim|].
    intros fname [st' w'] _. repeat (case_match; [np|]). np.
  - by apply no_panic_file.
Qed.
End Panics.

(** C23. No panic: when [data_align] and [initial_data_off] are multiples of four
    no sequence of requests, however many, whatever the metadata, sizes and
    sources, and whatever the writer does, trips the alignment assertion or an
    [unwrap], even when the offset wraps around. *)
Theorem archive_requests_no_panic {W} `{WriteOk W} qs st (w : W) : state_ok st ->
  data_align (props st) mod 4 = 0 -> initial_data_off (props st) mod 4 = 0 ->
  fst (run_requests qs (st, w)) <> Panic.
Proof.
  revert st w. induction qs as [|q qs IH]; intros st w Hst Hda Hio; [done|]. simpl.
  apply (no_panic_bind (run_request q)); [by apply no_panic_request|].
  intros [] [st1 w1] Hr. pose proof (run_request_props q (st, w)) as Hp. rewrite Hr in Hp. simpl in Hp.
  apply request_state_ok in Hr; [|done..]. apply IH; [done|by rewrite Hp..].
Qed.

(** ** Instances of the theorems *)

Module Sample.
Definition dir_md : ArchiveMd := MkMd 2 (Z.lor S_IFDIR 0x1ed) 0 0 7 0 0 4096.
Definition file_md (n : Z) : ArchiveMd := MkMd 1 (Z.lor S_IFREG 0x1a4) 0 0 7 0 0 n.
Definition link_md : ArchiveMd := MkMd 1 (Z.lor S_IFLNK 0x1ff) 0 0 7 0 0 4.
Definition reqs : list request :=
  [ReqPath (B "/lib") dir_md; ReqFile (B "lib/a") (file_md 5) (reader_of (B "hello"));
   ReqSymlink (B "./l") link_md (B "/lib")].
Definition out : Vector :=
  snd (snd (archive reqs (state_new props_default, MkVector []))).

Lemma md_ok_dec (a b c d e f g h : Z) :
  forallb (fun n => (0 <=? n) && (n <? 2 ^ 32)) [a; b; c; d; e; f; g; h] = true ->
  md_ok (MkMd a b c d e f g h).
Proof. unfold md_ok, u32_ok. simpl. intros. lia. Qed.

Lemma reqs_ok : Forall req_ok reqs.
Proof. repeat constructor; by apply md_ok_dec. Qed.

Lemma reqs_readable : Forall req_readable reqs.
Proof. repeat constructor; by vm_compute. Qed.

Lemma reqs_text : Forall req_text reqs.
Proof.
  repeat (apply Forall_cons; split; [intros f Hf; vm_compute in Hf; injection Hf as <-;
    split; [done|by repeat constructor]|]). constructor.
Qed.

Lemma props_default_ok : props_ok props_default.
Proof. by repeat split. Qed.
End Sample.

Lemma archive_walk_roundtrip_witness :
  480 = zlen (written Sample.out) /\
  exists ents, walk collect (S (length Sample.reqs)) (MkCursor (vec_data Sample.out) 0) [] = Some (Ok tt, ents) /\
    Forall2 (fun q e => exists fname, ent_for q e fname) Sample.reqs ents.
Proof.
  apply (archive_walk_roundtrip Sample.reqs props_default (MkVector []) Sample.out 480
    (fst (snd (archive Sample.reqs (state_new props_default, MkVector []))))
    (MkCursor (vec_data Sample.out) 0) []).
  - vm_compute. reflexivity.
  - reflexivity.
  - apply Sample.props_default_ok.
  - done.
  - done.
  - apply Sample.reqs_ok.
  - apply Sample.reqs_readable.
  - vm_compute. reflexivity.
Defined.

Lemma lscpio_lists_archive_witness :
  exists fnames, Forall2 (fun q f => path_trim_prefixes (req_path q) = Ok f) Sample.reqs fnames /\
    lscpio (S (length Sample.reqs)) (MkCursor (vec_data Sample.out) 0)
    = Some (Ok tt, concat (zip_with list_line Sample.reqs fnames)).
Proof.
  apply (lscpio_lists_archive Sample.reqs props_default (MkVector []) Sample.out 480
    (fst (snd (archive Sample.reqs (state_new props_default, MkVector []))))
    (MkCursor (vec_data Sample.out) 0) []).
  - vm_compute. reflexivity.
  - reflexivity.
  - apply Sample.props_default_ok.
  - done.
  - done.
  - apply Sample.reqs_ok.
  - apply Sample.reqs_readable.
  - apply Sample.reqs_text.
  - vm_compute. reflexivity.
Defined.

Lemma archive_walk_safe_witness :
  exists x ents, walk collect (S (length (avail (MkCursor (B "070701x") 0)))) (MkCursor (B "070701x") 0) [] = Some (x, ents) /\ x <> Panic /\
    Forall ent_ok ents /\
    exists y out, lscpio (S (length (avail (MkCursor (B "070701x") 0)))) (MkCursor (B "070701x") 0) = Some (y, out) /\ y <> Panic.
Proof. apply (archive_walk_safe (MkCursor (B "070701x") 0)). Defined.

Module Aligned.
Definition st : ArchiveState := state_new (MkProps 0 8 PATH_MAX 0 None None None).
Definition rd : Reader := reader_of (B "0123456789abcdef").
Definition run : io unit * (ArchiveState * Vector) :=
  archive_file (B "f") (Sample.file_md 16) rd (st, MkVector []).
End Aligned.

Lemma archive_file_data_aligned_witness :
  exists pre, written (snd (snd Aligned.run))
    = written (MkVector []) ++ pre ++ rd_data Aligned.rd
      ++ zeros (archive_padlen (len (Sample.file_md 16)) 4) /\
    (initial_data_off (props Aligned.st) + off Aligned.st + zlen pre) mod 2 ^ 3 = 0.
Proof.
  apply (archive_file_data_aligned (B "f") (Sample.file_md 16) Aligned.rd Aligned.st (MkVector [])
    (snd (snd Aligned.run)) (fst (snd Aligned.run)) 3 (B "f")).
  - vm_compute. reflexivity.
  - by repeat split.
  - done.
  - by apply Sample.md_ok_dec.
  - reflexivity.
  - reflexivity.
  - done.
  - done.
  - reflexivity.
  - done.
  - by vm_compute.
Defined.

Lemma archive_requests_no_panic_witness :
  fst (run_requests Sample.reqs (state_new props_default, MkDevice [] 200)) <> Panic.
Proof.
  apply archive_requests_no_panic; [by repeat split|reflexivity|reflexivity].
Defined.
