(* ===== verification/CpioSim.v ===== *)
(** * cpio: independence of the writer

    Every operation of the cpio crate is a computation over an abstract writer.
    Here the operations over an arbitrary writer are related to the same
    operations over an in-memory vector: the writer has received exactly the
    bytes of the vector, or, when it fails, a prefix of them. The rest of the
    file gives the operations' error branches and the conversion of file
    metadata. *)

From S2P Require Import Prelude RustStr RustPath RustIo Cpio CpioArchive.

(** ** The simulation *)

(** A computation over the vector only appends to it. *)
Definition appends {A} (cv : Arch Vector A) : Prop := forall st d,
  exists q, snd (snd (cv (st, MkVector d))) = MkVector (d ++ q).

(** [c] over any writer against [cv] over a vector: the same result, state and
    bytes, unless the writer failed; then the vector has at least these bytes. *)
Definition simulates {W A} `{Write W} (c : Arch W A) (cv : Arch Vector A) : Prop :=
  appends cv /\ forall st w d, exists p,
    written (snd (snd (c (st, w)))) = written w ++ p /\
    (cv (st, MkVector d) = (fst (c (st, w)), (fst (snd (c (st, w))), MkVector (d ++ p)))
     \/ is_err (fst (c (st, w))) = true /\
        exists q, snd (snd (cv (st, MkVector d))) = MkVector (d ++ p ++ q)).

Lemma appends_bind {A C} (cv : Arch Vector A) (fv : A -> Arch Vector C) :
  appends cv -> (forall a, appends (fv a)) -> appends (sbind cv fv).
Proof.
  intros Hc Hf st d. destruct (Hc st d) as [q Hq]. unfold sbind.
  destruct (cv (st, MkVector d)) as [[a|e|] [st' v']]; simpl in Hq; subst; [|eauto..].
  destruct (Hf a st' (d ++ q)) as [q' Hq']. exists (q ++ q'). by rewrite app_assoc.
Qed.

Section Simulation.
Context {W : Type} `{WriteOk W}.

Lemma simulates_bind {A C} (c : Arch W A) cv (f : A -> Arch W C) fv :
  simulates c cv -> (forall a, simulates (f a) (fv a)) -> simulates (sbind c f) (sbind cv fv).
Proof.
  intros [Hac Hc] Hf. split; [apply appends_bind; [done|]; intros a; apply Hf|].
  intros st w d. destruct (Hc st w d) as (p & Hw & Hcase). unfold sbind.
  destruct (c (st, w)) as [r [st1 w1]]. simpl in *.
  destruct Hcase as [Heq|[He [q Hq]]].
  - rewrite Heq. destruct r as [a|e|]; simpl; [|by exists p; split; [|left]..].
    destruct (Hf a) as [_ Ha]. destruct (Ha st1 w1 (d ++ p)) as (p' & Hw' & Hcase').
    exists (p ++ p'). rewrite Hw', Hw, <-!app_assoc. split; [done|].
    destruct Hcase' as [->|[He [q Hq]]]; [left; by rewrite <-app_assoc|right].
    split; [done|]. exists q. by rewrite Hq, <-!app_assoc.
  - destruct r as [a|e|]; [done| |done]. exists p. split; [done|]. right. split; [done|].
    destruct (cv (st, MkVector d)) as [rv [stv vv]]. simpl in Hq. subst.
    destruct rv as [a|e'|]; simpl; [|by exists q..].
    destruct (Hf a) as [Ha _]. destruct (Ha stv (d ++ p ++ q)) as [q' ->].
    exists (q ++ q'). by rewrite <-!app_assoc.
Qed.

(** Steps that leave the writer alone. *)
Lemma simulates_pure {A} (g : ArchiveState -> result io_error A * ArchiveState) :
  simulates (fun '(st, w) => (fst (g st), (snd (g st), w : W)))
            (fun '(st, w) => (fst (g st), (snd (g st), w))).
Proof.
  split; [intros st d; exists []; by rewrite app_nil_r|].
  intros st w d. exists []. rewrite !app_nil_r. split; [done|by left].
Qed.

Lemma simulates_sret {A} (a : A) : simulates (W := W) (sret a) (sret a).
Proof. apply (simulates_pure (fun st => (Ok a, st))). Qed.
Lemma simulates_sfail {A} e : simulates (W := W) (A := A) (sfail e) (sfail e).
Proof. apply (simulates_pure (fun st => (Err e, st))). Qed.
Lemma simulates_slift {A} (r : io A) : simulates (W := W) (slift r) (slift r).
Proof. apply (simulates_pure (fun st => (r, st))). Qed.
Lemma simulates_sassert b : simulates (W := W) (sassert b) (sassert b).
Proof. destruct b; [apply simulates_sret|]. apply (simulates_pure (fun st => (Panic, st))). Qed.
Lemma simulates_get : simulates (W := W) get_state get_state.
Proof. apply (simulates_pure (fun st => (Ok st, st))). Qed.
Lemma simulates_ino : simulates (W := W) next_ino next_ino.
Proof. apply (simulates_pure (fun st => (Ok (ino st), MkState _ _ _))). Qed.
Lemma simulates_off n : simulates (W := W) (add_off n) (add_off n).
Proof. apply (simulates_pure (fun st => (Ok tt, MkState _ _ _))). Qed.

Lemma simulates_emit b : simulates (W := W) (emit b) (emit b).
Proof.
  split; [intros st d; by exists b|]. intros st w d. unfold emit.
  destruct (write_all b w) as [[[]|e|] w'] eqn:Hw; simpl.
  - exists b. split; [by apply write_all_ok|]. by left.
  - apply write_all_err in Hw as (p & q & -> & Hw). exists p. split; [done|].
    right. split; [done|]. by exists q.
  - by apply write_all_total in Hw.
Qed.

Lemma simulates_copy rd :
  simulates (W := W) (fun '(st, w) => let '(r, w') := io_copy rd w in (r, (st, w')))
    (fun '(st, w) => let '(r, w') := io_copy rd w in (r, (st, w'))).
Proof.
  split; [intros st d; by exists (rd_data rd)|]. intros st w d. unfold io_copy. simpl.
  destruct (write_all (rd_data rd) w) as [[[]|e|] w'] eqn:Hw; simpl.
  - exists (rd_data rd). split; [by apply write_all_ok|]. by left.
  - apply write_all_err in Hw as (p & q & -> & Hw). exists p. split; [done|].
    right. split; [done|]. by exists q.
  - by apply write_all_total in Hw.
Qed.

Ltac sim := repeat first
  [ apply simulates_emit | apply simulates_sret | apply simulates_sfail | apply simulates_slift
  | apply simulates_sassert | apply simulates_get | apply simulates_ino | apply simulates_off
  | apply simulates_copy | apply simulates_bind; [|intros ?]
  | match goal with |- simulates (if ?b then _ else _) _ => destruct b end ].

Lemma simulates_request q : simulates (W := W) (run_request q) (run_request q).
Proof.
  destruct q; simpl; unfold archive_path, archive_symlink, archive_file, emit_hdr, emit_zeros,
    emit_padding, name_zeros, copy_data; sim.
Qed.

Lemma simulates_requests qs : simulates (W := W) (run_requests qs) (run_requests qs).
Proof. induction qs as [|q qs IH]; simpl; [sim|]. by apply simulates_bind; [apply simulates_request|]. Qed.

Lemma simulates_archive qs : simulates (W := W) (archive qs) (archive qs).
Proof.
  apply simulates_bind; [apply simulates_requests|]. intros _. unfold archive_trailer. sim.
Qed.
End Simulation.

(** C16. Independence of the writer: making an archive over any writer sends it
    exactly the bytes an in-memory vector would receive, with the same result
    and final state; if the two differ, the writer has failed, the result is an
    error, and what was written is a prefix of the archive. *)
Theorem archive_writer_independent {W} `{WriteOk W} qs st (w : W) :
  exists p, written (snd (snd (archive qs (st, w)))) = written w ++ p /\
    (archive qs (st, MkVector [])
     = (fst (archive qs (st, w)), (fst (snd (archive qs (st, w))), MkVector p)) \/
     is_err (fst (archive qs (st, w))) = true /\
     exists q, snd (snd (archive qs (st, MkVector []))) = MkVector (p ++ q)).
Proof. destruct (simulates_archive (W := W) qs) as [_ Hs]. apply (Hs st w []). Qed.

(** ** The outcome of a request *)

(** What is refused before anything is written. *)
Definition rejected (q : request) : option io_error :=
  match path_trim_prefixes (req_path q) with
  | Err e => Some e
  | _ =>
      match q with
      | ReqPath _ md =>
          if (is_type (mode md) S_IFREG && (0 <? len md)) || is_type (mode md) S_IFLNK
          then Some (err_new InvalidInput "archive_path does not support data files or symlinks")
          else None
      | ReqSymlink _ md tgt =>
          if PATH_MAX <=? zlen tgt then Some (err_new InvalidInput "symlink path too long")
          else if is_type (mode md) S_IFLNK then None else Some (err_from InvalidInput)
      | ReqFile _ md _ =>
          if is_type (mode md) S_IFREG then None else Some (err_new InvalidInput "not a file")
      end
  end.

(** A source that fails, or does not have the announced length. *)
Definition source_error (q : request) : option io_error :=
  match q with
  | ReqFile _ md rd =>
      if 0 <? len md then
        match rd_err rd with
        | Some e => Some e
        | None => if zlen (rd_data rd) =? len md then None
                  else Some (err_new UnexpectedEof "copy returned unexpected length")
        end
      else None
  | _ => None
  end.

Lemma path_trim_no_panic p : path_trim_prefixes p <> Panic.
Proof. unfold path_trim_prefixes. by destruct (_ <=? _). Qed.

Lemma rejected_unchanged {W} `{Write W} q e st (w : W) :
  rejected q = Some e -> run_request q (st, w) = (Err e, (st, w)).
Proof.
  unfold rejected. intros Hr.
  destruct (path_trim_prefixes (req_path q)) as [f|e'|] eqn:Hf;
    [| |by apply path_trim_no_panic in Hf].
  - destruct q as [p md|p md tgt|p md rd]; simpl in *;
      [unfold archive_path|unfold archive_symlink|unfold archive_file];
      unfold sbind, slift; rewrite Hf; revert Hr;
      destruct (is_type (mode md) S_IFREG), (is_type (mode md) S_IFLNK); simpl;
      repeat case_match; by intros [= <-].
  - simplify_eq. destruct q as [p md|p md tgt|p md rd]; simpl in *;
      [unfold archive_path|unfold archive_symlink|unfold archive_file];
      unfold sbind, slift; by rewrite Hf.
Qed.

(** Over a vector the result is [r], or a panic. *)
Definition gives {A} (r : io A) (c : Arch Vector A) : Prop :=
  forall s, fst (c s) = r \/ fst (c s) = Panic.
Definition never_err {A} (c : Arch Vector A) : Prop := forall s, is_err (fst (c s)) = false.

Lemma gives_bind {A C} (r : io C) (c : Arch Vector A) f :
  never_err c -> (forall a, gives r (f a)) -> gives r (sbind c f).
Proof.
  intros Hc Hf s. unfold sbind. specialize (Hc s).
  destruct (c s) as [[a|e|] s']; [apply Hf|done|by right].
Qed.

Lemma never_err_bind {A C} (c : Arch Vector A) (f : A -> Arch Vector C) :
  never_err c -> (forall a, never_err (f a)) -> never_err (sbind c f).
Proof.
  intros Hc Hf s. unfold sbind. specialize (Hc s).
  destruct (c s) as [[a|e|] s']; [apply Hf|done|done].
Qed.

Lemma never_err_gives c : never_err c -> gives (Ok tt) c.
Proof. intros Hc s. specialize (Hc s). destruct (fst (c s)) as [[]|e|]; eauto. done. Qed.

Lemma never_err_emit b : never_err (emit b).
Proof. by intros [st w]. Qed.
Lemma never_err_get : never_err get_state.
Proof. by intros [st w]. Qed.
Lemma never_err_off n : never_err (add_off n).
Proof. by intros [st w]. Qed.
Lemma never_err_ino : never_err next_ino.
Proof. by intros [st w]. Qed.
Lemma never_err_sret {A} (a : A) : never_err (sret a).
Proof. by intros [st w]. Qed.
Lemma never_err_sassert b : never_err (sassert b).
Proof. by destruct b; intros [st w]. Qed.
Lemma never_err_seek st f md : never_err (slift (data_align_seek st f md)).
Proof. intros s. unfold slift, data_align_seek, unwrap. simpl. by repeat case_match. Qed.

Ltac vec := repeat first
  [ apply never_err_emit | apply never_err_sret | apply never_err_sassert | apply never_err_get
  | apply never_err_off | apply never_err_ino | apply never_err_seek
  | apply never_err_bind; [|intros ?]
  | match goal with |- never_err (if ?b then _ else _) => destruct b end ].

Lemma copy_data_gives p md rd :
  gives (match source_error (ReqFile p md rd) with Some e => Err e | None => Ok tt end)
    (copy_data md rd).
Proof.
  intros [st w]. unfold source_error, copy_data. destruct (0 <? len md); [|by left].
  pose (w' := MkVector (vec_data w ++ rd_data rd)). destruct (rd_err rd) as [e|] eqn:He.
  - erewrite (sbind_err _ _ _ e (st, w')); [by left|]. unfold io_copy. simpl. by rewrite He.
  - erewrite (sbind_ok _ _ _ (zlen (rd_data rd)) (st, w'));
      [|unfold io_copy; simpl; by rewrite He].
    destruct (zlen (rd_data rd) =? len md); [|by left]. simpl negb. cbv iota.
    apply (never_err_gives (do* add_off (len md) ;; emit_padding)). unfold emit_padding. vec.
Qed.

Lemma request_gives q : rejected q = None ->
  gives (match source_error q with Some e => Err e | None => Ok tt end) (run_request q).
Proof.
  intros Hr s. unfold rejected in Hr.
  destruct (path_trim_prefixes (req_path q)) as [f|e'|] eqn:Hf;
    [|done|by apply path_trim_no_panic in Hf].
  destruct q as [p md|p md tgt|p md rd]; simpl in Hf |- *.
  - unfold archive_path. unfold sbind at 1, slift. rewrite Hf. case_match; [done|].
    revert s. apply never_err_gives. unfold emit_hdr, emit_zeros. vec.
  - unfold archive_symlink. unfold sbind at 1, slift. rewrite Hf. case_match; [done|].
    destruct (is_type _ _); [|done]. revert s. apply never_err_gives.
    unfold emit_hdr, emit_zeros, emit_padding. vec.
  - unfold archive_file. unfold sbind at 1, slift at 1. rewrite Hf.
    destruct (is_type _ _); [|done].
    match goal with |- fst (?c s) = ?r \/ _ => enough (gives r c) as Hg by apply Hg end. clear s.
    do 5 (apply gives_bind; [unfold emit_hdr; vec|intros ?]).
    apply gives_bind; [unfold name_zeros; vec|intros ?].
    apply gives_bind; [unfold emit_zeros; vec|intros ?]. apply (copy_data_gives p).
Qed.

(** C24. Exactly which requests fail: a request that is refused (its path is too
    long, or the operation does not suit the type of the file) leaves state and
    writer untouched, over any writer; any other request on a vector fails only
    if its source fails or does not have the announced length, and otherwise
    succeeds. *)
Theorem run_request_outcome q st d :
  state_ok st -> data_align (props st) mod 4 = 0 -> initial_data_off (props st) mod 4 = 0 ->
  match rejected q with
  | Some e => run_request q (st, MkVector d) = (Err e, (st, MkVector d)) /\
      forall (dev : Device), run_request q (st, dev) = (Err e, (st, dev))
  | None => fst (run_request q (st, MkVector d))
            = match source_error q with Some e => Err e | None => Ok tt end
  end.
Proof.
  intros Hst Hda Hio. destruct (rejected q) as [e|] eqn:Hr.
  - split; [by apply rejected_unchanged|]. intros dev. by apply rejected_unchanged.
  - destruct (request_gives q Hr (st, MkVector d)) as [|Hp]; [done|].
    by apply (no_panic_request q st (MkVector d)) in Hp.
Qed.

(** ** File metadata *)

(** The types of the fields stat returns. *)
Definition stat_ok (md : Metadata) : Prop :=
  u32_ok (st_mode md) /\ u32_ok (st_uid md) /\ u32_ok (st_gid md) /\ u64_ok (st_rdev md) /\
  u64_ok (st_nlink md) /\ u64_ok (st_len md) /\ - 2 ^ 63 <= st_mtime md < 2 ^ 63.

Definition opt_u32_ok (o : option Z) : Prop := match o with Some n => u32_ok n | None => True end.
Definition fixed_ok (p : ArchiveProperties) : Prop :=
  opt_u32_ok (fixed_mtime p) /\ opt_u32_ok (fixed_uid p) /\ opt_u32_ok (fixed_gid p).

Lemma u32_try_from_None n : u32_try_from n = None -> ~ u32_ok n.
Proof. intros H Hn. by rewrite u32_try_from_ok in H. Qed.

Definition is_device (m : Z) : bool := is_type m S_IFBLK || is_type m S_IFCHR.

(** What an archive records of a file's metadata. *)
Record md_from_spec (p : ArchiveProperties) (md : Metadata) (a : ArchiveMd) : Prop := {
  mf_ok : md_ok a;
  mf_mode : mode a = st_mode md;
  mf_len : len a = st_len md;
  mf_uid : uid a = default (st_uid md) (fixed_uid p);
  mf_gid : gid a = default (st_gid md) (fixed_gid p);
  mf_mtime : mtime a = default (st_mtime md) (fixed_mtime p);
  mf_nlink : nlink a = if is_type (st_mode md) S_IFREG then 1 else st_nlink md;
  mf_dev : is_device (st_mode md) = false -> rmajor a = 0 /\ rminor a = 0;
}.

Lemma is_type_excl m t t' : is_type m t = true -> t <> t' -> is_type m t' = false.
Proof. unfold is_type. intros H Ht. apply Z.eqb_eq in H. apply Z.eqb_neq. by rewrite H. Qed.

(** What [ArchiveMd::from] yields, by cases. *)
Lemma archive_md_from_cases st md :
  stat_ok md -> fixed_ok (props st) ->
  match archive_md_from st md with
  | Ok a => md_from_spec (props st) md a
  | Err e => kind e = InvalidInput /\
      (~ u32_ok (st_len md) \/ fixed_mtime (props st) = None /\ ~ u32_ok (st_mtime md)
       \/ is_type (st_mode md) S_IFREG = false /\ ~ u32_ok (st_nlink md))
  | Panic => False
  end.
Proof.
  intros (Hm & Hu & Hg & Hr & Hn & Hl & Ht) (Hft & Hfu & Hfg). unfold archive_md_from.
  assert (forall o d, opt_u32_ok o -> u32_ok d -> u32_ok (default d o)) as Hdef by (by intros []).
  set (mt := match fixed_mtime _ with Some _ => _ | None => _ end).
  assert (match mt with
          | Ok t => t = default (st_mtime md) (fixed_mtime (props st)) /\ u32_ok t
          | Err e => kind e = InvalidInput /\ fixed_mtime (props st) = None /\ ~ u32_ok (st_mtime md)
          | Panic => False end) as Hmt.
  { unfold mt. destruct (fixed_mtime (props st)); [done|].
    destruct (u32_try_from (st_mtime md)) eqn:E; simpl; [by apply u32_try_from_Some in E as [-> ?]|].
    by apply u32_try_from_None in E. }
  destruct mt as [t|e|]; simpl; [|by destruct Hmt; eauto|done]. destruct Hmt as [Ht1 Ht2].
  set (dev := if _ || _ then _ else _).
  assert (let '(nl, rmaj, rmin) := dev in
    u32_ok rmaj /\ u32_ok rmin /\ (is_device (st_mode md) = false -> rmaj = 0 /\ rmin = 0) /\
    match nl with
    | Some n => u32_ok n /\ n = if is_type (st_mode md) S_IFREG then 1 else st_nlink md
    | None => is_type (st_mode md) S_IFREG = false /\ ~ u32_ok (st_nlink md)
    end) as Hdev.
  { unfold dev, is_device. destruct (_ || _) eqn:Hd.
    - assert (is_type (st_mode md) S_IFREG = false) as ->.
      { apply orb_true_iff in Hd as [Hd|Hd]; by eapply is_type_excl. }
      split_and!; [apply wrap32_ok|apply wrap32_ok|done|].
      destruct (u32_try_from (st_nlink md)) eqn:E; [by apply u32_try_from_Some in E as [-> ?]|].
      by apply u32_try_from_None in E.
    - assert (u32_ok 0) by done.
      destruct (is_type (st_mode md) S_IFREG); [split_and!; done|].
      split_and!; [done..|].
      destruct (u32_try_from (st_nlink md)) eqn:E; [by apply u32_try_from_Some in E as [-> ?]|].
      by apply u32_try_from_None in E. }
  destruct dev as [[nl rmaj] rmin]. destruct Hdev as (Hmaj & Hmin & Hz & Hnl).
  destruct (u32_try_from (st_len md)) as [l|] eqn:El; simpl;
    [|apply u32_try_from_None in El; eauto].
  apply u32_try_from_Some in El as [-> Hlen].
  destruct nl as [nl|]; simpl; [|by destruct Hnl; eauto 6]. destruct Hnl as [Hnl ->].
  pose proof (Hdef (fixed_uid (props st)) (st_uid md) Hfu Hu) as Hu'.
  pose proof (Hdef (fixed_gid (props st)) (st_gid md) Hfg Hg) as Hg'.
  unfold default in Hu', Hg'.
  split; done.
Qed.

(** C40. Metadata conversion: it succeeds exactly when length, modification time
    and link count fit into 32 bits, where a fixed modification time and the
    link count of a regular file always do; the result has 32-bit fields, a link
    count of one for regular files (hard links are archived as copies), the
    fixed owner where one is set, and device numbers for devices only. *)
Theorem archive_md_from_spec st md :
  stat_ok md -> fixed_ok (props st) ->
  match archive_md_from st md with
  | Ok a => md_from_spec (props st) md a
  | Err e => kind e = InvalidInput /\
      (~ u32_ok (st_len md) \/ fixed_mtime (props st) = None /\ ~ u32_ok (st_mtime md)
       \/ is_type (st_mode md) S_IFREG = false /\ ~ u32_ok (st_nlink md))
  | Panic => False
  end.
Proof. apply archive_md_from_cases. Qed.

(** The device number of a major and a minor number, as the C library makes it
    (makedev of sys/sysmacros.h). *)
Definition makedev (major minor : Z) : Z :=
  Z.lor (Z.lor (Z.shiftl (Z.land major 0xfffff000) 32) (Z.shiftl (Z.land major 0x00000fff) 8))
        (Z.lor (Z.shiftl (Z.land minor 0xffffff00) 12) (Z.land minor 0x000000ff)).

Lemma testbit_ones_range k i : 0 <= k -> 0 <= i -> Z.testbit (Z.ones k) i = (i <? k).
Proof. intros. rewrite Z.testbit_ones_nonneg by lia. done. Qed.

(** the masks by their bits *)
Lemma mask_fff i : 0 <= i -> Z.testbit 0xfff i = (i <? 12).
Proof. intros. by apply (testbit_ones_range 12). Qed.
Lemma mask_ff i : 0 <= i -> Z.testbit 0xff i = (i <? 8).
Proof. intros. by apply (testbit_ones_range 8). Qed.
Lemma mask_hi20 i : 0 <= i -> Z.testbit 0xfffff000 i = (12 <=? i) && (i <? 32).
Proof.
  intros. change 0xfffff000 with (Z.shiftl (Z.ones 20) 12). rewrite Z.shiftl_spec by lia.
  destruct (Z.leb_spec 12 i).
  - rewrite testbit_ones_range by lia. destruct (Z.ltb_spec (i - 12) 20), (Z.ltb_spec i 32); lia || done.
  - by rewrite Z.testbit_neg_r by lia.
Qed.
Lemma mask_hi24 i : 0 <= i -> Z.testbit 0xffffff00 i = (8 <=? i) && (i <? 32).
Proof.
  intros. change 0xffffff00 with (Z.shiftl (Z.ones 24) 8). rewrite Z.shiftl_spec by lia.
  destruct (Z.leb_spec 8 i).
  - rewrite testbit_ones_range by lia. destruct (Z.ltb_spec (i - 8) 24), (Z.ltb_spec i 32); lia || done.
  - by rewrite Z.testbit_neg_r by lia.
Qed.

Lemma testbit_shl a n i : 0 <= i -> Z.testbit (Z.shiftl a n) i = (n <=? i) && Z.testbit a (i - n).
Proof.
  intros. rewrite Z.shiftl_spec by lia. destruct (Z.leb_spec n i); [done|].
  by rewrite Z.testbit_neg_r by lia.
Qed.

Lemma u32_bits n i : u32_ok n -> 32 <= i -> Z.testbit n i = false.
Proof.
  intros [H0 H1] Hi. destruct (Z.eq_dec n 0) as [->|]; [apply Z.bits_0|].
  apply Z.bits_above_log2; [done|]. assert (Z.log2 n < 32); [|lia]. apply Z.log2_lt_pow2; lia.
Qed.

Lemma wrap32_testbit n i : 0 <= i -> Z.testbit (wrap32 n) i = (i <? 32) && Z.testbit n i.
Proof.
  intros. unfold wrap32. destruct (Z.ltb_spec i 32).
  - by rewrite Z.mod_pow2_bits_low by lia.
  - by rewrite Z.mod_pow2_bits_high by lia.
Qed.

(** Decide one bit of a combination of masks and shifts. *)
Ltac bits := repeat first
  [ rewrite Z.lor_spec | rewrite Z.land_spec | rewrite Z.shiftr_spec by lia
  | rewrite testbit_shl by lia ].
Ltac bit_masks := repeat first
  [ rewrite mask_fff by lia | rewrite mask_ff by lia
  | rewrite mask_hi20 by lia | rewrite mask_hi24 by lia
  | match goal with |- context [Z.testbit _ ?i] => rewrite (Z.testbit_neg_r _ i) by lia end ].
Ltac bit_cases := repeat match goal with
  | |- context [?a <? ?b] => destruct (Z.ltb_spec a b); try lia
  | |- context [?a <=? ?b] => destruct (Z.leb_spec a b); try lia
  end.

Ltac bit_solve := do 2 (bit_masks; bit_cases; simpl;
  rewrite ?andb_false_r, ?andb_true_r, ?orb_false_r); simpl; rewrite ?orb_false_r; try done;
  try (f_equal; lia).

(** Device numbers: the major and minor numbers put into a header are those
    the device number was made of, for all 32-bit values. *)
Theorem rdev_makedev major minor : u32_ok major -> u32_ok minor ->
  rdev_major (makedev major minor) = major /\ rdev_minor (makedev major minor) = minor.
Proof.
  intros HM Hm. unfold rdev_major, rdev_minor, makedev. split; apply Z.bits_inj'; intros i Hi;
    rewrite wrap32_testbit by done.
  - destruct (Z.ltb_spec i 32); [|by rewrite (u32_bits major)]. bits. bit_solve.
  - destruct (Z.ltb_spec i 32); [|by rewrite (u32_bits minor)]. bits. bit_solve.
Qed.

(** ** Instances of the theorems *)

Lemma archive_writer_independent_witness :
  exists p, written (snd (snd (archive Sample.reqs (state_new props_default, MkDevice [] 200))))
      = written (MkDevice [] 200) ++ p /\
    (archive Sample.reqs (state_new props_default, MkVector [])
     = (fst (archive Sample.reqs (state_new props_default, MkDevice [] 200)),
        (fst (snd (archive Sample.reqs (state_new props_default, MkDevice [] 200))), MkVector p)) \/
     is_err (fst (archive Sample.reqs (state_new props_default, MkDevice [] 200))) = true /\
     exists q, snd (snd (archive Sample.reqs (state_new props_default, MkVector [])))
       = MkVector (p ++ q)).
Proof. apply (archive_writer_independent Sample.reqs (state_new props_default) (MkDevice [] 200)). Defined.

Lemma run_request_outcome_witness :
  fst (run_request (ReqFile (B "a") (Sample.file_md 3) (reader_of (B "ab")))
         (state_new props_default, MkVector []))
  = Err (err_new UnexpectedEof "copy returned unexpected length").
Proof.
  pose proof (run_request_outcome (ReqFile (B "a") (Sample.file_md 3) (reader_of (B "ab")))
    (state_new props_default) []) as H.
  vm_compute. vm_compute in H. apply H; by repeat split.
Defined.

Lemma archive_md_from_spec_witness :
  md_from_spec props_default (MkStat 7 0x81a4 0 3 5 1000 1000)
    (MkMd 1 0x81a4 1000 1000 7 0 0 5).
Proof.
  assert (archive_md_from (state_new props_default) (MkStat 7 0x81a4 0 3 5 1000 1000)
          = Ok (MkMd 1 0x81a4 1000 1000 7 0 0 5)) as Ha by reflexivity.
  pose proof (archive_md_from_spec (state_new props_default) (MkStat 7 0x81a4 0 3 5 1000 1000)) as H.
  rewrite Ha in H. apply H; by repeat split.
Defined.

Lemma rdev_makedev_witness :
  rdev_major (makedev 259 65537) = 259 /\ rdev_minor (makedev 259 65537) = 65537.
Proof. by apply rdev_makedev. Defined.
