(* ===== verification/Host.v ===== *)
(** * The host the tools run on

    The operating system is a parameter: what opening, stating and resolving a
    path yields. The tools only read the host file system, but for their output,
    so a host is a record of functions of the path. *)

From S2P Require Import Prelude RustStr RustPath RustIo Cpio.

Record Host := MkHost {
  (** [File::open], with what reading the file delivers *)
  host_open : path -> io Reader;
  (** [fs::metadata] (symbolic links are followed) *)
  host_metadata : path -> io Metadata;
  (** [fs::symlink_metadata] *)
  host_symlink_metadata : path -> io Metadata;
  (** [fs::read_link] *)
  host_read_link : path -> io path;
  (** [fs::canonicalize] *)
  host_canonicalize : path -> io path;
  (** [fs::read_dir]: the names in a directory, in any order; reading on may fail
      at any entry *)
  host_dir_entries : path -> io (list (io bytes));
  (** [env::var_os] *)
  host_env : bytes -> option bytes;
  (** [env::current_dir] *)
  host_cwd : path;
}.

(** [collect::<Result<Vec<_>>>()]: all items, or the first error *)
Fixpoint io_collect {A : Type} (l : list (io A)) : io (list A) :=
  match l with
  | [] => Ok []
  | r :: l => let? a := r in let? l := io_collect l in Ok (a :: l)
  end.

(** [fs::read_dir], collected *)
Definition host_read_dir (h : Host) (p : path) : io (list bytes) :=
  let? entries := host_dir_entries h p in io_collect entries.

(** [Path::exists] *)
Definition host_exists (h : Host) (p : path) : bool := is_ok (host_metadata h p).

(** [Path::is_file] *)
Definition host_is_file (h : Host) (p : path) : bool :=
  match host_metadata h p with Ok md => is_type (st_mode md) S_IFREG | _ => false end.

(** [fs::read] *)
Definition host_read (h : Host) (p : path) : io bytes :=
  let? r := host_open h p in
  match rd_err r with
  | Some e => Err e
  | None => Ok (rd_data r)
  end.

(** [env::var]: [None] is [VarError::NotPresent], an error [NotUnicode] *)
Definition host_env_var (h : Host) (k : bytes) : io (option bytes) :=
  match host_env h k with
  | None => Ok None
  | Some v => match from_utf8 v with Some v => Ok (Some v) | None => Err (err_from InvalidInput) end
  end.

(** The operating system answers with a result or an error, it never panics. *)
Record host_total (h : Host) : Prop := {
  ht_open : forall p, host_open h p <> Panic;
  ht_metadata : forall p, host_metadata h p <> Panic;
  ht_symlink_metadata : forall p, host_symlink_metadata h p <> Panic;
  ht_read_link : forall p, host_read_link h p <> Panic;
  ht_canonicalize : forall p, host_canonicalize h p <> Panic;
  ht_dir_entries : forall p, host_dir_entries h p <> Panic;
  ht_dir_entry : forall p es, host_dir_entries h p = Ok es -> Forall (fun e => e <> Panic) es;
}.

Lemma io_collect_total {A : Type} (l : list (io A)) : Forall (fun e => e <> Panic) l -> io_collect l <> Panic.
Proof. induction 1 as [|[a|e|] l Hr _ IH]; simpl; [done| |done..]. by destruct (io_collect l). Qed.

Lemma io_collect_ok {A : Type} (l : list A) : io_collect (Ok <$> l) = Ok l.
Proof. induction l as [|a l IH]; [done|]. rewrite fmap_cons. cbn [io_collect rbind]. by rewrite IH. Qed.

Lemma ht_read_dir h p : host_total h -> host_read_dir h p <> Panic.
Proof.
  intros Hh. unfold host_read_dir. pose proof (ht_dir_entries h Hh p).
  destruct (host_dir_entries h p) as [es|e|] eqn:He; cbn [rbind]; [|done..].
  eapply io_collect_total, ht_dir_entry; [exact Hh|exact He].
Qed.

Lemma host_read_total h p : host_total h -> host_read h p <> Panic.
Proof.
  intros Hh. unfold host_read. pose proof (ht_open h Hh p).
  destruct (host_open h p) as [r|e|]; cbn [rbind]; [|done..]. by destruct (rd_err r).
Qed.

(** ** Hosts for examples: a finite map of regular files *)

Definition file_metadata (b : bytes) : Metadata :=
  MkStat 0 (Z.lor S_IFREG 0x1a4) 0 1 (zlen b) 0 0.

Definition files_lookup {A : Type} (files : gmap bytes bytes) (f : bytes -> A) (p : path) : io A :=
  match files !! p with Some b => Ok (f b) | None => Err (err_from NotFound) end.

(** a host with the given files and nothing else *)
Definition files_host (files : gmap bytes bytes) : Host := {|
  host_open := files_lookup files reader_of;
  host_metadata := files_lookup files file_metadata;
  host_symlink_metadata := files_lookup files file_metadata;
  host_read_link _ := Err (err_from InvalidInput);
  host_canonicalize p := files_lookup files (fun _ => p) p;
  host_dir_entries _ := Err (err_from NotFound);
  host_env _ := None;
  host_cwd := B "/";
|}.

Lemma files_host_total files : host_total (files_host files).
Proof. split; intros p; cbn; unfold files_lookup; try done; by destruct (files !! p). Qed.
