(* ===== verification/Kmod.v ===== *)
(** * kmod-parser: the module database (src/src/kmod-parser/src/lib.rs)

    [KmodContext::new] loads the depmod files below a module directory; [find]
    looks a module up by name or alias. The loaders are computations over the
    context, so that what was loaded before an error survives as in the code. *)

From S2P Require Import Prelude RustStr RustWords RustPath RustIo Host.

Inductive ModuleStatus := Builtin | LoadableModule.

#[export] Instance ModuleStatus_eq_dec : EqDecision ModuleStatus.
Proof. solve_decision. Defined.

Record KmodModule := MkKmod {
  status : ModuleStatus;
  rel_path : bytes;
  hard_deps_paths : list bytes;
  soft_deps_pre : list bytes;
  soft_deps_post : list bytes;
  weak_deps : list bytes;
}.

#[export] Instance KmodModule_eq_dec : EqDecision KmodModule.
Proof. solve_decision. Defined.

Record KmodContext := MkKmodContext {
  modules_hash : gmap bytes KmodModule;
  alias_map : gmap bytes bytes;
  module_root : path;
}.

Definition MODULE_DB_FILES : list bytes :=
  B <$> ["modules.dep"; "modules.dep.bin"; "modules.alias"; "modules.alias.bin";
    "modules.softdep"; "modules.weakdep"; "modules.builtin"; "modules.builtin.bin";
    "modules.builtin.alias.bin"; "modules.builtin.modinfo"; "modules.symbols";
    "modules.symbols.bin"; "modules.order"; "modules.fips"; "modules.devname"]%string.

Definition DASH : Z := 45.
Definition COLON : Z := 58.

(** [name.replace('-', "_")] *)
Definition normalize (name : bytes) : bytes := replace DASH (B "_") name.

Definition extract_module_name (path_str : bytes) : bytes :=
  let file_stem := default path_str (file_stem path_str ≫= from_utf8) in
  let base_name := default file_stem (strip_suffix (B ".ko") file_stem) in
  normalize base_name.

Definition set_hash (f : gmap bytes KmodModule -> gmap bytes KmodModule) (c : KmodContext) :
    KmodContext :=
  MkKmodContext (f (modules_hash c)) (alias_map c) (module_root c).
Definition set_alias (f : gmap bytes bytes -> gmap bytes bytes) (c : KmodContext) : KmodContext :=
  MkKmodContext (modules_hash c) (f (alias_map c)) (module_root c).

Abbreviation Kmod := (SM KmodContext io_error).

(** [for line in lines { let line = line?; ... }] *)
Fixpoint for_lines {S} (body : bytes -> SM S io_error unit) (ls : list (io bytes)) :
    SM S io_error unit :=
  match ls with
  | [] => sret tt
  | l :: ls => let* line := slift l in do* body line ;; for_lines body ls
  end.

(** the body of the loop over modules.dep *)
Definition hard_dep_line (line : bytes) : Kmod unit :=
  match split_once (Z.eqb COLON) line with
  | None => sret tt
  | Some (p0, p1) =>
      let module_path_str := trim p0 in
      let module_name := extract_module_name module_path_str in
      let dep_paths := split_whitespace (trim p1) in
      let* c := sget in
      do* smodify (set_hash (<[module_name :=
            MkKmod LoadableModule module_path_str dep_paths [] [] []]>)) ;;
      match modules_hash c !! module_name with
      | Some _ => sfail (err_fmt InvalidData (B "duplicate entry: " ++ fmt_debug module_path_str))
      | None => sret tt
      end
  end.

(** [current_list] of the loop over a soft dependency *)
Fixpoint soft_parts (to_post : bool) (parts : list bytes) (m : KmodModule) : KmodModule :=
  match parts with
  | [] => m
  | part :: parts =>
      if bool_decide (part = B "pre:") then soft_parts false parts m
      else if bool_decide (part = B "post:") then soft_parts true parts m
      else soft_parts to_post parts
        (if to_post
         then MkKmod (status m) (rel_path m) (hard_deps_paths m) (soft_deps_pre m)
                (soft_deps_post m ++ [part]) (weak_deps m)
         else MkKmod (status m) (rel_path m) (hard_deps_paths m) (soft_deps_pre m ++ [part])
                (soft_deps_post m) (weak_deps m))
  end.

Definition soft_dep_line (line : bytes) : Kmod unit :=
  match split_whitespace line with
  | kw :: module_name :: (_ :: _) as parts =>
      if bool_decide (kw = B "softdep")
      then smodify (set_hash (alter (soft_parts false parts) module_name))
      else sret tt
  | _ => sret tt
  end.

Definition weak_dep_line (line : bytes) : Kmod unit :=
  match split_whitespace line with
  | [kw; module_name; dep_name] =>
      if bool_decide (kw = B "weakdep")
      then smodify (set_hash (alter (fun m =>
             MkKmod (status m) (rel_path m) (hard_deps_paths m) (soft_deps_pre m)
               (soft_deps_post m) (weak_deps m ++ [dep_name])) module_name))
      else sret tt
  | _ => sret tt
  end.

Definition builtin_module : KmodModule := MkKmod Builtin [] [] [] [] [].

Definition builtin_line (line : bytes) : Kmod unit :=
  let path_str := trim line in
  if bool_decide (path_str = []) then sret tt
  else
    let module_name := extract_module_name path_str in
    smodify (set_hash (fun h =>
      match h !! module_name with
      | Some _ => h
      | None => <[module_name := builtin_module]> h
      end)).

Definition alias_line (line : bytes) : Kmod unit :=
  match split_whitespace line with
  | kw :: alias :: module_name :: _ =>
      if bool_decide (kw = B "alias") then smodify (set_alias (<[alias := module_name]>))
      else sret tt
  | _ => sret tt
  end.

Section Load.
Context (host : Host).

(** [read_lines] *)
Definition read_lines (filename : path) : io (list (io bytes)) :=
  let? f := host_open host filename in
  Ok (lines f).

(** a loop over the lines of a file of the module directory *)
Definition load_file (file : bytes) (body : bytes -> Kmod unit) : Kmod unit :=
  let* c := sget in
  let* ls := slift (read_lines (join (module_root c) file)) in
  for_lines body ls.

Definition load_hard_dependencies : Kmod unit := load_file (B "modules.dep") hard_dep_line.
Definition load_soft_dependencies : Kmod unit := load_file (B "modules.softdep") soft_dep_line.
Definition load_weak_dependencies : Kmod unit := load_file (B "modules.weakdep") weak_dep_line.
Definition load_builtin_modules : Kmod unit := load_file (B "modules.builtin") builtin_line.

Definition load_aliases : Kmod unit :=
  let* c := sget in
  if negb (host_exists host (join (module_root c) (B "modules.alias"))) then sret tt
  else load_file (B "modules.alias") alias_line.

(** The error of [new]: the text "Failed to load modules.<fext>: <e>". *)
Record load_error := LoadError { le_fext : bytes; le_err : io_error }.

(** [c.or_else(|e| squash_notfound(e, fext))?] *)
Definition squash_notfound (fext : bytes) (c : Kmod unit) : SM KmodContext load_error unit :=
  let* r := stry c in
  match r with
  | Err e => if bool_decide (kind e = NotFound) then sret tt else sfail (LoadError fext e)
  | _ => sret tt
  end.

(** [c.map_err(..)?] *)
Definition load_or_fail (fext : bytes) (c : Kmod unit) : SM KmodContext load_error unit :=
  let* r := stry c in
  match r with Err e => sfail (LoadError fext e) | _ => sret tt end.

Definition empty_context (dirname : path) : KmodContext := MkKmodContext ∅ ∅ dirname.

Definition load_all : SM KmodContext load_error unit :=
  do* squash_notfound (B "dep") load_hard_dependencies ;;
  do* load_or_fail (B "builtin") load_builtin_modules ;;
  do* squash_notfound (B "softdep") load_soft_dependencies ;;
  do* squash_notfound (B "weakdep") load_weak_dependencies ;;
  squash_notfound (B "alias") load_aliases.

(** [KmodContext::new] *)
Definition kmod_context_new (dirname : path) : result load_error KmodContext :=
  match load_all (empty_context dirname) with
  | (Ok _, c) => Ok c
  | (Err e, _) => Err e
  | (Panic, _) => Panic
  end.
End Load.

(** [KmodContext::find]; the recursion is on a normalised name. *)
Fixpoint find_fuel (fuel : nat) (c : KmodContext) (name : bytes) : option KmodModule :=
  match fuel with
  | O => None
  | S fuel =>
      match modules_hash c !! name with
      | Some m => Some m
      | None =>
          match alias_map c !! name ≫= (modules_hash c !!.) with
          | Some m => Some m
          | None =>
              let normname := normalize name in
              if bool_decide (normname <> name) then find_fuel fuel c normname else None
          end
      end
  end.
Definition find (c : KmodContext) (name : bytes) : option KmodModule := find_fuel 2 c name.

(** ** A module directory, for examples *)

Definition text (ls : list string) : bytes := concat ((fun l => B l ++ [NL]) <$> ls).

Definition sample_host : Host := files_host (list_to_map [
  (B "/m/modules.dep", text ["kernel/mod_a.ko: kernel/mod_b.ko.xz kernel/mod_c.ko";
                             "kernel/mod_b.ko.xz:"]%string);
  (B "/m/modules.softdep", text ["softdep mod_a pre: mod_d post: mod_e mod_f"]%string);
  (B "/m/modules.weakdep", text ["weakdep mod_a mod_g"; "weakdep mod_a mod_h";
                                 "weakdep mod_b mod_i"; "weakdep mod_b mod_j"]%string);
  (B "/m/modules.builtin", text ["kernel/mod_builtin.ko"; "kernel/mod-b.ko"]%string);
  (B "/m/modules.alias", text ["alias alias_for_b mod_b"; "alias mod-b mod_b";
                               "alias mod-intel-b mod_b"]%string)]).

(** ** Names *)

Definition normalized (name : bytes) : Prop := Forall (fun c => c <> DASH) name.

Lemma normalize_cons c name :
  normalize (c :: name) = (if c =? DASH then B "_" else [c]) ++ normalize name.
Proof. done. Qed.

Lemma normalize_normalized name : normalized (normalize name).
Proof.
  induction name as [|c name IH]; [constructor|]. rewrite normalize_cons.
  destruct (Z.eqb_spec c DASH); constructor; done.
Qed.

Lemma normalize_id name : normalized name -> normalize name = name.
Proof.
  induction 1 as [|c name Hc _ IH]; [done|]. rewrite normalize_cons, IH.
  by rewrite (proj2 (Z.eqb_neq _ _)).
Qed.

Lemma normalize_idemp name : normalize (normalize name) = normalize name.
Proof. apply normalize_id, normalize_normalized. Qed.

Lemma extract_normalized p : normalized (extract_module_name p).
Proof. apply normalize_normalized. Qed.

(** ** Lookup *)

(** One round of [find]: by name, then by alias. *)
Definition find_exact (c : KmodContext) (name : bytes) : option KmodModule :=
  match modules_hash c !! name with
  | Some m => Some m
  | None => alias_map c !! name ≫= (modules_hash c !!.)
  end.

Lemma find_fuel_S fuel c name : find_fuel (S fuel) c name =
  match find_exact c name with
  | Some m => Some m
  | None => if bool_decide (normalize name <> name) then find_fuel fuel c (normalize name) else None
  end.
Proof. unfold find_exact. simpl. by destruct (modules_hash c !! name). Qed.

(** Two rounds are enough: the second name is normalised. *)
Lemma find_eq c name : find c name =
  match find_exact c name with Some m => Some m | None => find_exact c (normalize name) end.
Proof.
  unfold find. rewrite find_fuel_S. destruct (find_exact c name) eqn:He; [done|].
  case_bool_decide as Hn.
  - rewrite find_fuel_S, normalize_idemp. destruct (find_exact c (normalize name)); [done|].
    by rewrite bool_decide_eq_false_2 by (intros H; by apply H).
  - by rewrite Hn, He.
Qed.

(** ** The invariant of a loaded context *)

Definition module_ok (name : bytes) (m : KmodModule) : Prop :=
  normalized name /\
  match status m with
  | LoadableModule => name = extract_module_name (rel_path m)
  | Builtin => rel_path m = [] /\ hard_deps_paths m = []
  end.

Definition ctx_ok (c : KmodContext) : Prop := map_Forall module_ok (modules_hash c).

(** A step keeps a property of the context, whatever its result. *)
Definition keeps {S E} (P : S -> Prop) (c : SM S E unit) : Prop := forall s, P s -> P (snd (c s)).

Lemma keeps_sret {S E} (P : S -> Prop) : keeps P (@sret S E unit tt).
Proof. by intros s. Qed.

Lemma keeps_smodify {S E} (P : S -> Prop) f : (forall s, P s -> P (f s)) -> keeps P (@smodify S E f).
Proof. intros Hf s. apply Hf. Qed.

Lemma keeps_sbind {S E} (P : S -> Prop) (c k : SM S E unit) :
  keeps P c -> keeps P k -> keeps P (sbind c (fun _ => k)).
Proof.
  intros Hc Hk s Hs. specialize (Hc s Hs). unfold sbind.
  destruct (c s) as [[[]|e|] s']; [by apply Hk|done..].
Qed.

Lemma keeps_for_lines {S} (P : S -> Prop) (body : bytes -> SM S io_error unit) ls :
  (forall l, keeps P (body l)) -> keeps P (for_lines body ls).
Proof.
  intros Hb. induction ls as [|l ls IH]; [apply keeps_sret|]. intros s Hs. simpl.
  unfold sbind at 1, slift. destruct l as [line|e|]; [|done..].
  apply (keeps_sbind P (body line)); [apply Hb|done|done].
Qed.

Lemma keeps_load_file P host file body :
  (forall l, keeps P (body l)) -> keeps P (load_file host file body).
Proof.
  intros Hb c Hc. unfold load_file. unfold sbind at 1. simpl. unfold sbind, slift.
  destruct (read_lines _ _) as [ls|e|]; [|done..]. by apply keeps_for_lines.
Qed.

Lemma keeps_squash P fext (c : Kmod unit) : keeps P c -> keeps P (squash_notfound fext c).
Proof.
  intros Hc s Hs. specialize (Hc s Hs). unfold squash_notfound, sbind, stry.
  destruct (c s) as [[[]|e|] s']; [done| |done]. simpl. by case_bool_decide.
Qed.

Lemma keeps_load_or_fail P fext (c : Kmod unit) : keeps P c -> keeps P (load_or_fail fext c).
Proof.
  intros Hc s Hs. specialize (Hc s Hs). unfold load_or_fail, sbind, stry.
  by destruct (c s) as [[[]|e|] s'].
Qed.

(** What the loaders other than modules.dep's do to the modules: entries keep
    their identity, new ones are built in. *)
Definition same_module (m m' : KmodModule) : Prop :=
  status m' = status m /\ rel_path m' = rel_path m /\ hard_deps_paths m' = hard_deps_paths m.

Lemma soft_parts_same b parts m : same_module m (soft_parts b parts m).
Proof.
  revert b m. induction parts as [|p parts IH]; intros b m; [done|]. simpl.
  case_bool_decide; [apply IH|]. case_bool_decide; [apply IH|].
  destruct b; destruct (IH true (MkKmod (status m) (rel_path m) (hard_deps_paths m)
    (soft_deps_pre m) (soft_deps_post m ++ [p]) (weak_deps m))) as (? & ? & ?);
  destruct (IH false (MkKmod (status m) (rel_path m) (hard_deps_paths m)
    (soft_deps_pre m ++ [p]) (soft_deps_post m) (weak_deps m))) as (? & ? & ?); by split_and!.
Qed.

Lemma same_module_refl m : same_module m m.
Proof. done. Qed.

Lemma same_module_trans m1 m2 m3 : same_module m1 m2 -> same_module m2 m3 -> same_module m1 m3.
Proof. intros (? & ? & ?) (? & ? & ?). split_and!; congruence. Qed.

Lemma module_ok_same n m m' : same_module m m' -> module_ok n m -> module_ok n m'.
Proof. intros (Hs & Hr & Hd) [Hn Hm]. split; [done|]. by rewrite Hs, Hr, Hd. Qed.

(** [c] is [c0] with other soft and weak dependencies, and with more modules,
    all built in. *)
Definition frame (c0 c : KmodContext) : Prop :=
  module_root c = module_root c0 /\
  forall n, match modules_hash c0 !! n, modules_hash c !! n with
            | Some m, Some m' => same_module m m'
            | None, Some m' => normalized n /\ same_module builtin_module m'
            | Some _, None => False
            | None, None => True
            end.

Lemma frame_refl c : frame c c.
Proof. split; [done|]. intros n. by destruct (modules_hash c !! n). Qed.

Lemma frame_alter c0 c f n : (forall m, same_module m (f m)) -> frame c0 c ->
  frame c0 (set_hash (alter f n) c).
Proof.
  intros Hf [Hr Hc]. split; [done|]. intros k. specialize (Hc k). simpl.
  destruct (decide (n = k)) as [->|Hne]; [|by rewrite lookup_alter_ne].
  rewrite lookup_alter_eq. destruct (modules_hash c0 !! k), (modules_hash c !! k); simpl; try done.
  - by eapply same_module_trans.
  - split; [apply Hc|]. eapply same_module_trans; [apply Hc|apply Hf].
Qed.

Lemma keeps_frame_soft c0 line : keeps (frame c0) (soft_dep_line line).
Proof.
  unfold soft_dep_line. destruct (split_whitespace line) as [|kw [|name [|p ps]]]; try apply keeps_sret.
  case_bool_decide; [|apply keeps_sret]. apply keeps_smodify. intros c.
  apply frame_alter. intros m. apply soft_parts_same.
Qed.

Lemma keeps_frame_weak c0 line : keeps (frame c0) (weak_dep_line line).
Proof.
  unfold weak_dep_line.
  destruct (split_whitespace line) as [|kw [|name [|p [|]]]]; try apply keeps_sret.
  case_bool_decide; [|apply keeps_sret]. apply keeps_smodify. intros c. by apply frame_alter.
Qed.

Lemma keeps_frame_builtin c0 line : keeps (frame c0) (builtin_line line).
Proof.
  unfold builtin_line. cbv zeta. case_bool_decide; [apply keeps_sret|].
  apply keeps_smodify. intros c [Hr Hc]. split; [done|]. intros k. specialize (Hc k).
  cbn [set_hash modules_hash]. pose proof (extract_normalized (trim line)) as Hn.
  destruct (modules_hash c !! extract_module_name (trim line)) eqn:He; [done|].
  destruct (decide (extract_module_name (trim line) = k)) as [<-|Hne]; [|by rewrite lookup_insert_ne].
  rewrite lookup_insert_eq, He in *. by destruct (modules_hash c0 !! _).
Qed.

Lemma keeps_frame_alias c0 line : keeps (frame c0) (alias_line line).
Proof.
  unfold alias_line. destruct (split_whitespace line) as [|kw [|a [|name ps]]]; try apply keeps_sret.
  case_bool_decide; [|apply keeps_sret]. by apply keeps_smodify.
Qed.

(** Everything [new] does after modules.dep. *)
Definition load_rest (host : Host) : SM KmodContext load_error unit :=
  do* load_or_fail (B "builtin") (load_builtin_modules host) ;;
  do* squash_notfound (B "softdep") (load_soft_dependencies host) ;;
  do* squash_notfound (B "weakdep") (load_weak_dependencies host) ;;
  squash_notfound (B "alias") (load_aliases host).

Lemma keeps_frame_rest host c0 : keeps (frame c0) (load_rest host).
Proof.
  unfold load_rest. apply keeps_sbind.
  { apply keeps_load_or_fail, keeps_load_file, keeps_frame_builtin. }
  apply keeps_sbind; [apply keeps_squash, keeps_load_file, keeps_frame_soft|].
  apply keeps_sbind; [apply keeps_squash, keeps_load_file, keeps_frame_weak|].
  apply keeps_squash. intros c Hc. unfold load_aliases. unfold sbind at 1. simpl.
  case_match; [done|]. apply (keeps_load_file (frame c0)); [apply keeps_frame_alias|done].
Qed.

Lemma ctx_ok_frame c0 c : frame c0 c -> ctx_ok c0 -> ctx_ok c.
Proof.
  intros [_ Hc] H0 n m Hm. specialize (Hc n). rewrite Hm in Hc.
  destruct (modules_hash c0 !! n) as [m0|] eqn:He.
  - eapply module_ok_same; [done|]. by apply H0.
  - destruct Hc as [Hn Hs]. eapply module_ok_same; [done|]. by split.
Qed.

(** modules.dep keeps the invariant and the directory. *)
Definition dep_inv (d : path) (c : KmodContext) : Prop :=
  ctx_ok c /\ module_root c = d /\ map_Forall (fun _ m => status m = LoadableModule) (modules_hash c).

Lemma keeps_dep_line d line : keeps (dep_inv d) (hard_dep_line line).
Proof.
  intros c (Hc & Hr & Hl). unfold hard_dep_line. destruct (split_once _ line) as [[p0 p1]|]; [|done].
  assert (dep_inv d (set_hash (<[extract_module_name (trim p0) :=
    MkKmod LoadableModule (trim p0) (split_whitespace (trim p1)) [] [] []]>) c)) as Hi.
  { split_and!; [|done|]; apply map_Forall_insert_2; try done.
    split; [apply extract_normalized|done]. }
  unfold sbind, sget, smodify. cbn [snd]. by destruct (modules_hash c !! _).
Qed.

Lemma keeps_load_dep host d : keeps (dep_inv d) (load_hard_dependencies host).
Proof. apply keeps_load_file, keeps_dep_line. Qed.

Lemma dep_inv_empty d : dep_inv d (empty_context d).
Proof. split_and!; [apply map_Forall_empty|done|apply map_Forall_empty]. Qed.

Lemma load_all_eq host : load_all host
  = (do* squash_notfound (B "dep") (load_hard_dependencies host) ;; load_rest host).
Proof. done. Qed.

(** [new] in two parts: what modules.dep gives, and a frame around it. *)
Lemma kmod_context_new_inv host d c : kmod_context_new host d = Ok c ->
  exists r c1, load_hard_dependencies host (empty_context d) = (r, c1) /\
    (r = Ok tt \/ exists e, r = Err e /\ kind e = NotFound) /\
    dep_inv d c1 /\ frame c1 c.
Proof.
  unfold kmod_context_new. rewrite load_all_eq.
  pose proof (keeps_load_dep host d _ (dep_inv_empty d)) as Hd.
  unfold sbind at 1, squash_notfound at 1, sbind at 1, stry at 1.
  destruct (load_hard_dependencies host (empty_context d)) as [r c1].
  pose proof (keeps_frame_rest host c1 c1 (frame_refl c1)) as Hf.
  intros Hn. exists r, c1. split; [done|].
  assert ((r = Ok tt \/ (exists e, r = Err e /\ kind e = NotFound)) /\
          fst (load_rest host c1) = Ok tt /\ snd (load_rest host c1) = c) as (Hr & _ & <-);
    [|done].
  destruct r as [[]|e|]; [| |done].
  - simpl in Hn. destruct (load_rest host c1) as [[[]|e|] c2]; simplify_eq; eauto.
  - revert Hn. simpl. case_bool_decide; simpl; [|done].
    destruct (load_rest host c1) as [[[]|e'|] c2]; intros; simplify_eq; eauto 10.
Qed.

(** ** Reading a modules.dep back *)

(** modules.dep as depmod writes it: a path, a colon, the paths it needs. *)
Definition dep_entry : Type := bytes * list bytes.
Definition print_dep (e : dep_entry) : bytes := fst e ++ COLON :: spaced (snd e).
Definition print_dep_file (es : list dep_entry) : bytes :=
  concat ((fun e => print_dep e ++ [NL]) <$> es).

Definition dep_entry_ok (e : dep_entry) : Prop :=
  word (fst e) /\ Forall (fun c => Z.eqb COLON c = false) (fst e) /\ Forall word (snd e) /\
  utf8_valid (print_dep e) = true.

Definition dep_module (e : dep_entry) : KmodModule :=
  MkKmod LoadableModule (fst e) (snd e) [] [] [].
Definition dep_name (e : dep_entry) : bytes := extract_module_name (fst e).

(** The context after the entries, each added in turn. *)
Definition dep_context (c : KmodContext) (es : list dep_entry) : KmodContext :=
  foldl (fun c e => set_hash (<[dep_name e := dep_module e]>) c) c es.

Lemma word_no_nl s : word s -> Forall (fun c => is_nl c = false) s.
Proof.
  intros (_ & Hs & _). eapply Forall_impl; [exact Hs|]. intros c Hc. unfold is_nl.
  apply Z.eqb_neq. by intros ->.
Qed.

Lemma spaced_no_nl ws : Forall word ws -> Forall (fun c => is_nl c = false) (spaced ws).
Proof.
  induction 1 as [|w ws Hw _ IH]; [constructor|]. unfold spaced. rewrite fmap_cons. cbn [concat].
  apply Forall_app_2; [|done]. constructor; [done|]. by apply word_no_nl.
Qed.

Lemma hard_dep_print c e : dep_entry_ok e ->
  hard_dep_line (print_dep e) c =
  (match modules_hash c !! dep_name e with
   | Some _ => Err (err_fmt InvalidData (B "duplicate entry: " ++ fmt_debug (fst e)))
   | None => Ok tt
   end, set_hash (<[dep_name e := dep_module e]>) c).
Proof.
  destruct e as [p ds]. intros (Hp & Hc & Hds & _). unfold hard_dep_line, print_dep.
  cbn [fst snd] in *. rewrite split_once_run by done. cbv beta iota zeta.
  rewrite (trim_word p) by done.
  rewrite split_whitespace_trim. change (spaced ds) with ([] ++ spaced ds).
  rewrite split_whitespace_spaced by done. unfold sbind, sget, smodify, dep_name, dep_module.
  cbn [fst snd]. by destruct (modules_hash c !! extract_module_name p).
Qed.

Lemma for_lines_cons {S} (body : bytes -> SM S io_error unit) l ls s :
  for_lines body (Ok l :: ls) s = sbind (body l) (fun _ => for_lines body ls) s.
Proof. done. Qed.

Lemma print_dep_line e : dep_entry_ok e -> line_ok (print_dep e).
Proof.
  destruct e as [p ds]. intros (Hp & Hc & Hds & Hu). cbn [fst snd] in *. split; [done|].
  assert (forall s, Forall (fun b => not_space_byte b = true) s -> last s <> Some 13) as Hlast.
  { intros s Hs Hl. apply last_Some in Hl as [s' ->]. apply Forall_app in Hs as [_ Hs].
    by apply Forall_cons in Hs as [? _]. }
  split.
  - unfold print_dep. cbn [fst snd]. apply Forall_app_2; [by apply word_no_nl|]. constructor; [done|].
    by apply spaced_no_nl.
  - unfold print_dep. cbn [fst snd]. destruct ds as [|w ws _] using rev_ind.
    { unfold spaced. simpl. by rewrite last_snoc. }
    apply Forall_app in Hds as [_ Hw]. apply Forall_cons in Hw as [Hw _].
    rewrite spaced_snoc, app_comm_cons, app_assoc. destruct Hw as (Hne & Hw & _).
    rewrite last_app_word by done. change (last ([SPACE] ++ w) <> Some 13).
    rewrite last_app_word by done. by apply Hlast.
Qed.

(** Entries with distinct names are all stored; a repeated name is an error. *)
Lemma load_dep_printed es c :
  Forall dep_entry_ok es -> NoDup (dep_name <$> es) ->
  (forall e, e ∈ es -> modules_hash c !! dep_name e = None) ->
  for_lines hard_dep_line (Ok <$> (print_dep <$> es)) c = (Ok tt, dep_context c es).
Proof.
  intros Hok. revert c. induction Hok as [|e es He _ IH]; intros c Hnd Hc; [done|].
  rewrite !fmap_cons, for_lines_cons. rewrite fmap_cons in Hnd.
  apply NoDup_cons in Hnd as [Hni Hnd].
  unfold sbind. rewrite hard_dep_print, (Hc e) by (done || by left).
  apply IH; [done|]. intros e' He'. simpl. rewrite lookup_insert_ne.
  - apply Hc. by right.
  - intros Heq. apply Hni. rewrite Heq. by apply list_elem_of_fmap_2.
Qed.

Lemma load_dep_duplicate es c :
  Forall dep_entry_ok es ->
  ~ (NoDup (dep_name <$> es) /\ forall e, e ∈ es -> modules_hash c !! dep_name e = None) ->
  exists m c', for_lines hard_dep_line (Ok <$> (print_dep <$> es)) c
    = (Err (err_fmt InvalidData m), c').
Proof.
  intros Hok. revert c. induction Hok as [|e es He _ IH]; intros c Hnd.
  { destruct Hnd. split; [constructor|]. intros e He. by apply elem_of_nil in He. }
  rewrite !fmap_cons, for_lines_cons. unfold sbind. rewrite hard_dep_print by done.
  destruct (modules_hash c !! dep_name e) eqn:Hl; [by eauto|]. apply IH. intros [Hnd' Hc].
  apply Hnd. rewrite fmap_cons. split.
  - apply NoDup_cons. split; [|done]. intros Hin. apply list_elem_of_fmap_1 in Hin as (e' & Heq & He').
    specialize (Hc e' He'). simpl in Hc. by rewrite Heq, lookup_insert_eq in Hc.
  - intros e' [->|He']%elem_of_cons; [done|]. specialize (Hc e' He'). simpl in Hc.
    by apply lookup_insert_None in Hc as [? _].
Qed.

Lemma dep_context_lookup es c e :
  NoDup (dep_name <$> es) -> e ∈ es ->
  modules_hash (dep_context c es) !! dep_name e = Some (dep_module e).
Proof.
  induction es as [|e' es IH] using rev_ind; intros Hnd He; [by apply elem_of_nil in He|].
  unfold dep_context. rewrite foldl_snoc. simpl. rewrite fmap_app in Hnd.
  apply NoDup_app in Hnd as (Hnd & Hni & _). apply elem_of_app in He as [He|He].
  - rewrite lookup_insert_ne; [by apply IH|]. intros Heq.
    apply (Hni (dep_name e)); [by apply list_elem_of_fmap_2|]. rewrite <-Heq. by left.
  - apply list_elem_of_singleton in He as ->. by rewrite lookup_insert_eq.
Qed.

Lemma load_dep_file host d es c :
  host_open host (join d (B "modules.dep")) = Ok (reader_of (print_dep_file es)) ->
  Forall dep_entry_ok es -> module_root c = d ->
  load_hard_dependencies host c = for_lines hard_dep_line (Ok <$> (print_dep <$> es)) c.
Proof.
  intros Ho Hes <-. unfold load_hard_dependencies, load_file. unfold sbind at 1, sget.
  unfold sbind, slift, read_lines. rewrite Ho. cbn [rbind].
  replace (print_dep_file es) with (concat ((fun l => l ++ [NL]) <$> (print_dep <$> es)))
    by (unfold print_dep_file; by rewrite <-list_fmap_compose).
  rewrite lines_text; [done|]. apply Forall_fmap. eapply Forall_impl; [exact Hes|].
  intros e He. by apply print_dep_line.
Qed.

(** C14. modules.dep is read back as depmod wrote it: every entry becomes a
    loadable module under the name of its file, with its path and the paths it
    needs; two entries of the same module name, and only that, make the load
    fail, and [KmodContext::new] with it. *)
Theorem modules_dep_roundtrip host d es :
  host_open host (join d (B "modules.dep")) = Ok (reader_of (print_dep_file es)) ->
  Forall dep_entry_ok es ->
  (NoDup (dep_name <$> es) /\
   exists c, load_hard_dependencies host (empty_context d) = (Ok tt, c) /\
     forall e, e ∈ es -> modules_hash c !! dep_name e = Some (dep_module e)) \/
  (~ NoDup (dep_name <$> es) /\
   exists m, kmod_context_new host d = Err (LoadError (B "dep") (err_fmt InvalidData m))).
Proof.
  intros Ho Hes. pose proof (load_dep_file host d es (empty_context d) Ho Hes eq_refl) as Hl.
  destruct (decide (NoDup (dep_name <$> es))) as [Hnd|Hnd]; [left|right]; (split; [done|]).
  - exists (dep_context (empty_context d) es). rewrite Hl. split.
    + apply load_dep_printed; [done..|]. intros e _. apply lookup_empty.
    + intros e He. by apply dep_context_lookup.
  - destruct (load_dep_duplicate es (empty_context d) Hes) as (m & c' & Hm); [by intros [? _]|].
    exists m. unfold kmod_context_new, load_all. unfold sbind at 1, squash_notfound at 1.
    unfold sbind at 1, stry at 1. by rewrite Hl, Hm.
Qed.

(** C35. A loaded context is well formed: it keeps its directory; every module is
    stored under a name without dashes, which for a loadable module is the name
    of its file, while built-in modules have neither a path nor dependencies. *)
Theorem kmod_context_wf host d c :
  kmod_context_new host d = Ok c -> ctx_ok c /\ module_root c = d.
Proof.
  intros (r & c1 & _ & _ & (Hc & Hr & _) & Hf)%kmod_context_new_inv. split.
  - by eapply ctx_ok_frame.
  - destruct Hf as [-> _]. done.
Qed.

(** C36. modules.dep takes precedence: once it is loaded, no other file changes
    the status, path or hard dependencies of its modules or removes one of them,
    and every module it does not list is built in. *)
Theorem modules_dep_precedence host d r c1 c :
  load_hard_dependencies host (empty_context d) = (r, c1) -> kmod_context_new host d = Ok c ->
  (forall n m, modules_hash c1 !! n = Some m ->
     status m = LoadableModule /\ exists m', modules_hash c !! n = Some m' /\ same_module m m') /\
  (forall n m', modules_hash c1 !! n = None -> modules_hash c !! n = Some m' ->
     status m' = Builtin).
Proof.
  intros Hl (r' & c1' & Hl' & _ & (_ & _ & Hst) & [_ Hf])%kmod_context_new_inv.
  rewrite Hl in Hl'. injection Hl' as <- <-. split.
  - intros n m Hm. specialize (Hf n). split; [by eapply Hst|]. rewrite Hm in Hf.
    destruct (modules_hash c !! n) as [m'|]; [eauto|done].
  - intros n m' Hn Hm. specialize (Hf n). rewrite Hn, Hm in Hf. by destruct Hf as (_ & ? & _).
Qed.

(** [find] tries the name, then an alias of it, then once more with dashes
    replaced; it satisfies the recursion of the source, so its two rounds are
    enough; in a loaded context a name that is no alias is found exactly as its
    normalised form is. *)
Theorem find_spec c name :
  find c name =
    match modules_hash c !! name with
    | Some m => Some m
    | None =>
        match alias_map c !! name ≫= (modules_hash c !!.) with
        | Some m => Some m
        | None => if bool_decide (normalize name <> name) then find c (normalize name) else None
        end
    end /\
  (ctx_ok c -> alias_map c !! name = None -> find c name = find c (normalize name)).
Proof.
  rewrite !find_eq, normalize_idemp. unfold find_exact. split.
  - destruct (modules_hash c !! name) eqn:Hn; [done|]. destruct (_ ≫= _) eqn:Ha; [done|].
    case_bool_decide as Hd.
    + destruct (modules_hash c !! normalize name); [done|].
      by destruct (alias_map c !! normalize name ≫= (modules_hash c !!.)).
    + rewrite Hd, Hn. by rewrite Ha.
  - intros Hc Ha. destruct (modules_hash c !! name) as [m|] eqn:Hn.
    + destruct (Hc name m Hn) as [Hnorm _]. by rewrite (normalize_id name), Hn.
    + rewrite Ha. simpl. destruct (modules_hash c !! normalize name); [done|].
      by destruct (alias_map c !! normalize name ≫= (modules_hash c !!.)).
Qed.

(** ** Only modules.builtin is required *)

Definition missing (host : Host) (p : path) : Prop :=
  (exists e, host_open host p = Err e /\ kind e = NotFound) /\ host_exists host p = false.

(** The names in a modules.builtin. *)
Definition builtin_names (ls : list bytes) : list bytes :=
  extract_module_name <$> List.filter nonempty (trim <$> ls).

Lemma builtin_lines ls c :
  exists c', for_lines builtin_line (Ok <$> ls) c = (Ok tt, c') /\
    module_root c' = module_root c /\ alias_map c' = alias_map c /\
    forall n, modules_hash c' !! n =
      match modules_hash c !! n with
      | Some m => Some m
      | None => if decide (n ∈ builtin_names ls) then Some builtin_module else None
      end.
Proof.
  revert c. induction ls as [|l ls IH]; intros c.
  { exists c. split_and!; [done..|]. intros n. by destruct (modules_hash c !! n). }
  rewrite fmap_cons, for_lines_cons. unfold sbind, builtin_line.
  case_bool_decide as Hl.
  - destruct (IH c) as (c' & Hr & H1 & H2 & H3). exists c'. split; [exact Hr|].
    split_and!; [done..|]. intros n. rewrite H3. unfold builtin_names.
    rewrite fmap_cons. simpl. by rewrite Hl.
  - unfold smodify. cbn [fst snd].
    match goal with |- context [for_lines _ _ ?c1] => destruct (IH c1) as (c' & Hr & H1 & H2 & H3) end.
    exists c'. split; [exact Hr|]. split_and!; [done..|]. intros n. rewrite H3.
    cbn [set_hash modules_hash]. set (k := extract_module_name (trim l)) in *.
    assert (builtin_names (l :: ls) = k :: builtin_names ls) as ->.
    { unfold builtin_names. rewrite fmap_cons. simpl. by destruct (trim l). }
    destruct (modules_hash c !! k) eqn:Hk.
    + destruct (modules_hash c !! n) eqn:Hn; [done|].
      apply decide_ext. rewrite elem_of_cons. split; [by right|]. intros [->|]; [congruence|done].
    + destruct (decide (n = k)) as [->|Hne].
      * rewrite lookup_insert_eq, Hk. by rewrite decide_True by by left.
      * rewrite lookup_insert_ne by done. destruct (modules_hash c !! n); [done|].
        apply decide_ext. rewrite elem_of_cons. split; [by right|]. by intros [|].
Qed.

Lemma load_missing host file body c :
  missing host (join (module_root c) file) ->
  exists e, load_file host file body c = (Err e, c) /\ kind e = NotFound.
Proof.
  intros [(e & Ho & He) _]. exists e. split; [|done]. unfold load_file.
  unfold sbind at 1, sget. unfold sbind, slift, read_lines. by rewrite Ho.
Qed.

Lemma squash_missing fext (c : Kmod unit) s e :
  c s = (Err e, s) -> kind e = NotFound -> squash_notfound fext c s = (Ok tt, s).
Proof.
  intros Hc He. unfold squash_notfound, sbind, stry. rewrite Hc. simpl.
  by rewrite bool_decide_eq_true_2.
Qed.

(** Only modules.builtin is required: with the other files missing,
    [KmodContext::new] succeeds exactly when modules.builtin can be read as text,
    and the context then holds a built-in module for each name listed and
    nothing else. *)
Theorem kmod_builtin_only host d :
  (forall f, f ∈ B <$> ["modules.dep"; "modules.softdep"; "modules.weakdep"; "modules.alias"]%string ->
     missing host (join d f)) ->
  (forall e, host_open host (join d (B "modules.builtin")) = Err e ->
     kmod_context_new host d = Err (LoadError (B "builtin") e)) /\
  (forall ls, Forall line_ok ls ->
     host_open host (join d (B "modules.builtin"))
     = Ok (reader_of (concat ((fun l => l ++ [NL]) <$> ls))) ->
     exists c, kmod_context_new host d = Ok c /\ alias_map c = ∅ /\
       forall n, modules_hash c !! n
         = if decide (n ∈ builtin_names ls) then Some builtin_module else None).
Proof.
  intros Hmiss.
  assert (forall f body c, f ∈ B <$> ["modules.dep"; "modules.softdep"; "modules.weakdep";
    "modules.alias"]%string -> module_root c = d ->
    exists e, load_file host f body c = (Err e, c) /\ kind e = NotFound) as Hm.
  { intros f body c Hf <-. apply load_missing. by apply Hmiss. }
  assert (squash_notfound (B "dep") (load_hard_dependencies host) (empty_context d)
          = (Ok tt, empty_context d)) as Hdep.
  { destruct (Hm (B "modules.dep") hard_dep_line (empty_context d)) as (e & He & Hk);
      [by repeat constructor|done|]. by eapply squash_missing. }
  unfold kmod_context_new. rewrite load_all_eq. unfold load_rest.
  rewrite (sbind_ok _ _ _ _ _ Hdep). split.
  - intros e He. unfold sbind at 1, load_or_fail. unfold load_builtin_modules, load_file.
    unfold sbind at 1, stry. unfold sbind at 1, sget. unfold sbind at 1, slift, read_lines.
    simpl module_root. by rewrite He.
  - intros ls Hls Ho.
    destruct (builtin_lines ls (empty_context d)) as (c & Hc & Hr & Ha & Hn).
    assert (load_or_fail (B "builtin") (load_builtin_modules host) (empty_context d)
            = (Ok tt, c)) as Hb.
    { unfold load_or_fail, sbind at 1, stry. unfold load_builtin_modules, load_file.
      unfold sbind at 1, sget. unfold sbind at 1, slift, read_lines. simpl module_root.
      rewrite Ho. cbn [rbind]. rewrite lines_text by done. by rewrite Hc. }
    rewrite (sbind_ok _ _ _ _ _ Hb).
    destruct (Hm (B "modules.softdep") soft_dep_line c) as (e1 & He1 & Hk1);
      [by repeat constructor|done|].
    rewrite (sbind_ok _ _ _ tt c) by (by eapply squash_missing).
    destruct (Hm (B "modules.weakdep") weak_dep_line c) as (e2 & He2 & Hk2);
      [by repeat constructor|done|].
    rewrite (sbind_ok _ _ _ tt c) by (by eapply squash_missing).
    assert (squash_notfound (B "alias") (load_aliases host) c = (Ok tt, c)) as ->.
    { unfold squash_notfound, sbind at 1, stry, load_aliases. unfold sbind at 1, sget.
      destruct (Hmiss (B "modules.alias")) as [_ Hx]; [by repeat constructor|].
      rewrite Hr. change (module_root (empty_context d)) with d. by rewrite Hx. }
    exists c. split_and!; [done|done|]. intros n. apply Hn.
Qed.

(** ** Panics *)

(** Loading only reads lines: nothing panics when opening a file does not. *)
Section Panics.
Context (host : Host) (Hopen : forall p, host_open host p <> Panic).

Lemma lines_no_panic r : Forall (fun l => l <> Panic) (lines r).
Proof using.
  assert (forall raw, Forall (fun l => l <> Panic) (line_item <$> raw)) as Hl.
  { intros raw. apply Forall_fmap, Forall_forall. intros l _. cbn. unfold line_item. by destruct (utf8_valid l). }
  unfold lines. destruct (rd_err r); [|apply Hl]. apply Forall_snoc. by split; [apply Hl|].
Qed.

Lemma for_lines_no_panic {S} (body : bytes -> SM S io_error unit) ls s : Forall (fun l => l <> Panic) ls ->
  (forall line s, no_panic (body line) s) -> no_panic (for_lines body ls) s.
Proof using.
  intros Hls Hb. revert s. induction Hls as [|l ls Hl _ IH]; intros s; [done|]. cbn [for_lines].
  apply no_panic_bind; [done|]. intros line s' _. apply no_panic_bind; [done|]. intros [] s'' _. apply IH.
Qed.

Lemma load_file_no_panic file body c : (forall line c, no_panic (body line) c) -> no_panic (load_file host file body) c.
Proof using Hopen.
  intros Hb. unfold load_file. apply no_panic_bind; [done|]. intros c1 c2 _. apply no_panic_bind.
  - unfold no_panic, slift, read_lines. cbn. specialize (Hopen (join (module_root c1) file)).
    by destruct (host_open host _).
  - intros ls c3 Hls. apply for_lines_no_panic; [|done]. unfold slift, read_lines in Hls.
    destruct (host_open host _) as [r|e|]; simplify_eq/=. apply lines_no_panic.
Qed.

Lemma squash_no_panic fext (c : Kmod unit) s : no_panic c s -> no_panic (squash_notfound fext c) s.
Proof using.
  intros Hc. unfold squash_notfound. apply no_panic_try; [done|]. intros [[]|e|] s1 Hr _; [done| |done].
  by case_bool_decide.
Qed.

Lemma load_or_fail_no_panic fext (c : Kmod unit) s : no_panic c s -> no_panic (load_or_fail fext c) s.
Proof using. intros Hc. unfold load_or_fail. apply no_panic_try; [done|]. by intros [[]|e|] s1 Hr _. Qed.

Lemma kmod_context_no_panic d : kmod_context_new host d <> Panic.
Proof using Hopen.
  assert (no_panic (load_all host) (empty_context d)) as Hn.
  { unfold load_all.
    repeat (apply no_panic_bind; [first [apply squash_no_panic|apply load_or_fail_no_panic]; apply load_file_no_panic|intros [] ? _]).
    5:{ apply squash_no_panic. unfold load_aliases. apply no_panic_bind; [done|]. intros c s _.
        destruct (negb _); [done|]. apply load_file_no_panic. intros line c1.
        unfold alias_line. by repeat case_match. }
    all: intros line c1.
    - unfold hard_dep_line. destruct (split_once _ _) as [[a b]|]; [|done].
      repeat (apply no_panic_bind; [done|]; intros ? ? ?). by case_match.
    - unfold builtin_line. by case_bool_decide.
    - unfold soft_dep_line. by repeat case_match.
    - unfold weak_dep_line. by repeat case_match. }
  unfold no_panic in Hn. unfold kmod_context_new. by destruct (load_all host _) as [[]].
Qed.
End Panics.

(** ** Instances of the theorems *)

Module KmodSample.
Definition es : list dep_entry := [(B "kernel/a-b.ko.xz", [B "kernel/c.ko"]); (B "kernel/c.ko", [])].

Lemma word_ok s : nonempty s && forallb not_space_byte s &&
  negb (match s with c :: _ => utf8_cont c | [] => false end) = true -> word s.
Proof.
  intros H. apply andb_true_iff in H as [H Hs]. apply andb_true_iff in H as [Hn Hf].
  split_and!; [by destruct s| |].
  - apply Forall_forall. intros x Hx. rewrite forallb_forall in Hf. by apply Hf, list_elem_of_In.
  - destruct s; intros d Hd; simplify_eq/=. by apply negb_true_iff in Hs.
Qed.

Lemma es_ok : Forall dep_entry_ok es.
Proof.
  repeat (apply Forall_cons; split); try constructor; try (by apply word_ok);
    split_and!; try (by repeat constructor); repeat constructor; by apply word_ok.
Qed.
End KmodSample.

Lemma modules_dep_roundtrip_witness :
  let host := files_host (<[B "/m/modules.dep" := print_dep_file KmodSample.es]> ∅) in
  exists c, load_hard_dependencies host (empty_context (B "/m")) = (Ok tt, c) /\
     forall e, e ∈ KmodSample.es -> modules_hash c !! dep_name e = Some (dep_module e).
Proof.
  intros host. destruct (modules_dep_roundtrip host (B "/m") KmodSample.es) as [[_ H]|[H _]].
  - vm_compute. reflexivity.
  - apply KmodSample.es_ok.
  - exact H.
  - destruct H. apply (bool_decide_unpack (NoDup _)). vm_compute. exact I.
Defined.

Lemma kmod_context_wf_witness :
  match kmod_context_new sample_host (B "/m") with
  | Ok c => ctx_ok c /\ module_root c = B "/m"
  | _ => False
  end.
Proof.
  destruct (kmod_context_new sample_host (B "/m")) as [c|e|] eqn:Hc.
  - by apply (kmod_context_wf sample_host).
  - vm_compute in Hc. discriminate Hc.
  - vm_compute in Hc. discriminate Hc.
Defined.

Lemma modules_dep_precedence_witness :
  match load_hard_dependencies sample_host (empty_context (B "/m")),
        kmod_context_new sample_host (B "/m") with
  | (_, c1), Ok c => forall n m', modules_hash c1 !! n = None -> modules_hash c !! n = Some m' ->
      status m' = Builtin
  | _, _ => False
  end.
Proof.
  destruct (load_hard_dependencies sample_host (empty_context (B "/m"))) as [r c1] eqn:Hl.
  destruct (kmod_context_new sample_host (B "/m")) as [c|e|] eqn:Hc.
  - exact (proj2 (modules_dep_precedence sample_host (B "/m") r c1 c Hl Hc)).
  - vm_compute in Hc. discriminate Hc.
  - vm_compute in Hc. discriminate Hc.
Defined.

Lemma kmod_builtin_only_witness :
  kmod_context_new (files_host ∅) (B "/m") = Err (LoadError (B "builtin") (err_from NotFound)).
Proof.
  apply (kmod_builtin_only (files_host ∅) (B "/m")).
  - intros f _. split; [exists (err_from NotFound)|]; by vm_compute.
  - reflexivity.
Defined.
