(* ===== verification/RapidoLib.v ===== *)
(** * Shared configuration helpers (src/src/lib.rs)

    Which kernel release the tools work for, which kernel modules and defaults a
    configuration implies, and where rapido.conf is found. *)

From S2P Require Import Prelude RustStr RustWords RustPath RustIo KvConf Host.

Definition RAPIDO_CONF_PATH : bytes := B "rapido.conf".
Definition RAPIDO_NET_CONF_PATH : bytes := B "net-conf".
Definition RAPIDO_DRACUT_OUT : bytes := B "initrds/myinitrd".
Definition RAPIDO_QEMU_PID_DIR : bytes := B "initrds".
Definition RAPIDO_QEMU_EXTRA_ARGS : bytes := B "-nographic -device virtio-rng-pci".

Definition host_kernel_vers_parse (kvers : bytes) : io bytes :=
  match from_utf8 kvers with
  | None => Err (err_from InvalidData)
  | Some s =>
      match strip_prefix (B "Linux version ") s with
      | None => Err (err_from InvalidData)
      | Some rel =>
          match split_once (Z.eqb SPACE) rel with
          | Some (rel, _) => Ok rel
          | None => Err (err_from InvalidData)
          end
      end
  end.

Definition host_kernel_vers (h : Host) : io bytes :=
  let? kvers := host_read h (B "/proc/version") in
  host_kernel_vers_parse kvers.

Definition conf_src_or_host_kernel_vers (h : Host) (conf : kvmap) : io bytes :=
  let release := match conf !! B "KERNEL_RELEASE" with
                 | Some krel => Ok krel
                 | None => host_kernel_vers h
                 end in
  match conf !! B "KERNEL_SRC" with
  | Some ksrc =>
      if nonempty ksrc then
        let? b := host_read h (ksrc ++ B "/include/config/kernel.release") in
        Ok (from_utf8_lossy (default b (strip_suffix [NL] b)))
      else release
  | None => release
  end.

Definition conf_kmod_deps (conf : kvmap) : list bytes :=
  let deps := match conf !! B "QEMU_EXTRA_ARGS" with
              | Some v => if contains (B "virtio-rng-pci") v then [B "virtio_rng"] else []
              | None => []
              end in
  match conf !! B "VIRTFS_SHARE_PATH" with
  | Some _ => deps ++ [B "9pnet"; B "9pnet_virtio"; B "9p"]
  | None => deps
  end.

Definition host_rapido_conf_open (h : Host) (rapido_conf_path : bytes) : io (Reader * path) :=
  match host_env h (B "RAPIDO_CONF") with
  | Some v =>
      match from_utf8 v with
      | Some c =>
          match host_open h c with
          | Err e =>
              if bool_decide (kind e = NotFound)
              then Err (err_fmt InvalidInput (B "RAPIDO_CONF missing at " ++ c))
              else Err e
          | Ok f => Ok (f, c)
          | Panic => Panic
          end
      | None => Err (err_from InvalidInput)
      end
  | None => let? f := host_open h rapido_conf_path in Ok (f, rapido_conf_path)
  end.

Definition conf_defaults : kvmap := list_to_map
  [(B "DRACUT_OUT", RAPIDO_DRACUT_OUT);
   (B "QEMU_PID_DIR", RAPIDO_QEMU_PID_DIR);
   (B "VM_NET_CONF", RAPIDO_NET_CONF_PATH);
   (B "QEMU_EXTRA_ARGS", RAPIDO_QEMU_EXTRA_ARGS)].

(** ** Theorems *)

Lemma host_kernel_vers_parse_ok rel rest :
  Forall (fun c => Z.eqb SPACE c = false) rel -> utf8_valid (rel ++ SPACE :: rest) = true ->
  host_kernel_vers_parse (B "Linux version " ++ rel ++ SPACE :: rest) = Ok rel.
Proof.
  intros Hrel Hu. unfold host_kernel_vers_parse, from_utf8.
  rewrite utf8_valid_app by done. by rewrite strip_prefix_app, split_once_run.
Qed.

(** What [host_kernel_vers_parse] accepts. *)
Lemma host_kernel_vers_parse_inv s rel : host_kernel_vers_parse s = Ok rel ->
  exists rest, s = B "Linux version " ++ rel ++ SPACE :: rest /\
    Forall (fun c => Z.eqb SPACE c = false) rel.
Proof.
  unfold host_kernel_vers_parse, from_utf8. destruct (utf8_valid s); [|done].
  destruct (strip_prefix _ s) as [r|] eqn:Hp; [|done]. apply strip_prefix_spec in Hp as ->.
  destruct (split_once _ r) as [[a b]|] eqn:Hs; [|done]. intros [= <-].
  apply split_once_spec in Hs as (c & -> & Hc & Ha). apply Z.eqb_eq in Hc as <-. eauto.
Qed.

(** The kernel release: a non-empty KERNEL_SRC decides, by its
    kernel.release file without the final newline, even where KERNEL_RELEASE is
    also set; then KERNEL_RELEASE; then the running kernel, whose release is the
    text between "Linux version " and the next space of /proc/version. *)
Theorem conf_kernel_vers_spec h conf :
  match conf !! B "KERNEL_SRC", conf !! B "KERNEL_RELEASE" with
  | Some (c :: ksrc), _ => forall b, utf8_valid b = true ->
      host_read h ((c :: ksrc) ++ B "/include/config/kernel.release") = Ok (b ++ [NL]) ->
      conf_src_or_host_kernel_vers h conf = Ok (from_utf8_lossy b)
  | _, Some krel => conf_src_or_host_kernel_vers h conf = Ok krel
  | _, None => forall rel, conf_src_or_host_kernel_vers h conf = Ok rel <->
      exists s rest, host_read h (B "/proc/version") = Ok s /\ utf8_valid s = true /\
        s = B "Linux version " ++ rel ++ SPACE :: rest /\
        Forall (fun c => Z.eqb SPACE c = false) rel
  end.
Proof.
  assert (forall rel, host_kernel_vers h = Ok rel <->
      exists s rest, host_read h (B "/proc/version") = Ok s /\ utf8_valid s = true /\
        s = B "Linux version " ++ rel ++ SPACE :: rest /\
        Forall (fun c => Z.eqb SPACE c = false) rel) as Hh.
  { intros rel. unfold host_kernel_vers. destruct (host_read h (B "/proc/version")) as [s|e|]; cbn [rbind];
      [|by split; [done|intros (? & ? & ? & _)]..]. split.
    - intros Hp. pose proof Hp as (rest & Hs & Hr)%host_kernel_vers_parse_inv.
      exists s, rest. split_and!; try done. revert Hp. unfold host_kernel_vers_parse, from_utf8.
      by destruct (utf8_valid s).
    - intros (s' & rest & [= <-] & Hu & Hs & Hr). unfold host_kernel_vers_parse, from_utf8.
      rewrite Hu, Hs, strip_prefix_app. by rewrite split_once_run. }
  unfold conf_src_or_host_kernel_vers.
  destruct (conf !! B "KERNEL_SRC") as [[|c ksrc]|]; cbn [nonempty]; [by destruct (conf !! _)| |by destruct (conf !! _)].
  intros b Hb Hr. change (c :: ksrc ++ ?x) with ((c :: ksrc) ++ x). rewrite Hr. cbn [rbind].
  by rewrite strip_suffix_app.
Qed.
