(* ===== verification/Cut.v ===== *)
(** * rapido-cut: gathering files (src/src/bin/rapido-cut.rs)

    The state of a run (the archive written so far, the paths and libraries
    seen), path resolution, ELF dependencies, and the gathering of parent
    directories, executables and data trees. Kernel modules are in [CutKmods],
    the manifest in [CutManifest]. *)

From S2P Require Import Prelude RustStr RustWords RustPath RustIo Cpio Host Kmod.

(** ** Constants *)

Definition BIN_PATHS : list bytes :=
  B <$> ["/usr/bin"; "/usr/sbin"; "/usr/lib/systemd"; "/bin"; "/sbin"]%string.
(** the x86_64 list *)
Definition LIB_PATHS : list bytes :=
  B <$> ["/usr/lib64"; "/usr/lib"; "/lib64"; "/lib"; "/usr/lib/x86_64-linux-gnu"]%string.
Definition MANIFEST_PATHS : list bytes := [B "manifest"].
Definition RAPIDO_INIT_PATH : bytes := B "target/release/rapido-init".
Definition RAPIDO_BASH_RC_PATH : bytes := B "vm_autorun.env".

Definition GATHER_ITEM_IGNORE_PARENT : Z := 1.

(** modes are octal in the source: 0o755, 0o777, 0o111 *)
Definition O755 : Z := 0x1ed.
Definition O777 : Z := 0x1ff.
Definition O111 : Z := 0x49.

Definition CPIO_AMD_DEFAULT : ArchiveMd := MkMd 1 (Z.lor S_IFREG O755) 0 0 0 0 0 0.

(** [ArchiveMd { mode: .., ..CPIO_AMD_DEFAULT }] *)
Definition default_amd (m : Z) : ArchiveMd := MkMd 1 m 0 0 0 0 0 0.

(** ** Data *)

Record Fsent := MkFsent { fs_path : path; fs_md : Metadata }.

Record GatherItem := MkItem { gi_src : path; gi_dst : path; gi_flags : Z }.

Inductive GatherEnt :=
  | Name (n : bytes)
  | NameStatic (n : bytes)
  | NameDst (n : bytes) (dst : path)
  | NameTry (n : bytes)
  | Path (p : path)
  | Lib (n : bytes)
  | LibRunPath (n : bytes) (paths : list bytes)
  | Manifest (n : bytes).

#[export] Instance GatherEnt_eq_dec : EqDecision GatherEnt.
Proof. solve_decision. Defined.

(** What the elf crate reports of a file that parses as ELF: the dynamic
    section (an error, absent, or its tags and values) and the string table of
    the dynamic symbols (an error, absent, or a partial function of offsets). *)
Record Elf := MkElf {
  elf_dynamic : option (option (list (Z * Z)));
  elf_dynstr : option (option (Z -> option bytes));
}.

Definition DT_NEEDED : Z := 1.
Definition DT_RUNPATH : Z := 29.

(** ** Sorting *)

Fixpoint insert_by {A} (leb : A -> A -> bool) (x : A) (l : list A) : list A :=
  match l with
  | [] => [x]
  | y :: r => if leb x y then x :: l else y :: insert_by leb x r
  end.
Definition sort_by {A} (leb : A -> A -> bool) (l : list A) : list A :=
  foldr (insert_by leb) [] l.

(** [Ord] of paths: component by component *)
Definition component_rank (c : Component) : Z :=
  match c with RootDir => 0 | CurDir => 1 | ParentDir => 2 | Normal _ => 3 end.
Definition component_leb (a b : Component) : bool :=
  match a, b with
  | Normal x, Normal y => bytes_leb x y
  | _, _ => component_rank a <=? component_rank b
  end.
Fixpoint components_leb (a b : list Component) : bool :=
  match a, b with
  | [], _ => true
  | _ :: _, [] => false
  | x :: a', y :: b' => if bool_decide (x = y) then components_leb a' b' else component_leb x y
  end.
Definition path_leb (p q : path) : bool := components_leb (components p) (components q).

(** ** Resolving paths *)

Definition fmt_debug_list (l : list bytes) : bytes :=
  B "[" ++ intercalate (B ", ") (fmt_debug <$> l) ++ B "]".

Section Resolve.
Context (host : Host).

(** the first directory that has the name *)
Fixpoint search_dirs (dirs : list bytes) (name : bytes) : option Fsent :=
  match dirs with
  | [] => None
  | dir :: dirs =>
      let p := join dir name in
      match host_symlink_metadata host p with
      | Ok md => Some (MkFsent p md)
      | _ => search_dirs dirs name
      end
  end.

Definition search_paths (ent : GatherEnt) : list bytes :=
  match ent with
  | LibRunPath _ _ | Lib _ => LIB_PATHS
  | Manifest _ => MANIFEST_PATHS
  | _ => BIN_PATHS
  end.

(** the part of [path_stat] after the name is known *)
Definition path_stat_name (ent : GatherEnt) (name : bytes) : io Fsent :=
  if contains [SEP] name then
    match host_symlink_metadata host name with
    | Ok md => match absolute (host_cwd host) name with
               | Ok p => Ok (MkFsent p md)
               | _ => Panic
               end
    | _ => Err (err_fmt NotFound (name ++ B " missing"))
    end
  else
    match search_dirs (search_paths ent) name with
    | Some f => Ok f
    | None =>
        Err (err_fmt NotFound (name ++ B " missing from: " ++
          match ent with
          | LibRunPath _ p => fmt_debug_list p ++ B " & " ++ fmt_debug_list (search_paths ent)
          | _ => fmt_debug_list (search_paths ent)
          end))
    end.

Definition path_stat (ent : GatherEnt) : io Fsent :=
  match ent with
  | Path p => let? md := host_symlink_metadata host p in Ok (MkFsent p md)
  | LibRunPath n paths =>
      if contains [SEP] n then path_stat_name ent n
      else match search_dirs paths n with
           | Some f => Ok f
           | None => path_stat_name ent n
           end
  | Name n | NameDst n _ | NameStatic n | NameTry n | Lib n | Manifest n => path_stat_name ent n
  end.
End Resolve.

(** ** ELF dependencies *)

(** the loop over the needed strings; the filter survives an error *)
Fixpoint elf_needed (strs : Z -> option bytes) (runpaths : list bytes) (offs : list Z)
    (ret : list GatherEnt) : SM (gset bytes) io_error (list GatherEnt) :=
  match offs with
  | [] => sret ret
  | str_off :: offs =>
      match strs str_off with
      | Some s =>
          let* dups_filter := sget in
          do* sput ({[s]} ∪ dups_filter) ;;
          elf_needed strs runpaths offs
            (if bool_decide (s ∈ dups_filter) then ret
             else ret ++ [match runpaths with [] => Lib s | _ => LibRunPath s runpaths end])
      | None => sfail (err_from InvalidData)
      end
  end.

(** the values of a tag, in order *)
Definition dyn_vals (tag : Z) (dynamics : list (Z * Z)) : list Z :=
  snd <$> List.filter (fun d => fst d =? tag) dynamics.

Definition elf_deps (file : option Elf) : SM (gset bytes) io_error (list GatherEnt) :=
  match file with
  | None => sfail (err_from InvalidInput)
  | Some file =>
      match elf_dynamic file with
      | None => sfail (err_from InvalidData)
      | Some None => sret []
      | Some (Some dynamics) =>
          match elf_dynstr file with
          | None => sfail (err_from InvalidData)
          | Some None => sret []
          | Some (Some strs) =>
              elf_needed strs (omap strs (dyn_vals DT_RUNPATH dynamics))
                (dyn_vals DT_NEEDED dynamics) []
          end
      end
  end.

(** ** The state of a run *)

(** [GatherKmods]; the context is the one of the kmod-parser. *)
Record GatherKmods := MkGatherKmods { kmod_dst_root : path; kmod_ctx : KmodContext }.

(** Everything the gathering functions are passed by mutable reference. *)
Record CutState (W : Type) := MkCut {
  libs_seen : gset bytes;
  paths_seen : gset (list Component);
  cut_gk : option GatherKmods;
  autorun_idx : Z;
  fests : list Reader;
  cpio_state : ArchiveState;
  cpio_writer : W;
}.
Arguments MkCut {W}.
Arguments libs_seen {W}.
Arguments paths_seen {W}.
Arguments cut_gk {W}.
Arguments autorun_idx {W}.
Arguments fests {W}.
Arguments cpio_state {W}.
Arguments cpio_writer {W}.

(** An I/O error, or a loop of the model that ran out of fuel; no handler of the
    source catches the latter. *)
Inductive cut_error := Io (e : io_error) | NoFuel.

Section Gather.
Context {W : Type} `{Write W} (host : Host) (elf_open : bytes -> option Elf).

Definition Cut (A : Type) : Type := SM (CutState W) cut_error A.

Definition cfail {A} (e : io_error) : Cut A := sfail (Io e).
Definition clift {A} (r : io A) : Cut A := slift (map_err Io r).

Definition set_libs (l : gset bytes) (s : CutState W) : CutState W :=
  MkCut l (paths_seen s) (cut_gk s) (autorun_idx s) (fests s) (cpio_state s) (cpio_writer s).
Definition set_paths (p : gset (list Component)) (s : CutState W) : CutState W :=
  MkCut (libs_seen s) p (cut_gk s) (autorun_idx s) (fests s) (cpio_state s) (cpio_writer s).
Definition set_gk (g : option GatherKmods) (s : CutState W) : CutState W :=
  MkCut (libs_seen s) (paths_seen s) g (autorun_idx s) (fests s) (cpio_state s) (cpio_writer s).
Definition set_autorun (n : Z) (s : CutState W) : CutState W :=
  MkCut (libs_seen s) (paths_seen s) (cut_gk s) n (fests s) (cpio_state s) (cpio_writer s).
Definition set_fests (l : list Reader) (s : CutState W) : CutState W :=
  MkCut (libs_seen s) (paths_seen s) (cut_gk s) (autorun_idx s) l (cpio_state s) (cpio_writer s).
Definition set_arch (a : ArchiveState * W) (s : CutState W) : CutState W :=
  MkCut (libs_seen s) (paths_seen s) (cut_gk s) (autorun_idx s) (fests s) (fst a) (snd a).
Definition arch (s : CutState W) : ArchiveState * W := (cpio_state s, cpio_writer s).

(** a call of the cpio crate with the state's archive *)
Definition cpio {A} (c : Arch W A) : Cut A := fun s =>
  let '(r, a) := c (arch s) in (map_err Io r, set_arch a s).

(** [paths_seen.contains(p)] and [paths_seen.insert(p)] *)
Definition paths_contains (p : path) : Cut bool := fun s =>
  (Ok (bool_decide (path_key p ∈ paths_seen s)), s).
Definition paths_insert (p : path) : Cut bool := fun s =>
  (Ok (bool_decide (path_key p ∉ paths_seen s)), set_paths ({[path_key p]} ∪ paths_seen s) s).

(** [ArchiveMd::from(cpio_state, md)?] *)
Definition amd_from (md : Metadata) : Cut ArchiveMd :=
  let* s := sget in clift (archive_md_from (cpio_state s) md).

(** ** Parent directories *)

(** the metadata of the directories made for a child; the source writes 0111,
    which is decimal in Rust *)
Definition parent_dirs_amd (child_amd : ArchiveMd) : ArchiveMd :=
  {| mode := if is_type (mode child_amd) S_IFDIR then mode child_amd
             else Z.lor (Z.lor (Z.land (mode child_amd) (Z.lxor U32_MAX S_IFMT)) S_IFDIR) 111;
     nlink := 2; rmajor := 0; rminor := 0; len := 0;
     uid := uid child_amd; gid := gid child_amd; mtime := mtime child_amd |}.

Fixpoint gather_dirs_loop (comps : list Component) (here : path) (amd : ArchiveMd) : Cut unit :=
  match comps with
  | [] => sret tt
  | RootDir :: comps | CurDir :: comps => gather_dirs_loop comps here amd
  | ParentDir :: comps =>
      match pop here with
      | None => cfail (err_from InvalidInput)
      | Some here => gather_dirs_loop comps here amd
      end
  | Normal c :: comps =>
      let here := push here c in
      let* new := paths_insert here in
      if new : bool then do* cpio (archive_path here amd) ;; gather_dirs_loop comps here amd
      else gather_dirs_loop comps here amd
  end.

Definition gather_archive_dirs (p : option path) (child_amd : ArchiveMd) : Cut unit :=
  match p with
  | None => sret tt
  | Some p =>
      if negb (is_absolute p) then spanic
      else
        let* seen := paths_contains p in
        if seen : bool then sret tt
        else gather_dirs_loop (components p) (B "/") (parent_dirs_amd child_amd)
  end.

(** ** Executables and libraries *)

(** [for entry in entries { stack.push(entry) }]; the top is the head *)
Definition push_all {A} (entries stack : list A) : list A := reverse entries ++ stack.

(** [fs::read_dir(src)?], joined to a prefix and sorted *)
Definition read_dir_sorted (src : path) : Cut (list path) :=
  let* names := clift (host_read_dir host src) in
  sret (sort_by path_leb (join src <$> names)).

(** whether an entry is a library, for its dependencies and symlink target *)
Definition is_lib_ent (ent : GatherEnt) : bool :=
  match ent with LibRunPath _ _ | Lib _ => true | _ => false end.

(** what is pushed for an entry at [src] archived as [dst] *)
Definition gather_elf_one (ent : GatherEnt) (src dst : path) (amd : ArchiveMd) :
    Cut (option (list GatherEnt)) :=
  let lib_ent := is_lib_ent ent in
  if is_type (mode amd) S_IFLNK then
    match ent with
    | NameDst _ _ => cfail (err_from InvalidInput)
    | _ =>
        match host_canonicalize host src with
        | Ok canon_tgt =>
            do* cpio (archive_symlink dst amd canon_tgt) ;;
            match from_utf8 canon_tgt with
            | Some t => sret (Some [if lib_ent then Lib t else Name t])
            | None => cfail (err_from InvalidInput)
            end
        | _ => sret None
        end
    end
  else if is_type (mode amd) S_IFREG && (0 <? len amd) then
    let* f := clift (host_open host src) in
    let* deps :=
      if negb (Z.land (mode amd) O111 =? 0) || lib_ent then
        let* s := sget in
        let '(r, libs) := elf_deps (elf_open (rd_data f)) (libs_seen s) in
        do* sput (set_libs libs s) ;;
        sret (match r with Ok d => d | _ => [] end)
      else sret [] in
    do* cpio (archive_file dst amd f) ;;
    sret (Some deps)
  else if is_type (mode amd) S_IFDIR then
    do* cpio (archive_path dst amd) ;;
    let* entries := read_dir_sorted src in
    sret (Some (Path <$> entries))
  else
    do* cpio (archive_path dst amd) ;;
    sret (Some []).

(** one round of the loop: the entries pushed *)
Definition gather_elf_ent (ent : GatherEnt) : Cut (list GatherEnt) :=
  match path_stat host ent with
  | Err e => match ent with NameTry _ => sret [] | _ => cfail e end
  | Panic => spanic
  | Ok got =>
      let dst := match ent with NameDst _ d => d | _ => fs_path got end in
      do* sassert (match ent with NameDst _ d => is_absolute d | _ => true end) ;;
      let* seen := paths_contains dst in
      if seen : bool then sret []
      else
        let* amd := amd_from (fs_md got) in
        do* gather_archive_dirs (parent dst) amd ;;
        let* pushed := gather_elf_one ent (fs_path got) dst amd in
        match pushed with
        | None => sret []
        | Some ents => do* paths_insert dst ;; sret ents
        end
  end.

Fixpoint gather_archive_elfs (fuel : nat) (elfs : list GatherEnt) : Cut unit :=
  match elfs, fuel with
  | [], _ => sret tt
  | _ :: _, O => sfail NoFuel
  | ent :: elfs, S fuel =>
      let* pushed := gather_elf_ent ent in
      gather_archive_elfs fuel (push_all pushed elfs)
  end.

(** ** Data trees *)

(** archive one item, and what is pushed for it *)
Definition gather_item_one (item : GatherItem) (src_amd : ArchiveMd) : Cut (list GatherItem) :=
  if is_type (mode src_amd) S_IFDIR then
    do* cpio (archive_path (gi_dst item) src_amd) ;;
    let* names := clift (host_read_dir host (gi_src item)) in
    sret ((fun entry => MkItem (join (gi_src item) entry) (join (gi_dst item) entry)
                          GATHER_ITEM_IGNORE_PARENT) <$> sort_by bytes_leb names)
  else if is_type (mode src_amd) S_IFREG && (0 <? len src_amd) then
    let* f := clift (host_open host (gi_src item)) in
    do* cpio (archive_file (gi_dst item) src_amd f) ;;
    sret []
  else if is_type (mode src_amd) S_IFLNK then
    let* tgt := clift (host_read_link host (gi_src item)) in
    do* cpio (archive_symlink (gi_dst item) src_amd tgt) ;;
    sret []
  else
    do* cpio (archive_path (gi_dst item) src_amd) ;;
    sret [].

Definition gather_item (item : GatherItem) : Cut (list GatherItem) :=
  match host_symlink_metadata host (gi_src item) with
  | Err e =>
      if bool_decide (kind e = NotFound)
      then cfail (err_fmt NotFound (fmt_debug (gi_src item) ++ B " missing"))
      else cfail e
  | Panic => spanic
  | Ok src_md =>
      let* src_amd := amd_from src_md in
      let* new := paths_insert (gi_dst item) in
      if negb new then sret []
      else
        do* (if Z.land (gi_flags item) GATHER_ITEM_IGNORE_PARENT =? 0
             then gather_archive_dirs (parent (gi_dst item)) src_amd else sret tt) ;;
        gather_item_one item src_amd
  end.

Fixpoint gather_archive_data (fuel : nat) (items : list GatherItem) : Cut unit :=
  match items, fuel with
  | [], _ => sret tt
  | _ :: _, O => sfail NoFuel
  | item :: items, S fuel =>
      let* pushed := gather_item item in
      gather_archive_data fuel (push_all pushed items)
  end.
End Gather.

Arguments Cut W A : clear implicits.

(** With the decimal 0111 the parents made for a file of mode 0644 get the mode
    0757. *)
Example parent_mode : mode (parent_dirs_amd (default_amd (Z.lor S_IFREG 0x1a4))) = Z.lor S_IFDIR 0x1ef.
Proof. reflexivity. Qed.
