(* ===== verification/CutFind.v ===== *)
(** * rapido-cut: where an entry is looked for

    [path_stat] resolves an entry by trying paths in order. This is its
    specification by the list of candidates: the first that exists is taken, and
    the entry is missing when none does. *)

From S2P Require Import Prelude RustStr RustPath RustIo Cpio Host Kmod Cut.

Definition ent_name (ent : GatherEnt) : bytes :=
  match ent with
  | Name n | NameStatic n | NameDst n _ | NameTry n | Path n | Lib n | LibRunPath n _ | Manifest n => n
  end.

(** The directories that are searched for a bare name. *)
Definition ent_dirs (ent : GatherEnt) : list bytes :=
  match ent with LibRunPath _ dirs => dirs ++ LIB_PATHS | _ => search_paths ent end.

Definition candidates (ent : GatherEnt) : list path :=
  match ent with
  | Path p => [p]
  | _ => if contains [SEP] (ent_name ent) then [ent_name ent]
         else (fun dir => join dir (ent_name ent)) <$> ent_dirs ent
  end.

(** The path an entry gets when [p] is taken: only a name with a separator is
    made absolute. *)
Definition resolved (host : Host) (ent : GatherEnt) (p q : path) : Prop :=
  match ent with
  | Path _ => q = p
  | _ => if contains [SEP] (ent_name ent) then absolute (host_cwd host) p = Ok q else q = p
  end.

Section Find.
Context (host : Host).

Definition missing (p : path) : Prop := is_ok (host_symlink_metadata host p) = false.

(** The first of [ps] that exists has the metadata [md]. *)
Definition first_found (ps : list path) (p : path) (md : Metadata) : Prop :=
  exists before after, ps = before ++ p :: after /\ Forall missing before /\ host_symlink_metadata host p = Ok md.

Lemma first_found_skip before ps p md : Forall missing before -> first_found ps p md -> first_found (before ++ ps) p md.
Proof using.
  intros Hb (b & a & -> & Hf & Hm). exists (before ++ b), a. rewrite app_assoc. split_and!; [done|by apply Forall_app|done].
Qed.

Lemma first_found_more ps after p md : first_found ps p md -> first_found (ps ++ after) p md.
Proof using. intros (b & a & -> & Hf & Hm). exists b, (a ++ after). by rewrite <-app_assoc. Qed.

Lemma search_dirs_spec dirs n : let ps := (fun dir => join dir n) <$> dirs in
  match search_dirs host dirs n with
  | Some f => first_found ps (fs_path f) (fs_md f)
  | None => Forall missing ps
  end.
Proof using.
  induction dirs as [|dir dirs IH]; cbn [search_dirs]; [constructor|].
  destruct (host_symlink_metadata host (join dir n)) as [md|e|] eqn:Hm.
  1: by exists [], ((fun dir => join dir n) <$> dirs).
  all: assert (missing (join dir n)) as Hd by (unfold missing; by rewrite Hm); rewrite fmap_cons;
    destruct (search_dirs host dirs n) as [f|]; [apply (first_found_skip [_]); [by constructor|done]|by constructor].
Qed.

(** A name with separators is looked for as it is, another one in [search_paths]. *)
Lemma path_stat_name_spec ent n :
  let ps := if contains [SEP] n then [n] else (fun dir => join dir n) <$> search_paths ent in
  match path_stat_name host ent n with
  | Ok got => exists p, first_found ps p (fs_md got) /\
      if contains [SEP] n then absolute (host_cwd host) p = Ok (fs_path got) else fs_path got = p
  | Err e => Forall missing ps /\ kind e = NotFound
  | Panic => False
  end.
Proof using.
  cbv zeta. unfold path_stat_name. destruct (contains [SEP] n) eqn:Hc.
  - destruct (host_symlink_metadata host n) as [md|e|] eqn:Hm.
    + pose proof (absolute_ok (host_cwd host) n ltac:(by intros ->)) as Ha.
      destruct (absolute _ n) as [q|e|] eqn:Hq; [|done..]. exists n. split; [by exists [], []|done].
    + split; [|done]. apply Forall_singleton. unfold missing. by rewrite Hm.
    + split; [|done]. apply Forall_singleton. unfold missing. by rewrite Hm.
  - pose proof (search_dirs_spec (search_paths ent) n) as Hs. destruct (search_dirs host _ n) as [f|]; [|done].
    by exists (fs_path f).
Qed.

(** What [path_stat] gives: the first candidate that exists, or an error when none
    does; the error, for a path found in a directory, is the one of the system. *)
Lemma path_stat_spec ent :
  match path_stat host ent with
  | Ok got => exists p, first_found (candidates ent) p (fs_md got) /\ resolved host ent p (fs_path got)
  | Err e => Forall missing (candidates ent) /\
      (kind e = NotFound \/ exists p, ent = Path p /\ host_symlink_metadata host p = Err e)
  | Panic => exists p, ent = Path p /\ host_symlink_metadata host p = Panic
  end.
Proof using.
  assert (forall n, match ent with Path _ => False | _ => ent_name ent = n end ->
    (contains [SEP] n = false -> ent_dirs ent = search_paths ent) ->
    match path_stat_name host ent n with
    | Ok got => exists p, first_found (candidates ent) p (fs_md got) /\ resolved host ent p (fs_path got)
    | Err e => Forall missing (candidates ent) /\
        (kind e = NotFound \/ exists p, ent = Path p /\ host_symlink_metadata host p = Err e)
    | Panic => exists p, ent = Path p /\ host_symlink_metadata host p = Panic
    end) as Hname.
  { intros n Hn Hd. pose proof (path_stat_name_spec ent n) as Hs. cbv zeta in Hs.
    assert (candidates ent = if contains [SEP] n then [n] else (fun dir => join dir n) <$> search_paths ent) as ->.
    { unfold candidates. destruct ent; try done; rewrite Hn; destruct (contains [SEP] n); (done || by rewrite Hd). }
    assert (forall p q, resolved host ent p q <->
      if contains [SEP] n then absolute (host_cwd host) p = Ok q else q = p) as Hr.
    { intros p q. unfold resolved. destruct ent; try done; rewrite Hn; reflexivity. }
    destruct (path_stat_name host ent n) as [got|e|]; [|by destruct Hs; auto|done].
    destruct Hs as (p & Hf & Hq). exists p. split; [done|by apply Hr]. }
  destruct ent as [n|n|n d|n|p|n|n dirs|n]; try (by apply Hname); cbn [path_stat].
  - destruct (host_symlink_metadata host p) as [md|e|] eqn:Hm; cbn [rbind]; [| |eauto].
    + exists p. split; [by exists [], []|done].
    + split; [|eauto]. apply Forall_singleton. unfold missing. by rewrite Hm.
  - destruct (contains [SEP] n) eqn:Hc; [apply Hname; [done|by rewrite Hc]|]. unfold candidates, resolved. cbn [ent_name ent_dirs].
    rewrite Hc, fmap_app. pose proof (search_dirs_spec dirs n) as Hs. destruct (search_dirs host dirs n) as [f|].
    + exists (fs_path f). split; [by apply first_found_more|done].
    + pose proof (path_stat_name_spec (LibRunPath n dirs) n) as Hp. cbv zeta in Hp. rewrite Hc in Hp.
      destruct (path_stat_name host _ n) as [got|e|]; [| |done].
      * destruct Hp as (p & Hf & ->). exists p. split; [by apply first_found_skip|done].
      * destruct Hp. split; [by apply Forall_app|by left].
Qed.

(** The candidate that was found. *)
Lemma path_stat_found ent got : path_stat host ent = Ok got ->
  exists p, p ∈ candidates ent /\ host_symlink_metadata host p = Ok (fs_md got) /\ resolved host ent p (fs_path got).
Proof using.
  intros Hs. pose proof (path_stat_spec ent) as Hp. rewrite Hs in Hp.
  destruct Hp as (p & (before & after & Hc & _ & Hm) & Hr). exists p. split_and!; [|done..]. rewrite Hc. set_solver.
Qed.
End Find.

(** The order for a library with a run path. *)
Example lib_candidates : candidates (LibRunPath (B "libx.so") [B "/opt/lib"]) =
  B <$> ["/opt/lib/libx.so"; "/usr/lib64/libx.so"; "/usr/lib/libx.so"; "/lib64/libx.so"; "/lib/libx.so"; "/usr/lib/x86_64-linux-gnu/libx.so"]%string.
Proof. reflexivity. Qed.
