(* ===== verification/CutKmods.v ===== *)
(** * rapido-cut: gathering kernel modules (src/src/bin/rapido-cut.rs)

    The module database and the modules with their dependencies are archived
    below /usr/lib/modules, and default symbolic links complete the image. *)

From S2P Require Import Prelude RustStr RustWords RustPath RustIo KvConf Cpio Host Kmod RapidoLib Cut.

Section Kmods.
Context {W : Type} `{Write W} (host : Host) (conf : kvmap).

Definition archive_kmod_path (src dst : path) : Cut W unit :=
  let* md := clift (host_symlink_metadata host src) in
  let* amd := amd_from md in
  do* gather_archive_dirs (parent dst) amd ;;
  let* kmod_f := clift (host_open host src) in
  cpio (archive_file dst amd kmod_f).

(** the metadata of the symbolic links the tool makes up *)
Definition symlink_amd : ArchiveMd := MkMd 1 (Z.lor S_IFLNK O777) 0 0 0 0 0 0.

Definition archive_kmods_symlink : Cut W unit :=
  let* seen := paths_contains (B "/lib") in
  let '(p, tgt) := if seen : bool then (B "/lib/modules", B "/usr/lib/modules")
                   else (B "/lib", B "/usr/lib") in
  cpio (archive_symlink p symlink_amd tgt).

(** [match c { Err(e) if e.kind() == NotFound => .., Err(e) => return Err(e), Ok(_) => {} }]:
    whether it was found *)
Definition found (c : Cut W unit) : Cut W bool :=
  let* r := stry c in
  match r with
  | Ok _ => sret true
  | Err (Io e) => if bool_decide (kind e = NotFound) then sret false else cfail e
  | Err e => sfail e
  | Panic => spanic
  end.

(** hard dependencies: all of them, unless seen *)
Fixpoint archive_hard_deps (gk : GatherKmods) (deps : list bytes) : Cut W unit :=
  match deps with
  | [] => sret tt
  | dep_path :: deps =>
      let kmod_dst := join (kmod_dst_root gk) dep_path in
      let* new := paths_insert kmod_dst in
      do* (if new : bool then archive_kmod_path (join (module_root (kmod_ctx gk)) dep_path) kmod_dst
           else sret tt) ;;
      archive_hard_deps gk deps
  end.

(** soft and weak dependencies: those that are found *)
Fixpoint archive_soft_deps (gk : GatherKmods) (mods : list bytes) : Cut W unit :=
  match mods with
  | [] => sret tt
  | soft_mod :: mods =>
      match find (kmod_ctx gk) soft_mod with
      | None => archive_soft_deps gk mods
      | Some m =>
          if bool_decide (status m = Builtin) then archive_soft_deps gk mods
          else
            let kmod_dst := join (kmod_dst_root gk) (rel_path m) in
            let* new := paths_insert kmod_dst in
            do* (if new : bool
                 then do* found (archive_kmod_path (join (module_root (kmod_ctx gk)) (rel_path m))
                                   kmod_dst) ;; sret tt
                 else sret tt) ;;
            archive_soft_deps gk mods
      end
  end.

Definition gather_archive_kmod_and_deps (name : bytes) (gk : GatherKmods) : Cut W unit :=
  match find (kmod_ctx gk) name with
  | None => cfail (err_from NotFound)
  | Some root_mod =>
      if bool_decide (status root_mod = Builtin) then sret tt
      else
        let kmod_dst := join (kmod_dst_root gk) (rel_path root_mod) in
        let* new := paths_insert kmod_dst in
        if negb new then sret tt
        else
          do* archive_kmod_path (join (module_root (kmod_ctx gk)) (rel_path root_mod)) kmod_dst ;;
          do* archive_hard_deps gk (hard_deps_paths root_mod) ;;
          archive_soft_deps gk
            (soft_deps_pre root_mod ++ soft_deps_post root_mod ++ weak_deps root_mod)
  end.

(** the module database, as far as it exists *)
Fixpoint archive_db_files (dst_root src_root : path) (files : list bytes) : Cut W unit :=
  match files with
  | [] => sret tt
  | file_name :: files =>
      let data_dst_path := join dst_root file_name in
      let* new := paths_insert data_dst_path in
      do* (if new : bool
           then do* found (archive_kmod_path (join src_root file_name) data_dst_path) ;; sret tt
           else sret tt) ;;
      archive_db_files dst_root src_root files
  end.

(** the directory the modules are taken from *)
Definition kmod_src_root (krel : bytes) (kmod_dst_root : path) : path :=
  let system := if host_exists host kmod_dst_root then kmod_dst_root
                else join (B "/lib/modules/") krel in
  match conf !! B "KERNEL_INSTALL_MOD_PATH" with
  | Some kmp => if nonempty kmp then join kmp (B "lib/modules/" ++ krel) else system
  | None => system
  end.

(** [GatherKmods::init]; the text of the context's error is left abstract *)
Definition gather_kmods_init : Cut W GatherKmods :=
  let* krel := clift (conf_src_or_host_kernel_vers host conf) in
  let kmod_dst_root := join (B "/usr/lib/modules/") krel in
  let* ctx := clift (match kmod_context_new host (kmod_src_root krel kmod_dst_root) with
                     | Ok ctx => Ok ctx
                     | Err e => Err (err_fmt InvalidInput (B "Failed to load modules." ++ le_fext e))
                     | Panic => Panic
                     end) in
  do* archive_db_files kmod_dst_root (module_root ctx) MODULE_DB_FILES ;;
  sret (MkGatherKmods kmod_dst_root ctx).

Fixpoint gather_kmod_names (gk : GatherKmods) (kmods : list bytes) (ignore_missing : bool) :
    Cut W unit :=
  match kmods with
  | [] => sret tt
  | name :: kmods =>
      let* ok := found (gather_archive_kmod_and_deps name gk) in
      if negb ok && negb ignore_missing
      then cfail (err_fmt NotFound
             (name ++ B " missing from: " ++ fmt_debug (module_root (kmod_ctx gk))))
      else gather_kmod_names gk kmods ignore_missing
  end.

Definition gather_archive_kmods (kmods : list bytes) (ignore_missing : bool) : Cut W unit :=
  let* s := sget in
  let* gk := match cut_gk s with
             | Some gk => sret gk
             | None => let* gk := gather_kmods_init in
                       do* smodify (set_gk (Some gk)) ;; sret gk
             end in
  gather_kmod_names gk kmods ignore_missing.

(** a link to [tgt] unless [p] was archived *)
Definition default_symlink (p tgt : path) : Cut W unit :=
  let* seen := paths_contains p in
  if seen : bool then sret tt else cpio (archive_symlink p symlink_amd tgt).

Definition populate_default_symlinks : Cut W unit :=
  do* default_symlink (B "/lib64") (B "/usr/lib64") ;;
  do* default_symlink (B "/bin") (B "/usr/bin") ;;
  let* sbin := paths_contains (B "/sbin") in
  do* (if sbin : bool then
         let p := B "/sbin/modprobe" in
         let tgt := B "/usr/sbin/modprobe" in
         let* seen_p := paths_contains p in
         let* seen_tgt := paths_contains tgt in
         if negb seen_p && seen_tgt then cpio (archive_symlink p symlink_amd tgt) else sret tt
       else cpio (archive_symlink (B "/sbin") symlink_amd (B "/usr/sbin"))) ;;
  archive_kmods_symlink.
End Kmods.
