(* ===== verification/CutManifest.v ===== *)
(** * rapido-cut: manifests and the sequence of main (src/src/bin/rapido-cut.rs)

    A manifest is read line by line; each line archives something. An include
    pushes a manifest on a stack, whose top is read until its end. *)

From S2P Require Import Prelude RustStr RustWords RustPath RustIo KvConf Cpio Host Kmod RapidoLib.
From S2P Require Import Cut CutKmods.

Definition DOLLAR : Z := 36.
Definition is_dollar (c : Z) : bool := c =? DOLLAR.
Definition is_brace (c : Z) : bool := one_of (B "{}") c.

(** one block of [sub_path_vars], when a variable name begins it: what the
    variable stands for, and the block to go on with *)
Definition path_var_block (conf : kvmap) (quoteblock : bytes) :
    result bytes (bytes * option bytes) :=
  match split_inclusive is_brace quoteblock with
  | p0 :: varblock =>
      if negb (bool_decide (p0 = B "{")) then Err (B "variables must be wrapped in {} braces")
      else
        match varblock with
        | var :: rest =>
            match strip_suffix (B "}") var with
            | None => Err (B "no closing brace for variable")
            | Some key =>
                match conf !! key with
                | None => Err (B "invalid variable substitution: not seen")
                | Some val => Ok (val, head rest)
                end
            end
        | [] => Err (B "no closing brace for variable")
        end
  | [] => Err (B "variables must be wrapped in {} braces")
  end.

Fixpoint sub_path_blocks (conf : kvmap) (blocks : list bytes) (var_next : bool)
    (unquoted_val : bytes) : result bytes bytes :=
  match blocks with
  | [] => Ok unquoted_val
  | quoteblock :: blocks =>
      let? (unquoted_val, quoteblock) :=
        if var_next
        then let? (val, t) := path_var_block conf quoteblock in Ok (unquoted_val ++ val, t)
        else Ok (unquoted_val, Some quoteblock) in
      match quoteblock with
      | None => sub_path_blocks conf blocks false unquoted_val
      | Some quoteblock =>
          match strip_suffix [DOLLAR] quoteblock with
          | Some q => sub_path_blocks conf blocks true (unquoted_val ++ q)
          | None => sub_path_blocks conf blocks false (unquoted_val ++ quoteblock)
          end
      end
  end.

Definition sub_path_vars (conf : kvmap) (p : bytes) : result bytes bytes :=
  sub_path_blocks conf (split_inclusive is_dollar p) false [].

Definition manifest_name_sub (conf : kvmap) (name : option bytes) : io bytes :=
  match name with
  | None => Err (err_from InvalidData)
  | Some p => map_err (fun _ => err_from InvalidData) (sub_path_vars conf p)
  end.

Section Manifest.
Context {W : Type} `{Write W} (host : Host) (elf_open : bytes -> option Elf) (conf : kvmap).
(** fuel of the gathering loops *)
Context (fuel : nat).

Definition manifest_name_sub_abs_path (name : option bytes) : io path :=
  let? p := manifest_name_sub conf name in
  map_err (fun _ => err_from InvalidData) (absolute (host_cwd host) p).

Definition manifest_dir (name : option bytes) : Cut W unit :=
  let* p := clift (manifest_name_sub_abs_path name) in
  let* seen := paths_contains p in
  if seen : bool then sret tt
  else
    let amd := default_amd (Z.lor S_IFDIR O755) in
    do* gather_archive_dirs (parent p) amd ;;
    do* cpio (archive_path p amd) ;;
    do* paths_insert p ;; sret tt.

Definition manifest_slink (name slink_tgt : option bytes) : Cut W unit :=
  let* p := clift (manifest_name_sub_abs_path name) in
  let* seen := paths_contains p in
  if seen : bool then sret tt
  else
    let* tgt := clift (manifest_name_sub conf slink_tgt) in
    let amd := default_amd (Z.lor S_IFLNK O777) in
    do* gather_archive_dirs (parent p) amd ;;
    do* cpio (archive_symlink p amd tgt) ;;
    do* paths_insert p ;; sret tt.

(** [File::open(src)?] and [f.metadata()?] *)
Definition open_with_metadata (src : path) : Cut W (Reader * Metadata) :=
  let* f := clift (host_open host src) in
  let* md := clift (host_metadata host src) in
  sret (f, md).

Definition manifest_file (name src : option bytes) : Cut W unit :=
  let* p := clift (manifest_name_sub_abs_path name) in
  let* seen := paths_contains p in
  if seen : bool then sret tt
  else
    do* match src with
        | Some _ =>
            let* src := clift (manifest_name_sub conf src) in
            let* (f, src_md) := open_with_metadata src in
            let* amd := amd_from src_md in
            do* gather_archive_dirs (parent p) amd ;;
            cpio (archive_file p amd f)
        | None =>
            do* gather_archive_dirs (parent p) CPIO_AMD_DEFAULT ;;
            cpio (archive_path p CPIO_AMD_DEFAULT)
        end ;;
    do* paths_insert p ;; sret tt.

Definition manifest_autorun (name : option bytes) : Cut W unit :=
  let* src := clift (manifest_name_sub_abs_path name) in
  let* s := sget in
  let* dst := match file_name src ≫= from_utf8 with
              | None => cfail (err_from InvalidInput)
              | Some n => sret (B "/rapido_autorun/" ++ fmt_dec0 3 (autorun_idx s) ++ B "-" ++ n)
              end in
  do* (if autorun_idx s =? 0 then
         let p := B "/rapido_autorun" in
         do* cpio (archive_path p (default_amd (Z.lor S_IFDIR O755))) ;;
         do* paths_insert p ;; sret tt
       else sret tt) ;;
  let* (f, src_md) := open_with_metadata src in
  let* src_amd := amd_from src_md in
  do* cpio (archive_file dst src_amd f) ;;
  smodify (fun s => set_autorun (wrap32 (autorun_idx s + 1)) s).

Definition manifest_tree (name src : option bytes) : Cut W unit :=
  let* dst := clift (manifest_name_sub_abs_path name) in
  if negb (is_absolute dst) then cfail (err_from InvalidInput)
  else
    let* src := clift (manifest_name_sub conf src) in
    gather_archive_data host fuel [MkItem src dst 0].

Definition manifest_include (name : option bytes) : Cut W unit :=
  let* p := clift (manifest_name_sub conf name) in
  let* fs := clift (path_stat host (Manifest p)) in
  let* f := clift (host_open host (fs_path fs)) in
  smodify (fun s => set_fests (f :: fests s) s).

(** "bin" and "try-bin" *)
Definition manifest_bin (ent : bytes -> GatherEnt) (name : option bytes) : Cut W unit :=
  let* src := clift (manifest_name_sub conf name) in
  gather_archive_elfs host elf_open fuel [ent src].

Definition manifest_kmod (name : option bytes) (ignore_missing : bool) : Cut W unit :=
  match name with
  | None => cfail (err_from InvalidData)
  | Some kmod => gather_archive_kmods host conf [kmod] ignore_missing
  end.

Fixpoint autorun_all (names : list bytes) : Cut W unit :=
  match names with
  | [] => sret tt
  | n :: names => do* manifest_autorun (Some n) ;; autorun_all names
  end.

Definition manifest_autoruns (names : list bytes) : Cut W unit :=
  let* before := sget in
  do* autorun_all names ;;
  let* after := sget in
  if autorun_idx before =? autorun_idx after then cfail (err_from InvalidData) else sret tt.

Definition manifest_filter (name : option bytes) : Cut W unit :=
  let* p := clift (manifest_name_sub_abs_path name) in
  do* paths_insert p ;; sret tt.

(** the entry types: what a line does, and how many parameters it takes *)
Definition manifest_entry (etype : bytes) (params : list bytes) : Cut W unit * nat :=
  let p0 := head params in
  let p1 := head (tail params) in
  if bool_decide (etype = B "dir") then (manifest_dir p0, 1%nat)
  else if bool_decide (etype = B "slink") then (manifest_slink p0 p1, 2%nat)
  else if bool_decide (etype = B "include") then (manifest_include p0, 1%nat)
  else if bool_decide (etype = B "file") then (manifest_file p0 p1, 2%nat)
  else if bool_decide (etype = B "bin") then (manifest_bin Name p0, 1%nat)
  else if bool_decide (etype = B "try-bin") then (manifest_bin NameTry p0, 1%nat)
  else if bool_decide (etype = B "kmod") then (manifest_kmod p0 false, 1%nat)
  else if bool_decide (etype = B "try-kmod") then (manifest_kmod p0 true, 1%nat)
  else if bool_decide (etype = B "autorun") then (manifest_autoruns params, length params)
  else if bool_decide (etype = B "tree") then (manifest_tree p0 p1, 2%nat)
  else if bool_decide (etype = B "filter") then (manifest_filter p0, 1%nat)
  else (cfail (err_from Unsupported), 0%nat).

Definition manifest_parse_one (line : bytes) : Cut W unit :=
  match split_whitespace line with
  | [] => sret tt
  | etype :: params =>
      if starts_with (B "#") etype then sret tt
      else
        let '(c, n) := manifest_entry etype params in
        do* c ;;
        if bool_decide (drop n params = []) then sret tt
        else cfail (err_from InvalidInput)
  end.

Definition MANIFEST_LINE_MAX : Z := 16 * 1024.

(** the loop of [manifest_parse]; [lbuf] is empty at its start *)
Fixpoint manifest_loop (lines : nat) : Cut W unit :=
  let* s := sget in
  match fests s, lines with
  | [], _ => sret tt
  | _ :: _, O => sfail NoFuel
  | fest :: rest, S lines =>
      match read_line fest [] with
      | (Err e, fest', _) => do* smodify (set_fests (fest' :: rest)) ;; cfail (err_from BrokenPipe)
      | (Panic, _, _) => spanic
      | (Ok n, fest', lbuf) =>
          do* smodify (set_fests (fest' :: rest)) ;;
          if MANIFEST_LINE_MAX <? n then cfail (err_from InvalidInput)
          else if n =? 0 then do* smodify (set_fests rest) ;; manifest_loop lines
          else do* manifest_parse_one lbuf ;; manifest_loop lines
      end
  end.

Definition manifest_parse (lines : nat) (manifests : list Reader) : Cut W unit :=
  do* smodify (fun s => set_autorun 0 (set_fests (reverse manifests) s)) ;;
  manifest_loop lines.
End Manifest.

(** ** The whole run *)

Definition cut_props : ArchiveProperties :=
  MkProps 0 4096 (namesize_max props_default) 0 None None None.

(** the state [main] starts from, with the output [w] *)
Definition cut_start {W} (w : W) : CutState W :=
  MkCut ∅ ∅ None 0 [] (state_new cut_props) w.

Definition core_elfs : list GatherEnt :=
  [NameDst RAPIDO_INIT_PATH (B "/rdinit"); NameStatic (B "mount"); NameStatic (B "setsid");
   NameStatic (B "bash"); NameStatic (B "stty"); NameStatic (B "modprobe")].

Section Main.
Context {W : Type} `{Write W} (host : Host) (elf_open : bytes -> option Elf).
Context (fuel lines : nat).

(** open rapido.conf and read it over the defaults, with what is archived of it *)
Definition cut_conf (st : ArchiveState) : io (kvmap * option (Reader * ArchiveMd)) :=
  match host_rapido_conf_open host RAPIDO_CONF_PATH with
  | Err e => if bool_decide (kind e = NotFound) then Ok (conf_defaults, None) else Err e
  | Panic => Panic
  | Ok (f, p) =>
      let? cf_md := host_metadata host p in
      let? cf_amd := archive_md_from st cf_md in
      match kv_conf_process_append f conf_defaults with
      | (Err e, _) => Err e
      | (Panic, _) => Panic
      | (Ok _, c) => Ok (c, Some (f, cf_amd))
      end
  end.

(** archive rapido.conf, or an empty one *)
Definition cut_archive_conf (cf : option (Reader * ArchiveMd)) : Cut W unit :=
  match cf with
  | Some (cf_rd, cf_amd) => cpio (archive_file (B "/rapido.conf") cf_amd cf_rd)
  | None => cpio (archive_path (B "/rapido.conf") CPIO_AMD_DEFAULT)
  end.

(** the entries of the archive, in the order of [main] *)
Definition cut_entries (conf : kvmap) (cf : option (Reader * ArchiveMd)) (manifests : list Reader) :
    Cut W unit :=
  do* cut_archive_conf cf ;;
  do* manifest_parse host elf_open conf fuel lines manifests ;;
  let* (f, f_md) := open_with_metadata host RAPIDO_BASH_RC_PATH in
  let* f_amd := amd_from f_md in
  do* cpio (archive_file (B "/rapido.rc") f_amd f) ;;
  do* gather_archive_elfs host elf_open fuel (reverse core_elfs) ;;
  do* gather_archive_kmods host conf (conf_kmod_deps conf) false ;;
  populate_default_symlinks.

(** ... the trailer, and what is still buffered *)
Definition cut_main (conf : kvmap) (cf : option (Reader * ArchiveMd)) (manifests : list Reader) :
    Cut W Z :=
  do* cut_entries conf cf manifests ;;
  let* len := cpio archive_trailer in
  do* cpio flush_writer ;; sret len.
End Main.
