(* ===== verification/CutSpec.v ===== *)
(** * rapido-cut: what gathering puts into the archive

    A successful computation of the tool is described by the requests it makes
    of the cpio crate: they are the difference of the archive, none of them is
    for a path seen before, every parent directory comes before its children,
    and the paths seen grow by exactly the paths archived. The description
    composes, so it holds for whole trees and for runs of manifest lines. *)

From S2P Require Import Prelude RustStr RustWords RustPath RustIo KvConf Cpio CpioArchive Host Kmod.
From S2P Require Import RapidoLib Cut CutKmods CutManifest.

#[local] Set Warnings "-clear-no-such-hyp".

(** ** Traces *)

Lemma elem_of_insert (k x : list Component) (S : gset (list Component)) :
  k ∈ {[x]} ∪ S <-> k = x \/ k ∈ S.
Proof. set_solver. Qed.

Definition req_key (q : request) : list Component := path_key (req_path q).
Definition keys (qs : list request) : gset (list Component) := list_to_set (req_key <$> qs).

(** The parent directory of [p] is the root or one of [S]. Paths that still have
    ".." components, which [absolute] leaves in place, are not covered. *)
Definition parent_in (S : gset (list Component)) (p : path) : Prop :=
  ParentDir ∉ components p -> forall d, parent p = Some d ->
  path_key d = [RootDir] \/ path_key d ∈ S.

(** Each request finds its parent among [S] and the requests before it. *)
Fixpoint ordered (S : gset (list Component)) (qs : list request) : Prop :=
  match qs with
  | [] => True
  | q :: qs => parent_in S (req_path q) /\ ordered ({[req_key q]} ∪ S) qs
  end.

Lemma parent_in_mono S S' p : S ⊆ S' -> parent_in S p -> parent_in S' p.
Proof. intros HS Hp Hn d Hd. destruct (Hp Hn d Hd); [by left|right; set_solver]. Qed.

Lemma ordered_mono S S' qs : S ⊆ S' -> ordered S qs -> ordered S' qs.
Proof.
  revert S S'. induction qs as [|q qs IH]; intros S S' HS; [done|]. simpl. intros [Hp Ho].
  split; [by eapply parent_in_mono|]. eapply IH; [|exact Ho]. set_solver.
Qed.

Lemma ordered_app S qs1 qs2 : ordered S (qs1 ++ qs2) <-> ordered S qs1 /\ ordered (keys qs1 ∪ S) qs2.
Proof.
  revert S. induction qs1 as [|q qs1 IH]; intros S.
  - unfold keys. simpl. rewrite (left_id_L ∅ (∪)). tauto.
  - simpl. rewrite IH. unfold keys. rewrite fmap_cons. cbn [list_to_set].
    replace (list_to_set (req_key <$> qs1) ∪ ({[req_key q]} ∪ S))
      with ({[req_key q]} ∪ list_to_set (req_key <$> qs1) ∪ S) by set_solver. tauto.
Qed.

Section Trace.
Context {W : Type} `{Write W}.
Implicit Types s : CutState W.

(** What belongs to the manifests and the modules rather than to the archive. *)
Definition book s : list Reader * Z * option GatherKmods := (fests s, autorun_idx s, cut_gk s).

(** The requests [qs] lead from [s] to [s']. *)
Record traced s (qs : list request) s' : Prop := {
  tr_run : run_requests qs (arch s) = (Ok tt, arch s');
  tr_seen : paths_seen s' = keys qs ∪ paths_seen s;
  tr_fresh : Forall (fun q => req_key q ∉ paths_seen s) qs;
  tr_nodup : NoDup (req_key <$> qs);
  tr_order : ordered (paths_seen s) qs;
  tr_book : book s' = book s;
}.

Definition emits {A} (c : Cut W A) : Prop := forall s a s',
  c s = (Ok a, s') -> exists qs, traced s qs s'.

Lemma traced_refl s s' : arch s' = arch s -> paths_seen s' = paths_seen s -> book s' = book s ->
  traced s [] s'.
Proof.
  intros Ha Hp Hb.
  split; [by rewrite Ha|unfold keys; simpl; set_solver|constructor|constructor|done|done].
Qed.

Lemma run_requests_app qs1 qs2 (a : ArchiveState * W) :
  run_requests (qs1 ++ qs2) a = sbind (run_requests qs1) (fun _ => run_requests qs2) a.
Proof.
  revert a. induction qs1 as [|q qs1 IH]; intros a; [done|]. simpl. rewrite sbind_assoc.
  destruct (run_request q a) as [[[]|e|] a'] eqn:Hq; unfold sbind at 1 2; rewrite Hq; [apply IH|done..].
Qed.

Lemma elem_of_keys k qs : k ∈ keys qs <-> k ∈ req_key <$> qs.
Proof. unfold keys. by rewrite elem_of_list_to_set. Qed.

Lemma keys_app qs1 qs2 : keys (qs1 ++ qs2) = keys qs1 ∪ keys qs2.
Proof. unfold keys. by rewrite fmap_app, list_to_set_app_L. Qed.

Lemma traced_trans s1 s2 s3 qs1 qs2 :
  traced s1 qs1 s2 -> traced s2 qs2 s3 -> traced s1 (qs1 ++ qs2) s3.
Proof.
  intros [Hr1 Hs1 Hf1 Hn1 Ho1 Hb1] [Hr2 Hs2 Hf2 Hn2 Ho2 Hb2]. split.
  - rewrite run_requests_app. by rewrite (sbind_ok _ _ _ _ _ Hr1).
  - rewrite Hs2, Hs1, keys_app. set_solver.
  - apply Forall_app_2; [done|]. eapply Forall_impl; [exact Hf2|]. intros q Hq. rewrite Hs1 in Hq.
    set_solver.
  - rewrite fmap_app. apply NoDup_app. split_and!; [done| |done]. intros k Hk1 Hk2.
    apply list_elem_of_fmap_1 in Hk2 as (q & -> & Hq).
    rewrite Forall_forall in Hf2. apply (Hf2 q Hq). rewrite Hs1.
    apply elem_of_union_l, elem_of_keys, Hk1.
  - apply ordered_app. split; [done|]. by rewrite <-Hs1.
  - by rewrite Hb2.
Qed.

Lemma traced_props s qs s' : traced s qs s' -> props (cpio_state s') = props (cpio_state s).
Proof.
  intros [Hr _ _ _ _ _]. pose proof (run_requests_props qs (arch s)) as Hp. by rewrite Hr in Hp.
Qed.

Lemma emits_bind {A C} (c : Cut W A) (f : A -> Cut W C) :
  emits c -> (forall a, emits (f a)) -> emits (sbind c f).
Proof.
  intros Hc Hf s b s' (a & s1 & H1 & H2)%sbind_inv_ok.
  apply Hc in H1 as [qs1 Ht1]. apply Hf in H2 as [qs2 Ht2].
  exists (qs1 ++ qs2). by eapply traced_trans.
Qed.

(** Steps that leave the archive and the paths alone. *)
Definition quiet {A} (c : Cut W A) : Prop := forall s a s',
  c s = (Ok a, s') -> arch s' = arch s /\ paths_seen s' = paths_seen s /\ book s' = book s.

Lemma quiet_emits {A} (c : Cut W A) : quiet c -> emits c.
Proof. intros Hc s a s' Hs. apply Hc in Hs as (Ha & Hp & Hb). exists []. by apply traced_refl. Qed.

Lemma quiet_sret {A} (a : A) : quiet (sret a).
Proof. intros s b s' [= _ <-]. done. Qed.
Lemma quiet_cfail {A} e : quiet (cfail e : Cut W A).
Proof. by intros s b s' Hs. Qed.
Lemma quiet_sfail {A} e : quiet (sfail e : Cut W A).
Proof. by intros s b s' Hs. Qed.
Lemma quiet_clift {A} (r : io A) : quiet (clift r).
Proof. intros s b s' Hs. unfold clift, slift in Hs. by simplify_eq. Qed.
Lemma quiet_sget : quiet sget.
Proof. intros s b s' [= _ <-]. done. Qed.
Lemma quiet_spanic {A} : quiet (spanic : Cut W A).
Proof. by intros s b s' Hs. Qed.
Lemma quiet_sassert b : quiet (sassert b).
Proof. destruct b; [apply quiet_sret|apply quiet_spanic]. Qed.
Lemma quiet_contains p : quiet (paths_contains p).
Proof. intros s b s' [= _ <-]. done. Qed.
Lemma amd_from_ok md s amd s' : amd_from md s = (Ok amd, s') ->
  s' = s /\ archive_md_from (cpio_state s) md = Ok amd.
Proof.
  unfold amd_from, sbind, sget, clift, slift. by destruct (archive_md_from _ _); intros [= -> <-].
Qed.
Lemma quiet_amd md : quiet (amd_from md).
Proof. by intros s b s' [-> _]%amd_from_ok. Qed.
Lemma quiet_bind {A C} (c : Cut W A) (f : A -> Cut W C) :
  quiet c -> (forall a, quiet (f a)) -> quiet (sbind c f).
Proof.
  intros Hc Hf s b s' (a & s1 & H1 & H2)%sbind_inv_ok.
  apply Hc in H1 as (<- & <- & <-). by apply Hf in H2.
Qed.

(** One request of the cpio crate. *)
Lemma cpio_request q s s' :
  cpio (run_request q) s = (Ok tt, s') ->
  run_requests [q] (arch s) = (Ok tt, arch s') /\ paths_seen s' = paths_seen s /\ book s' = book s.
Proof.
  unfold cpio. destruct (run_request q (arch s)) as [[[]|e|] a] eqn:Hq; intros; simplify_eq/=.
  split; [|done]. unfold sbind. rewrite Hq. unfold sret. by destruct a.
Qed.
End Trace.

#[export] Hint Resolve quiet_sret quiet_cfail quiet_sfail quiet_clift quiet_sget quiet_spanic
  quiet_sassert quiet_contains quiet_amd : rapido.

(** ** Parent directories *)

(** The keys of the directories made on the way: names below the root. *)
Definition dir_key (ns : list bytes) : list Component := RootDir :: (Normal <$> ns).

Definition normals (cs : list Component) : nat :=
  length (List.filter (fun c => match c with Normal _ => true | _ => false end) cs).

Lemma dir_key_render ns : Forall plain_name ns -> path_key (render ns) = dir_key ns.
Proof. apply components_render. Qed.

Section Dirs.
Context {W : Type} `{Write W}.
Implicit Types s : CutState W.

Lemma normals_dotdot cs : normals (ParentDir :: cs) = normals cs.
Proof. done. Qed.
Lemma normals_name n cs : normals (Normal n :: cs) = S (normals cs).
Proof. done. Qed.

(** All directories on the way to [ns] are seen. *)
Definition prefixes_in (S : gset (list Component)) (ns : list bytes) : Prop :=
  forall ms, ms <> [] -> ms `prefix_of` ns -> dir_key ms ∈ S.

Lemma dir_key_snoc ns n : dir_key (ns ++ [n]) = dir_key ns ++ [Normal n].
Proof. unfold dir_key. by rewrite fmap_app. Qed.

Lemma prefixes_in_mono S S' ns : S ⊆ S' -> prefixes_in S ns -> prefixes_in S' ns.
Proof. intros HS Hp ms Hne Hm. by apply HS, Hp. Qed.

Lemma prefixes_in_snoc S ns n :
  prefixes_in S ns -> dir_key (ns ++ [n]) ∈ S -> prefixes_in S (ns ++ [n]).
Proof.
  intros Hp Hn ms Hne [l Hl]. destruct l as [|x l _] using rev_ind.
  - rewrite app_nil_r in Hl. by rewrite <-Hl.
  - rewrite app_assoc in Hl. apply app_inj_tail in Hl as [Hl _]. apply Hp; [done|]. by exists l.
Qed.

Lemma prefixes_in_init S ns n : prefixes_in S (ns ++ [n]) -> prefixes_in S ns.
Proof. intros Hp ms Hne Hm. apply Hp; [done|]. by apply prefix_app_r. Qed.

(** One directory made below a seen one. *)
Lemma parent_in_dir S ns n : Forall plain_name (ns ++ [n]) -> (ns <> [] -> dir_key ns ∈ S) ->
  parent_in S (render (ns ++ [n])).
Proof.
  intros Hns HS _ d Hd. rewrite parent_render in Hd by done. injection Hd as <-.
  apply Forall_app in Hns as [Hns _]. rewrite dir_key_render by done.
  destruct ns; [by left|right; by apply HS].
Qed.

Lemma new_dir_traced ns n amd s s1 :
  Forall plain_name (ns ++ [n]) -> prefixes_in (paths_seen s) ns ->
  dir_key (ns ++ [n]) ∉ paths_seen s ->
  cpio (archive_path (render (ns ++ [n])) amd)
    (set_paths ({[dir_key (ns ++ [n])]} ∪ paths_seen s) s) = (Ok tt, s1) ->
  traced s [ReqPath (render (ns ++ [n])) amd] s1.
Proof.
  intros Hns Hp Hnew Hc.
  assert (req_key (ReqPath (render (ns ++ [n])) amd) = dir_key (ns ++ [n])) as Hk
    by by apply dir_key_render.
  apply (cpio_request (ReqPath (render (ns ++ [n])) amd)) in Hc as (Hrun & Hseen & Hb). split.
  - exact Hrun.
  - rewrite Hseen. unfold keys. simpl. rewrite Hk. set_solver.
  - constructor; [by rewrite Hk|constructor].
  - by repeat constructor; apply not_elem_of_nil.
  - split; [|done]. apply parent_in_dir; [done|]. intros Hne. by apply Hp.
  - exact Hb.
Qed.

(** A directory made on the way, at most [n] names deep. *)
Definition dir_made (amd : ArchiveMd) (n : nat) (q : request) : Prop := exists ms,
  q = ReqPath (render ms) amd /\ req_key q = dir_key ms /\ (length ms <= n)%nat.

Lemma dir_made_le amd n m q : (n <= m)%nat -> dir_made amd n q -> dir_made amd m q.
Proof. intros Hle (ms & Hq & Hk & Hl). exists ms. split_and!; [done|done|lia]. Qed.

(** What the loop over [cs] does, from a directory whose ancestors are all seen.
    [T] stands for the paths seen as far as they matter: those not longer than
    what is visited. *)
Definition dirs_spec (cs : list Component) (ns : list bytes) (amd : ArchiveMd) s s'
    (T : gset (list Component)) : Prop := exists qs,
  traced s qs s' /\ ordered T qs /\ Forall (dir_made amd (length ns + normals cs)) qs /\
  ((ParentDir ∉ cs) -> dir_key ns ++ cs = [RootDir] \/ dir_key ns ++ cs ∈ paths_seen s').

Lemma snoc_depth ns n cs : (length (ns ++ [n]) + normals cs = length ns + normals (Normal n :: cs))%nat.
Proof. rewrite length_app, normals_name. simpl length. lia. Qed.

Lemma dir_key_cons ns n cs : dir_key ns ++ Normal n :: cs = dir_key (ns ++ [n]) ++ cs.
Proof. by rewrite dir_key_snoc, <-app_assoc. Qed.

(** a step up, *)
Lemma dirs_spec_up cs ns n amd s s' T :
  dirs_spec cs ns amd s s' T -> dirs_spec (ParentDir :: cs) (ns ++ [n]) amd s s' T.
Proof.
  intros (qs & Ht & Ho & Hk & _). exists qs. split_and!; [done|done| |].
  - eapply Forall_impl; [exact Hk|]. intros q. apply dir_made_le.
    rewrite normals_dotdot, length_app. lia.
  - by intros [? _]%not_elem_of_cons.
Qed.

(** into a directory that is seen, *)
Lemma dirs_spec_seen cs ns n amd s s' T : dir_key (ns ++ [n]) ∈ paths_seen s ->
  dirs_spec cs (ns ++ [n]) amd (set_paths ({[dir_key (ns ++ [n])]} ∪ paths_seen s) s) s' T ->
  dirs_spec (Normal n :: cs) ns amd s s' T.
Proof.
  intros Hin (qs & Ht & Ho & Hk & Hend). rewrite snoc_depth in Hk. exists qs. split_and!; [|done|done|].
  - eapply (traced_trans s _ s' []); [|exact Ht]. apply traced_refl; [done| |done]. simpl. set_solver.
  - intros [_ Hnp]%not_elem_of_cons. rewrite dir_key_cons. by apply Hend.
Qed.

(** or a new one. *)
Lemma dirs_spec_new cs ns n amd s s1 s' T : Forall plain_name (ns ++ [n]) -> (ns <> [] -> dir_key ns ∈ T) ->
  traced s [ReqPath (render (ns ++ [n])) amd] s1 ->
  dirs_spec cs (ns ++ [n]) amd s1 s' ({[dir_key (ns ++ [n])]} ∪ T) ->
  dirs_spec (Normal n :: cs) ns amd s s' T.
Proof.
  intros Hns HT Ht1 (qs & Ht & Ho & Hk & Hend). rewrite snoc_depth in Hk.
  assert (req_key (ReqPath (render (ns ++ [n])) amd) = dir_key (ns ++ [n])) as Hkey by by apply dir_key_render.
  exists (ReqPath (render (ns ++ [n])) amd :: qs). split_and!.
  - by apply (traced_trans _ _ _ [_] _ Ht1 Ht).
  - split; [by apply parent_in_dir|]. by rewrite Hkey.
  - constructor; [|done]. exists (ns ++ [n]). split_and!; [done|done|]. rewrite <-(snoc_depth _ _ cs). lia.
  - intros [_ Hnp]%not_elem_of_cons. rewrite dir_key_cons. by apply Hend.
Qed.

Lemma gather_dirs_loop_traced (cs : list Component) (ns : list bytes) (amd : ArchiveMd) s s'
    (T : gset (list Component)) :
  gather_dirs_loop cs (render ns) amd s = (Ok tt, s') ->
  (RootDir ∉ cs) -> (CurDir ∉ cs) ->
  Forall (fun c => match c with Normal n => plain_name n | _ => True end) cs ->
  Forall plain_name ns -> prefixes_in (paths_seen s) ns ->
  (forall ms, dir_key ms ∈ paths_seen s -> (length ms <= length ns + normals cs)%nat -> dir_key ms ∈ T) ->
  dirs_spec cs ns amd s s' T.
Proof.
  revert ns s T. induction cs as [|c cs IH]; intros ns s T Hrun Hroot Hcur Hplain Hns Hp HT.
  { simpl in Hrun. unfold sret in Hrun. simplify_eq. exists [].
    split_and!; [by apply traced_refl|done|constructor|]. intros _. rewrite app_nil_r.
    destruct ns as [|n ns]; [by left|right]. by apply Hp. }
  apply not_elem_of_cons in Hroot as [Hr Hroot]. apply not_elem_of_cons in Hcur as [Hc Hcur].
  apply Forall_cons in Hplain as [Hn Hplain]. destruct c as [| | |n]; [done|done| |].
  - simpl in Hrun. destruct ns as [|n ns _] using rev_ind; [done|].
    unfold pop in Hrun. rewrite parent_render in Hrun by done. apply dirs_spec_up, IH; try done.
    + by apply Forall_app in Hns as [? _].
    + by eapply prefixes_in_init.
    + intros ms Hms Hlen. apply HT; [done|]. rewrite normals_dotdot, length_app. lia.
  - assert (Forall plain_name (ns ++ [n])) as Hns' by (apply Forall_app_2; [done|by constructor]).
    simpl in Hrun. rewrite push_render in Hrun by done. unfold sbind at 1, paths_insert in Hrun.
    rewrite dir_key_render in Hrun by done. case_bool_decide as Hnew.
    + apply sbind_inv_ok in Hrun as ([] & s1 & Hc1 & Hrun).
      pose proof (new_dir_traced ns n amd s s1 Hns' Hp Hnew Hc1) as Ht1.
      assert (paths_seen s1 = {[dir_key (ns ++ [n])]} ∪ paths_seen s) as Hs1.
      { rewrite (tr_seen _ _ _ Ht1). unfold keys. simpl. unfold req_key. simpl.
        rewrite dir_key_render by done. set_solver. }
      eapply dirs_spec_new; [done| |exact Ht1|apply IH; try done].
      * intros Hne. apply HT; [by apply Hp|lia].
      * apply prefixes_in_snoc; rewrite Hs1; [|set_solver].
        eapply prefixes_in_mono; [|exact Hp]. set_solver.
      * intros ms Hms Hl. rewrite Hs1 in Hms. apply elem_of_insert.
        apply elem_of_insert in Hms as [Hms|Hms]; [by left|right]. apply HT; [done|].
        by rewrite <-snoc_depth.
    + apply dirs_spec_seen; [done|]. apply IH; try done; simpl.
      * apply prefixes_in_snoc; [|set_solver]. eapply prefixes_in_mono; [|exact Hp]. set_solver.
      * intros ms Hms Hl. rewrite snoc_depth in Hl. apply HT; [|done].
        by apply elem_of_insert in Hms as [->|Hms].
Qed.
End Dirs.

Section Gathering.
Context {W : Type} `{Write W}.
Implicit Types s : CutState W.

Lemma ends_longer (cs : list Component) c k : cs ++ [c] = k -> k <> cs.
Proof. intros <- H1. apply (f_equal length) in H1. rewrite length_app in H1. simpl in H1. lia. Qed.

Lemma normals_length cs : (normals cs <= length cs)%nat.
Proof.
  induction cs as [|c cs IH]; [done|]. destruct c; rewrite ?normals_name; simpl length; try lia;
    change (normals (_ :: cs)) with (normals cs); lia.
Qed.

(** Only names and the root are counted. *)
Lemma dir_key_not_longer ms cs c :
  (length ms <= normals cs)%nat -> dir_key ms <> RootDir :: cs ++ [c].
Proof.
  intros Hlen [= Heq]. apply (f_equal length) in Heq. rewrite length_fmap, length_app in Heq.
  simpl in Heq. pose proof (normals_length cs). lia.
Qed.

(** A directory made above [dst]. *)
Definition above (dst : path) (amd : ArchiveMd) (q : request) : Prop :=
  (exists ms, q = ReqPath (render ms) (parent_dirs_amd amd)) /\
  (length (req_key q) < length (path_key dst))%nat.

Lemma above_ne dst amd q : above dst amd q -> req_key q <> path_key dst.
Proof. intros [_ Hl] Heq. rewrite Heq in Hl. lia. Qed.

Lemma dir_made_above dst amd cs c q : path_key dst = RootDir :: cs ++ [c] ->
  dir_made (parent_dirs_amd amd) (normals cs) q -> above dst amd q.
Proof.
  intros Hc (ms & Hq & Hk & Hl). split; [by exists ms|]. rewrite Hk, Hc. unfold dir_key. simpl.
  rewrite length_fmap, length_app. pose proof (normals_length cs). simpl. lia.
Qed.

(** The parent directories of [dst]: whatever is made does not depend on [dst]
    itself being seen already. *)
Lemma gather_archive_dirs_traced dst amd s s' :
  gather_archive_dirs (parent dst) amd s = (Ok tt, s') ->
  exists qs, traced s qs s' /\ ordered (paths_seen s ∖ {[path_key dst]}) qs /\
    Forall (above dst amd) qs /\ parent_in (paths_seen s' ∖ {[path_key dst]}) dst.
Proof.
  unfold gather_archive_dirs. destruct (parent dst) as [d|] eqn:Hd.
  2:{ intros [= <-]. exists []. split_and!; [by apply traced_refl|done|constructor|].
      intros _ d Hd'. by rewrite Hd in Hd'. }
  destruct (is_absolute d) eqn:Habs; [|done]. cbn [negb].
  pose proof (parent_is_absolute dst d Hd Habs) as Habs'.
  pose proof (parent_absolute dst Habs') as Hpar. rewrite Hd in Hpar. destruct Hpar as [_ [c Hc]].
  destruct (components_root d Habs) as (cs & Hcs & Hr & Hcur).
  assert (path_key dst <> path_key d) as Hne by (by eapply ends_longer; symmetry).
  unfold sbind at 1, paths_contains. case_bool_decide as Hseen.
  - intros [= <-]. exists []. split_and!; [by apply traced_refl|done|constructor|].
    intros _ d' Hd'. rewrite Hd in Hd'. injection Hd' as <-. right. set_solver.
  - rewrite Hcs. change (B "/") with (render []). intros Hrun.
    assert (path_key dst = RootDir :: cs ++ [c]) as Hk by (unfold path_key; by rewrite Hc, Hcs).
    pose proof (components_plain d) as Hplain. rewrite Hcs in Hplain.
    apply Forall_cons in Hplain as [_ Hplain]. simpl gather_dirs_loop in Hrun.
    destruct (gather_dirs_loop_traced cs [] (parent_dirs_amd amd) s s'
      (paths_seen s ∖ {[path_key dst]}) Hrun) as (qs & Ht & Ho & Hmade & Hend); try done.
    + intros ms Hne' [l Hl]. by destruct ms.
    + intros ms Hms Hlen. simpl in Hlen. apply elem_of_difference. split; [done|].
      intros Heq%elem_of_singleton. rewrite Hk in Heq. exact (dir_key_not_longer _ _ _ Hlen Heq).
    + exists qs. split_and!; [done|done| |].
      * eapply Forall_impl; [exact Hmade|]. intros q. by apply dir_made_above with c.
      * intros Hnp d' Hd'. rewrite Hd in Hd'. injection Hd' as <-.
        assert (ParentDir ∉ cs) as Hnp'.
        { rewrite Hc, Hcs in Hnp. intros Hin. apply Hnp. apply elem_of_app. left. by right. }
        unfold path_key in Hne |- *. rewrite Hcs in Hne |- *.
        destruct (Hend Hnp') as [He|He]; [by left|right]. apply elem_of_difference.
        split; [done|]. by intros Heq%elem_of_singleton.
Qed.

(** One request, and nothing else; one for the path [dst]. *)
Definition one_req (q : request) s s' : Prop :=
  run_requests [q] (arch s) = (Ok tt, arch s') /\
  paths_seen s' = paths_seen s /\ book s' = book s.
Definition one_at (dst : path) s s' : Prop := exists q, req_path q = dst /\ one_req q s s'.

Lemma one_at_cpio q s s' : cpio (run_request q) s = (Ok tt, s') -> one_at (req_path q) s s'.
Proof. intros Hq. exists q. split; [done|]. by apply cpio_request. Qed.

Lemma one_req_quiet q s0 s1 s2 s3 :
  arch s1 = arch s0 /\ paths_seen s1 = paths_seen s0 /\ book s1 = book s0 ->
  arch s3 = arch s2 /\ paths_seen s3 = paths_seen s2 /\ book s3 = book s2 ->
  one_req q s1 s2 -> one_req q s0 s3.
Proof.
  intros (Ha & Hp & Hb) (Ha' & Hp' & Hb'). unfold one_req. by rewrite Ha', Hp', Hb', <-Ha, <-Hp, <-Hb.
Qed.

Lemma one_at_quiet dst s0 s1 s2 s3 :
  arch s1 = arch s0 /\ paths_seen s1 = paths_seen s0 /\ book s1 = book s0 ->
  arch s3 = arch s2 /\ paths_seen s3 = paths_seen s2 /\ book s3 = book s2 ->
  one_at dst s1 s2 -> one_at dst s0 s3.
Proof. intros H1 H2 (q & Hq & Ho). exists q. split; [done|]. by eapply one_req_quiet. Qed.

Lemma not_in_keys dst amd qs : Forall (above dst amd) qs -> path_key dst ∉ keys qs.
Proof.
  intros Hne Hin. apply elem_of_keys, list_elem_of_fmap_1 in Hin as (q & Heq & Hq).
  rewrite Forall_forall in Hne. by apply (above_ne dst amd q (Hne q Hq)).
Qed.

(** One request at a path whose parent is known, recorded before or after. *)
Lemma single_traced q s s1 s2 s3 :
  arch s1 = arch s -> one_req q s1 s2 -> arch s3 = arch s2 ->
  book s1 = book s -> book s3 = book s2 ->
  paths_seen s3 = {[req_key q]} ∪ paths_seen s -> req_key q ∉ paths_seen s ->
  parent_in (paths_seen s) (req_path q) -> traced s [q] s3.
Proof.
  intros Ha1 (Hrun & _ & Hb) Ha3 Hb1 Hb3 Hs Hnew Hp. split.
  - by rewrite <-Ha1, Ha3.
  - rewrite Hs. unfold keys, req_key. simpl. set_solver.
  - by repeat constructor.
  - apply NoDup_singleton.
  - by split.
  - congruence.
Qed.

(** An entry below its directories: recorded after it is archived, *)
Lemma below_traced dst q amd s s1 s2 s3 : req_path q = dst ->
  gather_archive_dirs (parent dst) amd s = (Ok tt, s1) ->
  path_key dst ∉ paths_seen s -> one_req q s1 s2 ->
  arch s3 = arch s2 -> book s3 = book s2 ->
  paths_seen s3 = {[path_key dst]} ∪ paths_seen s2 ->
  exists qs, Forall (above dst amd) qs /\ traced s (qs ++ [q]) s3.
Proof.
  intros <- Hd Hnew Hone Ha Hb Hs.
  apply gather_archive_dirs_traced in Hd as (qs & Ht & _ & Hne & Hp).
  pose proof (not_in_keys _ _ _ Hne) as Hnk. exists qs. split; [done|]. eapply traced_trans; [exact Ht|].
  eapply single_traced; try done.
  - by destruct Hone as (_ & <- & _).
  - rewrite (tr_seen _ _ _ Ht). by intros [|]%elem_of_union.
  - eapply parent_in_mono; [|exact Hp]. set_solver.
Qed.

(** or before. *)
Lemma below_traced_first dst q amd s s1 s2 : req_path q = dst ->
  gather_archive_dirs (parent dst) amd (set_paths ({[path_key dst]} ∪ paths_seen s) s)
    = (Ok tt, s1) ->
  path_key dst ∉ paths_seen s -> one_req q s1 s2 ->
  exists qs, Forall (above dst amd) qs /\ traced s (qs ++ [q]) s2.
Proof.
  intros Hqd Hd Hnew (Hrun & Hseen & Hbook).
  apply gather_archive_dirs_traced in Hd as (qs & [Hr Hs Hf Hn _ Hb] & Ho & Hne & Hp).
  pose proof (not_in_keys _ _ _ Hne) as Hnk. simpl in Hs, Hf, Ho.
  assert (req_key q = path_key dst) as Hk by (unfold req_key; by rewrite Hqd).
  exists qs. split; [done|]. split.
  - rewrite run_requests_app. erewrite sbind_ok; [exact Hrun|]. exact Hr.
  - rewrite Hseen, Hs, keys_app. unfold keys at 3. simpl. rewrite Hk. set_solver.
  - apply Forall_app_2; [|constructor; [by rewrite Hk|constructor]].
    eapply Forall_impl; [exact Hf|]. set_solver.
  - rewrite fmap_app. apply NoDup_app. split_and!; [done| |apply NoDup_singleton].
    intros k Hk1 Hk2%list_elem_of_singleton. apply Hnk, elem_of_keys. by rewrite <-Hk, <-Hk2.
  - apply ordered_app. split; [eapply ordered_mono; [|exact Ho]; set_solver|].
    split; [|done]. rewrite Hqd. eapply parent_in_mono; [|exact Hp]. rewrite Hs. set_solver.
  - by rewrite Hbook, Hb.
Qed.
End Gathering.

(** ** Executables *)

Section Elfs.
Context {W : Type} `{Write W} (host : Host) (elf_open : bytes -> option Elf).
Implicit Types s : CutState W.

(** A computation whose success means one request for [dst]. *)
Definition asks {A} (dst : path) (c : Cut W A) : Prop := forall s a s',
  c s = (Ok a, s') -> one_at dst s s'.

Lemma asks_request q : asks (req_path q) (cpio (W := W) (run_request q)).
Proof. intros s [] s' Hs. by apply one_at_cpio. Qed.

Lemma asks_bind_l {A C} dst (c : Cut W A) (f : A -> Cut W C) :
  quiet c -> (forall a, asks dst (f a)) -> asks dst (sbind c f).
Proof.
  intros Hc Hf s b s' (a & s1 & H1 & H2)%sbind_inv_ok. apply Hc in H1.
  apply Hf in H2. by eapply one_at_quiet.
Qed.

Lemma quiet_read_dir_sorted src : quiet (read_dir_sorted (W := W) host src).
Proof. unfold read_dir_sorted. apply quiet_bind; auto with rapido. Qed.

(** What is archived for a file at [src] with the metadata [amd]. *)
Definition elf_amd (src dst : path) (amd : ArchiveMd) : option request :=
  if is_type (mode amd) S_IFLNK
  then match host_canonicalize host src with Ok t => Some (ReqSymlink dst amd t) | _ => None end
  else if is_type (mode amd) S_IFREG && (0 <? len amd)
  then match host_open host src with Ok f => Some (ReqFile dst amd f) | _ => None end
  else Some (ReqPath dst amd).

Lemma elf_amd_path src dst amd q : elf_amd src dst amd = Some q -> req_path q = dst.
Proof. unfold elf_amd. repeat case_match; by intros [= <-]. Qed.

(** A request between steps that leave the archive alone. *)
Lemma request_then {A} q (f : unit -> Cut W A) s a s' : (forall x, quiet (f x)) ->
  (do* cpio (run_request q) ;; f tt) s = (Ok a, s') -> one_req q s s'.
Proof.
  intros Hf ([] & s1 & H1 & H2)%sbind_inv_ok. apply Hf in H2. apply cpio_request in H1.
  by eapply one_req_quiet; [|exact H2|exact H1].
Qed.

(** What gathering an executable does to the archive: nothing for a link that
    leads nowhere, else one request. *)
Lemma gather_elf_one_spec ent src dst amd s r s' :
  gather_elf_one host elf_open ent src dst amd s = (Ok r, s') ->
  match r with
  | None => s' = s /\ is_type (mode amd) S_IFLNK = true /\ is_ok (host_canonicalize host src) = false
  | Some _ => exists q, elf_amd src dst amd = Some q /\ one_req q s s'
  end.
Proof.
  unfold gather_elf_one, elf_amd. destruct (is_type (mode amd) S_IFLNK).
  { destruct (host_canonicalize host src) as [t|e|]; [|by destruct ent; intros [= <- <-]..].
    intros Hr. assert ((do* cpio (run_request (ReqSymlink dst amd t)) ;;
      match from_utf8 t with Some t => sret (Some [if is_lib_ent ent then Lib t else Name t])
      | None => cfail (err_from InvalidInput) end : Cut W _) s = (Ok r, s')) as Hr' by (destruct ent; done).
    clear Hr. assert (exists l, r = Some l) as [l ->].
    { apply sbind_inv_ok in Hr' as ([] & s3 & _ & Hr). destruct (from_utf8 t); [|done].
      unfold sret in Hr. simplify_eq. eauto. }
    apply (request_then _ (fun _ => match from_utf8 t with Some t => _ | None => _ end)) in Hr'; [by eexists|].
    intros _. destruct (from_utf8 t); auto with rapido. }
  destruct (is_type (mode amd) S_IFREG && (0 <? len amd)).
  { intros (f & s1 & Hf & Hr)%sbind_inv_ok. unfold clift, slift in Hf.
    destruct (host_open host src) as [f0|e|]; cbn [map_err] in Hf; [|done..]. injection Hf as -> <-.
    apply sbind_inv_ok in Hr as (d & s2 & Hd & Hr).
    assert (arch s2 = arch s /\ paths_seen s2 = paths_seen s /\ book s2 = book s) as Hq.
    { revert Hd. destruct (_ || _); [|by intros [= _ <-]]. unfold sbind, sget, sput.
      destruct (elf_deps _ _) as [r1 libs]. by intros [= _ <-]. }
    assert (r = Some d) as -> by (apply sbind_inv_ok in Hr as ([] & s3 & _ & Hr); by injection Hr).
    apply (request_then (ReqFile dst amd f) (fun _ => sret (Some d))) in Hr; [|auto with rapido].
    exists (ReqFile dst amd f). split; [done|]. by eapply one_req_quiet; [exact Hq| |exact Hr]. }
  assert (forall (c : Cut W _), quiet c -> (do* cpio (run_request (ReqPath dst amd)) ;; c) s = (Ok r, s') ->
    (exists l, r = Some l) -> match r with
      | None => s' = s /\ false = true /\ is_ok (host_canonicalize host src) = false
      | Some _ => exists q, Some (ReqPath dst amd) = Some q /\ one_req q s s' end) as Hpath.
  { intros c Hc Hr [l ->]. apply (request_then _ (fun _ => c)) in Hr; [by eexists|done]. }
  destruct (is_type (mode amd) S_IFDIR); intros Hr; eapply Hpath; try exact Hr; auto with rapido.
  - apply quiet_bind; [apply quiet_read_dir_sorted|auto with rapido].
  - apply sbind_inv_ok in Hr as (x & s1 & _ & Hr). apply sbind_inv_ok in Hr as (d & s2 & _ & Hr).
    unfold sret in Hr. simplify_eq. eauto.
  - apply sbind_inv_ok in Hr as (x & s1 & _ & Hr). unfold sret in Hr. simplify_eq. eauto.
Qed.

(** where the entry goes *)
Definition ent_dst (ent : GatherEnt) (got : Fsent) : path :=
  match ent with NameDst _ d => d | _ => fs_path got end.

(** The parts of one round: the directories, the entry, its record. *)
Lemma gather_elf_ent_inv ent s pushed s' :
  gather_elf_ent host elf_open ent s = (Ok pushed, s') ->
  match path_stat host ent with
  | Ok got =>
      if decide (path_key (ent_dst ent got) ∈ paths_seen s) then pushed = [] /\ s' = s
      else exists amd s1 r s2, archive_md_from (cpio_state s) (fs_md got) = Ok amd /\
        gather_archive_dirs (parent (ent_dst ent got)) amd s = (Ok tt, s1) /\
        gather_elf_one host elf_open ent (fs_path got) (ent_dst ent got) amd s1 = (Ok r, s2) /\
        pushed = default [] r /\
        s' = match r with
             | Some _ => set_paths ({[path_key (ent_dst ent got)]} ∪ paths_seen s2) s2
             | None => s2
             end
  | Err _ => (exists n, ent = NameTry n) /\ pushed = [] /\ s' = s
  | Panic => False
  end.
Proof.
  unfold gather_elf_ent. destruct (path_stat host ent) as [got|e|]; [| |done].
  2: { destruct ent; try done. intros [= <- <-]. eauto. }
  change (match ent with NameDst _ d => d | _ => fs_path got end) with (ent_dst ent got).
  intros ([] & s0 & Has & Hr)%sbind_inv_ok.
  assert (s0 = s) as -> by (by destruct (match ent with NameDst _ d => is_absolute d | _ => true end); [injection Has|]).
  apply sbind_inv_ok in Hr as (seen & s0 & [= <- <-] & Hr).
  destruct (decide _) as [Hin|Hnew]; [rewrite bool_decide_eq_true_2 in Hr by done; by injection Hr as <- <-|].
  rewrite bool_decide_eq_false_2 in Hr by done.
  apply sbind_inv_ok in Hr as (amd & s1 & [-> Hamd]%amd_from_ok & Hr).
  apply sbind_inv_ok in Hr as ([] & s1 & Hd & Hr). apply sbind_inv_ok in Hr as (r & s2 & Hone & Hr).
  exists amd, s1, r, s2. split_and!; try done; destruct r; by injection Hr as <- <-.
Qed.

(** What a round archives: directories above the entry, and the entry, unless it
    is a link that leads nowhere. *)
Lemma elf_round_traced ent got amd s s1 r s2 : path_key (ent_dst ent got) ∉ paths_seen s ->
  gather_archive_dirs (parent (ent_dst ent got)) amd s = (Ok tt, s1) ->
  gather_elf_one host elf_open ent (fs_path got) (ent_dst ent got) amd s1 = (Ok r, s2) ->
  exists pre, Forall (above (ent_dst ent got) amd) pre /\
    match r with
    | Some _ => exists q, elf_amd (fs_path got) (ent_dst ent got) amd = Some q /\
        traced s (pre ++ [q]) (set_paths ({[path_key (ent_dst ent got)]} ∪ paths_seen s2) s2)
    | None => traced s pre s2 /\ is_type (mode amd) S_IFLNK = true /\
        is_ok (host_canonicalize host (fs_path got)) = false
    end.
Proof.
  intros Hnew Hd Hone%gather_elf_one_spec. destruct r as [ents|].
  - destruct Hone as (q & Hq & Hone). pose proof (elf_amd_path _ _ _ _ Hq) as Hp.
    destruct (below_traced _ q amd s s1 s2 (set_paths ({[path_key (ent_dst ent got)]} ∪ paths_seen s2) s2)
      Hp Hd Hnew Hone) as (pre & Hpre & Ht); [done..|].
    exists pre. split; [done|]. by exists q.
  - destruct Hone as (-> & Hl & Hc). apply gather_archive_dirs_traced in Hd as (pre & Ht & _ & Hpre & _). by exists pre.
Qed.

Lemma emits_elf_ent ent : emits (gather_elf_ent (W := W) host elf_open ent).
Proof.
  intros s pushed s' Hr%gather_elf_ent_inv. destruct (path_stat host ent) as [got|e|]; [| |done].
  2: { destruct Hr as (_ & _ & ->). exists []. by apply traced_refl. }
  destruct (decide _) as [Hin|Hnew]; [destruct Hr as [_ ->]; exists []; by apply traced_refl|].
  destruct Hr as (amd & s1 & r & s2 & _ & Hd & Hone & _ & ->).
  destruct (elf_round_traced _ _ _ _ _ _ _ Hnew Hd Hone) as (pre & _ & Ht).
  destruct r as [ents|]; [destruct Ht as (q & _ & Ht)|destruct Ht as [Ht _]]; by eexists.
Qed.

Lemma emits_archive_elfs fuel elfs : emits (gather_archive_elfs (W := W) host elf_open fuel elfs).
Proof.
  revert elfs. induction fuel as [|fuel IH]; intros [|ent elfs]; simpl;
    [apply quiet_emits; auto with rapido..|].
  apply emits_bind; [apply emits_elf_ent|]. intros pushed. apply IH.
Qed.
End Elfs.

(** ** Data trees *)

Section Data.
Context {W : Type} `{Write W} (host : Host).
Implicit Types s : CutState W.

(** What [fs::read_dir] promises: single names. *)
Context (Hdir : forall p names, host_read_dir host p = Ok names -> Forall plain_name names).

(** An item of the stack: its destination is absolute, and seen to have a parent
    when the item says so. *)
Definition item_ok (S : gset (list Component)) (i : GatherItem) : Prop :=
  is_absolute (gi_dst i) = true /\
  (Z.land (gi_flags i) GATHER_ITEM_IGNORE_PARENT <> 0 -> parent_in S (gi_dst i)).

Lemma item_ok_mono S S' i : S ⊆ S' -> item_ok S i -> item_ok S' i.
Proof. intros HS [Ha Hp]. split; [done|]. intros Hf. eapply parent_in_mono; eauto. Qed.

Lemma insert_by_perm {A} leb (x : A) l : insert_by leb x l ≡ₚ x :: l.
Proof.
  induction l as [|y l IH]; simpl; [done|]. destruct (leb x y); [done|]. rewrite IH. by constructor.
Qed.

Lemma sort_by_perm {A} leb (l : list A) : sort_by leb l ≡ₚ l.
Proof. induction l as [|x l IH]; [done|]. simpl. by rewrite insert_by_perm, IH. Qed.

Lemma sort_by_length {A} leb (l : list A) : length (sort_by leb l) = length l.
Proof. by rewrite sort_by_perm. Qed.

Lemma sort_by_Forall {A} leb (P : A -> Prop) l : Forall P l -> Forall P (sort_by leb l).
Proof. by rewrite sort_by_perm. Qed.

(** An entry of a directory that is seen. *)
Lemma child_item_ok S src dst n : is_absolute dst = true -> plain_name n -> path_key dst ∈ S ->
  item_ok S (MkItem (join src n) (join dst n) GATHER_ITEM_IGNORE_PARENT).
Proof.
  intros Ha Hn HS. assert (is_absolute (join dst n) = true) as Hj.
  { destruct (is_absolute_cons dst Ha) as [r ->]. unfold push.
    rewrite (plain_name_relative n) by done. destruct (last (SEP :: r)) as [c|] eqn:Hl.
    - by destruct (is_sep c).
    - by apply last_None in Hl. }
  split; [exact Hj|]. simpl. intros _ _ d Hd. right.
  pose proof (parent_absolute _ Hj) as Hp. rewrite Hd in Hp. destruct Hp as [_ [c Hc]].
  rewrite components_push in Hc by done. apply app_inj_tail in Hc as [Hc _].
  unfold path_key. by rewrite <-Hc.
Qed.

(** What is archived for an item with the metadata [amd], and the entries of the
    directory it is. *)
Definition mirror_amd (src dst : path) (amd : ArchiveMd) : option request :=
  if is_type (mode amd) S_IFDIR then Some (ReqPath dst amd)
  else if is_type (mode amd) S_IFREG && (0 <? len amd)
  then match host_open host src with Ok f => Some (ReqFile dst amd f) | _ => None end
  else if is_type (mode amd) S_IFLNK
  then match host_read_link host src with Ok t => Some (ReqSymlink dst amd t) | _ => None end
  else Some (ReqPath dst amd).

Definition child_names (src : path) (m : Z) : list bytes :=
  if is_type m S_IFDIR then match host_read_dir host src with Ok names => names | _ => [] end else [].

Definition child_items (src dst : path) (m : Z) : list GatherItem :=
  (fun n => MkItem (join src n) (join dst n) GATHER_ITEM_IGNORE_PARENT) <$> sort_by bytes_leb (child_names src m).

Lemma mirror_amd_path src dst amd q : mirror_amd src dst amd = Some q -> req_path q = dst.
Proof.
  unfold mirror_amd. repeat case_match; by intros [= <-].
Qed.

Lemma child_items_ok src dst m S : is_absolute dst = true -> path_key dst ∈ S ->
  Forall (item_ok S) (child_items src dst m).
Proof using Hdir.
  intros Ha HS. unfold child_items, child_names. destruct (is_type m S_IFDIR); [|constructor].
  destruct (host_read_dir host src) as [names|e|] eqn:E; [|constructor..].
  apply Hdir, (sort_by_Forall bytes_leb) in E. apply Forall_fmap.
  eapply Forall_impl; [exact E|]. intros n Hn. by apply child_item_ok.
Qed.

(** A request whose source is looked up first. *)
Lemma lifted_request {A} (r : io A) (q : A -> request) s (l l0 : list GatherItem) s' :
  (let* x := clift r in do* cpio (run_request (q x)) ;; sret l0) s = (Ok l, s') ->
  l = l0 /\ exists x, r = Ok x /\ one_req (q x) s s'.
Proof.
  intros (x & s1 & Hx & Hr)%sbind_inv_ok. apply sbind_inv_ok in Hr as ([] & s2 & Hq & Hr).
  unfold clift, slift in Hx. destruct r as [y|e|]; simplify_eq/=. unfold sret in Hr. simplify_eq.
  split; [done|]. exists x. split; [done|]. by apply cpio_request.
Qed.

Lemma gather_item_one_spec item amd s l s' :
  gather_item_one host item amd s = (Ok l, s') ->
  l = child_items (gi_src item) (gi_dst item) (mode amd) /\
  exists q, mirror_amd (gi_src item) (gi_dst item) amd = Some q /\ one_req q s s'.
Proof.
  unfold gather_item_one, mirror_amd, child_items, child_names. destruct (is_type (mode amd) S_IFDIR).
  { intros ([] & s1 & Hq & Hr)%sbind_inv_ok. apply sbind_inv_ok in Hr as (names & s2 & Hn & Hr).
    apply (cpio_request (ReqPath _ _)) in Hq. unfold clift, slift in Hn. unfold sret in Hr.
    destruct (host_read_dir host (gi_src item)); simplify_eq/=. split; [done|]. by eexists. }
  destruct (is_type (mode amd) S_IFREG && (0 <? len amd)).
  { intros (-> & f & -> & Hf)%(lifted_request _ (ReqFile (gi_dst item) amd)). split; [done|]. by eexists. }
  destruct (is_type (mode amd) S_IFLNK).
  - intros (-> & t & -> & Hf)%(lifted_request _ (ReqSymlink (gi_dst item) amd)). split; [done|]. by eexists.
  - intros ([] & s1 & Hq & Hr)%sbind_inv_ok. unfold sret in Hr. simplify_eq.
    apply (cpio_request (ReqPath _ _)) in Hq. split; [done|]. by eexists.
Qed.

(** What is archived for [src] as [dst]. *)
Definition mirror_request (st : ArchiveState) (src dst : path) : option request :=
  match host_symlink_metadata host src with
  | Ok md => match archive_md_from st md with Ok amd => mirror_amd src dst amd | _ => None end
  | _ => None
  end.

(** One round: nothing for a path that is seen; else its directories, unless the
    item says they are there, and the entry itself. *)
Lemma gather_item_spec item s l s' :
  gather_item host item s = (Ok l, s') -> item_ok (paths_seen s) item ->
  if decide (path_key (gi_dst item) ∈ paths_seen s) then traced s [] s' /\ l = []
  else exists md amd pre q, host_symlink_metadata host (gi_src item) = Ok md /\
    mirror_request (cpio_state s) (gi_src item) (gi_dst item) = Some q /\ traced s (pre ++ [q]) s' /\
    Forall (above (gi_dst item) amd) pre /\
    (Z.land (gi_flags item) GATHER_ITEM_IGNORE_PARENT <> 0 -> pre = []) /\
    l = child_items (gi_src item) (gi_dst item) (st_mode md).
Proof using Hdir.
  unfold gather_item, mirror_request. intros Hr [Habs Hpar].
  destruct (host_symlink_metadata host (gi_src item)) as [md|e|]; [|by case_bool_decide|done].
  apply sbind_inv_ok in Hr as (amd & s1 & Hamd & Hr). apply amd_from_ok in Hamd as [-> Hmd].
  unfold sbind at 1, paths_insert in Hr.
  destruct (decide _) as [Hin|Hnew]; [rewrite bool_decide_eq_false_2 in Hr by tauto
                                     |rewrite bool_decide_eq_true_2 in Hr by done].
  { unfold sret in Hr. cbn [negb] in Hr. injection Hr as <- <-. split; [|done].
    apply traced_refl; [done| |done]. simpl. set_solver. }
  cbn [negb] in Hr. apply sbind_inv_ok in Hr as ([] & s2 & Hd & Hr).
  apply gather_item_one_spec in Hr as (-> & q & Hq & Hone). rewrite Hmd, Hq.
  pose proof (mirror_amd_path _ _ _ _ Hq) as Hpath. destruct (archive_md_from_fields _ _ _ Hmd) as [-> _].
  destruct (Z.eqb_spec (Z.land (gi_flags item) GATHER_ITEM_IGNORE_PARENT) 0) as [Hz|Hz].
  - edestruct below_traced_first as (pre & Hpre & Ht); [exact Hpath|exact Hd|done|exact Hone|].
    by exists md, amd, pre, q.
  - unfold sret in Hd. injection Hd as <-. exists md, amd, [], q. split_and!; try done.
    unfold req_key in *. eapply single_traced; [|exact Hone|..]; try done; unfold req_key; rewrite Hpath; try done.
    + by destruct Hone as (_ & -> & _).
    + by apply Hpar.
Qed.

(** The items pushed are fit for the next rounds. *)
Lemma gather_item_ok item s l s' :
  gather_item host item s = (Ok l, s') -> item_ok (paths_seen s) item ->
  exists qs, traced s qs s' /\ Forall (item_ok (paths_seen s')) l.
Proof using Hdir.
  intros Hr Hi. pose proof (gather_item_spec _ _ _ _ Hr Hi) as Hs. destruct Hi as [Habs _]. destruct (decide _).
  - destruct Hs as [Ht ->]. by exists [].
  - destruct Hs as (md & amd & pre & q & _ & Hq & Ht & _ & _ & ->). exists (pre ++ [q]). split; [done|].
    apply child_items_ok; [done|]. rewrite (tr_seen _ _ _ Ht), keys_app. unfold keys at 2, req_key.
    unfold mirror_request in Hq. repeat case_match; simplify_eq.
    rewrite fmap_cons, (mirror_amd_path _ _ _ _ Hq). set_solver.
Qed.

Lemma traced_sub s qs s' : traced s qs s' -> paths_seen s ⊆ paths_seen s'.
Proof. intros [_ -> _ _ _ _]. set_solver. Qed.

Lemma gather_archive_data_traced fuel items s s' :
  gather_archive_data host fuel items s = (Ok tt, s') -> Forall (item_ok (paths_seen s)) items ->
  exists qs, traced s qs s'.
Proof.
  revert items s. induction fuel as [|fuel IH]; intros [|item items] s Hr Hok; simpl in Hr;
    [unfold sret in Hr; simplify_eq; exists []; by apply traced_refl|done
    |unfold sret in Hr; simplify_eq; exists []; by apply traced_refl|].
  apply Forall_cons in Hok as [Hi Hok].
  apply sbind_inv_ok in Hr as (pushed & s1 & H1 & Hr).
  apply gather_item_ok in H1 as (qs1 & Ht1 & Hp); [|done].
  apply IH in Hr as [qs2 Ht2].
  - exists (qs1 ++ qs2). by eapply traced_trans.
  - unfold push_all. apply Forall_app_2; [by apply Forall_reverse|].
    eapply Forall_impl; [exact Hok|]. intros i. apply item_ok_mono. by eapply traced_sub.
Qed.
End Data.

(** ** Manifest lines *)

Section Manifests.
Context {W : Type} `{Write W} (host : Host) (elf_open : bytes -> option Elf) (conf : kvmap).
Context (fuel : nat).
Context (Hdir : forall p names, host_read_dir host p = Ok names -> Forall plain_name names).
Implicit Types s : CutState W.

(** [c] asks for one request for [p]; then [p] is recorded. *)
Lemma entry_traced p amd (c : Cut W unit) s s' :
  asks p c -> path_key p ∉ paths_seen s ->
  (do* gather_archive_dirs (parent p) amd ;; do* c ;; do* paths_insert p ;; sret tt) s = (Ok tt, s') ->
  exists qs, traced s qs s'.
Proof.
  intros Hc Hnew Hr. apply sbind_inv_ok in Hr as ([] & s1 & Hd & Hr).
  apply sbind_inv_ok in Hr as ([] & s2 & Hone & Hr). apply Hc in Hone as (q & Hq & Hone).
  unfold sbind, paths_insert, sret in Hr. injection Hr as <-.
  destruct (below_traced p q amd s s1 s2 (set_paths ({[path_key p]} ∪ paths_seen s2) s2) Hq Hd Hnew Hone)
    as (qs & _ & Ht); [done..|by eexists].
Qed.

(** The test for a seen path that the entry kinds begin with. *)
Lemma emits_unless_seen p (c : Cut W unit) :
  (forall s s', path_key p ∉ paths_seen s -> c s = (Ok tt, s') -> exists qs, traced s qs s') ->
  emits (let* seen := paths_contains p in if seen : bool then sret tt else c).
Proof.
  intros Hc s [] s' Hr. unfold sbind, paths_contains in Hr. case_bool_decide as Hs.
  - unfold sret in Hr. simplify_eq. exists []. by apply traced_refl.
  - by apply Hc.
Qed.

Lemma quiet_abs name : quiet (W := W) (clift (manifest_name_sub_abs_path host conf name)).
Proof. auto with rapido. Qed.

Lemma emits_manifest_dir name : emits (W := W) (manifest_dir host conf name).
Proof.
  apply emits_bind; [apply quiet_emits, quiet_abs|]. intros p. apply emits_unless_seen.
  intros s s' Hs Hr. eapply entry_traced; [|exact Hs|exact Hr].
  apply (asks_request (ReqPath p _)).
Qed.

Lemma emits_manifest_slink name tgt : emits (W := W) (manifest_slink host conf name tgt).
Proof.
  apply emits_bind; [apply quiet_emits, quiet_abs|]. intros p. apply emits_unless_seen.
  intros s s' Hs Hr. apply sbind_inv_ok in Hr as (t & s1 & Ht & Hr).
  apply quiet_clift in Ht as (Ha & Hs1 & Hb1).
  eapply entry_traced in Hr as [qs Hq]; [|apply (asks_request (ReqSymlink p _ t))|by rewrite Hs1].
  exists ([] ++ qs). eapply traced_trans; [by apply traced_refl|exact Hq].
Qed.

Lemma quiet_open src : quiet (W := W) (open_with_metadata host src).
Proof.
  unfold open_with_metadata. apply quiet_bind; [auto with rapido|]. intros f.
  apply quiet_bind; auto with rapido.
Qed.

Lemma emits_manifest_file name src : emits (W := W) (manifest_file host conf name src).
Proof.
  apply emits_bind; [apply quiet_emits, quiet_abs|]. intros p. apply emits_unless_seen.
  intros s s' Hs Hr. destruct src as [src|].
  - rewrite sbind_assoc in Hr. apply sbind_inv_ok in Hr as (t & s1 & Ht & Hr).
    apply quiet_clift in Ht as (Ha1 & Hs1 & Hb1). rewrite sbind_assoc in Hr.
    apply sbind_inv_ok in Hr as ([f md] & s2 & Ho & Hr). apply quiet_open in Ho as (Ha2 & Hs2 & Hb2).
    rewrite sbind_assoc in Hr. apply sbind_inv_ok in Hr as (amd & s3 & Hm & Hr).
    apply quiet_amd in Hm as (Ha3 & Hs3 & Hb3). rewrite sbind_assoc in Hr.
    eapply entry_traced in Hr as [qs Hq];
      [|apply (asks_request (ReqFile p amd f))|by rewrite Hs3, Hs2, Hs1].
    exists ([] ++ qs). eapply traced_trans; [|exact Hq]. apply traced_refl; congruence.
  - rewrite sbind_assoc in Hr. eapply entry_traced; [|exact Hs|exact Hr].
    apply (asks_request (ReqPath p _)).
Qed.

Lemma emits_manifest_tree name src : emits (W := W) (manifest_tree host conf fuel name src).
Proof.
  apply emits_bind; [apply quiet_emits, quiet_abs|]. intros dst.
  destruct (is_absolute dst) eqn:Ha; simpl; [|apply quiet_emits, quiet_cfail].
  apply emits_bind; [apply quiet_emits, quiet_clift|]. intros t s [] s' Hr.
  eapply gather_archive_data_traced; [exact Hdir|exact Hr|]. by repeat constructor.
Qed.

Lemma emits_manifest_bin ent name : emits (W := W) (manifest_bin host elf_open conf fuel ent name).
Proof.
  apply emits_bind; [apply quiet_emits, quiet_clift|]. intros src. apply emits_archive_elfs.
Qed.

End Manifests.

(** ** The text of a manifest *)

Definition manifest_text (ls : list bytes) : bytes := concat ((fun l => l ++ [NL]) <$> ls).

#[export] Instance line_ok_dec l : Decision (line_ok l).
Proof. unfold line_ok. apply _. Defined.
