(* ===== verification/CutTree.v ===== *)
(** * rapido-cut: what a tree of data becomes

    [gather_archive_data] walks a directory with a work stack. The set of the
    entries it archives is compared with the tree itself, given by reachability:
    the entries below a directory, one name at a time. *)

From S2P Require Import Prelude RustStr RustPath RustIo Cpio CpioArchive Host Cut CutManifest CutSpec.

#[local] Set Warnings "-clear-no-such-hyp".

(** ** The tree *)

(** the path [p] with the names [ns] joined *)
Definition below (p : path) (ns : list bytes) : path := foldl join p ns.

Lemma below_snoc p ns n : below p (ns ++ [n]) = join (below p ns) n.
Proof. unfold below. by rewrite foldl_app. Qed.

Lemma below_absolute p ns : is_absolute p = true -> Forall plain_name ns -> is_absolute (below p ns) = true.
Proof.
  intros Hp. induction ns as [|n ns IH] using rev_ind; [done|].
  intros [Hns Hn]%Forall_snoc. rewrite below_snoc.
  by apply push_absolute, IH.
Qed.

#[export] Instance Normal_inj : Inj (=) (=) Normal.
Proof. by intros a b [= ->]. Qed.

Lemma key_below p ns : is_absolute p = true -> Forall plain_name ns ->
  path_key (below p ns) = path_key p ++ (Normal <$> ns).
Proof.
  intros Hp. induction ns as [|n ns IH] using rev_ind; [by rewrite app_nil_r|].
  intros [Hns Hn]%Forall_snoc. rewrite below_snoc. unfold path_key.
  rewrite components_push by (try done; by apply below_absolute).
  change (components (below p ns)) with (path_key (below p ns)). by rewrite IH, fmap_app, app_assoc.
Qed.

Lemma key_below_inj p ns ms : is_absolute p = true -> Forall plain_name ns -> Forall plain_name ms ->
  path_key (below p ns) = path_key (below p ms) -> ns = ms.
Proof.
  intros Hp Hns Hms. rewrite !key_below by done. intros Heq%app_inv_head.
  by apply (inj (fmap Normal)).
Qed.

(** The names that lead to an entry of the tree at [src]: each is one of a
    directory's, which is not reached through a symbolic link. *)
Inductive in_tree (host : Host) (src : path) : list bytes -> Prop :=
  | tree_root : in_tree host src []
  | tree_entry ns n md names : in_tree host src ns ->
      host_symlink_metadata host (below src ns) = Ok md -> is_type (st_mode md) S_IFDIR = true ->
      host_read_dir host (below src ns) = Ok names -> n ∈ names -> in_tree host src (ns ++ [n]).

(** Nothing on the way to [ns] below [dst] is one of [S]. *)
Definition unseen (S : gset (list Component)) (dst : path) (ns : list bytes) : Prop :=
  forall ms, ms `prefix_of` ns -> path_key (below dst ms) ∉ S.

(** ** The walk *)

Section Walk.
Context (host : Host) (src dst : path) (st : ArchiveState) (S0 : gset (list Component)).
Context (Hdir : forall p names, host_read_dir host p = Ok names -> Forall plain_name names).
Context (Hdst : is_absolute dst = true).

Definition key (ns : list bytes) : list Component := path_key (below dst ns).
Definition mirror (ns : list bytes) : option request :=
  mirror_request host st (below src ns) (below dst ns).
Definition item (ns : list bytes) : GatherItem :=
  MkItem (below src ns) (below dst ns) GATHER_ITEM_IGNORE_PARENT.

Lemma tree_plain ns : in_tree host src ns -> Forall plain_name ns.
Proof.
  intros Ht. induction Ht as [|ns n md names _ IH _ _ Hr Hn]; [constructor|].
  apply Forall_app_2; [done|]. constructor; [|constructor]. apply Hdir in Hr.
  rewrite Forall_forall in Hr. by apply Hr.
Qed.

Lemma tree_key_inj ns ms : in_tree host src ns -> in_tree host src ms -> key ns = key ms -> ns = ms.
Proof. intros Hns%tree_plain Hms%tree_plain. by apply key_below_inj. Qed.

Lemma tree_children ns n md : in_tree host src (ns ++ [n]) ->
  host_symlink_metadata host (below src ns) = Ok md -> n ∈ child_names host (below src ns) (st_mode md).
Proof.
  intros Ht Hmd. inversion Ht as [Heq|ns' n' md' names Ht' Hmd' Hd Hr Hn Heq].
  - by apply app_cons_not_nil in Heq.
  - apply app_inj_tail in Heq as [-> ->]. unfold child_names. rewrite Hmd in Hmd'. injection Hmd' as <-.
    by rewrite Hd, Hr.
Qed.

Lemma children_tree ns n md : in_tree host src ns -> host_symlink_metadata host (below src ns) = Ok md ->
  n ∈ child_names host (below src ns) (st_mode md) -> in_tree host src (ns ++ [n]).
Proof.
  intros Ht Hmd. unfold child_names. destruct (is_type _ _) eqn:Hd; [|by intros ?%elem_of_nil].
  destruct (host_read_dir host _) eqn:Hr; [|by intros ?%elem_of_nil..]. intros Hn. by econstructor.
Qed.

(** the stack as names, for a directory [ns] *)
Definition child_ways (ns : list bytes) (m : Z) : list (list bytes) :=
  (fun n => ns ++ [n]) <$> sort_by bytes_leb (child_names host (below src ns) m).

Lemma child_ways_items ns m : child_items host (below src ns) (below dst ns) m = item <$> child_ways ns m.
Proof.
  unfold child_items, child_ways. rewrite <-list_fmap_compose. apply list_fmap_ext. intros i n _.
  unfold item, compose. by rewrite !below_snoc.
Qed.

Lemma elem_of_child_ways ns m ms : ms ∈ child_ways ns m <->
  exists n, ms = ns ++ [n] /\ n ∈ child_names host (below src ns) m.
Proof. unfold child_ways. by setoid_rewrite list_elem_of_fmap; setoid_rewrite sort_by_perm. Qed.

Lemma unseen_snoc ns n : unseen S0 dst ns -> key (ns ++ [n]) ∉ S0 -> unseen S0 dst (ns ++ [n]).
Proof.
  intros Hns Hn ms [l Hl]. destruct l as [|x l _] using rev_ind.
  - rewrite app_nil_r in Hl. by rewrite <-Hl.
  - rewrite app_assoc in Hl. apply app_inj_tail in Hl as [Hl _]. apply Hns. by exists l.
Qed.

Lemma unseen_init ns n : unseen S0 dst (ns ++ [n]) -> unseen S0 dst ns.
Proof. intros Hu ms Hm. apply Hu. by apply prefix_app_r. Qed.

(** Between rounds: [S] is seen, [qs] archived, [ways] on the stack. Every entry
    that is archived has its children seen or waiting. *)
Record walk (S : gset (list Component)) (qs : list request) (ways : list (list bytes)) : Prop := {
  w_start : S0 ⊆ S;
  w_ways : Forall (fun ns => in_tree host src ns /\ (key ns ∉ S0 -> unseen S0 dst ns)) ways;
  w_root : key [] ∈ S \/ [] ∈ ways;
  w_sound : forall q, q ∈ qs -> exists ns, in_tree host src ns /\ unseen S0 dst ns /\ mirror ns = Some q;
  w_done : forall ns, in_tree host src ns -> unseen S0 dst ns -> key ns ∈ S ->
    (exists q, q ∈ qs /\ mirror ns = Some q) /\
    forall n, in_tree host src (ns ++ [n]) -> key (ns ++ [n]) ∈ S \/ ns ++ [n] ∈ ways;
}.

Lemma walk_start : walk S0 [] [[]].
Proof.
  split; [done| | |by intros q ?%elem_of_nil|].
  - constructor; [|constructor]. split; [constructor|]. intros Hk ms [l Hl].
    symmetry in Hl. by apply app_nil in Hl as [-> _].
  - right. by apply list_elem_of_singleton.
  - intros ns _ Hu Hk. by destruct (Hu ns).
Qed.

(** Directories made elsewhere do not matter. *)
Lemma walk_more S K qs ways : (forall ns, in_tree host src ns -> key ns ∉ K) ->
  walk S qs ways -> walk (K ∪ S) qs ways.
Proof.
  clear Hdir Hdst. intros HK [H1 H2 H3 H4 H5]. split; [set_solver|done|set_solver|done|].
  intros ns Ht Hu [Hk|Hk]%elem_of_union; [by destruct (HK ns)|].
  destruct (H5 ns Ht Hu Hk) as [Hq Hc]. split; [done|]. intros n Hn.
  destruct (Hc n Hn); [left; set_solver|by right].
Qed.

Lemma walk_skip S qs ns ways : key ns ∈ S -> walk S qs (ns :: ways) -> walk S qs ways.
Proof.
  clear Hdir Hdst. intros Hk [H1 H2 H3 H4 H5]. split; [done|by inversion H2| |done|].
  - destruct H3 as [?|[<-|?]%elem_of_cons]; auto.
  - intros ms Ht Hu Hm. destruct (H5 ms Ht Hu Hm) as [Hq Hc]. split; [done|]. intros n Hn.
    destruct (Hc n Hn) as [?|[<-|?]%elem_of_cons]; auto.
Qed.

Lemma walk_visit S qs ns ways md q : key ns ∉ S -> host_symlink_metadata host (below src ns) = Ok md ->
  mirror ns = Some q -> walk S qs (ns :: ways) ->
  walk ({[key ns]} ∪ S) (qs ++ [q]) (push_all (child_ways ns (st_mode md)) ways).
Proof.
  intros Hk Hmd Hq [H1 H2 H3 H4 H5]. apply Forall_cons in H2 as [[Ht Hu] H2].
  assert (unseen S0 dst ns) as Hns by (apply Hu; set_solver).
  assert (forall ms, ms ∈ push_all (child_ways ns (st_mode md)) ways <->
    ms ∈ child_ways ns (st_mode md) \/ ms ∈ ways) as Hpush.
  { intros ms. unfold push_all. by rewrite elem_of_app, elem_of_reverse. }
  split.
  - set_solver.
  - apply Forall_forall. intros ms [(n & -> & Hn)%elem_of_child_ways|Hm]%Hpush.
    + split; [by eapply children_tree|]. by apply unseen_snoc.
    + rewrite Forall_forall in H2. by apply H2.
  - destruct H3 as [?|[<-|?]%elem_of_cons]; [left; set_solver..|right]. apply Hpush. by right.
  - intros q' [Hq'|Heq%list_elem_of_singleton]%elem_of_app; [by apply H4|]. rewrite Heq. by exists ns.
  - intros ms Hmt Hmu Hm. apply elem_of_insert in Hm as [Hm|Hm].
    + apply tree_key_inj in Hm as ->; [|done..]. split; [exists q; split; [set_solver|done]|].
      intros n Hn. right. apply Hpush. left. apply elem_of_child_ways. exists n. split; [done|].
      by apply tree_children.
    + destruct (H5 ms Hmt Hmu Hm) as [(q' & Hq' & Hmq) Hc]. split; [exists q'; split; [set_solver|done]|].
      intros n Hn. rewrite Hpush, elem_of_insert. destruct (Hc n Hn) as [?|[->|?]%elem_of_cons]; auto.
Qed.

(** At the end the whole tree is archived, but for what is beneath a seen path. *)
Lemma walk_end S qs ns : walk S qs [] -> in_tree host src ns -> unseen S0 dst ns ->
  exists q, q ∈ qs /\ mirror ns = Some q.
Proof.
  intros [_ _ H3 _ H5] Ht Hu. apply (H5 ns Ht Hu). induction Ht as [|ns n md names Ht IH Hmd Hd Hr Hn].
  - by destruct H3 as [?|?%elem_of_nil].
  - apply unseen_init in Hu as Hu'. destruct (H5 ns Ht Hu' (IH Hu')) as [_ Hc].
    destruct (Hc n) as [?|?%elem_of_nil]; [by econstructor|done..].
Qed.
End Walk.

(** ** The work stack *)

Lemma mirror_request_props host st st' src dst : props st = props st' ->
  mirror_request host st src dst = mirror_request host st' src dst.
Proof.
  intros Hp. unfold mirror_request. destruct (host_symlink_metadata host src) as [md|e|]; [|done..].
  by rewrite (archive_md_from_props st st' md Hp).
Qed.

Section Run.
Context {W : Type} `{Write W} (host : Host).
Context (Hdir : forall p names, host_read_dir host p = Ok names -> Forall plain_name names).
Implicit Types s : CutState W.

Lemma mirror_key st src dst ns q : mirror host src dst st ns = Some q -> req_key q = key dst ns.
Proof.
  unfold mirror, mirror_request, req_key, key. repeat case_match; try done.
  by intros ->%mirror_amd_path.
Qed.

Lemma keys_one q k : req_key q = k -> keys [q] = {[k]}.
Proof. intros <-. unfold keys. simpl. by rewrite (right_id_L ∅ (∪)). Qed.

Lemma walk_run fuel src dst st S0 ways s s' qs0 : is_absolute dst = true ->
  gather_archive_data host fuel (item src dst <$> ways) s = (Ok tt, s') ->
  Forall (item_ok (paths_seen s)) (item src dst <$> ways) -> props (cpio_state s) = props st ->
  walk host src dst st S0 (paths_seen s) qs0 ways ->
  exists qs, traced s qs s' /\ walk host src dst st S0 (paths_seen s') (qs0 ++ qs) [].
Proof using Hdir.
  intros Hdst. revert ways s qs0. induction fuel as [|fuel IH]; intros [|ns ways] s qs0 Hr Hok Hp Hw;
    simpl in Hr; [|done| |]; [unfold sret in Hr; simplify_eq; exists []; rewrite app_nil_r;
      (split; [by apply traced_refl|done])..|].
  apply sbind_inv_ok in Hr as (l & s1 & H1 & Hr). apply Forall_cons in Hok as [Hi Hok].
  destruct (gather_item_ok _ Hdir _ _ _ _ H1 Hi) as (_ & _ & Hl).
  apply (gather_item_spec _ Hdir _ _ _ _ H1) in Hi.
  assert (forall qs1 l', l = item src dst <$> l' -> traced s qs1 s1 ->
    walk host src dst st S0 (paths_seen s1) (qs0 ++ qs1) (push_all l' ways) ->
    exists qs, traced s qs s' /\ walk host src dst st S0 (paths_seen s') (qs0 ++ qs) []) as Hgo.
  { intros qs1 l' -> Ht1 Hw1. unfold push_all in Hr. rewrite <-fmap_reverse, <-fmap_app in Hr.
    destruct (IH _ _ (qs0 ++ qs1) Hr) as (qs2 & Ht2 & Hw2).
    - rewrite fmap_app, fmap_reverse. apply Forall_app_2; [by apply Forall_reverse|].
      eapply Forall_impl; [exact Hok|]. intros i. apply item_ok_mono. by eapply traced_sub.
    - by rewrite (traced_props _ _ _ Ht1).
    - done.
    - exists (qs1 ++ qs2). rewrite app_assoc. split; [by eapply traced_trans|done]. }
  destruct (decide _) as [Hin|Hnew].
  - destruct Hi as [Ht ->]. apply (Hgo [] []); [done|done|]. rewrite app_nil_r, (tr_seen _ _ _ Ht).
    replace (keys [] ∪ paths_seen s) with (paths_seen s) by (unfold keys; simpl; set_solver).
    exact (walk_skip _ _ _ _ _ _ _ _ _ Hin Hw).
  - destruct Hi as (md & amd & pre & q & Hmd & Hq & Ht & _ & Hpre & ->).
    rewrite Hpre in Ht by done. cbn [app] in Ht. rewrite (mirror_request_props _ _ st) in Hq by done.
    apply (Hgo [q] (child_ways host src ns (st_mode md))); [apply child_ways_items|done|].
    rewrite (tr_seen _ _ _ Ht), (keys_one _ _ (mirror_key st src dst ns q Hq)).
    by apply (walk_visit host src dst st S0 Hdir Hdst).
Qed.

(** The directories made above the root of the tree are not in it. *)
Lemma above_below src dst amd pre : is_absolute dst = true -> Forall (above dst amd) pre ->
  forall ns, in_tree host src ns -> key dst ns ∉ keys pre.
Proof using Hdir.
  intros Hdst Hpre ns Ht Hin. apply elem_of_keys, list_elem_of_fmap_1 in Hin as (q & Hk & Hq).
  rewrite Forall_forall in Hpre. destruct (Hpre q Hq) as [_ Hlen]. rewrite <-Hk in Hlen. unfold key in Hlen.
  rewrite key_below, length_app in Hlen by (try done; by eapply tree_plain). lia.
Qed.

(** The whole tree, from its root. *)
Lemma tree_run fuel src dst s s' : is_absolute dst = true ->
  gather_archive_data host fuel [MkItem src dst 0] s = (Ok tt, s') ->
  exists amd pre qs, traced s (pre ++ qs) s' /\ Forall (above dst amd) pre /\
    walk host src dst (cpio_state s) (paths_seen s) (paths_seen s') qs [].
Proof using Hdir.
  intros Hdst Hr. destruct fuel as [|fuel]; [done|]. cbn [gather_archive_data] in Hr.
  apply sbind_inv_ok in Hr as (l & s1 & H1 & Hr).
  assert (item_ok (paths_seen s) (MkItem src dst 0)) as Hi by (by split).
  destruct (gather_item_ok _ Hdir _ _ _ _ H1 Hi) as (_ & _ & Hl).
  apply (gather_item_spec _ Hdir _ _ _ _ H1) in Hi. cbn [gi_src gi_dst] in Hi.
  pose proof (walk_start host src dst (cpio_state s) (paths_seen s)) as Hw. destruct (decide _) as [Hin|Hnew].
  - destruct Hi as [Ht ->]. apply walk_skip in Hw; [|done]. unfold push_all in Hr. simpl in Hr.
    assert (s' = s1) as -> by (by destruct fuel; injection Hr). exists (default_amd 0), [], [].
    split_and!; [exact Ht|constructor|]. rewrite (tr_seen _ _ _ Ht). unfold keys. simpl.
    by rewrite (left_id_L ∅ (∪)).
  - destruct Hi as (md & amd & pre & q & Hmd & Hq & Ht & Hpre & _ & ->).
    pose proof (walk_visit host src dst _ _ Hdir Hdst _ [] [] [] md q Hnew Hmd Hq Hw) as Hv.
    apply (walk_more _ _ _ _ _ _ (keys pre)) in Hv; [|by apply above_below with amd].
    rewrite (child_ways_items host src dst []) in Hr, Hl. unfold push_all in Hr, Hv.
    rewrite !app_nil_r in Hr, Hv. rewrite <-fmap_reverse in Hr.
    eapply (walk_run _ src dst (cpio_state s) (paths_seen s) _ _ _ [q]) in Hr as (qs & Hts & Hw2).
    + exists amd, pre, (q :: qs). split_and!; [|done|exact Hw2].
      change (q :: qs) with ([q] ++ qs). rewrite (assoc_L (++)). by eapply traced_trans.
    + done.
    + rewrite fmap_reverse. by apply Forall_reverse.
    + by apply traced_props in Ht.
    + rewrite (tr_seen _ _ _ Ht), keys_app, (keys_one _ _ (mirror_key _ _ _ [] _ Hq)).
      by rewrite <-(assoc_L (∪)).
Qed.
End Run.

(** C5. A tree line makes a mirror: when "tree NAME LOCATION" succeeds, it has
    made directories above NAME and then, each once, the entries of the tree at
    LOCATION. Every file, directory, link and special file that can be reached
    from LOCATION through directories is archived below NAME at the same names,
    with its own metadata, contents or target, unless it or a directory on the
    way to it was already seen, as after a filter line; and nothing else is. *)
Theorem tree_mirrored {W} `{Write W} host conf fuel name src (s s' : CutState W) :
  (forall p names, host_read_dir host p = Ok names -> Forall plain_name names) ->
  manifest_tree host conf fuel name src s = (Ok tt, s') ->
  exists d t amd pre qs,
    manifest_name_sub_abs_path host conf name = Ok d /\ manifest_name_sub conf src = Ok t /\
    run_requests (pre ++ qs) (arch s) = (Ok tt, arch s') /\ NoDup (req_key <$> pre ++ qs) /\
    Forall (above d amd) pre /\
    (forall q, q ∈ qs -> exists ns, in_tree host t ns /\ unseen (paths_seen s) d ns /\
       mirror_request host (cpio_state s) (below t ns) (below d ns) = Some q) /\
    (forall ns, in_tree host t ns -> unseen (paths_seen s) d ns -> exists q, q ∈ qs /\
       mirror_request host (cpio_state s) (below t ns) (below d ns) = Some q).
Proof.
  intros Hdir (d & s1 & Hd & Hr)%sbind_inv_ok. unfold clift, slift in Hd. injection Hd as Hd ->.
  destruct (manifest_name_sub_abs_path host conf name) as [d'|e|]; [injection Hd as ->|done..].
  destruct (is_absolute d) eqn:Ha; cbn [negb] in Hr; [|done].
  apply sbind_inv_ok in Hr as (t & s2 & Ht & Hr). unfold clift, slift in Ht. injection Ht as Ht ->.
  destruct (manifest_name_sub conf src) as [t'|e|]; [injection Ht as ->|done..].
  apply (tree_run host Hdir) in Hr as (amd & pre & qs & [Hrun _ _ Hn _ _] & Hpre & Hw); [|done].
  exists d, t, amd, pre, qs. split_and!; try done.
  - apply Hw.
  - intros ns. by apply (walk_end _ _ _ _ _ _ _ _ Hw).
Qed.

(** ** A sample tree: a filter hides one directory of two *)

Module TreeRun.
Definition dir_md : Metadata := MkStat 5 (Z.lor S_IFDIR O755) 0 2 4096 7 8.
Definition link_md : Metadata := MkStat 6 (Z.lor S_IFLNK O777) 0 1 1 7 8.
Definition nodes : gmap bytes Metadata := list_to_map
  [(B "/src", dir_md); (B "/src/a", file_metadata (B "data")); (B "/src/sub", dir_md);
   (B "/src/sub/b", file_metadata (B "")); (B "/src/sub/l", link_md); (B "/src/old", dir_md)].
Definition host : Host := {|
  host_open := files_lookup {[B "/src/a" := B "data"]} reader_of;
  host_metadata := files_lookup ∅ file_metadata;
  host_symlink_metadata p := match nodes !! p with Some md => Ok md | None => Err (err_from NotFound) end;
  host_read_link _ := Ok (B "b");
  host_canonicalize _ := Err (err_from NotFound);
  host_dir_entries p :=
    if bool_decide (p = B "/src") then Ok (Ok <$> [B "sub"; B "a"; B "old"])
    else if bool_decide (p = B "/src/sub") then Ok (Ok <$> [B "l"; B "b"]) else Err (err_from NotFound);
  host_env _ := None;
  host_cwd := B "/";
|}.
Definition start : CutState Vector := set_paths {[path_key (B "/dst/old")]} (cut_start (MkVector [])).
Definition run : result cut_error unit * CutState Vector :=
  manifest_tree host ∅ 10 (Some (B "/dst")) (Some (B "/src")) start.
Definition reqs : list request :=
  [ReqPath (B "/dst") (MkMd 2 (st_mode dir_md) 7 8 5 0 0 4096);
   ReqPath (B "/dst/sub") (MkMd 2 (st_mode dir_md) 7 8 5 0 0 4096);
   ReqSymlink (B "/dst/sub/l") (MkMd 1 (st_mode link_md) 7 8 6 0 0 1) (B "b");
   ReqPath (B "/dst/sub/b") (MkMd 1 (Z.lor S_IFREG 0x1a4) 0 0 0 0 0 0);
   ReqFile (B "/dst/a") (MkMd 1 (Z.lor S_IFREG 0x1a4) 0 0 0 0 0 4) (reader_of (B "data"))].
End TreeRun.

(** the last of the names is archived first, and what is below "old" is hidden *)
Example tree_run_reqs : arch (snd TreeRun.run) = snd (run_requests TreeRun.reqs (arch TreeRun.start)).
Proof. vm_compute. reflexivity. Qed.

Lemma tree_mirrored_witness : exists d t amd pre qs,
  manifest_name_sub_abs_path TreeRun.host ∅ (Some (B "/dst")) = Ok d /\
  manifest_name_sub ∅ (Some (B "/src")) = Ok t /\
  run_requests (pre ++ qs) (arch TreeRun.start) = (Ok tt, arch (snd TreeRun.run)) /\
  NoDup (req_key <$> pre ++ qs) /\ Forall (above d amd) pre /\
  (forall q, q ∈ qs -> exists ns, in_tree TreeRun.host t ns /\ unseen (paths_seen TreeRun.start) d ns /\
     mirror_request TreeRun.host (cpio_state TreeRun.start) (below t ns) (below d ns) = Some q) /\
  (forall ns, in_tree TreeRun.host t ns -> unseen (paths_seen TreeRun.start) d ns -> exists q, q ∈ qs /\
     mirror_request TreeRun.host (cpio_state TreeRun.start) (below t ns) (below d ns) = Some q).
Proof.
  apply (tree_mirrored TreeRun.host ∅ 10 (Some (B "/dst")) (Some (B "/src"))).
  - intros p names. unfold host_read_dir. cbn [host_dir_entries TreeRun.host]. repeat case_bool_decide; intros [= <-];
      repeat constructor; vm_compute; done.
  - assert (fst TreeRun.run = Ok tt) as Hr by (vm_compute; reflexivity).
    rewrite <-Hr. apply surjective_pairing.
Defined.
