(* ===== verification/CutElfSpec.v ===== *)
(** * rapido-cut: executables come with their libraries

    The libraries an ELF file needs are recorded once for all files of a run
    ([libs_seen]) and looked up later. What gathering archives is described from
    the host: each entry written is a directory above another, or the copy of an
    entry that was asked for or is needed by one that was; and what these need is
    written too, unless its path was seen before. *)

From S2P Require Import Prelude RustStr RustWords RustPath RustIo KvConf Cpio CpioArchive Host Kmod.
From S2P Require Import RapidoLib Cut CutKmods CutManifest CutSpec.

#[local] Set Warnings "-clear-no-such-hyp".

(** ** What an ELF file needs *)

(** the names of the libraries an ELF file needs, in order *)
Definition elf_names (file : option Elf) : list bytes :=
  match file with
  | Some (MkElf (Some (Some dynamics)) (Some (Some strs))) => omap strs (dyn_vals DT_NEEDED dynamics)
  | _ => []
  end.

(** every needed name is in the string table *)
Definition elf_wf (file : option Elf) : Prop :=
  match file with
  | Some (MkElf (Some (Some dynamics)) (Some (Some strs))) =>
      Forall (fun off => is_Some (strs off)) (dyn_vals DT_NEEDED dynamics)
  | _ => True
  end.

(** its run paths *)
Definition elf_runpaths (file : option Elf) : list bytes :=
  match file with
  | Some (MkElf (Some (Some dynamics)) (Some (Some strs))) => omap strs (dyn_vals DT_RUNPATH dynamics)
  | _ => []
  end.

(** the entry for the library [n], needed by a file with these run paths *)
Definition needed_entry (runpaths : list bytes) (n : bytes) : GatherEnt :=
  match runpaths with [] => Lib n | _ => LibRunPath n runpaths end.

(** an entry for the library [n] *)
Definition lib_entry (n : bytes) (ent : GatherEnt) : Prop :=
  ent = Lib n \/ exists paths, ent = LibRunPath n paths.

Lemma needed_lib_entry runpaths n : lib_entry n (needed_entry runpaths n).
Proof. unfold lib_entry, needed_entry. destruct runpaths; eauto. Qed.

Lemma elf_needed_spec strs runpaths offs ret libs :
  Forall (fun off => is_Some (strs off)) offs ->
  exists new, elf_needed strs runpaths offs ret libs
              = (Ok (ret ++ new), list_to_set (omap strs offs) ∪ libs) /\
    (forall n, n ∈ omap strs offs -> n ∈ libs \/ exists ent, ent ∈ new /\ lib_entry n ent) /\
    Forall (fun e => exists n, n ∈ omap strs offs /\ e = needed_entry runpaths n) new.
Proof.
  intros Hs. revert ret libs. induction Hs as [|off offs [n Hn] _ IH]; intros ret libs; simpl.
  { exists []. rewrite app_nil_r. split_and!; [f_equal; set_solver| |constructor].
    intros n Hn. by apply not_elem_of_nil in Hn. }
  rewrite Hn. unfold sbind, sget, sput.
  fold (needed_entry runpaths n). set (ent := needed_entry runpaths n).
  assert (lib_entry n ent) as Hent by apply needed_lib_entry.
  edestruct IH as (new & -> & Hnew & Hof). simpl list_to_set.
  exists ((if bool_decide (n ∈ libs) then [] else [ent]) ++ new). split_and!.
  - f_equal; [|set_solver]. f_equal. by case_bool_decide; [|rewrite <-app_assoc].
  - intros m [->|Hm]%elem_of_cons.
    + case_bool_decide; [by left|right]. exists ent. split; [left|done].
    + destruct (Hnew m Hm) as [[->%elem_of_singleton|]%elem_of_union|(e & He & Hl)]; [|by left|].
      * case_bool_decide; [by left|right]. exists ent. split; [left|done].
      * right. exists e. split; [by apply elem_of_app; right|done].
  - apply Forall_app_2.
    + case_bool_decide; repeat constructor. exists n. split; [left|done].
    + eapply Forall_impl; [exact Hof|]. intros e (m & Hm & Hl). exists m. split; [by right|done].
Qed.

(** The dependencies of a file: its names are recorded, and the new ones are
    entries to gather. *)
Lemma elf_deps_spec file libs : elf_wf file ->
  exists r, elf_deps file libs = (r, list_to_set (elf_names file) ∪ libs) /\
    (forall n, n ∈ elf_names file -> n ∈ libs \/
      exists ent, ent ∈ match r with Ok d => d | _ => [] end /\ lib_entry n ent) /\
    Forall (fun e => exists n, n ∈ elf_names file /\ e = needed_entry (elf_runpaths file) n) match r with Ok d => d | _ => [] end.
Proof.
  assert (forall n, n ∈ @nil bytes -> n ∈ libs \/ exists ent, ent ∈ @nil GatherEnt /\ lib_entry n ent) as Hnil
    by (intros n Hn; by apply not_elem_of_nil in Hn).
  destruct file as [[[[dyn|]|] [[strs|]|]]|]; simpl; intros Hwf;
    try (eexists; split_and!; [unfold sret, sfail; rewrite (left_id_L ∅ (∪)); reflexivity|exact Hnil|constructor]).
  edestruct (elf_needed_spec strs) as (new & -> & Hnew & Hof); [exact Hwf|]. eauto.
Qed.

Section Libs.
Context {W : Type} `{Write W} (host : Host) (elf_open : bytes -> option Elf).
Implicit Types s : CutState W.

(** ** What should be in the archive *)

(** a symbolic link that leads nowhere; it is left out *)
Definition dangling (got : Fsent) : Prop :=
  is_type (st_mode (fs_md got)) S_IFLNK = true /\ is_ok (host_canonicalize host (fs_path got)) = false.

(** The entry was written by one of the requests [qs], or its path is one of
    [seen], those known before: archived earlier, or filtered out. A dangling link
    and an optional entry that is missing are not archived. *)
Definition supplied (seen : gset (list Component)) (qs : list request) (ent : GatherEnt) : Prop :=
  match path_stat host ent with
  | Ok got => path_key (ent_dst ent got) ∈ seen \/ path_key (ent_dst ent got) ∈ keys qs \/ dangling got
  | Err _ => exists n, ent = NameTry n
  | Panic => False
  end.

(** What is archived for an entry that is found as [got]: a link, a file with its
    contents, or a bare entry. *)
Definition elf_request (st : ArchiveState) (ent : GatherEnt) (got : Fsent) : option request :=
  match archive_md_from st (fs_md got) with
  | Ok amd => elf_amd host (fs_path got) (ent_dst ent got) amd
  | _ => None
  end.

(** The entries that an entry needs: the target of a link, the contents of a
    directory, the libraries of an executable or a library. *)
Definition leads_to (ent : GatherEnt) (got : Fsent) (e : GatherEnt) : Prop :=
  let m := st_mode (fs_md got) in
  if is_type m S_IFLNK then
    exists t, host_canonicalize host (fs_path got) = Ok t /\ e = if is_lib_ent ent then Lib t else Name t
  else if is_type m S_IFREG then
    (Z.land m O111 <> 0 \/ is_lib_ent ent = true) /\
    exists f n, host_open host (fs_path got) = Ok f /\ n ∈ elf_names (elf_open (rd_data f)) /\
      e = needed_entry (elf_runpaths (elf_open (rd_data f))) n
  else if is_type m S_IFDIR then
    exists names n, host_read_dir host (fs_path got) = Ok names /\ n ∈ names /\ e = Path (join (fs_path got) n)
  else False.

(** The entries [elfs], and what they need, and so on. *)
Inductive wanted (elfs : list GatherEnt) : GatherEnt -> Prop :=
  | wanted_asked ent : ent ∈ elfs -> wanted elfs ent
  | wanted_needed ent got e : wanted elfs ent -> path_stat host ent = Ok got -> leads_to ent got e -> wanted elfs e.

(** A library is provided: it was recorded before, or is wanted (as one that a file
    needs, with the run paths of the file) and supplied. *)
Definition provided (elfs : list GatherEnt) (libs : gset bytes) (seen : gset (list Component))
    (qs : list request) (n : bytes) : Prop :=
  n ∈ libs \/ exists ent, lib_entry n ent /\ wanted elfs ent /\ supplied seen qs ent.

(** What the request for an entry brings along, when [P] holds of the entries and
    [L] of the libraries that are there. *)
Definition brought (P : GatherEnt -> Prop) (L : bytes -> Prop) (ent : GatherEnt) (got : Fsent) (q : request) : Prop :=
  match q with
  | ReqSymlink _ _ t => P (if is_lib_ent ent then Lib t else Name t)
  | ReqFile _ amd f => Z.land (mode amd) O111 <> 0 \/ is_lib_ent ent = true ->
      forall n, n ∈ elf_names (elf_open (rd_data f)) -> L n
  | ReqPath _ amd => is_type (mode amd) S_IFDIR = true ->
      exists names, host_read_dir host (fs_path got) = Ok names /\
        Forall (fun n => P (Path (join (fs_path got) n))) names
  end.

(** Where a request comes from: it is for a directory above an entry that is
    [wanted], or for such an entry, with what that brings along. *)
Definition sourced (elfs : list GatherEnt) (st : ArchiveState) (P : GatherEnt -> Prop) (L : bytes -> Prop)
    (q : request) : Prop := exists ent got, wanted elfs ent /\ path_stat host ent = Ok got /\
  ((exists amd, archive_md_from st (fs_md got) = Ok amd /\ above (ent_dst ent got) amd q) \/
   (elf_request st ent got = Some q /\ brought P L ent got q)).

(** ** Steps that record no library *)

Definition keeps_libs {A} (c : Cut W A) : Prop := forall s, libs_seen (snd (c s)) = libs_seen s.

Lemma k_bind {A C} (c : Cut W A) (f : A -> Cut W C) :
  keeps_libs c -> (forall a, keeps_libs (f a)) -> keeps_libs (sbind c f).
Proof.
  intros Hc Hf s. unfold sbind. specialize (Hc s). destruct (c s) as [[a|e|] s1]; [|done..].
  simpl in Hc. by rewrite Hf.
Qed.
Lemma k_cpio {A} (c : Arch W A) : keeps_libs (cpio c).
Proof. intros s. unfold cpio. by destruct (c (arch s)). Qed.
Lemma k_amd md : keeps_libs (amd_from (W := W) md).
Proof. done. Qed.

Lemma k_dirs_loop comps here amd : keeps_libs (gather_dirs_loop (W := W) comps here amd).
Proof.
  revert here. induction comps as [|[| | |n] comps IH]; intros here; cbn [gather_dirs_loop]; [done|apply IH..| |].
  - by destruct (pop here).
  - apply k_bind; [done|]. intros []; [|apply IH]. apply k_bind; [apply k_cpio|]. intros _. apply IH.
Qed.

Lemma k_dirs p amd : keeps_libs (gather_archive_dirs (W := W) p amd).
Proof.
  unfold gather_archive_dirs. destruct p as [p|]; [|done]. destruct (negb _); [done|].
  apply k_bind; [done|]. intros []; [done|apply k_dirs_loop].
Qed.

Lemma keeps_ok {A} (c : Cut W A) s a s' : keeps_libs c -> c s = (Ok a, s') -> libs_seen s' = libs_seen s.
Proof. intros Hk Hc. specialize (Hk s). by rewrite Hc in Hk. Qed.

Lemma supplied_mono seen qs qs' ent : supplied seen qs ent -> supplied seen (qs ++ qs') ent.
Proof.
  unfold supplied. destruct (path_stat host ent); [|done..]. rewrite keys_app.
  intros [?|[?|?]]; [by left|right; left; by apply elem_of_union_l|by right; right].
Qed.

Lemma brought_mono (P Q : GatherEnt -> Prop) (L M : bytes -> Prop) ent got q :
  (forall e, P e -> Q e) -> (forall n, L n -> M n) -> brought P L ent got q -> brought Q M ent got q.
Proof.
  intros HP HL. destruct q as [p md|p md t|p md rd]; simpl; [|by auto|by auto].
  intros Hb Hd. destruct (Hb Hd) as (names & Hn & Hf). exists names. split; [done|].
  eapply Forall_impl; [exact Hf|]. intros n. apply HP.
Qed.

Lemma sourced_mono elfs st (P Q : GatherEnt -> Prop) (L M : bytes -> Prop) q :
  (forall e, P e -> Q e) -> (forall n, L n -> M n) -> sourced elfs st P L q -> sourced elfs st Q M q.
Proof.
  intros HP HL (ent & got & Hw & Hst & Hq). exists ent, got. split_and!; [done..|].
  destruct Hq as [Hq|[Hq Hb]]; [by left|right]. split; [done|]. by eapply brought_mono.
Qed.

(** ** One entry *)

(** The files of the host that are ELF are well formed. *)
Context (Hwf : forall p f, host_open host p = Ok f -> elf_wf (elf_open (rd_data f))).

(** The names recorded are old ones, or have an entry among the pushed ones. *)
Definition records s (pushed : list GatherEnt) s' : Prop :=
  libs_seen s ⊆ libs_seen s' /\
  forall n, n ∈ libs_seen s' -> n ∈ libs_seen s \/ exists e, e ∈ pushed /\ lib_entry n e.

Lemma records_same s pushed s' : libs_seen s' = libs_seen s -> records s pushed s'.
Proof. intros Hs. split; rewrite Hs; [done|by left]. Qed.

(** The dependencies of a regular file. *)
Definition file_deps (ent : GatherEnt) (amd : ArchiveMd) (f : Reader) : Cut W (list GatherEnt) :=
  if negb (Z.land (mode amd) O111 =? 0) || is_lib_ent ent then
    let* s := sget in
    let '(r, libs) := elf_deps (elf_open (rd_data f)) (libs_seen s) in
    do* sput (set_libs libs s) ;;
    sret (match r with Ok d => d | _ => [] end)
  else sret [].

Lemma file_deps_spec ent amd f s deps s' : elf_wf (elf_open (rd_data f)) ->
  file_deps ent amd f s = (Ok deps, s') ->
  records s deps s' /\
  Forall (fun e => (Z.land (mode amd) O111 <> 0 \/ is_lib_ent ent = true) /\
    exists n, n ∈ elf_names (elf_open (rd_data f)) /\
      e = needed_entry (elf_runpaths (elf_open (rd_data f))) n) deps /\
  (Z.land (mode amd) O111 <> 0 \/ is_lib_ent ent = true ->
   forall n, n ∈ elf_names (elf_open (rd_data f)) -> n ∈ libs_seen s').
Proof.
  intros Hf. unfold file_deps. destruct (negb _ || _) eqn:Hx.
  - unfold sbind, sget, sput.
    destruct (elf_deps_spec _ (libs_seen s) Hf) as (r & -> & Hr & Hof). intros [= <- <-].
    unfold records. cbn [libs_seen set_libs]. split_and!; [set_solver| | |set_solver].
    + intros n [Hn%elem_of_list_to_set|Hn]%elem_of_union; [|by left].
      destruct (Hr n Hn) as [|]; [by left|by right].
    + eapply Forall_impl; [exact Hof|]. intros e He. split; [|done].
      apply orb_true_iff in Hx as [Hm%negb_true_iff%Z.eqb_neq|]; [by left|by right].
  - intros [= <- <-]. split; [by apply records_same|split]; [constructor|]. intros Hor. exfalso.
    apply orb_false_iff in Hx as [Hm%negb_false_iff%Z.eqb_eq Hl]. destruct Hor; congruence.
Qed.

Lemma is_type_other m t t' : is_type m t = true -> t <> t' -> is_type m t' = false.
Proof. unfold is_type. intros ->%Z.eqb_eq Hne. by apply Z.eqb_neq. Qed.

(** What the three kinds of entries bring along. *)
Lemma elf_one_brings ent got amd s r s' :
  mode amd = st_mode (fs_md got) ->
  gather_elf_one host elf_open ent (fs_path got) (ent_dst ent got) amd s = (Ok r, s') ->
  match r with
  | None => libs_seen s' = libs_seen s
  | Some pushed => records s pushed s' /\ Forall (leads_to ent got) pushed /\
      forall q, elf_amd host (fs_path got) (ent_dst ent got) amd = Some q ->
        brought (.∈ pushed) (.∈ libs_seen s') ent got q
  end.
Proof.
  intros Hm. unfold gather_elf_one, leads_to, elf_amd. rewrite <-Hm.
  destruct (is_type (mode amd) S_IFLNK) eqn:Hlnk.
  { destruct (host_canonicalize host (fs_path got)) as [t|e|] eqn:Hc.
    2-3: by destruct ent; intros [= <- <-].
    intros Hr. assert (r = Some [if is_lib_ent ent then Lib t else Name t] /\ libs_seen s' = libs_seen s) as [-> Hs].
    { assert ((do* cpio (archive_symlink (ent_dst ent got) amd t) ;;
        match from_utf8 t with Some t => sret (Some [if is_lib_ent ent then Lib t else Name t])
        | None => cfail (err_from InvalidInput) end : Cut W _) s = (Ok r, s')) as Hl by (by destruct ent).
      apply sbind_inv_ok in Hl as ([] & s1 & H1 & Hl). apply keeps_ok in H1; [|apply k_cpio].
      unfold from_utf8 in Hl. destruct (utf8_valid t); [|done]. by injection Hl as <- <-. }
    split; [by apply records_same|split]; [repeat constructor; by exists t|].
    intros q [= <-]. by apply list_elem_of_singleton. }
  destruct (is_type (mode amd) S_IFREG && (0 <? len amd)) eqn:Hreg.
  { apply andb_prop in Hreg as [-> _].
    intros (f & s1 & Hf & Hr)%sbind_inv_ok. unfold clift, slift in Hf.
    destruct (host_open host (fs_path got)) as [f0|e|] eqn:Ho; cbn [map_err] in Hf; [|done..].
    injection Hf as -> <-. apply sbind_inv_ok in Hr as (deps & s2 & Hd & Hr).
    apply (file_deps_spec ent amd f) in Hd as (Hrec & Hof & Hn); [|by eapply Hwf].
    apply sbind_inv_ok in Hr as ([] & s3 & H3 & Hr). apply keeps_ok in H3; [|apply k_cpio].
    injection Hr as <- <-.
    assert (records s deps s3) as Hrec' by (unfold records; by rewrite H3). rewrite H3.
    split; [done|split].
    - eapply Forall_impl; [exact Hof|]. intros e (Hx & n & Hin & Hl). split; [done|]. by exists f, n.
    - intros q [= <-]. exact Hn. }
  destruct (is_type (mode amd) S_IFDIR) eqn:Hdir; intros ([] & s1 & H1 & Hr)%sbind_inv_ok;
    (apply keeps_ok in H1; [|apply k_cpio]).
  - apply sbind_inv_ok in Hr as (es & s2 & Hes & Hr). injection Hr as <- <-.
    unfold read_dir_sorted in Hes. apply sbind_inv_ok in Hes as (ns & s3 & H3 & Hes).
    unfold clift, slift in H3. destruct (host_read_dir host (fs_path got)) as [names|e|] eqn:Hrd; cbn [map_err] in H3; [|done..].
    injection H3 as <- <-. injection Hes as <- <-.
    assert (forall e, e ∈ Path <$> sort_by path_leb (join (fs_path got) <$> names) <->
      exists n, n ∈ names /\ e = Path (join (fs_path got) n)) as Hin.
    { intros e. rewrite sort_by_perm, !list_elem_of_fmap. setoid_rewrite list_elem_of_fmap. naive_solver. }
    split; [by apply records_same|split].
    + apply Forall_forall. intros e (n & Hn & ->)%Hin. rewrite (is_type_other _ _ _ Hdir) by done. by exists names, n.
    + intros q [= <-] _. exists names. split; [done|]. apply Forall_forall. intros n Hn. apply Hin. by exists n.
  - injection Hr as <- <-. split; [by apply records_same|split]; [constructor|]. intros q [= <-] Hd. by rewrite Hdir in Hd.
Qed.

(** ** The loop *)

Lemma elem_of_push_all {A} (x : A) entries stack : x ∈ push_all entries stack <-> x ∈ entries \/ x ∈ stack.
Proof. unfold push_all. by rewrite elem_of_app, elem_of_reverse. Qed.

(** An entry that is there, or about to be. *)
Definition due (s0 : CutState W) (qs : list request) (stack : list GatherEnt) (e : GatherEnt) : Prop :=
  supplied (paths_seen s0) qs e \/ e ∈ stack.

(** Between the rounds, having come from [s0] by the requests [qs]. *)
Record gathering (elfs : list GatherEnt) (s0 : CutState W) (qs : list request) (stack : list GatherEnt) s : Prop := {
  ga_run : traced s0 qs s;
  ga_asked : Forall (due s0 qs stack) elfs;
  ga_stack : Forall (wanted elfs) stack;
  ga_from : Forall (sourced elfs (cpio_state s0) (due s0 qs stack) (.∈ libs_seen s)) qs;
  ga_libs : forall n, n ∈ libs_seen s -> n ∈ libs_seen s0 \/
    exists ent, lib_entry n ent /\ wanted elfs ent /\ due s0 qs stack ent;
}.

Lemma gathering_start elfs s : gathering elfs s [] elfs s.
Proof.
  split; [by apply traced_refl| | |constructor|by left]; apply Forall_forall; intros e He; [by right|by constructor].
Qed.

(** A round that makes the requests [qs'], pushes [pushed], and gets its entry
    into the archive. *)
Lemma gathering_step elfs s0 qs ent stack s qs' pushed s' :
  gathering elfs s0 qs (ent :: stack) s -> traced s qs' s' -> records s pushed s' ->
  supplied (paths_seen s0) (qs ++ qs') ent -> Forall (wanted elfs) pushed ->
  Forall (sourced elfs (cpio_state s0) (.∈ pushed) (.∈ libs_seen s')) qs' ->
  gathering elfs s0 (qs ++ qs') (push_all pushed stack) s'.
Proof.
  intros [Hrun Hask Hst Hfrom Hlibs] Ht [Hl Hrec] Hent Hw Hq.
  assert (forall e, due s0 qs (ent :: stack) e -> due s0 (qs ++ qs') (push_all pushed stack) e) as Hdue.
  { intros e [He|[->|He]%elem_of_cons]; [left; by apply supplied_mono|by left|]. right. apply elem_of_push_all. by right. }
  assert (forall e, e ∈ pushed -> due s0 (qs ++ qs') (push_all pushed stack) e) as Hnew.
  { intros e He. right. apply elem_of_push_all. by left. }
  apply Forall_cons in Hst as [_ Hst]. split.
  - by eapply traced_trans.
  - by eapply Forall_impl.
  - unfold push_all. apply Forall_app_2; [by apply Forall_reverse|done].
  - apply Forall_app_2; (eapply Forall_impl; [eassumption|]); intros q; apply sourced_mono; auto.
  - rewrite Forall_forall in Hw. intros n [Hn|(e & He & Hle)]%Hrec; [|right; exists e; auto].
    destruct (Hlibs n Hn) as [|(e & Hle & Hwe & He)]; [by left|right; exists e; auto].
Qed.

Lemma gathering_round elfs s0 qs ent stack s pushed s' : gathering elfs s0 qs (ent :: stack) s ->
  gather_elf_ent host elf_open ent s = (Ok pushed, s') ->
  exists qs', gathering elfs s0 (qs ++ qs') (push_all pushed stack) s'.
Proof.
  intros Hg Hr%gather_elf_ent_inv. pose proof (ga_run _ _ _ _ _ Hg) as Ht0.
  pose proof (ga_stack _ _ _ _ _ Hg) as [Hent _]%Forall_cons.
  destruct (path_stat host ent) as [got|e|] eqn:Hst; [| |done].
  2: { destruct Hr as (Hn & -> & ->). exists []. apply (gathering_step elfs s0 qs ent stack s); try done.
       - by apply traced_refl.
       - by apply records_same.
       - unfold supplied. by rewrite Hst. }
  destruct (decide _) as [Hin|Hnew].
  { destruct Hr as [-> ->]. exists []. apply (gathering_step elfs s0 qs ent stack s); try done.
    - by apply traced_refl.
    - by apply records_same.
    - unfold supplied. rewrite Hst, app_nil_r. rewrite (tr_seen _ _ _ Ht0) in Hin.
      apply elem_of_union in Hin as [Hin|Hin]; [right; by left|by left]. }
  destruct Hr as (amd & s1 & r & s2 & Hamd & Hd & Hone & -> & ->).
  rewrite (archive_md_from_props _ (cpio_state s0) _ (traced_props _ _ _ Ht0)) in Hamd. pose proof (archive_md_from_fields _ _ _ Hamd) as [Hm _].
  destruct (elf_round_traced _ _ _ _ _ _ _ _ _ Hnew Hd Hone) as (pre & Hpre & Ht).
  assert (forall l L, Forall (sourced elfs (cpio_state s0) l L) pre) as Hpre'.
  { intros l L. eapply Forall_impl; [exact Hpre|]. intros q Hq. exists ent, got. split_and!; [done..|]. left. by exists amd. }
  pose proof (keeps_ok _ _ _ _ (k_dirs _ _) Hd) as Hls. apply elf_one_brings in Hone; [|done].
  destruct r as [ents|]; cbn [default].
  - destruct Ht as (q & Hq & Ht). destruct Hone as ([Hl Hrec] & Hleads & Hb). rewrite Hls in Hl, Hrec.
    exists (pre ++ [q]). eapply gathering_step; [exact Hg|exact Ht|by split| | |].
    + unfold supplied. rewrite Hst. right. left. rewrite !keys_app. unfold keys at 3, req_key.
      rewrite fmap_cons, (elf_amd_path _ _ _ _ _ Hq). set_solver.
    + eapply Forall_impl; [exact Hleads|]. intros e He. by eapply wanted_needed.
    + apply Forall_app_2; [apply Hpre'|]. constructor; [|constructor]. exists ent, got. split_and!; [done..|].
      right. split; [unfold elf_request; by rewrite Hamd|]. by apply Hb.
  - destruct Ht as (Ht & Hlnk & Hc). exists pre. eapply gathering_step; [exact Hg|exact Ht| | |constructor|apply Hpre'].
    + apply records_same. by rewrite Hone.
    + unfold supplied. rewrite Hst. right. right. unfold dangling. by rewrite <-Hm.
Qed.

Lemma gathering_loop elfs s0 fuel qs stack s s' : gathering elfs s0 qs stack s ->
  gather_archive_elfs host elf_open fuel stack s = (Ok tt, s') ->
  exists qs', gathering elfs s0 qs' [] s'.
Proof.
  revert qs stack s. induction fuel as [|fuel IH]; intros qs [|ent stack] s Hg; simpl; [by intros [= <-]; exists qs|done| |].
  { by intros [= <-]; exists qs. }
  intros (pushed & s1 & H1 & Hr)%sbind_inv_ok. apply (gathering_round _ _ _ _ _ _ _ _ Hg) in H1 as [qs1 Hg1].
  by eapply IH.
Qed.

(** What gathering the entries [elfs] means. *)
Record gathered (elfs : list GatherEnt) (s : CutState W) (qs : list request) s' : Prop := {
  gd_run : traced s qs s';
  gd_asked : Forall (supplied (paths_seen s) qs) elfs;
  gd_from : Forall (sourced elfs (cpio_state s) (supplied (paths_seen s) qs)
                      (provided elfs (libs_seen s) (paths_seen s) qs)) qs;
  gd_libs : forall n, n ∈ libs_seen s' -> provided elfs (libs_seen s) (paths_seen s) qs n;
}.

Lemma elfs_gathered fuel elfs s s' : gather_archive_elfs host elf_open fuel elfs s = (Ok tt, s') ->
  exists qs, gathered elfs s qs s'.
Proof.
  intros Hr. apply (gathering_loop _ _ _ _ _ _ _ (gathering_start elfs s)) in Hr as [qs [Hrun Hask _ Hfrom Hlibs]].
  assert (forall e, due s qs [] e -> supplied (paths_seen s) qs e) as Hdue.
  { intros e [|Hnil]; [done|]. by apply not_elem_of_nil in Hnil. }
  assert (forall n, n ∈ libs_seen s' -> provided elfs (libs_seen s) (paths_seen s) qs n) as Hprov.
  { intros n Hn. destruct (Hlibs n Hn) as [|(e & Hl & Hw & He)]; [by left|right]. exists e. auto. }
  exists qs. split; [done|by eapply Forall_impl| |done].
  eapply Forall_impl; [exact Hfrom|]. intros q. apply sourced_mono; auto.
Qed.
End Libs.


(** ** A sample: an executable, its library and a library of that one *)

Module ElfRun.
Definition md_x (b : bytes) : Metadata := MkStat 0 (Z.lor S_IFREG O755) 0 1 (zlen b) 0 0.
Definition files : gmap bytes bytes :=
  list_to_map [(B "/usr/bin/sh", B "sh"); (B "/usr/lib64/libc.so", B "libc"); (B "/usr/lib/ld.so", B "ld")].
Definition host : Host := {|
  host_open := files_lookup files reader_of;
  host_metadata := files_lookup files md_x;
  host_symlink_metadata := files_lookup files md_x;
  host_read_link _ := Err (err_from InvalidInput);
  host_canonicalize p := Ok p;
  host_dir_entries _ := Err (err_from NotFound);
  host_env _ := None;
  host_cwd := B "/" |}.
Definition elf (needed : list bytes) : Elf :=
  MkElf (Some (Some (imap (fun i _ => (DT_NEEDED, Z.of_nat i)) needed)))
        (Some (Some (fun off => needed !! Z.to_nat off))).
Definition elf_open (b : bytes) : option Elf :=
  if bool_decide (b = B "sh") then Some (elf [B "libc.so"; B "ld.so"])
  else if bool_decide (b = B "libc") then Some (elf [B "ld.so"]) else None.
Definition start : CutState Vector := cut_start (MkVector []).
Definition run : result cut_error unit * CutState Vector :=
  gather_archive_elfs host elf_open 10 [Name (B "sh"); NameTry (B "missing")] start.
Definition got : Fsent := MkFsent (B "/usr/bin/sh") (md_x (B "sh")).
End ElfRun.

Example elf_run_libs : libs_seen (snd ElfRun.run) = {[B "libc.so"; B "ld.so"]}.
Proof. vm_compute. reflexivity. Qed.

(** A name that is not in the string table makes the dependencies of the file
    an error, which is ignored; but the names before it are recorded as seen,
    and no later file brings these libraries any more. *)
Example unreadable_name_hides_library :
  let '(r, s) := gather_archive_elfs ElfRun.host (fun b =>
      if bool_decide (b = B "sh")
      then Some (MkElf (Some (Some [(DT_NEEDED, 0); (DT_NEEDED, 1)]))
                       (Some (Some (fun off => [B "libc.so"] !! Z.to_nat off))))
      else Some (ElfRun.elf [B "libc.so"])) 10 [Name (B "sh"); Path (B "/usr/lib/ld.so")] ElfRun.start in
  r = Ok tt /\ bool_decide (B "libc.so" ∈ libs_seen s) = true /\
  bool_decide (path_key (B "/usr/lib64/libc.so") ∈ paths_seen s) = false.
Proof. vm_compute. done. Qed.

(** A library whose path is seen before the call, as a filter line makes it, is
    recorded, but its path is not archived. *)
Example seen_library_left_out :
  let s := set_paths {[path_key (B "/usr/lib64/libc.so")]} ElfRun.start in
  let '(r, s') := gather_archive_elfs ElfRun.host ElfRun.elf_open 10 [Name (B "sh")] s in
  r = Ok tt /\ bool_decide (B "libc.so" ∈ libs_seen s') = true /\
  contains (B "usr/lib/ld.so") (vec_data (cpio_writer s')) = true /\
  contains (B "usr/lib64/libc.so") (vec_data (cpio_writer s')) = false.
Proof. vm_compute. done. Qed.

