(* ===== verification/CutTermination.v ===== *)
(** * rapido-cut: the work stacks run empty

    Executables and data trees are gathered with a stack of work: an entry may
    push others. On a host where the entries that can come up lie at finitely
    many paths, the loops end, within a number of rounds given by the paths not
    yet seen; so the fuel of the model is no restriction there. *)

From S2P Require Import Prelude RustStr RustPath RustIo KvConf Cpio CpioArchive Host Kmod Cut.
From S2P Require Import CutManifest CutSpec CutElfSpec.

#[local] Set Warnings "-clear-no-such-hyp".

(** ** A stack of work *)

Section Work.
Context {W A : Type} (step : A -> Cut W (list A)) (loop : nat -> list A -> Cut W unit).
Context (Hnil : forall fuel, loop fuel [] = sret tt).
Context (Hcons : forall fuel x l, loop (S fuel) (x :: l) =
  sbind (step x) (fun pushed => loop fuel (push_all pushed l))).
(** the work that can come up, the paths it is for, how much one round pushes *)
Context (P : A -> Prop) (U : gset (list Component)) (M : nat).

(** A round pushes nothing, or records a new path of [U]. *)
Definition progress (s : CutState W) (r : result cut_error (list A)) (s' : CutState W) : Prop :=
  match r with
  | Ok pushed => Forall P pushed /\ (paths_seen s ⊆ paths_seen s') /\
      (pushed = [] \/ (length pushed <= M)%nat /\
       exists k, k ∈ U /\ (k ∉ paths_seen s) /\ k ∈ paths_seen s')
  | Err NoFuel => False
  | _ => True
  end.

Definition paths_left (s : CutState W) : nat := size (U ∖ paths_seen s).

Lemma paths_left_mono s s' : paths_seen s ⊆ paths_seen s' -> (paths_left s' <= paths_left s)%nat.
Proof. intros Hs. unfold paths_left. apply subseteq_size. set_solver. Qed.

Lemma paths_left_new s s' k : paths_seen s ⊆ paths_seen s' -> k ∈ U -> k ∉ paths_seen s ->
  k ∈ paths_seen s' -> (paths_left s' < paths_left s)%nat.
Proof. intros Hs HU Hn Hk. unfold paths_left. apply subset_size. split; [set_solver|]. intros Hsub. set_solver. Qed.

Lemma work_ends : (forall x s, P x -> progress s (fst (step x s)) (snd (step x s))) ->
  forall fuel l s, Forall P l -> (paths_left s * S M + length l <= fuel)%nat ->
  fst (loop fuel l s) <> Err NoFuel.
Proof.
  intros Hstep fuel. induction fuel as [|fuel IH]; intros [|x l] s Hl Hf; try by rewrite Hnil.
  { simpl in Hf. lia. }
  rewrite Hcons. unfold sbind. apply Forall_cons in Hl as [Hx Hl]. specialize (Hstep x s Hx).
  destruct (step x s) as [[pushed|[e|]|] s']; simpl in *; [|done|done|done].
  destruct Hstep as (HP & Hs & Hdone). apply IH.
  { unfold push_all. apply Forall_app. split; [by apply Forall_reverse|done]. }
  unfold push_all. rewrite length_app, length_reverse.
  destruct Hdone as [->|(Hm & k & HU & Hn & Hk)].
  - pose proof (paths_left_mono s s' Hs). simpl. nia.
  - pose proof (paths_left_new s s' k Hs HU Hn Hk). nia.
Qed.
End Work.

(** ** Steps that end, forget no path and leave the manifests alone *)

Section Steady.
Context {W : Type} `{Write W}.
Implicit Types s : CutState W.

Definition steady {A} (c : Cut W A) : Prop := forall s,
  fst (c s) <> Err NoFuel /\ paths_seen s ⊆ paths_seen (snd (c s)) /\ fests (snd (c s)) = fests s.

Lemma y_same {A} (c : Cut W A) :
  (forall s, fst (c s) <> Err NoFuel /\ paths_seen (snd (c s)) = paths_seen s /\ fests (snd (c s)) = fests s) ->
  steady c.
Proof. intros Hc s. destruct (Hc s) as (? & -> & ?). by split. Qed.

Lemma steady_ok {A} (c : Cut W A) s a s' : steady c -> c s = (Ok a, s') -> paths_seen s ⊆ paths_seen s'.
Proof. intros Hc Hr. destruct (Hc s) as (_ & Hs & _). by rewrite Hr in Hs. Qed.

Lemma y_sret {A} (a : A) : steady (sret a).
Proof. by apply y_same. Qed.
Lemma y_cfail {A} e : steady (cfail e : Cut W A).
Proof. by apply y_same. Qed.
Lemma y_spanic {A} : steady (spanic : Cut W A).
Proof. by apply y_same. Qed.
Lemma y_sget : steady (sget : Cut W (CutState W)).
Proof. by apply y_same. Qed.
Lemma y_clift {A} (r : io A) : steady (clift r : Cut W A).
Proof. apply y_same. intros s. by destruct r. Qed.
Lemma y_assert b : steady (sassert b : Cut W unit).
Proof. apply y_same. intros s. by destruct b. Qed.
Lemma y_contains p : steady (paths_contains (W := W) p).
Proof. by apply y_same. Qed.
Lemma y_insert p : steady (paths_insert (W := W) p).
Proof. intros s. split_and!; [done| |done]. simpl. set_solver. Qed.
Lemma y_cpio {A} (c : Arch W A) : steady (cpio c).
Proof. apply y_same. intros s. unfold cpio. by destruct (c (arch s)) as [[] ?]. Qed.

Lemma y_bind {A C} (c : Cut W A) (f : A -> Cut W C) :
  steady c -> (forall a, steady (f a)) -> steady (sbind c f).
Proof.
  intros Hc Hf s. unfold sbind. destruct (Hc s) as (Hn & Hs & He).
  destruct (c s) as [[a|e|] s1]; simpl in *; [|by split; [congruence|]|done].
  destruct (Hf a s1) as (Hn1 & Hs1 & He1). split_and!; [done|set_solver|congruence].
Qed.

Lemma y_amd md : steady (amd_from (W := W) md).
Proof. apply y_bind; [apply y_sget|]. intros s. apply y_clift. Qed.
End Steady.

#[export] Hint Resolve y_sret y_cfail y_spanic y_sget y_clift y_assert y_contains y_insert y_cpio y_amd : rapido.

(** Walk down a computation made of steady steps. *)
Ltac steady_step :=
  first
    [ progress auto with rapido
    | match goal with
      | |- steady (sbind _ _) => apply y_bind; [|let x := fresh "x" in intros x]
      | |- steady (if ?b then _ else _) => destruct b
      | |- steady (match ?x with _ => _ end) => destruct x
      end ].
Ltac steady := repeat steady_step.

Section Dirs.
Context {W : Type} `{Write W}.

Lemma y_dirs_loop comps here amd : steady (gather_dirs_loop (W := W) comps here amd).
Proof.
  revert here. induction comps as [|[| | |n] comps IH]; intros here; cbn [gather_dirs_loop]; steady.
Qed.

Lemma y_dirs p amd : steady (gather_archive_dirs (W := W) p amd).
Proof. unfold gather_archive_dirs. pose proof y_dirs_loop. steady. Qed.
End Dirs.

Section Gathering.
Context {W : Type} `{Write W} (host : Host) (elf_open : bytes -> option Elf).
Implicit Types s : CutState W.

Lemma y_file_deps ent amd f : steady (file_deps (W := W) elf_open ent amd f).
Proof.
  unfold file_deps. destruct (_ || _); [|auto with rapido]. apply y_same. intros s.
  unfold sbind, sget, sput. by destruct (elf_deps _ _) as [[] ?].
Qed.

Lemma y_elf_one ent src dst amd : steady (gather_elf_one (W := W) host elf_open ent src dst amd).
Proof.
  unfold gather_elf_one. destruct (is_type (mode amd) S_IFLNK).
  { destruct ent; steady. }
  destruct (_ && _).
  { apply y_bind; [auto with rapido|]. intros f. apply y_bind; [apply (y_file_deps ent)|].
    intros deps. steady. }
  unfold read_dir_sorted. steady.
Qed.

Lemma y_elf_ent ent : steady (gather_elf_ent (W := W) host elf_open ent).
Proof.
  unfold gather_elf_ent. pose proof (@y_dirs W _). pose proof y_elf_one.
  destruct (path_stat host ent) as [got|e|]; [|destruct ent; steady|steady].
  set (dst := match ent with NameDst _ d => d | _ => fs_path got end). clearbody dst.
  set (b := match ent with NameDst _ d => is_absolute d | _ => true end). clearbody b. steady.
Qed.

(** ** Executables *)

(** [P] is closed under what an entry makes the tool gather next, everything it
    holds of is archived at a path of [U], and one entry pushes at most [M]. *)
Record elf_closed (P : GatherEnt -> Prop) (U : gset (list Component)) (M : nat) : Prop := {
  ec_path : forall ent got, P ent -> path_stat host ent = Ok got -> path_key (ent_dst ent got) ∈ U;
  ec_link : forall ent got t, P ent -> path_stat host ent = Ok got ->
    is_type (st_mode (fs_md got)) S_IFLNK = true -> host_canonicalize host (fs_path got) = Ok t ->
    (1 <= M)%nat /\ P (if is_lib_ent ent then Lib t else Name t);
  ec_dir : forall ent got names, P ent -> path_stat host ent = Ok got ->
    is_type (st_mode (fs_md got)) S_IFDIR = true -> host_read_dir host (fs_path got) = Ok names ->
    (length names <= M)%nat /\ Forall (fun n => P (Path (join (fs_path got) n))) names;
  ec_file : forall ent got f libs deps libs', P ent -> path_stat host ent = Ok got ->
    is_type (st_mode (fs_md got)) S_IFREG = true -> host_open host (fs_path got) = Ok f ->
    elf_deps (elf_open (rd_data f)) libs = (Ok deps, libs') ->
    (length deps <= M)%nat /\ Forall P deps;
}.

Lemma elf_one_pushes P U M ent got dst amd s pushed s' : elf_closed P U M -> P ent ->
  path_stat host ent = Ok got -> mode amd = st_mode (fs_md got) ->
  gather_elf_one host elf_open ent (fs_path got) dst amd s = (Ok (Some pushed), s') ->
  (length pushed <= M)%nat /\ Forall P pushed.
Proof.
  intros [_ Hlink Hdir Hfile] HP Hst Hm. unfold gather_elf_one. rewrite Hm.
  destruct (is_type (st_mode (fs_md got)) S_IFLNK) eqn:Hl.
  { intros Hr. assert (exists t, host_canonicalize host (fs_path got) = Ok t /\
      pushed = [if is_lib_ent ent then Lib t else Name t]) as (t & Ht & ->).
    { assert (forall t, (do* cpio (archive_symlink dst amd t) ;;
        match from_utf8 t with Some t => sret (Some [if is_lib_ent ent then Lib t else Name t])
        | None => cfail (err_from InvalidInput) end : Cut W _) s = (Ok (Some pushed), s') ->
        pushed = [if is_lib_ent ent then Lib t else Name t]) as Hpush.
      { intros t ([] & s1 & _ & Hr1)%sbind_inv_ok. unfold from_utf8 in Hr1.
        destruct (utf8_valid t); [|done]. unfold sret in Hr1. by simplify_eq. }
      destruct (host_canonicalize host (fs_path got)) as [t|e|]; [|by destruct ent..].
      exists t. split; [done|]. destruct ent; first [by apply Hpush|done]. }
    destruct (Hlink _ _ _ HP Hst Hl Ht) as [? ?]. split; [done|by constructor]. }
  destruct (is_type (st_mode (fs_md got)) S_IFREG && (0 <? len amd)) eqn:Hreg.
  { apply andb_true_iff in Hreg as [Hreg _].
    intros (f & s1 & Hf & Hr)%sbind_inv_ok. unfold clift, slift in Hf.
    destruct (host_open host (fs_path got)) as [f0|e|] eqn:Ho; cbn [map_err] in Hf; [|done..].
    injection Hf as -> <-. apply sbind_inv_ok in Hr as (deps & s2 & Hd & Hr).
    apply sbind_inv_ok in Hr as ([] & s3 & _ & Hr). unfold sret in Hr. simplify_eq.
    destruct (_ || _) in Hd; [|unfold sret in Hd; simplify_eq; split; [simpl; lia|done]].
    unfold sbind, sget, sput in Hd.
    destruct (elf_deps _ _) as [[d|e|] libs] eqn:He; unfold sret in Hd; simplify_eq;
      [by eapply Hfile|split; [simpl; lia|done]..]. }
  destruct (is_type (st_mode (fs_md got)) S_IFDIR) eqn:Hd; intros ([] & s1 & _ & Hr)%sbind_inv_ok.
  - apply sbind_inv_ok in Hr as (es & s2 & Hes & Hr). unfold sret in Hr. simplify_eq.
    unfold read_dir_sorted in Hes. apply sbind_inv_ok in Hes as (ns & s3 & Hns & Hes).
    unfold clift, slift in Hns. destruct (host_read_dir host _) as [names|e|] eqn:Hrd; cbn [map_err] in Hns; [|done..].
    unfold sret in Hes. simplify_eq. destruct (Hdir _ _ _ HP Hst Hd Hrd) as [Hlen Hall].
    rewrite length_fmap, sort_by_length, length_fmap. split; [done|].
    apply Forall_fmap, sort_by_Forall, Forall_fmap. done.
  - unfold sret in Hr. simplify_eq. split; [simpl; lia|done].
Qed.

Lemma elf_ent_progress P U M ent s : elf_closed P U M -> P ent ->
  progress P U M s (fst (gather_elf_ent host elf_open ent s)) (snd (gather_elf_ent host elf_open ent s)).
Proof.
  intros Hc HP. destruct (y_elf_ent ent s) as (Hn & Hs & _).
  destruct (gather_elf_ent host elf_open ent s) as [[pushed|[e|]|] s'] eqn:Hr; simpl in *; [|done..].
  apply gather_elf_ent_inv in Hr. destruct (path_stat host ent) as [got|e|] eqn:Hst; [| |done].
  2: { destruct Hr as (_ & -> & ->). split_and!; [done|done|by left]. }
  destruct (decide _) as [Hin|Hnew]; [destruct Hr as [-> ->]; split_and!; [done|done|by left]|].
  destruct Hr as (amd & s1 & r & s2 & Hamd & _ & Hone & -> & ->).
  pose proof (archive_md_from_fields _ _ _ Hamd) as [Hm _].
  destruct r as [ents|]; cbn [default]; [|split_and!; [done|done|by left]].
  apply (elf_one_pushes P U M) in Hone as [Hlen Hall]; [|done..].
  split_and!; [done|done|]. right. split; [done|].
  exists (path_key (ent_dst ent got)). split_and!; [by eapply ec_path|done|]. simpl. set_solver.
Qed.

End Gathering.

(** ** Data trees *)

Section Trees.
Context {W : Type} `{Write W} (host : Host).
Implicit Types s : CutState W.

Lemma y_item_one item amd : steady (gather_item_one (W := W) host item amd).
Proof. unfold gather_item_one. steady. Qed.

Lemma y_item item : steady (gather_item (W := W) host item).
Proof.
  unfold gather_item. pose proof (@y_dirs W _). pose proof y_item_one.
  destruct (host_symlink_metadata host (gi_src item)) as [md|e|]; steady.
Qed.

(** The same for the items of a tree: the children of directories. *)
Record data_closed (P : GatherItem -> Prop) (U : gset (list Component)) (M : nat) : Prop := {
  dc_path : forall i md, P i -> host_symlink_metadata host (gi_src i) = Ok md -> path_key (gi_dst i) ∈ U;
  dc_dir : forall i md names, P i -> host_symlink_metadata host (gi_src i) = Ok md ->
    is_type (st_mode md) S_IFDIR = true -> host_read_dir host (gi_src i) = Ok names ->
    (length names <= M)%nat /\
    Forall (fun n => P (MkItem (join (gi_src i) n) (join (gi_dst i) n) GATHER_ITEM_IGNORE_PARENT)) names;
}.

Lemma item_one_pushes P U M item md amd s pushed s' : data_closed P U M -> P item ->
  host_symlink_metadata host (gi_src item) = Ok md -> mode amd = st_mode md ->
  gather_item_one host item amd s = (Ok pushed, s') -> (length pushed <= M)%nat /\ Forall P pushed.
Proof.
  intros [_ Hdir] HP Hmd Hm [-> _]%gather_item_one_spec. unfold child_items, child_names. rewrite Hm.
  assert ((0 <= M)%nat /\ @Forall GatherItem P []) as Hnil by (split; [lia|constructor]).
  destruct (is_type (st_mode md) S_IFDIR) eqn:Hd; [|exact Hnil].
  destruct (host_read_dir host _) as [names|e|] eqn:Hrd; [|exact Hnil..].
  destruct (Hdir _ _ _ HP Hmd Hd Hrd) as [Hlen Hall]. rewrite length_fmap, sort_by_length.
  split; [done|]. by apply Forall_fmap, sort_by_Forall.
Qed.

Lemma item_progress P U M item s : data_closed P U M -> P item ->
  progress P U M s (fst (gather_item host item s)) (snd (gather_item host item s)).
Proof.
  intros Hc HP. destruct (y_item item s) as (Hn & Hs & _).
  destruct (gather_item host item s) as [[pushed|[e|]|] s'] eqn:Hr; simpl in *; [|done..].
  unfold gather_item in Hr. destruct (host_symlink_metadata host (gi_src item)) as [md|e|] eqn:Hmd;
    [|by case_bool_decide|done].
  apply sbind_inv_ok in Hr as (amd & s1 & Hamd & Hr). apply amd_from_ok in Hamd as [-> Hamd].
  pose proof (archive_md_from_fields _ _ _ Hamd) as [Hm _].
  apply sbind_inv_ok in Hr as (new & s1 & Hnew & Hr). unfold paths_insert in Hnew. injection Hnew as <- <-.
  case_bool_decide as Hold; cbn [negb] in Hr; [|unfold sret in Hr; simplify_eq; split_and!; [done|done|by left]].
  apply sbind_inv_ok in Hr as ([] & s2 & Hd & Hr).
  apply steady_ok in Hd as Hs2; [|pose proof (@y_dirs W _); steady].
  pose proof (steady_ok _ _ _ _ (y_item_one item amd) Hr) as Hs3. cbn [paths_seen set_paths] in Hs2.
  apply (item_one_pushes P U M _ md) in Hr as [Hlen Hall]; [|done..].
  split_and!; [done|done|]. right. split; [done|]. exists (path_key (gi_dst item)).
  split_and!; [by eapply dc_path|done|]. set_solver.
Qed.
End Trees.

(** Gathering executables ends: when all the entries that can come up (the ones
    asked for, the targets of links, the children of directories and the
    libraries of files) lie at finitely many paths [U], and none brings more
    than [M] others, the loop is over within a number of rounds that the paths of
    [U] not yet seen determine, cycles of links and of libraries included: the
    model's fuel is then no restriction. *)
Theorem gather_elfs_terminates {W} `{Write W} host elf_open P U M fuel elfs (s : CutState W) :
  elf_closed host elf_open P U M -> Forall P elfs ->
  (size (U ∖ paths_seen s) * S M + length elfs <= fuel)%nat ->
  fst (gather_archive_elfs host elf_open fuel elfs s) <> Err NoFuel.
Proof.
  intros Hc. apply (work_ends (gather_elf_ent host elf_open)).
  - by intros [].
  - done.
  - intros ent s1 HP. by apply elf_ent_progress.
Qed.

(** Gathering a data tree ends: when the items that can come up below the ones
    asked for are archived at finitely many paths [U], and no directory has more
    than [M] entries, the loop is over within a number of rounds that the paths
    of [U] not yet seen determine. Symbolic links are archived, not followed,
    so they cannot make a tree infinite. *)
Theorem gather_data_terminates {W} `{Write W} host P U M fuel items (s : CutState W) :
  data_closed host P U M -> Forall P items ->
  (size (U ∖ paths_seen s) * S M + length items <= fuel)%nat ->
  fst (gather_archive_data host fuel items s) <> Err NoFuel.
Proof.
  intros Hc. apply (work_ends (gather_item host)).
  - by intros [].
  - done.
  - intros item s1 HP. by apply item_progress.
Qed.

(** ** A directory that holds a link to itself *)

Module LoopRun.
Definition dir : Metadata := MkStat 0 (Z.lor S_IFDIR O755) 0 2 0 0 0.
Definition link : Metadata := MkStat 0 (Z.lor S_IFLNK O777) 0 1 2 0 0.
Definition stat (p : path) : io Metadata :=
  if bool_decide (p = B "/d") then Ok dir else if bool_decide (p = B "/d/x") then Ok link
  else Err (err_from NotFound).
Definition host : Host := {|
  host_open _ := Err (err_from NotFound);
  host_metadata _ := Ok dir;
  host_symlink_metadata := stat;
  host_read_link _ := Ok (B "/d");
  host_canonicalize _ := Ok (B "/d");
  host_dir_entries p := if bool_decide (p = B "/d") then Ok [Ok (B "x")] else Err (err_from NotFound);
  host_env _ := None;
  host_cwd := B "/" |}.
Definition start : CutState Vector := cut_start (MkVector []).
Definition paths : gset (list Component) := {[path_key (B "/d"); path_key (B "/d/x")]}.
Definition ents : list GatherEnt := [Name (B "/d"); Path (B "/d"); Path (B "/d/x")].
Definition items : list GatherItem :=
  [MkItem (B "/d") (B "/d") 0; MkItem (B "/d/x") (B "/d/x") GATHER_ITEM_IGNORE_PARENT].

Lemma stat_elf ent got : ent ∈ ents -> path_stat host ent = Ok got ->
  got = MkFsent (B "/d") dir \/ got = MkFsent (B "/d/x") link /\ ent = Path (B "/d/x").
Proof.
  intros He. repeat (apply elem_of_cons in He as [->|He]; [vm_compute; intros [= <-]; auto|]).
  by apply not_elem_of_nil in He.
Qed.

Lemma elfs_closed : elf_closed host (fun _ => None) (.∈ ents) paths 1.
Proof.
  split.
  - intros ent got He Hst. destruct (stat_elf _ _ He Hst) as [->|[-> ->]].
    + repeat (apply elem_of_cons in He as [->|He]; [unfold paths; set_solver|]). by apply not_elem_of_nil in He.
    + unfold paths. set_solver.
  - intros ent got t He Hst Hl Ht. destruct (stat_elf _ _ He Hst) as [->|[-> ->]]; [done|].
    injection Ht as <-. split; [lia|]. simpl. apply (bool_decide_unpack (_ ∈ ents)). by vm_compute.
  - intros ent got names He Hst Hd Hn. destruct (stat_elf _ _ He Hst) as [->|[-> ->]]; [|done].
    injection Hn as <-. split; [done|]. constructor; [|constructor].
    apply (bool_decide_unpack (_ ∈ ents)). by vm_compute.
  - by intros.
Qed.

Lemma items_closed : data_closed host (.∈ items) paths 1.
Proof.
  assert (forall i, i ∈ items -> i = MkItem (B "/d") (B "/d") 0 \/
    i = MkItem (B "/d/x") (B "/d/x") GATHER_ITEM_IGNORE_PARENT) as Hin.
  { intros i [Hi|[Hi|Hi]%elem_of_cons]%elem_of_cons; [by left|by right|by apply not_elem_of_nil in Hi]. }
  split.
  - intros i md [->| ->]%Hin _; unfold paths; set_solver.
  - intros i md names [->| ->]%Hin Hmd Hd Hn; [|done]. injection Hn as <-. split; [done|].
    constructor; [|constructor]. right. constructor.
Qed.
End LoopRun.

Lemma gather_elfs_terminates_witness :
  fst (gather_archive_elfs LoopRun.host (fun _ => None) 5 [Name (B "/d")] LoopRun.start) <> Err NoFuel.
Proof.
  apply (gather_elfs_terminates LoopRun.host (fun _ => None) (.∈ LoopRun.ents) LoopRun.paths 1).
  - apply LoopRun.elfs_closed.
  - constructor; [left|constructor].
  - apply (bool_decide_unpack (_ <= _)%nat). by vm_compute.
Defined.

Lemma gather_data_terminates_witness :
  fst (gather_archive_data LoopRun.host 5 [MkItem (B "/d") (B "/d") 0] LoopRun.start) <> Err NoFuel.
Proof.
  apply (gather_data_terminates LoopRun.host (.∈ LoopRun.items) LoopRun.paths 1).
  - apply LoopRun.items_closed.
  - constructor; [left|constructor].
  - apply (bool_decide_unpack (_ <= _)%nat). by vm_compute.
Defined.
