(* ===== verification/Elf.v ===== *)
(** * The ELF parser (src/src/third_party/rust-elf/src/)

    rapido-cut uses the vendored crate to find the libraries an executable
    needs: [ElfStream::open_stream], [dynamic], [dynamic_symbol_table] and
    [StringTable::get], for files of either class and byte order. The stream is
    the content of the file; [usize] has 64 bits. *)

From S2P Require Import Prelude RustStr.

(** ** Errors (parse.rs) *)

Inductive ParseError :=
  | BadMagic (magic : bytes)
  | UnsupportedElfClass (c : Z)
  | UnsupportedElfEndianness (d : Z)
  | UnsupportedVersion (found expected : Z)
  | BadOffset (off : Z)
  | StringTableMissingNul (off : Z)
  | BadEntsize (found expected : Z)
  | SliceReadError (start stop : Z)
  | IntegerOverflow
  | Utf8Error
  | IOError (e : io_error).

#[export] Instance ParseError_eq_dec : EqDecision ParseError.
Proof. solve_decision. Defined.

(** ** Constants (abi.rs) *)

Definition EI_CLASS : nat := 4.
Definition EI_DATA : nat := 5.
Definition EI_VERSION : nat := 6.
Definition EI_OSABI : nat := 7.
Definition EI_ABIVERSION : nat := 8.
Definition EI_NIDENT : Z := 16.
Definition ELFMAGIC : bytes := [0x7f; 0x45; 0x4c; 0x46].
Definition ELFCLASS32 : Z := 1.
Definition ELFCLASS64 : Z := 2.
Definition ELFDATA2LSB : Z := 1.
Definition ELFDATA2MSB : Z := 2.
Definition EV_CURRENT : Z := 1.
Definition PN_XNUM : Z := 0xffff.
Definition PT_DYNAMIC : Z := 2.
Definition SHT_DYNAMIC : Z := 6.
Definition SHT_DYNSYM : Z := 11.

(** ** Integers (endian.rs) *)

Inductive AnyEndian := Little | Big.

#[export] Instance AnyEndian_eq_dec : EqDecision AnyEndian.
Proof. solve_decision. Defined.

Definition from_ei_data (ei_data : Z) : result ParseError AnyEndian :=
  if ei_data =? ELFDATA2LSB then Ok Little
  else if ei_data =? ELFDATA2MSB then Ok Big
  else Err (UnsupportedElfEndianness ei_data).

(** [from_le_bytes], [from_be_bytes] *)
Fixpoint le_combine (b : bytes) : Z :=
  match b with [] => 0 | c :: b => c + 256 * le_combine b end.
Definition combine (e : AnyEndian) (b : bytes) : Z :=
  match e with Little => le_combine b | Big => le_combine (reverse b) end.

Definition USIZE : Z := 2 ^ 64.
Definition checked_add (a b : Z) : result ParseError Z :=
  if a + b <? USIZE then Ok (a + b) else Err IntegerOverflow.
Definition checked_mul (a b : Z) : result ParseError Z :=
  if a * b <? USIZE then Ok (a * b) else Err IntegerOverflow.

(** the bytes from [start] to [stop] *)
Definition slice (start stop : Z) (data : bytes) : bytes :=
  take (Z.to_nat (stop - start)) (drop (Z.to_nat start) data).

(** Parsing moves an offset through the data. *)
Definition Parse (A : Type) : Type := SM Z ParseError A.

(** [safe_from!], for a type of [size] bytes *)
Definition safe_from (size : Z) (e : AnyEndian) (data : bytes) : Parse Z := fun off =>
  match checked_add off size with
  | Ok stop =>
      if stop <=? zlen data then (Ok (combine e (slice off stop data)), stop)
      else (Err (SliceReadError off stop), off)
  | Err err => (Err err, off)
  | Panic => (Panic, off)
  end.

Definition parse_u16_at := safe_from 2.
Definition parse_u32_at := safe_from 4.
Definition parse_u64_at := safe_from 8.

(** the signed value of [bits] bits *)
Definition signed (bits : Z) (v : Z) : Z := if v <? 2 ^ (bits - 1) then v else v - 2 ^ bits.

Definition parse_i32_at (e : AnyEndian) (data : bytes) : Parse Z :=
  let* v := safe_from 4 e data in sret (signed 32 v).
Definition parse_i64_at (e : AnyEndian) (data : bytes) : Parse Z :=
  let* v := safe_from 8 e data in sret (signed 64 v).

(** ** Structures (file.rs, section.rs, segment.rs, dynamic.rs, symbol.rs) *)

Inductive ElfClass := ELF32 | ELF64.

#[export] Instance ElfClass_eq_dec : EqDecision ElfClass.
Proof. solve_decision. Defined.

(** an address or offset: a word of the class *)
Definition parse_word (e : AnyEndian) (c : ElfClass) (data : bytes) : Parse Z :=
  match c with ELF32 => parse_u32_at e data | ELF64 => parse_u64_at e data end.

(** [trait ParseAt] *)
Class ParseAt (P : Type) := {
  parse_at : AnyEndian -> ElfClass -> bytes -> Parse P;
  size_for : ElfClass -> Z;
}.

Definition validate_entsize (P : Type) `{ParseAt P} (c : ElfClass) (entsize : Z) : result ParseError Z :=
  let expected := size_for (P := P) c in
  if entsize =? expected then Ok entsize else Err (BadEntsize entsize expected).

Record FileHeader := MkFileHeader {
  class : ElfClass; endianness : AnyEndian; version : Z; osabi : Z; abiversion : Z;
  e_type : Z; e_machine : Z; e_entry : Z; e_phoff : Z; e_shoff : Z; e_flags : Z; e_ehsize : Z;
  e_phentsize : Z; e_phnum : Z; e_shentsize : Z; e_shnum : Z; e_shstrndx : Z;
}.

Record SectionHeader := MkShdr {
  sh_name : Z; sh_type : Z; sh_flags : Z; sh_addr : Z; sh_offset : Z; sh_size : Z;
  sh_link : Z; sh_info : Z; sh_addralign : Z; sh_entsize : Z;
}.

Record ProgramHeader := MkPhdr {
  p_type : Z; p_offset : Z; p_vaddr : Z; p_paddr : Z; p_filesz : Z; p_memsz : Z;
  p_flags : Z; p_align : Z;
}.

Record Dyn := MkDyn { d_tag : Z; d_un : Z }.

Definition ELF32_EHDR_TAILSIZE : Z := 36.
Definition ELF64_EHDR_TAILSIZE : Z := 48.

(** out of range, [split_at] and an index panic *)
Definition verify_ident (buf : bytes) : result ParseError unit :=
  if (length buf <? EI_CLASS)%nat then Panic
  else
    let magic := take EI_CLASS buf in
    if negb (bool_decide (magic = ELFMAGIC)) then Err (BadMagic magic)
    else
      let? version := unwrap (buf !! EI_VERSION) in
      if negb (version =? EV_CURRENT) then Err (UnsupportedVersion version EV_CURRENT) else Ok tt.

Definition parse_ident (data : bytes) : result ParseError (AnyEndian * ElfClass * Z * Z) :=
  let? _ := verify_ident data in
  let? e_class := unwrap (data !! EI_CLASS) in
  let? class := (if e_class =? ELFCLASS32 then Ok ELF32
                 else if e_class =? ELFCLASS64 then Ok ELF64
                 else Err (UnsupportedElfClass e_class)) in
  let? ei_data := unwrap (data !! EI_DATA) in
  let? file_endian := from_ei_data ei_data in
  let? osabi := unwrap (data !! EI_OSABI) in
  let? abiversion := unwrap (data !! EI_ABIVERSION) in
  Ok (file_endian, class, osabi, abiversion).

Definition parse_tail_at (ident : AnyEndian * ElfClass * Z * Z) (data : bytes) : Parse FileHeader :=
  let '(e, class, osabi, abiversion) := ident in
  let* e_type := parse_u16_at e data in
  let* e_machine := parse_u16_at e data in
  let* version := parse_u32_at e data in
  let* e_entry := parse_word e class data in
  let* e_phoff := parse_word e class data in
  let* e_shoff := parse_word e class data in
  let* e_flags := parse_u32_at e data in
  let* e_ehsize := parse_u16_at e data in
  let* e_phentsize := parse_u16_at e data in
  let* e_phnum := parse_u16_at e data in
  let* e_shentsize := parse_u16_at e data in
  let* e_shnum := parse_u16_at e data in
  let* e_shstrndx := parse_u16_at e data in
  sret (MkFileHeader class e version osabi abiversion e_type e_machine e_entry e_phoff e_shoff e_flags
          e_ehsize e_phentsize e_phnum e_shentsize e_shnum e_shstrndx).

Definition parse_tail (ident : AnyEndian * ElfClass * Z * Z) (data : bytes) : result ParseError FileHeader :=
  fst (parse_tail_at ident data 0).

Definition section_header_at (e : AnyEndian) (c : ElfClass) (data : bytes) : Parse SectionHeader :=
  let* sh_name := parse_u32_at e data in
  let* sh_type := parse_u32_at e data in
  let* sh_flags := parse_word e c data in
  let* sh_addr := parse_word e c data in
  let* sh_offset := parse_word e c data in
  let* sh_size := parse_word e c data in
  let* sh_link := parse_u32_at e data in
  let* sh_info := parse_u32_at e data in
  let* sh_addralign := parse_word e c data in
  let* sh_entsize := parse_word e c data in
  sret (MkShdr sh_name sh_type sh_flags sh_addr sh_offset sh_size sh_link sh_info sh_addralign sh_entsize).

#[export] Instance section_header_parse : ParseAt SectionHeader := {|
  parse_at := section_header_at;
  size_for c := match c with ELF32 => 40 | ELF64 => 64 end;
|}.

(** the fields come in another order in the 64-bit class *)
Definition program_header_at (e : AnyEndian) (c : ElfClass) (data : bytes) : Parse ProgramHeader :=
  match c with
  | ELF32 =>
      let* p_type := parse_u32_at e data in
      let* p_offset := parse_u32_at e data in
      let* p_vaddr := parse_u32_at e data in
      let* p_paddr := parse_u32_at e data in
      let* p_filesz := parse_u32_at e data in
      let* p_memsz := parse_u32_at e data in
      let* p_flags := parse_u32_at e data in
      let* p_align := parse_u32_at e data in
      sret (MkPhdr p_type p_offset p_vaddr p_paddr p_filesz p_memsz p_flags p_align)
  | ELF64 =>
      let* p_type := parse_u32_at e data in
      let* p_flags := parse_u32_at e data in
      let* p_offset := parse_u64_at e data in
      let* p_vaddr := parse_u64_at e data in
      let* p_paddr := parse_u64_at e data in
      let* p_filesz := parse_u64_at e data in
      let* p_memsz := parse_u64_at e data in
      let* p_align := parse_u64_at e data in
      sret (MkPhdr p_type p_offset p_vaddr p_paddr p_filesz p_memsz p_flags p_align)
  end.

#[export] Instance program_header_parse : ParseAt ProgramHeader := {|
  parse_at := program_header_at;
  size_for c := match c with ELF32 => 32 | ELF64 => 56 end;
|}.

Definition dyn_at (e : AnyEndian) (c : ElfClass) (data : bytes) : Parse Dyn :=
  match c with
  | ELF32 => let* tag := parse_i32_at e data in
             let* un := parse_u32_at e data in sret (MkDyn tag un)
  | ELF64 => let* tag := parse_i64_at e data in
             let* un := parse_u64_at e data in sret (MkDyn tag un)
  end.

#[export] Instance dyn_parse : ParseAt Dyn := {|
  parse_at := dyn_at;
  size_for c := match c with ELF32 => 8 | ELF64 => 16 end;
|}.

(** [Symbol::size_for]; its fields are not used *)
Definition symbol_size_for (c : ElfClass) : Z := match c with ELF32 => 16 | ELF64 => 24 end.

(** [get_data_range] and [get_file_data_range] *)
Definition get_data_range (shdr : SectionHeader) : result ParseError (Z * Z) :=
  let? stop := checked_add (sh_offset shdr) (sh_size shdr) in Ok (sh_offset shdr, stop).
Definition get_file_data_range (phdr : ProgramHeader) : result ParseError (Z * Z) :=
  let? stop := checked_add (p_offset phdr) (p_filesz phdr) in Ok (p_offset phdr, stop).

(** ** Tables (parse.rs) *)

Record ParsingTable (P : Type) := MkTable { t_endian : AnyEndian; t_class : ElfClass; t_data : bytes }.
Arguments MkTable {P}.
Arguments t_endian {P}.
Arguments t_class {P}.
Arguments t_data {P}.

Section Table.
Context {P : Type} `{ParseAt P}.

(** repeated [next]: entries are parsed until one cannot be *)
Fixpoint iter_from (fuel : nat) (t : ParsingTable P) (off : Z) : list P :=
  match fuel with
  | O => []
  | S fuel =>
      match parse_at (t_endian t) (t_class t) (t_data t) off with
      | (Ok p, off') => p :: iter_from fuel t off'
      | _ => []
      end
  end.

(** [iter().collect()]; every entry takes at least one byte *)
Definition table_iter (t : ParsingTable P) : list P :=
  if bool_decide (t_data t = []) then [] else iter_from (S (length (t_data t))) t 0.
End Table.

(** ** Strings (string_table.rs) *)

Definition get_raw (data : bytes) (offset : Z) : result ParseError bytes :=
  if bool_decide (data = []) then Err (BadOffset offset)
  else if zlen data <? offset then Err (BadOffset offset)
  else
    match split_once (Z.eqb 0) (drop (Z.to_nat offset) data) with
    | Some (s, _) => Ok s
    | None => Err (StringTableMissingNul offset)
    end.

Definition strtab_get (data : bytes) (offset : Z) : result ParseError bytes :=
  let? raw_data := get_raw data offset in ok_or (from_utf8 raw_data) Utf8Error.
