(* ===== verification/ElfStream.v ===== *)
(** * The ELF parser: files (src/src/third_party/rust-elf/src/elf_stream.rs)

    [CachingReader] keeps every range of the file that was read; [ElfStream] holds
    the parsed headers. At the end, what rapido-cut makes of it. *)

From S2P Require Import Prelude RustStr RustPath RustIo Cut Elf.

(** ** The reader *)

(** the stream, its length and the ranges read so far *)
Record CachingReader := MkCaching {
  cr_reader : bytes;
  stream_len : Z;
  bufs : gmap (Z * Z) bytes;
}.

(** [seek(SeekFrom::End(0))] *)
Definition caching_new (reader : bytes) : CachingReader := MkCaching reader (zlen reader) ∅.

Definition Elf_ (A : Type) : Type := SM CachingReader ParseError A.

(** [seek(SeekFrom::Start(..))] and [read_exact] *)
Definition read_range (reader : bytes) (start stop : Z) : result ParseError bytes :=
  let n := Z.max 0 (stop - start) in
  if n <=? Z.max 0 (zlen reader - start) then Ok (slice start (start + n) reader)
  else Err (IOError (err_from UnexpectedEof)).

Definition load_bytes (start stop : Z) : Elf_ unit := fun cr =>
  match bufs cr !! (start, stop) with
  | Some _ => (Ok tt, cr)
  | None =>
      if stream_len cr <? stop then (Err (BadOffset stop), cr)
      else
        match read_range (cr_reader cr) start stop with
        | Ok b => (Ok tt, MkCaching (cr_reader cr) (stream_len cr) (<[(start, stop) := b]> (bufs cr)))
        | Err e => (Err e, cr)
        | Panic => (Panic, cr)
        end
  end.

(** panics for a range that was not loaded *)
Definition get_bytes (start stop : Z) : Elf_ bytes := fun cr =>
  (unwrap (bufs cr !! (start, stop)), cr).

Definition read_bytes (start stop : Z) : Elf_ bytes :=
  do* load_bytes start stop ;; get_bytes start stop.

Definition clear_cache : Elf_ unit :=
  smodify (fun cr => MkCaching (cr_reader cr) (stream_len cr) ∅).

(** ** Headers *)

(** an entry at the start of the data *)
Definition parse_first {P} `{ParseAt P} (ehdr : FileHeader) (data : bytes) : result ParseError P :=
  fst (parse_at (endianness ehdr) (class ehdr) data 0).

Definition parse_section_headers (ehdr : FileHeader) : Elf_ (list SectionHeader) :=
  if e_shoff ehdr =? 0 then sret []
  else
    let* entsize := slift (validate_entsize SectionHeader (class ehdr) (e_shentsize ehdr)) in
    let shoff := e_shoff ehdr in
    let* shnum :=
      if e_shnum ehdr =? 0 then
        let* stop := slift (checked_add shoff entsize) in
        let* data := read_bytes shoff stop in
        let* shdr0 := slift (parse_first (P := SectionHeader) ehdr data) in
        sret (sh_size shdr0)
      else sret (e_shnum ehdr) in
    let* size := slift (checked_mul entsize shnum) in
    let* stop := slift (checked_add shoff size) in
    let* buf := read_bytes shoff stop in
    sret (table_iter (MkTable (P := SectionHeader) (endianness ehdr) (class ehdr) buf)).

Definition parse_program_headers (ehdr : FileHeader) : Elf_ (list ProgramHeader) :=
  if e_phoff ehdr =? 0 then sret []
  else
    let* phnum :=
      if e_phnum ehdr =? PN_XNUM then
        let shoff := e_shoff ehdr in
        let* stop := slift (checked_add shoff (size_for (P := SectionHeader) (class ehdr))) in
        let* data := read_bytes shoff stop in
        let* shdr0 := slift (parse_first (P := SectionHeader) ehdr data) in
        sret (sh_info shdr0)
      else sret (e_phnum ehdr) in
    let* entsize := slift (validate_entsize ProgramHeader (class ehdr) (e_phentsize ehdr)) in
    let phoff := e_phoff ehdr in
    let* size := slift (checked_mul entsize phnum) in
    let* stop := slift (checked_add phoff size) in
    let* buf := read_bytes phoff stop in
    sret (table_iter (MkTable (P := ProgramHeader) (endianness ehdr) (class ehdr) buf)).

(** ** [ElfStream] *)

(** the headers; the reader is the state of the computations *)
Record ElfStream := MkElfStream {
  ehdr : FileHeader;
  shdrs : list SectionHeader;
  phdrs : list ProgramHeader;
}.

Definition ehdr_tail_end (c : ElfClass) : Z :=
  match c with
  | ELF32 => EI_NIDENT + ELF32_EHDR_TAILSIZE
  | ELF64 => EI_NIDENT + ELF64_EHDR_TAILSIZE
  end.

Definition open_headers : Elf_ ElfStream :=
  let* ident_buf := read_bytes 0 EI_NIDENT in
  let* ident := slift (parse_ident ident_buf) in
  let* tail_buf := read_bytes EI_NIDENT (ehdr_tail_end (snd (fst (fst ident)))) in
  let* ehdr := slift (parse_tail ident tail_buf) in
  let* shdrs := parse_section_headers ehdr in
  let* phdrs := parse_program_headers ehdr in
  do* clear_cache ;;
  sret (MkElfStream ehdr shdrs phdrs).

(** with the reader behind it *)
Definition open_stream (reader : bytes) : result ParseError ElfStream * CachingReader :=
  open_headers (caching_new reader).

(** [iter().find(|shdr| shdr.sh_type == t)] *)
Definition find_shdr (t : Z) (shdrs : list SectionHeader) : option SectionHeader :=
  List.find (fun shdr => sh_type shdr =? t) shdrs.
Definition find_phdr (t : Z) (phdrs : list ProgramHeader) : option ProgramHeader :=
  List.find (fun phdr => p_type phdr =? t) phdrs.

Definition dynamic_table (file : ElfStream) (range : Z * Z) : Elf_ (option (ParsingTable Dyn)) :=
  let* buf := read_bytes (fst range) (snd range) in
  sret (Some (MkTable (endianness (ehdr file)) (class (ehdr file)) buf)).

Definition dynamic (file : ElfStream) : Elf_ (option (ParsingTable Dyn)) :=
  match shdrs file with
  | _ :: _ =>
      match find_shdr SHT_DYNAMIC (shdrs file) with
      | Some shdr => let* range := slift (get_data_range shdr) in dynamic_table file range
      | None => sret None
      end
  | [] =>
      match find_phdr PT_DYNAMIC (phdrs file) with
      | Some phdr => let* range := slift (get_file_data_range phdr) in dynamic_table file range
      | None => sret None
      end
  end.

(** the bytes of the symbol table and of its strings *)
Definition get_symbol_table_of_type (file : ElfStream) (symtab_type : Z) :
    Elf_ (option (bytes * bytes)) :=
  match find_shdr symtab_type (shdrs file) with
  | None => sret None
  | Some shdr =>
      let* symtab_range := slift (get_data_range shdr) in
      do* load_bytes (fst symtab_range) (snd symtab_range) ;;
      let* strtab := slift (ok_or (shdrs file !! Z.to_nat (sh_link shdr)) (BadOffset (sh_link shdr))) in
      let* strtab_range := slift (get_data_range strtab) in
      do* load_bytes (fst strtab_range) (snd strtab_range) ;;
      let expected := symbol_size_for (class (ehdr file)) in
      do* (if sh_entsize shdr =? expected then sret tt else sfail (BadEntsize (sh_entsize shdr) expected)) ;;
      let* symtab := get_bytes (fst symtab_range) (snd symtab_range) in
      let* strtab := get_bytes (fst strtab_range) (snd strtab_range) in
      sret (Some (symtab, strtab))
  end.

Definition dynamic_symbol_table (file : ElfStream) : Elf_ (option (bytes * bytes)) :=
  get_symbol_table_of_type file SHT_DYNSYM.

(** ** What rapido-cut asks of a file (elf_deps of src/src/bin/rapido-cut.rs) *)

(** an error, nothing, or something *)
Definition report {A C} (f : A -> C) (r : result ParseError (option A)) : option (option C) :=
  match r with Ok o => Some (f <$> o) | _ => None end.

(** the tags and values of the dynamic section *)
Definition dyn_entries (t : ParsingTable Dyn) : list (Z * Z) :=
  (fun dyna => (d_tag dyna, d_un dyna)) <$> table_iter t.

(** the strings of the dynamic symbols, where there is one *)
Definition dyn_strings (tables : bytes * bytes) (str_off : Z) : option bytes :=
  match strtab_get (snd tables) str_off with Ok s => Some s | _ => None end.

Definition elf_open (data : bytes) : option Elf :=
  match open_stream data with
  | (Ok file, cr) =>
      let '(dynamics, cr) := dynamic file cr in
      let '(tables, _) := dynamic_symbol_table file cr in
      Some (MkElf (report dyn_entries dynamics) (report dyn_strings tables))
  | _ => None
  end.
