(* ===== verification/ElfSpec.v ===== *)
(** * What the ELF parser promises

    For any content of a file the parser does not panic and reports only what
    lies in the file. The headers of a file that was laid out section by
    section are read back, in both classes and byte orders, and so rapido-cut
    finds the libraries that were recorded in it. *)

From S2P Require Import Prelude RustStr RustPath RustIo Cut Elf ElfStream.

#[local] Set Warnings "-clear-no-such-hyp".

(** ** Slices *)

Lemma slice_app pre b post : slice (zlen pre) (zlen pre + zlen b) (pre ++ b ++ post) = b.
Proof.
  unfold slice, zlen. rewrite Nat2Z.id, drop_app_length.
  replace (Z.to_nat _) with (length b) by lia. apply take_app_length.
Qed.

Lemma slice_infix start stop data : exists pre post, data = pre ++ slice start stop data ++ post.
Proof.
  exists (take (Z.to_nat start) data), (drop (Z.to_nat (stop - start)) (drop (Z.to_nat start) data)).
  unfold slice. by rewrite !take_drop.
Qed.

Lemma slice_length start stop data : (length (slice start stop data) <= length data)%nat.
Proof. unfold slice. rewrite length_take, length_drop. lia. Qed.

(** ** The reader *)

Section Reader.
Context (data : bytes).

(** The ranges that were read are what the file holds there. *)
Record cr_ok (cr : CachingReader) : Prop := {
  cr_data : cr_reader cr = data;
  cr_len : stream_len cr = zlen data;
  cr_bufs : forall s e b, bufs cr !! (s, e) = Some b -> e <= zlen data /\ b = slice s e data;
}.

Lemma caching_new_ok : cr_ok (caching_new data).
Proof. split; [done..|]. intros s e b Hb. cbn [bufs caching_new] in Hb. by rewrite lookup_empty in Hb. Qed.

(** Reading without a cache. *)
Definition file_bytes (start stop : Z) : result ParseError bytes :=
  if zlen data <? stop then Err (BadOffset stop) else Ok (slice start stop data).

(** From every reader of the file the outcome is [r]: the cache does not show. *)
Definition runs {A} (c : Elf_ A) (r : result ParseError A) : Prop := forall cr, cr_ok cr ->
  exists cr', cr_ok cr' /\ c cr = (r, cr').

Lemma runs_bind {A C} (c : Elf_ A) (f : A -> Elf_ C) a r :
  runs c (Ok a) -> runs (f a) r -> runs (sbind c f) r.
Proof.
  intros Hc Hf cr Hcr. destruct (Hc cr Hcr) as (cr1 & H1 & E1). destruct (Hf cr1 H1) as (cr2 & H2 & E2).
  exists cr2. split; [done|]. by rewrite (sbind_ok _ _ _ _ _ E1).
Qed.
Lemma runs_bind_err {A C} (c : Elf_ A) (f : A -> Elf_ C) e :
  runs c (Err e) -> runs (sbind c f) (Err e).
Proof.
  intros Hc cr Hcr. destruct (Hc cr Hcr) as (cr1 & H1 & E1). exists cr1. split; [done|].
  by rewrite (sbind_err _ _ _ _ _ E1).
Qed.
Lemma runs_slift {A} (r : result ParseError A) : runs (slift r) r.
Proof. intros cr Hcr. eauto. Qed.
Lemma runs_sret {A} (a : A) : runs (sret a) (Ok a).
Proof. apply runs_slift. Qed.
Lemma runs_sfail {A} e : runs (@sfail _ _ A e) (Err e).
Proof. intros cr Hcr. exists cr. by split. Qed.

Lemma read_range_ok start stop : stop <= zlen data ->
  read_range data start stop = Ok (slice start stop data).
Proof.
  intros Hs. unfold read_range. replace (_ <=? _) with true by lia. f_equal. unfold slice.
  f_equal. lia.
Qed.

Lemma load_bytes_spec start stop cr : cr_ok cr ->
  exists cr', cr_ok cr' /\ bufs cr ⊆ bufs cr' /\
    load_bytes start stop cr = (if zlen data <? stop then Err (BadOffset stop) else Ok tt, cr') /\
    (stop <= zlen data -> bufs cr' !! (start, stop) = Some (slice start stop data)).
Proof.
  intros [Hd Hl Hb]. unfold load_bytes. rewrite Hl, Hd. destruct (bufs cr !! (start, stop)) as [b|] eqn:Hbuf.
  - destruct (Hb _ _ _ Hbuf) as [Hs ->]. replace (zlen data <? stop) with false by lia. exists cr. by split_and!.
  - destruct (Z.ltb_spec (zlen data) stop); [exists cr; split_and!; [done..|lia]|].
    rewrite read_range_ok by done. eexists. split; [|split_and!; [|done|]].
    + split; [done..|]. simpl. intros s e b. rewrite lookup_insert_Some. intros [[[= <- <-] <-]|[_ He]]; [done|by apply Hb].
    + by apply insert_subseteq.
    + intros _. simpl. by rewrite lookup_insert_eq.
Qed.

Lemma runs_read_bytes start stop : runs (read_bytes start stop) (file_bytes start stop).
Proof.
  intros cr Hcr. destruct (load_bytes_spec start stop cr Hcr) as (cr' & Hcr' & _ & Hload & Hget).
  exists cr'. split; [done|]. unfold read_bytes, file_bytes. unfold sbind at 1. rewrite Hload.
  destruct (Z.ltb_spec (zlen data) stop); [done|]. unfold get_bytes. by rewrite Hget.
Qed.

Lemma runs_clear : runs clear_cache (Ok tt).
Proof.
  intros cr [Hd Hl _]. eexists. split; [|done]. split; [done..|]. intros s e b Hb. cbn [bufs caching_new] in Hb. by rewrite lookup_empty in Hb.
Qed.

(** ** Safety *)

(** A computation has an outcome that is no panic and satisfies [Q]. *)
Definition settled {A} (Q : A -> Prop) (c : Elf_ A) : Prop := exists r, runs c r /\
  match r with Ok a => Q a | Err _ => True | Panic => False end.

Lemma settled_bind {A C} (P : A -> Prop) (Q : C -> Prop) (c : Elf_ A) (f : A -> Elf_ C) :
  settled P c -> (forall a, P a -> settled Q (f a)) -> settled Q (sbind c f).
Proof.
  intros ([a|e|] & Hc & Hr) Hf; [| |done].
  - destruct (Hf a Hr) as (r' & Hr' & HQ). exists r'. split; [|done]. by eapply runs_bind.
  - exists (Err e). split; [by apply runs_bind_err|done].
Qed.

Lemma settled_sret {A} (Q : A -> Prop) a : Q a -> settled Q (sret a).
Proof. intros. exists (Ok a). split; [apply runs_sret|done]. Qed.
Lemma settled_sfail {A} (Q : A -> Prop) e : settled Q (sfail e).
Proof. exists (Err e). split; [apply runs_sfail|done]. Qed.
Lemma settled_slift {A} (r : result ParseError A) : r <> Panic -> settled (fun a => r = Ok a) (slift r).
Proof. intros. exists r. split; [apply runs_slift|]. by destruct r. Qed.
Lemma settled_clear : settled (fun _ => True) clear_cache.
Proof. exists (Ok tt). split; [apply runs_clear|done]. Qed.
Lemma settled_read start stop : settled (fun b => b = slice start stop data /\ stop <= zlen data)
  (read_bytes start stop).
Proof.
  exists (file_bytes start stop). split; [apply runs_read_bytes|]. unfold file_bytes.
  destruct (Z.ltb_spec (zlen data) stop); [done|]. by split.
Qed.
End Reader.

(** The integers and structures: parsing them does not panic. *)
Definition calm {A} (c : Parse A) : Prop := forall off, fst (c off) <> Panic.

Lemma calm_bind {A C} (c : Parse A) (f : A -> Parse C) : calm c -> (forall a, calm (f a)) -> calm (sbind c f).
Proof.
  intros Hc Hf off. unfold sbind. specialize (Hc off). destruct (c off) as [[a|e|] o]; [apply Hf|done..].
Qed.
Lemma calm_sret {A} (a : A) : calm (sret a).
Proof. done. Qed.
Lemma calm_int n e data : calm (safe_from n e data).
Proof. intros off. unfold safe_from, checked_add. by repeat case_match. Qed.
Lemma calm_word e c data : calm (parse_word e c data).
Proof. destruct c; apply calm_int. Qed.

#[export] Hint Resolve calm_sret calm_int calm_word : rapido.
#[export] Hint Extern 1 (calm (sbind _ _)) => (apply calm_bind; [|intros]) : rapido.
#[export] Hint Extern 1 (calm (match ?c with ELF32 => _ | ELF64 => _ end)) => destruct c : rapido.

Lemma calm_tail ident data : calm (parse_tail_at ident data).
Proof. destruct ident as [[[e c] o] a]. unfold parse_tail_at, parse_u16_at, parse_u32_at. auto 40 with rapido. Qed.
Lemma calm_shdr e c data : calm (section_header_at e c data).
Proof. unfold section_header_at, parse_u32_at. auto 30 with rapido. Qed.

Lemma parse_ident_calm b : length b = 16%nat -> parse_ident b <> Panic.
Proof.
  intros Hb. do 16 (destruct b as [|? b]; [done|]). unfold parse_ident, verify_ident, from_ei_data.
  cbn [length Nat.ltb Nat.leb take lookup list_lookup EI_CLASS EI_VERSION EI_DATA EI_OSABI EI_ABIVERSION unwrap rbind].
  simpl. by repeat (case_match; simpl).
Qed.

Section Settled.
Context (data : bytes).

Lemma checked_calm a b : checked_add a b <> Panic.
Proof. unfold checked_add. by case_match. Qed.
Lemma checked_mul_calm a b : checked_mul a b <> Panic.
Proof. unfold checked_mul. by case_match. Qed.
Lemma validate_calm P `{ParseAt P} c n : validate_entsize P c n <> Panic.
Proof. unfold validate_entsize. by case_match. Qed.
Lemma parse_first_calm h b : parse_first (P := SectionHeader) h b <> Panic.
Proof. apply calm_shdr. Qed.
Lemma parse_tail_calm ident b : parse_tail ident b <> Panic.
Proof. apply calm_tail. Qed.

(** One step of a computation of the reader. *)
Ltac settle_step :=
  lazymatch goal with
  | |- settled _ _ (sbind (if ?b then _ else _) _) => idtac
  | |- settled _ _ (sbind _ _) => eapply settled_bind
  | |- settled _ _ (if ?b then _ else _) => destruct b
  | |- settled _ (fun a => _ = Ok a) (slift _) => idtac
  | |- settled _ _ (slift _) => apply settled_slift; auto using checked_calm, checked_mul_calm,
        validate_calm, parse_first_calm, parse_tail_calm
  | |- settled _ _ (read_bytes _ _) => apply settled_read
  | |- settled _ _ (sret _) => apply settled_sret
  | |- settled _ _ (sfail _) => apply settled_sfail
  | |- settled _ _ clear_cache => apply settled_clear
  | |- forall _, _ -> _ => let x := fresh "x" in let Hx := fresh "Hx" in intros x Hx
  end.

Lemma settled_weaken {A} (P Q : A -> Prop) (c : Elf_ A) :
  (forall a, P a -> Q a) -> settled data P c -> settled data Q c.
Proof. intros HPQ ([a|e|] & Hr & Ha); [|by exists (Err e)|done]. exists (Ok a). eauto. Qed.

Lemma settled_shdrs h : settled data (fun _ => True) (parse_section_headers h).
Proof.
  unfold parse_section_headers. repeat settle_step; try done.
  eapply (settled_bind _ (fun _ => True)); [repeat settle_step; done|]. intros n _. by repeat settle_step.
Qed.

Lemma settled_phdrs h : settled data (fun _ => True) (parse_program_headers h).
Proof.
  unfold parse_program_headers. repeat settle_step; try done.
  eapply (settled_bind _ (fun _ => True)); [repeat settle_step; done|]. intros n _. by repeat settle_step.
Qed.

Lemma settled_open : settled data (fun _ => True) open_headers.
Proof.
  unfold open_headers. eapply settled_bind; [apply settled_read|]. intros b [-> Hlen].
  eapply settled_bind; [apply settled_slift, parse_ident_calm|].
  { unfold slice. rewrite length_take, length_drop. unfold EI_NIDENT, zlen in *. lia. }
  intros ident _. settle_step; [settle_step|]. intros tail _. settle_step; [settle_step|]. intros h _.
  eapply settled_bind; [apply settled_shdrs|]. intros sh _.
  eapply settled_bind; [apply settled_phdrs|]. intros ph _. by repeat settle_step.
Qed.

(** A part of the file. *)
Definition infix (b : bytes) : Prop := exists pre post, data = pre ++ b ++ post.

Lemma range_calm s : get_data_range s <> Panic.
Proof. unfold get_data_range. pose proof (checked_calm (sh_offset s) (sh_size s)). by destruct (checked_add _ _). Qed.
Lemma file_range_calm s : get_file_data_range s <> Panic.
Proof. unfold get_file_data_range. pose proof (checked_calm (p_offset s) (p_filesz s)). by destruct (checked_add _ _). Qed.

Lemma settled_dynamic file :
  settled data (fun o => match o with Some t => infix (t_data t) | None => True end) (dynamic file).
Proof.
  assert (forall range, settled data (fun o => match o with Some t => infix (t_data t) | None => True end)
    (dynamic_table file range)) as Ht.
  { intros range. unfold dynamic_table. eapply settled_bind; [apply settled_read|]. intros b [-> _].
    apply settled_sret. apply slice_infix. }
  unfold dynamic. destruct (shdrs file) as [|sh shs].
  - destruct (find_phdr _ _); [|by apply settled_sret].
    eapply settled_bind; [apply settled_slift, file_range_calm|]. intros range _. apply Ht.
  - destruct (find_shdr _ _); [|by apply settled_sret].
    eapply settled_bind; [apply settled_slift, range_calm|]. intros range _. apply Ht.
Qed.
End Settled.

(** ** The symbol table: two ranges are loaded before either is used *)

Section Symbols.
Context (data : bytes).

(** The outcome is [r] from every reader that has loaded the ranges [L]. *)
Definition runs_with (L : list (Z * Z)) {A} (c : Elf_ A) (r : result ParseError A) : Prop := forall cr,
  cr_ok data cr -> Forall (fun x => is_Some (bufs cr !! x)) L ->
  exists cr', cr_ok data cr' /\ c cr = (r, cr').

Lemma rw_runs {A} (c : Elf_ A) r : runs_with [] c r -> runs data c r.
Proof. intros Hc cr Hcr. by apply Hc. Qed.

Lemma rw_sret L {A} (a : A) : runs_with L (sret a) (Ok a).
Proof. intros cr Hcr _. exists cr. by split. Qed.

Lemma rw_slift L {A C} (x : result ParseError A) (f : A -> Elf_ C) (g : A -> result ParseError C) :
  (forall a, x = Ok a -> runs_with L (f a) (g a)) -> runs_with L (sbind (slift x) f) (rbind x g).
Proof.
  intros Hf cr Hcr HL. destruct x as [a|e|]; [by apply Hf|by exists cr..].
Qed.

Lemma rw_load L range {C} (k : Elf_ C) r : runs_with (range :: L) k r ->
  runs_with L (do* load_bytes (fst range) (snd range) ;; k)
    (if zlen data <? snd range then Err (BadOffset (snd range)) else r).
Proof.
  intros Hk cr Hcr HL. destruct range as [s e]. simpl.
  destruct (load_bytes_spec data s e cr Hcr) as (cr1 & Hcr1 & Hsub & Hload & Hget).
  unfold sbind. rewrite Hload. destruct (Z.ltb_spec (zlen data) e); [by exists cr1|].
  apply Hk; [done|]. constructor; [rewrite Hget by done; by eexists|].
  eapply Forall_impl; [exact HL|]. intros x [b Hb]. exists b. by eapply lookup_weaken.
Qed.

Lemma rw_get L range {C} (f : bytes -> Elf_ C) r : range ∈ L ->
  runs_with L (f (slice (fst range) (snd range) data)) r ->
  runs_with L (sbind (get_bytes (fst range) (snd range)) f) r.
Proof.
  intros Hin Hf cr Hcr HL. unfold sbind, get_bytes. destruct range as [s e]. simpl in *.
  pose proof HL as HL'. rewrite Forall_forall in HL'. destruct (HL' _ Hin) as [b Hb]. rewrite Hb. simpl.
  destruct (cr_bufs _ _ Hcr _ _ _ Hb) as [_ ->]. by apply Hf.
Qed.

(** The tables without a cache. *)
Definition symbols_of (file : ElfStream) (t : Z) : result ParseError (option (bytes * bytes)) :=
  match find_shdr t (shdrs file) with
  | None => Ok None
  | Some shdr =>
      let? r1 := get_data_range shdr in
      if zlen data <? snd r1 then Err (BadOffset (snd r1))
      else
        let? strtab := ok_or (shdrs file !! Z.to_nat (sh_link shdr)) (BadOffset (sh_link shdr)) in
        let? r2 := get_data_range strtab in
        if zlen data <? snd r2 then Err (BadOffset (snd r2))
        else
          let expected := symbol_size_for (class (ehdr file)) in
          if sh_entsize shdr =? expected
          then Ok (Some (slice (fst r1) (snd r1) data, slice (fst r2) (snd r2) data))
          else Err (BadEntsize (sh_entsize shdr) expected)
  end.

Lemma runs_symbols file t : runs data (get_symbol_table_of_type file t) (symbols_of file t).
Proof.
  apply rw_runs. unfold get_symbol_table_of_type, symbols_of.
  destruct (find_shdr t (shdrs file)) as [shdr|]; [|apply rw_sret].
  apply rw_slift. intros r1 _. apply rw_load. apply rw_slift. intros st _. apply rw_slift. intros r2 _.
  apply rw_load. destruct (sh_entsize shdr =? _).
  - change (sbind (sret tt) ?f) with (f tt). apply (rw_get _ r1); [right; left|].
    apply (rw_get _ r2); [left|]. apply rw_sret.
  - intros cr Hcr _. by exists cr.
Qed.

Lemma settled_symbols file t :
  settled data (fun o => match o with Some (a, b) => infix data a /\ infix data b | None => True end)
    (get_symbol_table_of_type file t).
Proof.
  eexists. split; [apply runs_symbols|]. unfold symbols_of.
  destruct (find_shdr t (shdrs file)) as [shdr|]; [|done].
  pose proof (range_calm shdr). destruct (get_data_range shdr) as [r1|e|]; cbn [rbind]; [|done..].
  destruct (_ <? _); [done|]. destruct (shdrs file !! _) as [st|]; cbn [ok_or rbind]; [|done].
  pose proof (range_calm st). destruct (get_data_range st) as [r2|e|]; cbn [rbind]; [|done..].
  destruct (_ <? _); [done|]. destruct (_ =? _); [|done]. split; apply slice_infix.
Qed.
End Symbols.

(** ** Tables *)

(** Parsing an entry takes its size, which the data has. *)
Class ParseAtOk (P : Type) `{ParseAt P} := {
  parse_advance : forall e c data off p off', 0 <= off -> parse_at e c data off = (Ok p, off') ->
    off' = off + size_for c /\ off' <= zlen data;
  size_pos : forall c, 0 < size_for c;
}.

(** An offset that has advanced by [n] within the data. *)
Definition takes (n : Z) {A} (c : Parse A) (data : bytes) : Prop := forall off a off', 0 <= off ->
  c off = (Ok a, off') -> off' = off + n /\ (off' <= zlen data \/ n = 0).

Lemma takes_int n e data : takes n (safe_from n e data) data.
Proof.
  intros off a off' _ Hs. unfold safe_from, checked_add in Hs. destruct (_ <? USIZE); [|done].
  destruct (Z.leb_spec (off + n) (zlen data)); simplify_eq. split; [done|by left].
Qed.
Lemma takes_sret {A} (a : A) data : takes 0 (sret a) data.
Proof. intros off b off' _ [= <- <-]. split; [lia|by right]. Qed.
Lemma takes_bind n m {A C} (c : Parse A) (f : A -> Parse C) data : 0 <= n -> 0 <= m ->
  takes n c data -> (forall a, takes m (f a) data) -> takes (n + m) (sbind c f) data.
Proof.
  intros Hn Hm Hc Hf off b off' Hoff (a & o & H1 & H2)%sbind_inv_ok.
  apply Hc in H1 as [-> H1]; [|done]. apply Hf in H2 as [-> H2]; [|lia]. split; [lia|].
  destruct H2 as [H2|H2]; [by left|]. destruct H1 as [H1|H1]; [left; lia|right; lia].
Qed.
Lemma takes_eq n m {A} (c : Parse A) data : takes n c data -> n = m -> takes m c data.
Proof. by intros ? <-. Qed.

Definition word_size (c : ElfClass) : Z := match c with ELF32 => 4 | ELF64 => 8 end.
Lemma takes_word e c data : takes (word_size c) (parse_word e c data) data.
Proof. destruct c; apply takes_int. Qed.

Ltac takes_tac := eapply takes_eq;
  [repeat first [apply takes_sret | apply takes_int | apply takes_word
                | eapply takes_bind; [| | |intros]]; try (simpl; lia) |].

#[export] Instance shdr_ok : ParseAtOk SectionHeader.
Proof.
  split; [|by intros c; destruct c]. intros e c data off p off' Hoff Hp. simpl in Hp.
  assert (takes (size_for (P := SectionHeader) c) (section_header_at e c data) data) as Ht.
  { unfold section_header_at, parse_u32_at. destruct c; takes_tac; reflexivity. }
  destruct (Ht off p off' Hoff Hp) as [-> [Hle|Hz]]; [done|]. by destruct c.
Qed.
#[export] Instance dyn_ok : ParseAtOk Dyn.
Proof.
  split; [|by intros c; destruct c]. intros e c data off p off' Hoff Hp. simpl in Hp.
  assert (takes (size_for (P := Dyn) c) (dyn_at e c data) data) as Ht.
  { unfold dyn_at, parse_i32_at, parse_i64_at, parse_u32_at, parse_u64_at. destruct c; takes_tac; reflexivity. }
  destruct (Ht off p off' Hoff Hp) as [-> [Hle|Hz]]; [done|]. by destruct c.
Qed.

Section Iter.
Context {P : Type} `{ParseAtOk P}.

Lemma iter_from_length fuel (t : ParsingTable P) off : 0 <= off ->
  Z.of_nat (length (iter_from fuel t off)) * size_for (P := P) (t_class t) <= Z.max 0 (zlen (t_data t) - off).
Proof.
  revert off. induction fuel as [|fuel IH]; intros off Hoff; simpl; [lia|].
  destruct (parse_at _ _ _ off) as [[p|e|] off'] eqn:Hp; [|simpl; lia..].
  pose proof (size_pos (P := P) (t_class t)). apply parse_advance in Hp as [-> Hlen]; [|done].
  set (n := size_for (t_class t)) in *. assert (0 <= off + n) as Hn by lia. specialize (IH _ Hn).
  cbn [length]. rewrite Nat2Z.inj_succ, Z.mul_succ_l. lia.
Qed.

Lemma table_iter_length (t : ParsingTable P) :
  Z.of_nat (length (table_iter t)) * size_for (P := P) (t_class t) <= zlen (t_data t).
Proof.
  unfold table_iter. pose proof (zlen_nonneg (t_data t)). case_bool_decide; [simpl; lia|].
  pose proof (iter_from_length (S (length (t_data t))) t 0). lia.
Qed.
End Iter.

Lemma infix_length data b : infix data b -> zlen b <= zlen data.
Proof. intros (pre & post & ->). rewrite !zlen_app. pose proof (zlen_nonneg pre). pose proof (zlen_nonneg post). lia. Qed.

Lemma strtab_get_spec data off s : strtab_get data off = Ok s ->
  infix data (s ++ [0]) /\ utf8_valid s = true /\ Forall (fun c => c <> 0) s.
Proof.
  unfold strtab_get, get_raw. case_bool_decide; [done|]. destruct (_ <? off); [done|].
  destruct (split_once (Z.eqb 0) _) as [[a r]|] eqn:Hs; cbn [rbind]; [|done].
  unfold from_utf8. destruct (utf8_valid a) eqn:Hu; cbn [ok_or]; [|done]. intros [= <-].
  apply split_once_spec in Hs as (c & Hd & Hc & Hall). apply Z.eqb_eq in Hc. subst c. split_and!; [|done|].
  - exists (take (Z.to_nat off) data), r. rewrite <-app_assoc. simpl. rewrite <-Hd. by rewrite take_drop.
  - eapply Forall_impl; [exact Hall|]. simpl. intros c Hc Hz. by rewrite Hz in Hc.
Qed.

Lemma open_stream_ok data file cr : open_stream data = (Ok file, cr) -> cr_ok data cr.
Proof.
  intros Ho. destruct (settled_open data) as (r & Hr & _).
  destruct (Hr _ (caching_new_ok data)) as (cr' & Hcr & Heq). unfold open_stream in Ho. congruence.
Qed.

(** What a settled computation yields from a reader of the file. *)
Lemma settled_run {A} data (Q : A -> Prop) (c : Elf_ A) cr : settled data Q c -> cr_ok data cr ->
  fst (c cr) <> Panic /\ cr_ok data (snd (c cr)) /\ forall a, fst (c cr) = Ok a -> Q a.
Proof.
  intros (r & Hr & HQ) Hcr. destruct (Hr cr Hcr) as (cr' & Hcr' & ->). simpl.
  split_and!; [by destruct r|done|]. by intros a ->.
Qed.

(** ** Safety *)

(** C21. The ELF parser on any content of a file: opening it, looking up its dynamic
    section and its dynamic strings end with a value or an error, never a
    panic; and what is reported lies in the file: the dynamic entries take
    at least eight bytes of it each, and every string is text that is in the
    file, followed by a NUL. *)
Theorem elf_open_safe data :
  fst (open_stream data) <> Panic /\
  (forall file cr, open_stream data = (Ok file, cr) ->
     fst (dynamic file cr) <> Panic /\ fst (dynamic_symbol_table file (snd (dynamic file cr))) <> Panic) /\
  (forall f, elf_open data = Some f ->
     (forall dyns, elf_dynamic f = Some (Some dyns) -> 8 * Z.of_nat (length dyns) <= zlen data) /\
     (forall strs off s, elf_dynstr f = Some (Some strs) -> strs off = Some s ->
        infix data (s ++ [0]) /\ utf8_valid s = true /\ Forall (fun c => c <> 0) s)).
Proof.
  destruct (settled_run _ _ _ _ (settled_open data) (caching_new_ok data)) as (Hp & _ & _).
  split; [done|].
  assert (forall file cr, open_stream data = (Ok file, cr) ->
    fst (dynamic file cr) <> Panic /\ fst (dynamic_symbol_table file (snd (dynamic file cr))) <> Panic /\
    (forall t, fst (dynamic file cr) = Ok (Some t) -> infix data (t_data t)) /\
    (forall a b, fst (dynamic_symbol_table file (snd (dynamic file cr))) = Ok (Some (a, b)) -> infix data b)) as Hfile.
  { intros file cr Hcr%open_stream_ok.
    destruct (settled_run _ _ _ _ (settled_dynamic data file) Hcr) as (H1 & Hcr1 & Hd).
    destruct (settled_run _ _ _ _ (settled_symbols data file SHT_DYNSYM) Hcr1) as (H2 & _ & Hs).
    split_and!; [done|done|by intros t Ht; apply (Hd (Some t))|]. intros a b Hab. by apply (Hs (Some (a, b))). }
  split; [intros file cr Ho; by destruct (Hfile file cr Ho) as (? & ? & _)|].
  unfold elf_open. intros f. destruct (open_stream data) as [[file|e|] cr] eqn:Ho; [|done..].
  destruct (Hfile file cr eq_refl) as (_ & _ & Hd & Hs). clear Hfile.
  destruct (dynamic file cr) as [dynamics cr1]. simpl in Hd, Hs.
  destruct (dynamic_symbol_table file cr1) as [tables cr2]. simpl in Hs. intros [= <-]. simpl. split.
  - intros dyns. destruct dynamics as [[t|]|e|]; simpl; [|done..]. intros [= <-]. unfold dyn_entries.
    rewrite length_fmap. specialize (Hd t eq_refl). apply infix_length in Hd.
    pose proof (table_iter_length t). simpl in *. destruct (t_class t); lia.
  - intros strs off s. destruct tables as [[[a b]|]|e|]; simpl; [|done..]. intros [= <-].
    unfold dyn_strings. simpl. destruct (strtab_get b off) as [s'|e|] eqn:Hg; [|done..]. intros [= ->].
    apply strtab_get_spec in Hg as ((pre & post & ->) & Hu & Hn). split_and!; [|done|done].
    destruct (Hs a _ eq_refl) as (pre' & post' & ->).
    exists (pre' ++ pre), (post ++ post'). by rewrite !app_assoc.
Qed.
