(* ===== verification/ElfImage.v ===== *)
(** * ELF files that are read back

    A reference writer lays out a file section by section, in either class and
    byte order; the parser finds the headers and sections again, and rapido-cut
    the names of the libraries that were written. *)

From S2P Require Import Prelude RustStr RustPath RustIo Cpio Host Cut CutSpec CutElfSpec Elf ElfStream ElfSpec.

#[local] Set Warnings "-clear-no-such-hyp".

(** ** Integers *)

Fixpoint le_split (n : nat) (v : Z) : bytes :=
  match n with O => [] | S n => v mod 256 :: le_split n (v / 256) end.

Definition int_bytes (n : nat) (e : AnyEndian) (v : Z) : bytes :=
  match e with Little => le_split n v | Big => reverse (le_split n v) end.

Lemma le_combine_split n v : 0 <= v < 256 ^ Z.of_nat n -> le_combine (le_split n v) = v.
Proof.
  revert v. induction n as [|n IH]; intros v Hv; [simpl in *; lia|].
  cbn [le_split le_combine]. rewrite Nat2Z.inj_succ, Z.pow_succ_r in Hv by lia.
  rewrite IH; [pose proof (Z.div_mod v 256); lia|].
  split; [apply Z.div_pos; lia|apply Z.div_lt_upper_bound; lia].
Qed.

Lemma length_le_split n v : length (le_split n v) = n.
Proof. revert v. induction n as [|n IH]; intros v; simpl; [done|]. by rewrite IH. Qed.

Lemma zlen_int_bytes n e v : zlen (int_bytes n e v) = Z.of_nat n.
Proof. unfold zlen. destruct e; simpl; by rewrite ?length_reverse, length_le_split. Qed.

Lemma combine_int_bytes n e v : 0 <= v < 256 ^ Z.of_nat n -> combine e (int_bytes n e v) = v.
Proof. intros Hv. destruct e; simpl; by rewrite ?reverse_involutive, le_combine_split. Qed.

(** A value of [bits] bits, as an unsigned one. *)
Definition unsigned (bits : Z) (v : Z) : Z := v mod 2 ^ bits.

Lemma signed_unsigned bits v : 0 < bits -> - 2 ^ (bits - 1) <= v < 2 ^ (bits - 1) ->
  signed bits (unsigned bits v) = v /\ 0 <= unsigned bits v < 2 ^ bits.
Proof.
  intros Hb Hv. unfold signed, unsigned.
  assert (2 ^ bits = 2 * 2 ^ (bits - 1)) as Hp by (rewrite <-Z.pow_succ_r by lia; f_equal; lia).
  pose proof (Z.pow_pos_nonneg 2 (bits - 1)). split; [|apply Z.mod_pos_bound; lia].
  destruct (Z.ltb_spec v 0).
  - rewrite (Z.mod_eq v) by lia. replace (v / 2 ^ bits) with (-1).
    + destruct (Z.ltb_spec (v - 2 ^ bits * -1) (2 ^ (bits - 1))); lia.
    + apply (Z.div_unique _ _ _ (v + 2 ^ bits)); lia.
  - rewrite Z.mod_small by lia. by replace (v <? _) with true by lia.
Qed.

(** ** Decoding what was encoded *)

(** [rest] is what the data holds from [off] on. *)
Definition data_at (data : bytes) (off : Z) (rest : bytes) : Prop :=
  0 <= off /\ drop (Z.to_nat off) data = rest /\ off + zlen rest = zlen data.

(** [c] reads [a] where the data holds [b]. *)
Definition decodes {A} (c : bytes -> Parse A) (b : bytes) (a : A) : Prop := forall data off rest,
  zlen data < USIZE -> data_at data off (b ++ rest) ->
  c data off = (Ok a, off + zlen b) /\ data_at data (off + zlen b) rest.

Lemma data_at_app data off b rest : data_at data off (b ++ rest) ->
  slice off (off + zlen b) data = b /\ off + zlen b <= zlen data /\ data_at data (off + zlen b) rest.
Proof.
  intros (Ho & Hd & Hl). rewrite zlen_app in Hl. pose proof (zlen_nonneg b). pose proof (zlen_nonneg rest).
  split_and!; [|lia|split_and!; [lia| |lia]].
  - unfold slice. rewrite Hd. unfold zlen. replace (Z.to_nat _) with (length b) by lia. apply take_app_length.
  - unfold zlen in *. replace (Z.to_nat (off + Z.of_nat (length b))) with (Z.to_nat off + length b)%nat by lia.
    by rewrite <-drop_drop, Hd, drop_app_length.
Qed.

Lemma data_at_start data : data_at data 0 data.
Proof. split_and!; [done|done|lia]. Qed.

Lemma decodes_int n e v : 0 <= v < 256 ^ Z.of_nat n ->
  decodes (safe_from (Z.of_nat n) e) (int_bytes n e v) v.
Proof.
  intros Hv data off rest Hu Ha. apply data_at_app in Ha as (Hs & Hle & Ha).
  rewrite zlen_int_bytes in *. split; [|done]. unfold safe_from, checked_add.
  replace (_ <? USIZE) with true by lia. replace (_ <=? zlen data) with true by lia.
  by rewrite Hs, combine_int_bytes.
Qed.

Lemma decodes_sret {A} (a : A) : decodes (fun _ => sret a) [] a.
Proof. intros data off rest _ Ha. change (zlen []) with 0. rewrite Z.add_0_r. by split. Qed.

Lemma decodes_bind {A C} (c : bytes -> Parse A) (f : A -> bytes -> Parse C) b1 b2 a r :
  decodes c b1 a -> decodes (f a) b2 r ->
  decodes (fun data => sbind (c data) (fun a => f a data)) (b1 ++ b2) r.
Proof.
  intros Hc Hf data off rest Hu Ha. rewrite <-app_assoc in Ha. destruct (Hc _ _ _ Hu Ha) as [E1 Ha1].
  destruct (Hf _ _ _ Hu Ha1) as [E2 Ha2]. rewrite zlen_app, Z.add_assoc. split; [|done].
  by rewrite (sbind_ok _ _ _ _ _ E1).
Qed.

Lemma decodes_last {A C} (c : bytes -> Parse A) (f : A -> C) b a :
  decodes c b a -> decodes (fun data => sbind (c data) (fun a => sret (f a))) b (f a).
Proof.
  intros Hc. rewrite <-(app_nil_r b). apply (decodes_bind c (fun a _ => sret (f a)) b [] a); [done|apply decodes_sret].
Qed.

Definition u16_ok (n : Z) : Prop := 0 <= n < 2 ^ 16.

Lemma decodes_u16 e v : u16_ok v -> decodes (parse_u16_at e) (int_bytes 2 e v) v.
Proof. intros. by apply (decodes_int 2). Qed.
Lemma decodes_u32 e v : u32_ok v -> decodes (parse_u32_at e) (int_bytes 4 e v) v.
Proof. intros. by apply (decodes_int 4). Qed.
Lemma decodes_u64 e v : u64_ok v -> decodes (parse_u64_at e) (int_bytes 8 e v) v.
Proof. intros. by apply (decodes_int 8). Qed.

(** A word of the class: 32 bits fit both. *)
Definition word_bytes (e : AnyEndian) (c : ElfClass) (v : Z) : bytes :=
  int_bytes (match c with ELF32 => 4 | ELF64 => 8 end) e v.

Lemma decodes_word e c v : u32_ok v -> decodes (parse_word e c) (word_bytes e c v) v.
Proof. intros Hv. destruct c; [by apply decodes_u32|]. apply decodes_u64. unfold u32_ok, u64_ok in *. lia. Qed.

#[export] Hint Resolve decodes_u16 decodes_u32 decodes_u64 decodes_word : rapido.

(** ** Structures *)

Definition encode_tail (h : FileHeader) : bytes :=
  let e := endianness h in let c := class h in
  int_bytes 2 e (e_type h) ++ int_bytes 2 e (e_machine h) ++ int_bytes 4 e (version h) ++
  word_bytes e c (e_entry h) ++ word_bytes e c (e_phoff h) ++ word_bytes e c (e_shoff h) ++
  int_bytes 4 e (e_flags h) ++ int_bytes 2 e (e_ehsize h) ++ int_bytes 2 e (e_phentsize h) ++
  int_bytes 2 e (e_phnum h) ++ int_bytes 2 e (e_shentsize h) ++ int_bytes 2 e (e_shnum h) ++
  int_bytes 2 e (e_shstrndx h).

Record header_ok (h : FileHeader) : Prop := {
  ho_type : u16_ok (e_type h); ho_machine : u16_ok (e_machine h); ho_version : u32_ok (version h);
  ho_entry : u32_ok (e_entry h); ho_phoff : u32_ok (e_phoff h); ho_shoff : u32_ok (e_shoff h);
  ho_flags : u32_ok (e_flags h); ho_ehsize : u16_ok (e_ehsize h); ho_phentsize : u16_ok (e_phentsize h);
  ho_phnum : u16_ok (e_phnum h); ho_shentsize : u16_ok (e_shentsize h); ho_shnum : u16_ok (e_shnum h);
  ho_shstrndx : u16_ok (e_shstrndx h);
}.

Lemma decodes_tail h : header_ok h ->
  decodes (parse_tail_at (endianness h, class h, osabi h, abiversion h)) (encode_tail h) h.
Proof.
  intros []. unfold parse_tail_at, encode_tail. destruct h; cbn in *.
  do 12 (eapply decodes_bind; [by eauto with rapido|]). eapply decodes_last. by eauto with rapido.
Qed.

Definition encode_shdr (e : AnyEndian) (c : ElfClass) (s : SectionHeader) : bytes :=
  int_bytes 4 e (sh_name s) ++ int_bytes 4 e (sh_type s) ++ word_bytes e c (sh_flags s) ++
  word_bytes e c (sh_addr s) ++ word_bytes e c (sh_offset s) ++ word_bytes e c (sh_size s) ++
  int_bytes 4 e (sh_link s) ++ int_bytes 4 e (sh_info s) ++ word_bytes e c (sh_addralign s) ++
  word_bytes e c (sh_entsize s).

Record shdr_wf (s : SectionHeader) : Prop := {
  so_name : u32_ok (sh_name s); so_type : u32_ok (sh_type s); so_flags : u32_ok (sh_flags s);
  so_addr : u32_ok (sh_addr s); so_offset : u32_ok (sh_offset s); so_size : u32_ok (sh_size s);
  so_link : u32_ok (sh_link s); so_info : u32_ok (sh_info s); so_addralign : u32_ok (sh_addralign s);
  so_entsize : u32_ok (sh_entsize s);
}.

Lemma decodes_shdr e c s : shdr_wf s -> decodes (section_header_at e c) (encode_shdr e c s) s.
Proof.
  intros []. unfold section_header_at, encode_shdr. destruct s; cbn in *.
  do 9 (eapply decodes_bind; [by eauto with rapido|]). eapply decodes_last. by eauto with rapido.
Qed.

Definition encode_dyn (e : AnyEndian) (c : ElfClass) (d : Dyn) : bytes :=
  word_bytes e c (unsigned (match c with ELF32 => 32 | ELF64 => 64 end) (d_tag d)) ++ word_bytes e c (d_un d).

(** tags are signed 32-bit integers and values fit 32 bits in both classes *)
Definition dyn_wf (d : Dyn) : Prop := - 2 ^ 31 <= d_tag d < 2 ^ 31 /\ u32_ok (d_un d).

Lemma decodes_dyn e c d : dyn_wf d -> decodes (dyn_at e c) (encode_dyn e c d) d.
Proof.
  intros [Ht Hv]. unfold dyn_at, encode_dyn, word_bytes. destruct d as [tag un]; cbn [d_tag d_un] in *.
  assert (forall n (Hn : 4 <= n <= 8), 0 < 8 * n /\ - 2 ^ (8 * n - 1) <= tag < 2 ^ (8 * n - 1)) as Hr.
  { intros n Hn. pose proof (Z.pow_le_mono_r 2 31 (8 * n - 1)). lia. }
  destruct c.
  - destruct (signed_unsigned 32 tag) as [Hs Hu]; [lia|apply (Hr 4); lia|]. unfold parse_i32_at.
    eapply decodes_bind; [|eapply decodes_last; by eauto with rapido].
    rewrite <-Hs at 2. apply (decodes_last (safe_from 4 e) (signed 32)). by apply (decodes_int 4).
  - destruct (signed_unsigned 64 tag) as [Hs Hu]; [lia|apply (Hr 8); lia|]. unfold parse_i64_at.
    eapply decodes_bind; [|eapply decodes_last; apply decodes_u64; unfold u32_ok, u64_ok in *; lia].
    rewrite <-Hs at 2. apply (decodes_last (safe_from 8 e) (signed 64)). by apply (decodes_int 8).
Qed.

(** ** Tables *)

Section Tables.
Context {P : Type} `{ParseAtOk P} (e : AnyEndian) (c : ElfClass) (encode : P -> bytes).

Lemma decodes_size p b : decodes (parse_at e c) b p -> zlen b < USIZE -> zlen b = size_for (P := P) c.
Proof.
  intros Hd Hb. destruct (Hd b 0 []) as [Hp _]; [done|rewrite app_nil_r; apply data_at_start|].
  apply parse_advance in Hp as [Ha _]; lia.
Qed.

Lemma iter_from_decodes ps data off fuel : zlen data < USIZE ->
  Forall (fun p => decodes (parse_at e c) (encode p) p) ps ->
  data_at data off (concat (encode <$> ps)) -> (length ps < fuel)%nat ->
  iter_from fuel (MkTable e c data) off = ps.
Proof.
  intros Hu Hps. revert off fuel. induction Hps as [|p ps Hp _ IH]; intros off fuel Ha Hf;
    (destruct fuel as [|fuel]; [lia|]); cbn [iter_from t_endian t_class t_data].
  - destruct Ha as (Ho & _ & Hl). change (zlen (concat (encode <$> []))) with 0 in Hl.
    destruct (parse_at e c data off) as [[p|er|] off'] eqn:Hq; [|done..].
    apply parse_advance in Hq; [|done]. pose proof (size_pos (P := P) c). lia.
  - rewrite fmap_cons in Ha. cbn [concat] in Ha. destruct (Hp _ _ _ Hu Ha) as [-> Ha'].
    cbn [length] in Hf. rewrite IH by (done || lia). done.
Qed.

Lemma concat_length ps : Forall (fun p => decodes (parse_at e c) (encode p) p) ps ->
  zlen (concat (encode <$> ps)) < USIZE ->
  zlen (concat (encode <$> ps)) = Z.of_nat (length ps) * size_for (P := P) c.
Proof.
  intros Hps. induction Hps as [|p ps Hp _ IH]; intros Hu; [done|].
  rewrite fmap_cons in *. cbn [concat length] in *. rewrite zlen_app in *.
  pose proof (zlen_nonneg (encode p)). pose proof (zlen_nonneg (concat (encode <$> ps))).
  rewrite IH, (decodes_size p (encode p)) by (done || lia). lia.
Qed.

(** A table that was written is read back. *)
Lemma table_iter_decodes ps : zlen (concat (encode <$> ps)) < USIZE ->
  Forall (fun p => decodes (parse_at e c) (encode p) p) ps ->
  table_iter (MkTable e c (concat (encode <$> ps))) = ps.
Proof.
  intros Hu Hps. unfold table_iter. cbn [t_data]. pose proof (concat_length ps Hps Hu) as Hl.
  pose proof (size_pos (P := P) c). unfold zlen in Hl. case_bool_decide as Hnil.
  - rewrite Hnil in Hl. cbn [length] in Hl. destruct ps; [done|]. cbn [length] in Hl. lia.
  - apply iter_from_decodes; [done|done|apply data_at_start|]. nia.
Qed.
End Tables.

(** ** Files *)

Record Sec := MkSec { s_type : Z; s_link : Z; s_entsize : Z; s_data : bytes }.

Definition sec_ok (s : Sec) : Prop := u32_ok (s_type s) /\ u32_ok (s_link s) /\ u32_ok (s_entsize s).

Definition bodies (secs : list Sec) : bytes := concat (s_data <$> secs).

(** The headers of sections that follow one another from [off] on. *)
Fixpoint layout (off : Z) (secs : list Sec) : list SectionHeader :=
  match secs with
  | [] => []
  | s :: secs =>
      MkShdr 0 (s_type s) 0 0 off (zlen (s_data s)) (s_link s) 0 1 (s_entsize s)
      :: layout (off + zlen (s_data s)) secs
  end.

Section Image.
Context (e : AnyEndian) (c : ElfClass).

Definition ident_bytes : bytes :=
  ELFMAGIC ++ [match c with ELF32 => ELFCLASS32 | ELF64 => ELFCLASS64 end;
               match e with Little => ELFDATA2LSB | Big => ELFDATA2MSB end; EV_CURRENT; 0; 0] ++
  replicate 7 0.

(** a shared object of x86_64 without segments *)
Definition image_header (secs : list Sec) : FileHeader :=
  MkFileHeader c e 1 0 0 3 62 0 0 (ehdr_tail_end c + zlen (bodies secs)) 0 (ehdr_tail_end c) 0 0
    (size_for (P := SectionHeader) c) (Z.of_nat (length secs)) 0.

Definition image (secs : list Sec) : bytes :=
  ident_bytes ++ encode_tail (image_header secs) ++ bodies secs ++
  concat (encode_shdr e c <$> layout (ehdr_tail_end c) secs).

Record image_ok (secs : list Sec) : Prop := {
  io_secs : Forall sec_ok secs;
  io_some : secs <> [];
  io_count : Z.of_nat (length secs) < 2 ^ 16;
  io_size : zlen (image secs) < 2 ^ 32;
}.

Lemma zlen_encode_tail h : endianness h = e -> class h = c ->
  zlen ident_bytes = EI_NIDENT /\ EI_NIDENT + zlen (encode_tail h) = ehdr_tail_end c.
Proof.
  intros <- <-. split; [by destruct (endianness h), (class h)|]. unfold encode_tail, word_bytes.
  rewrite !zlen_app, !zlen_int_bytes. by destruct (class h).
Qed.

Lemma image_prefix secs : zlen (ident_bytes ++ encode_tail (image_header secs)) = ehdr_tail_end c.
Proof. destruct (zlen_encode_tail (image_header secs)) as [H1 H2]; [done..|]. by rewrite zlen_app, H1. Qed.

Lemma layout_length off secs : length (layout off secs) = length secs.
Proof. revert off. induction secs as [|s secs IH]; intros off; simpl; [done|]. by rewrite IH. Qed.

Lemma layout_wf off secs : Forall sec_ok secs -> 0 <= off -> off + zlen (bodies secs) < 2 ^ 32 ->
  Forall shdr_wf (layout off secs).
Proof.
  intros Hs. revert off. induction Hs as [|s secs (Ht & Hl & He) _ IH]; intros off Ho Hlen; [constructor|].
  unfold bodies in Hlen. rewrite fmap_cons in Hlen. cbn [concat] in Hlen. rewrite zlen_app in Hlen.
  fold (bodies secs) in Hlen. pose proof (zlen_nonneg (s_data s)). pose proof (zlen_nonneg (bodies secs)).
  simpl. constructor; [|apply IH; lia]. by split; simpl; try done; unfold u32_ok; lia.
Qed.

Lemma image_size secs : zlen (image secs) = ehdr_tail_end c + zlen (bodies secs) +
  zlen (concat (encode_shdr e c <$> layout (ehdr_tail_end c) secs)).
Proof. unfold image. rewrite app_assoc, zlen_app, image_prefix, zlen_app. lia. Qed.

Lemma ehdr_tail_end_bounds : 52 <= ehdr_tail_end c <= 64.
Proof. destruct c; vm_compute; by split. Qed.

Lemma image_layout_wf secs : image_ok secs -> Forall shdr_wf (layout (ehdr_tail_end c) secs).
Proof.
  intros [Hs _ _ Hz]. rewrite image_size in Hz. pose proof ehdr_tail_end_bounds.
  pose proof (zlen_nonneg (concat (encode_shdr e c <$> layout (ehdr_tail_end c) secs))).
  apply layout_wf; [done|lia|lia].
Qed.

Lemma image_header_ok secs : image_ok secs -> header_ok (image_header secs).
Proof.
  intros [Hs _ Hc Hz]. rewrite image_size in Hz. pose proof ehdr_tail_end_bounds.
  pose proof (zlen_nonneg (concat (encode_shdr e c <$> layout (ehdr_tail_end c) secs))).
  pose proof (zlen_nonneg (bodies secs)).
  split; cbn; unfold u16_ok, u32_ok; try lia; by destruct c.
Qed.

(** ** Reading the file *)

Lemma runs_read data pre b post stop : data = pre ++ b ++ post -> stop = zlen pre + zlen b ->
  runs data (read_bytes (zlen pre) stop) (Ok b).
Proof.
  intros -> ->. pose proof (runs_read_bytes (pre ++ b ++ post) (zlen pre) (zlen pre + zlen b)) as Hr.
  unfold file_bytes in Hr. rewrite !zlen_app in Hr.
  pose proof (zlen_nonneg post). replace (_ <? _) with false in Hr by lia. by rewrite slice_app in Hr.
Qed.

Lemma parse_ident_bytes : parse_ident ident_bytes = Ok (e, c, 0, 0).
Proof. unfold ident_bytes. destruct e, c; vm_compute; reflexivity. Qed.

Lemma parse_tail_bytes secs : image_ok secs ->
  parse_tail (e, c, 0, 0) (encode_tail (image_header secs)) = Ok (image_header secs).
Proof.
  intros Hok. destruct (decodes_tail (image_header secs) (image_header_ok secs Hok)
    (encode_tail (image_header secs)) 0 []) as [Hp _].
  - destruct (zlen_encode_tail (image_header secs)) as [_ Hz]; [done..|]. pose proof ehdr_tail_end_bounds.
    unfold EI_NIDENT, USIZE in *. lia.
  - rewrite app_nil_r. apply data_at_start.
  - unfold parse_tail. change (fst (parse_tail_at (endianness (image_header secs), class (image_header secs),
      osabi (image_header secs), abiversion (image_header secs)) (encode_tail (image_header secs)) 0)
      = Ok (image_header secs)). by rewrite Hp.
Qed.

Lemma runs_image_shdrs secs : image_ok secs ->
  runs (image secs) (parse_section_headers (image_header secs)) (Ok (layout (ehdr_tail_end c) secs)).
Proof.
  intros Hok. pose proof (image_layout_wf secs Hok) as Hwf. destruct Hok as [Hs Hne Hc Hz].
  pose proof (image_size secs) as Hsz. pose proof ehdr_tail_end_bounds.
  pose proof (zlen_nonneg (bodies secs)).
  assert (Forall (fun s => decodes (parse_at e c) (encode_shdr e c s) s) (layout (ehdr_tail_end c) secs)) as Hdec.
  { eapply Forall_impl; [exact Hwf|]. intros s Hwfs. by apply decodes_shdr. }
  set (tbl := concat (encode_shdr e c <$> layout (ehdr_tail_end c) secs)) in *.
  pose proof (zlen_nonneg tbl). assert (zlen tbl < USIZE) as Hu by (unfold USIZE; lia).
  pose proof (concat_length e c (encode_shdr e c) _ Hdec Hu) as Hlen. rewrite layout_length in Hlen.
  fold tbl in Hlen.
  unfold parse_section_headers. cbn [e_shoff image_header].
  replace (_ =? 0) with false by lia. unfold validate_entsize. cbn [e_shentsize class image_header].
  rewrite Z.eqb_refl. eapply runs_bind; [apply runs_slift|].
  eapply (runs_bind _ _ _ (Z.of_nat (length secs))).
  { cbn [e_shnum image_header]. destruct secs; [done|]. apply runs_sret. }
  unfold checked_mul, checked_add. rewrite (Z.mul_comm (size_for c)), <-Hlen.
  replace (zlen tbl <? USIZE) with true by lia. eapply runs_bind; [apply runs_slift|].
  replace (_ <? USIZE) with true by (unfold USIZE in *; lia). eapply runs_bind; [apply runs_slift|].
  eapply runs_bind.
  - rewrite <-(image_prefix secs), <-!zlen_app. apply (runs_read _ _ tbl []); [|by rewrite !zlen_app].
    unfold image. fold tbl. by rewrite app_nil_r, !app_assoc.
  - cbn [endianness class image_header]. unfold tbl.
    rewrite (table_iter_decodes e c (encode_shdr e c)) by done.
    apply runs_sret.
Qed.

(** The headers of the file. *)
Definition image_file (secs : list Sec) : ElfStream :=
  MkElfStream (image_header secs) (layout (ehdr_tail_end c) secs) [].

Lemma runs_image_open secs : image_ok secs -> runs (image secs) open_headers (Ok (image_file secs)).
Proof.
  intros Hok. destruct (zlen_encode_tail (image_header secs)) as [Hi Ht]; [done..|].
  unfold open_headers. eapply runs_bind.
  { apply (runs_read _ [] ident_bytes (drop 16 (image secs))); [|by rewrite Hi].
    unfold image. by rewrite drop_app_length' by (by destruct e, c). }
  eapply runs_bind; [rewrite parse_ident_bytes; apply runs_slift|]. cbn [fst snd].
  eapply runs_bind.
  { rewrite <-Hi at 1. apply (runs_read _ _ (encode_tail (image_header secs))
      (bodies secs ++ concat (encode_shdr e c <$> layout (ehdr_tail_end c) secs))); [done|]. by rewrite Hi. }
  eapply runs_bind; [rewrite parse_tail_bytes by done; apply runs_slift|].
  eapply runs_bind; [by apply runs_image_shdrs|].
  eapply (runs_bind _ _ _ []); [apply runs_sret|]. eapply runs_bind; [apply runs_clear|]. apply runs_sret.
Qed.

(** ** Sections *)

(** The header of a section at [off]. *)
Definition sec_header (off : Z) (s : Sec) : SectionHeader :=
  MkShdr 0 (s_type s) 0 0 off (zlen (s_data s)) (s_link s) 0 1 (s_entsize s).

Lemma layout_lookup off secs k s : secs !! k = Some s ->
  layout off secs !! k = Some (sec_header (off + zlen (bodies (take k secs))) s).
Proof.
  revert off k. induction secs as [|s0 secs IH]; intros off [|k] Hk; simpl in Hk; [done..| |].
  - injection Hk as ->. change (bodies (take 0 (s :: secs))) with (@nil Z). unfold zlen at 1. simpl.
    by rewrite Z.add_0_r.
  - change (layout off (s0 :: secs) !! S k) with (layout (off + zlen (s_data s0)) secs !! k).
    rewrite (IH _ _ Hk). cbn [take]. unfold bodies. rewrite fmap_cons. cbn [concat].
    by rewrite zlen_app, Z.add_assoc.
Qed.

Definition has_type (t : Z) (s : Sec) : bool := s_type s =? t.

Lemma find_layout t off secs s : List.find (has_type t) secs = Some s ->
  exists k, secs !! k = Some s /\ find_shdr t (layout off secs) = layout off secs !! k.
Proof.
  revert off. induction secs as [|s0 secs IH]; intros off Hf; [done|]. simpl in Hf.
  unfold find_shdr, has_type in *. cbn [layout List.find]. cbn [sh_type].
  destruct (s_type s0 =? t) eqn:Ht.
  - injection Hf as ->. exists 0%nat. by split.
  - destruct (IH (off + zlen (s_data s0)) Hf) as (k & Hk & Heq). exists (S k). by split.
Qed.

Lemma bodies_split secs k s : secs !! k = Some s ->
  bodies secs = bodies (take k secs) ++ s_data s ++ bodies (drop (S k) secs).
Proof.
  intros Hk. unfold bodies. rewrite <-(take_drop_middle secs k s Hk) at 1.
  by rewrite fmap_app, concat_app, fmap_cons.
Qed.

Lemma section_range secs k s : image_ok secs -> secs !! k = Some s ->
  let o := ehdr_tail_end c + zlen (bodies (take k secs)) in
  layout (ehdr_tail_end c) secs !! k = Some (sec_header o s) /\
  get_data_range (sec_header o s) = Ok (o, o + zlen (s_data s)) /\
  o + zlen (s_data s) <= zlen (image secs) /\
  slice o (o + zlen (s_data s)) (image secs) = s_data s.
Proof.
  intros Hok Hk o. split; [by apply layout_lookup|]. pose proof (io_size _ Hok) as Hz.
  assert (exists pre post, image secs = pre ++ s_data s ++ post /\ zlen pre = o) as (pre & post & Him & Ho).
  { exists ((ident_bytes ++ encode_tail (image_header secs)) ++ bodies (take k secs)),
      (bodies (drop (S k) secs) ++ concat (encode_shdr e c <$> layout (ehdr_tail_end c) secs)).
    split; [|by rewrite zlen_app, image_prefix]. unfold image. rewrite (bodies_split secs k s Hk).
    by rewrite <-!app_assoc. }
  rewrite Him, <-Ho, !zlen_app in *. pose proof (zlen_nonneg post). split_and!; [|lia|apply slice_app].
  unfold get_data_range, checked_add, sec_header. cbn [sh_offset sh_size].
  by replace (_ <? USIZE) with true by (unfold USIZE; lia).
Qed.

Lemma runs_image_dynamic secs s : image_ok secs -> List.find (has_type SHT_DYNAMIC) secs = Some s ->
  runs (image secs) (dynamic (image_file secs)) (Ok (Some (MkTable e c (s_data s)))).
Proof.
  intros Hok Hf. destruct (find_layout _ (ehdr_tail_end c) _ _ Hf) as (k & Hk & Heq).
  destruct (section_range secs k s Hok Hk) as (Hl & Hr & Hle & Hsl).
  unfold dynamic. cbn [shdrs image_file]. rewrite Heq, Hl.
  destruct (layout (ehdr_tail_end c) secs) eqn:Hlay; [done|].
  eapply runs_bind; [rewrite Hr; apply runs_slift|]. unfold dynamic_table.
  eapply runs_bind; [|apply runs_sret]. cbn [fst snd].
  pose proof (runs_read_bytes (image secs) (ehdr_tail_end c + zlen (bodies (take k secs)))
    (ehdr_tail_end c + zlen (bodies (take k secs)) + zlen (s_data s))) as Hread.
  unfold file_bytes in Hread. rewrite Hsl in Hread. by replace (_ <? _) with false in Hread by lia.
Qed.

Lemma image_symbols secs s st : image_ok secs -> List.find (has_type SHT_DYNSYM) secs = Some s ->
  s_entsize s = symbol_size_for c -> secs !! Z.to_nat (s_link s) = Some st ->
  symbols_of (image secs) (image_file secs) SHT_DYNSYM = Ok (Some (s_data s, s_data st)).
Proof.
  intros Hok Hf Hent Hst. destruct (find_layout _ (ehdr_tail_end c) _ _ Hf) as (k & Hk & Heq).
  destruct (section_range secs k s Hok Hk) as (Hl & Hr & Hle & Hsl).
  destruct (section_range secs _ st Hok Hst) as (Hl2 & Hr2 & Hle2 & Hsl2).
  unfold symbols_of. cbn [shdrs image_file]. rewrite Heq, Hl, Hr. cbn [rbind fst snd].
  replace (_ <? _) with false by lia. change (sh_link (sec_header _ s)) with (s_link s).
  rewrite Hl2. cbn [ok_or rbind]. rewrite Hr2. cbn [rbind fst snd].
  replace (_ <? _) with false by lia. change (sh_entsize (sec_header _ s)) with (s_entsize s).
  change (class (ehdr (image_file secs))) with c. by rewrite Hent, Z.eqb_refl, Hsl, Hsl2.
Qed.

(** rapido-cut's view of the file. *)
Lemma elf_open_image secs s sy st : image_ok secs -> List.find (has_type SHT_DYNAMIC) secs = Some s ->
  List.find (has_type SHT_DYNSYM) secs = Some sy -> s_entsize sy = symbol_size_for c ->
  secs !! Z.to_nat (s_link sy) = Some st ->
  elf_open (image secs) = Some (MkElf (Some (Some (dyn_entries (MkTable e c (s_data s)))))
    (Some (Some (dyn_strings (s_data sy, s_data st))))).
Proof.
  intros Hok Hd Hy Hent Hst. unfold elf_open, open_stream.
  destruct (runs_image_open secs Hok _ (caching_new_ok _)) as (cr & Hcr & ->).
  destruct (runs_image_dynamic secs s Hok Hd cr Hcr) as (cr1 & Hcr1 & ->).
  destruct (runs_symbols _ (image_file secs) SHT_DYNSYM cr1 Hcr1) as (cr2 & _ & Hsy).
  unfold dynamic_symbol_table. rewrite Hsy. by rewrite (image_symbols secs sy st).
Qed.
End Image.

(** ** String tables *)

Definition str_concat (names : list bytes) : bytes := concat ((fun n => n ++ [0]) <$> names).

(** the offsets of names that follow one another from [off] on *)
Fixpoint str_offs (off : Z) (names : list bytes) : list Z :=
  match names with [] => [] | n :: names => off :: str_offs (off + zlen n + 1) names end.

Definition name_ok (n : bytes) : Prop := utf8_valid n = true /\ Forall (fun c => (0 =? c) = false) n.

Lemma split_once_nul n rest : Forall (fun c => (0 =? c) = false) n ->
  split_once (Z.eqb 0) (n ++ 0 :: rest) = Some (n, rest).
Proof. induction 1 as [|b n Hb _ IH]; [done|]. cbn [split_once app]. by rewrite Hb, IH. Qed.

Lemma strtab_offs sy pre names post : Forall name_ok names ->
  Forall2 (fun off n => dyn_strings (sy, pre ++ str_concat names ++ post) off = Some n)
    (str_offs (zlen pre) names) names.
Proof.
  intros Hn. revert pre. induction Hn as [|n names [Hu Hz] _ IH]; intros pre; [constructor|].
  cbn [str_offs]. unfold str_concat. rewrite fmap_cons. cbn [concat].
  rewrite <-!app_assoc. fold (str_concat names). constructor.
  - unfold dyn_strings, strtab_get, get_raw. cbn [snd]. rewrite bool_decide_eq_false_2.
    + rewrite !zlen_app. pose proof (zlen_nonneg n). pose proof (zlen_nonneg [0]).
      pose proof (zlen_nonneg (str_concat names)). pose proof (zlen_nonneg post).
      replace (_ <? _) with false by lia. unfold zlen. rewrite Nat2Z.id, drop_app_length. cbn [app].
      rewrite split_once_nul by done. cbn [rbind]. unfold from_utf8. by rewrite Hu.
    + intros Hnil. apply (f_equal length) in Hnil. rewrite !length_app in Hnil. simpl in Hnil. lia.
  - specialize (IH (pre ++ n ++ [0])). rewrite !zlen_app in IH. change (zlen [0]) with 1 in IH.
    rewrite <-!app_assoc in IH. by rewrite Z.add_assoc in IH.
Qed.

Lemma str_offs_bounds off names :
  Forall (fun o => off <= o <= off + zlen (str_concat names)) (str_offs off names).
Proof.
  revert off. induction names as [|n names IH]; intros off; [constructor|]. unfold str_concat.
  rewrite fmap_cons. cbn [concat str_offs]. fold (str_concat names). rewrite !zlen_app.
  change (zlen [0]) with 1. pose proof (zlen_nonneg n). pose proof (zlen_nonneg (str_concat names)).
  constructor; [lia|]. eapply Forall_impl; [apply IH|]. simpl. intros o Ho. lia.
Qed.

Lemma str_concat_app a b : str_concat (a ++ b) = str_concat a ++ str_concat b.
Proof. unfold str_concat. by rewrite fmap_app, concat_app. Qed.

(** ** Executables *)

Definition SHT_STRTAB : Z := 3.

(** The dynamic section: the libraries and the paths to look for them, as offsets
    of the string table, and the terminator. *)
Definition exe_dyns (needed runpaths : list bytes) : list Dyn :=
  (MkDyn DT_NEEDED <$> str_offs 1 needed) ++
  (MkDyn DT_RUNPATH <$> str_offs (1 + zlen (str_concat needed)) runpaths) ++ [MkDyn 0 0].

Definition exe_strs (needed runpaths : list bytes) : bytes := [0] ++ str_concat needed ++ str_concat runpaths.

(** The sections of an executable; [rest] are others. *)
Definition exe_secs (e : AnyEndian) (c : ElfClass) (needed runpaths : list bytes) (rest : list Sec) : list Sec :=
  [MkSec SHT_STRTAB 0 0 (exe_strs needed runpaths);
   MkSec SHT_DYNSYM 0 (symbol_size_for c) [];
   MkSec SHT_DYNAMIC 0 (size_for (P := Dyn) c) (concat (encode_dyn e c <$> exe_dyns needed runpaths))] ++ rest.

Definition exe (e : AnyEndian) (c : ElfClass) (needed runpaths : list bytes) (rest : list Sec) : bytes :=
  image e c (exe_secs e c needed runpaths rest).

(** The entry rapido-cut gathers for a library. *)
Definition needed_ent (runpaths : list bytes) (n : bytes) : GatherEnt :=
  match runpaths with [] => Lib n | _ => LibRunPath n runpaths end.

Lemma dyn_vals_app tag a b : dyn_vals tag (a ++ b) = dyn_vals tag a ++ dyn_vals tag b.
Proof. unfold dyn_vals. by rewrite List.filter_app, fmap_app. Qed.

Lemma dyn_vals_tagged tag t offs :
  dyn_vals tag ((fun d => (d_tag d, d_un d)) <$> (MkDyn t <$> offs)) = if t =? tag then offs else [].
Proof.
  unfold dyn_vals. rewrite <-list_fmap_compose. unfold compose. simpl.
  induction offs as [|o offs IH]; [by destruct (t =? tag)|]. rewrite fmap_cons. cbn [List.filter fst].
  destruct (t =? tag); [|done]. rewrite fmap_cons. simpl. by f_equal.
Qed.

Lemma exe_dyn_vals needed runpaths :
  let ds := (fun d => (d_tag d, d_un d)) <$> exe_dyns needed runpaths in
  dyn_vals DT_NEEDED ds = str_offs 1 needed /\
  dyn_vals DT_RUNPATH ds = str_offs (1 + zlen (str_concat needed)) runpaths.
Proof.
  unfold exe_dyns. simpl. rewrite !fmap_app, !dyn_vals_app, !dyn_vals_tagged. simpl.
  unfold dyn_vals. simpl. by rewrite !app_nil_r.
Qed.

Lemma Forall2_omap {A C} (f : A -> option C) l k : Forall2 (fun x y => f x = Some y) l k -> omap f l = k.
Proof.
  induction 1 as [|x y l k Hf _ IH]; [done|]. cbn [omap list_omap]. rewrite Hf. by f_equal.
Qed.

Lemma filter_not_in (n : bytes) (libs : gset bytes) (names : list bytes) : n ∉ names ->
  filter (fun m => m ∉ {[n]} ∪ libs) names = filter (fun m => m ∉ libs) names.
Proof.
  induction names as [|m names IH]; intros Hn; [done|].
  apply not_elem_of_cons in Hn as [Hne Hn]. rewrite !filter_cons, IH by done.
  do 2 case_decide; [done|set_solver|set_solver|done].
Qed.

Lemma elf_needed_nodup strs runpaths offs names ret libs :
  Forall2 (fun off n => strs off = Some n) offs names -> NoDup names ->
  elf_needed strs runpaths offs ret libs =
  (Ok (ret ++ (needed_ent runpaths <$> filter (fun n => n ∉ libs) names)), list_to_set names ∪ libs).
Proof.
  intros Hall. revert ret libs. induction Hall as [|off n offs names Hn _ IH]; intros ret libs Hd; simpl.
  { rewrite app_nil_r. unfold sret. f_equal. set_solver. }
  apply NoDup_cons in Hd as [Hnin Hd]. rewrite Hn. unfold sbind, sget, sput.
  rewrite IH by done. f_equal; [|set_solver]. f_equal.
  rewrite filter_not_in, filter_cons by done. fold (needed_ent runpaths n). case_bool_decide; case_decide; try done.
  by rewrite <-app_assoc.
Qed.

Lemma exe_dyns_wf needed runpaths : zlen (exe_strs needed runpaths) < 2 ^ 32 ->
  Forall dyn_wf (exe_dyns needed runpaths).
Proof.
  unfold exe_strs. rewrite !zlen_app. change (zlen [0]) with 1. intros Hz.
  pose proof (zlen_nonneg (str_concat needed)). pose proof (zlen_nonneg (str_concat runpaths)).
  unfold exe_dyns. apply Forall_app_2; [|apply Forall_app_2; [|repeat constructor; done]];
    apply Forall_fmap; (eapply Forall_impl; [apply str_offs_bounds|]); intros o Ho; simpl in Ho |- *;
    (split; [done|]); unfold u32_ok; simpl; lia.
Qed.

Lemma section_small e c secs s : image_ok e c secs -> s ∈ secs -> zlen (s_data s) < 2 ^ 32.
Proof.
  intros Hok (k & Hk)%list_elem_of_lookup_1. pose proof (io_size _ _ _ Hok).
  destruct (section_range e c secs k s Hok Hk) as (_ & _ & Hle & _).
  pose proof (zlen_nonneg (bodies (take k secs))). pose proof (ehdr_tail_end_bounds c). lia.
Qed.

(** What rapido-cut finds in an executable. *)
Lemma elf_open_exe e c needed runpaths rest : image_ok e c (exe_secs e c needed runpaths rest) ->
  elf_open (exe e c needed runpaths rest) =
  Some (MkElf (Some (Some ((fun d => (d_tag d, d_un d)) <$> exe_dyns needed runpaths)))
    (Some (Some (dyn_strings ([], exe_strs needed runpaths))))).
Proof.
  intros Hok. unfold exe. erewrite elf_open_image by done. cbn [s_data]. do 3 f_equal.
  unfold dyn_entries. do 2 f_equal. rewrite (table_iter_decodes e c (encode_dyn e c)); [done| |].
  - assert (zlen (concat (encode_dyn e c <$> exe_dyns needed runpaths)) < 2 ^ 32); [|unfold USIZE; lia].
    eapply (section_small e c _ (MkSec SHT_DYNAMIC 0 (size_for (P := Dyn) c) _) Hok). right. right. left.
  - assert (zlen (exe_strs needed runpaths) < 2 ^ 32) as Hz.
    { eapply (section_small e c _ (MkSec SHT_STRTAB 0 0 _) Hok). left. }
    eapply Forall_impl; [by apply exe_dyns_wf|]. intros d Hd. by apply decodes_dyn.
Qed.

(** C11. The libraries an executable was linked against are the ones rapido-cut gathers
    for it: from a file of either class and byte order that records the names
    and the search paths in its dynamic section, whatever other sections it
    has, [elf_deps] yields one entry for every name that was not seen before,
    in order, to be looked for in the search paths first; and all the names
    have been seen then. *)
Theorem elf_deps_roundtrip e c needed runpaths rest libs :
  image_ok e c (exe_secs e c needed runpaths rest) -> Forall name_ok (needed ++ runpaths) -> NoDup needed ->
  elf_deps (elf_open (exe e c needed runpaths rest)) libs =
  (Ok (needed_ent runpaths <$> filter (fun n => n ∉ libs) needed), list_to_set needed ∪ libs).
Proof.
  intros Hok [Hn Hr]%Forall_app Hd. rewrite elf_open_exe by done. unfold elf_deps. cbn [elf_dynamic elf_dynstr].
  destruct (exe_dyn_vals needed runpaths) as [-> ->].
  pose proof (strtab_offs [] [0] needed (str_concat runpaths) Hn) as H1.
  pose proof (strtab_offs [] ([0] ++ str_concat needed) runpaths [] Hr) as H2.
  rewrite app_nil_r, <-app_assoc, zlen_app in H2. apply Forall2_omap in H2.
  change (omap (dyn_strings ([], exe_strs needed runpaths)) (str_offs (1 + zlen (str_concat needed)) runpaths)
    = runpaths) in H2. rewrite H2.
  exact (elf_needed_nodup _ runpaths _ _ [] libs H1 Hd).
Qed.

(** ** Samples *)

Module ElfSample.
Definition needed : list bytes := [B "libc.so.6"; B "libm.so.6"].
Definition rest : list Sec := [MkSec 1 0 0 (B "text")].
Definition file (e : AnyEndian) (c : ElfClass) : bytes := exe e c needed [B "/opt/lib"] rest.

Lemma file_ok e c : image_ok e c (exe_secs e c needed [B "/opt/lib"] rest).
Proof.
  split.
  - repeat constructor; by destruct c.
  - done.
  - done.
  - destruct e, c; vm_compute; done.
Qed.
End ElfSample.

Example elf_not_elf : elf_open (B "#!/bin/sh") = None.
Proof. vm_compute. reflexivity. Qed.

(** A file cut off within its section headers does not open. *)
Example elf_truncated : elf_open (take 300 (ElfSample.file Little ELF64)) = None.
Proof. vm_compute. reflexivity. Qed.

(** ** A run of rapido-cut over real files *)

(** A shell that needs libc, found below its run path, which needs the dynamic
    linker, of another class and byte order; the files are read by the parser. *)
Module ElfFiles.
Definition sh : bytes := exe Little ELF64 [B "libc.so.6"] [B "/opt/lib"] [].
Definition libc : bytes := exe Big ELF32 [B "ld.so.1"; B "libc.so.6"] [] [].
Definition files : gmap bytes bytes := list_to_map
  [(B "/usr/bin/sh", sh); (B "/opt/lib/libc.so.6", libc); (B "/usr/lib64/ld.so.1", exe Little ELF64 [] [] [])].
Definition host : Host := {|
  host_open := files_lookup files reader_of;
  host_metadata := files_lookup files ElfRun.md_x;
  host_symlink_metadata := files_lookup files ElfRun.md_x;
  host_read_link _ := Err (err_from InvalidInput);
  host_canonicalize p := Ok p;
  host_dir_entries _ := Err (err_from NotFound);
  host_env _ := None;
  host_cwd := B "/" |}.
Definition run : result cut_error unit * CutState Vector :=
  gather_archive_elfs host elf_open 10 [Name (B "sh")] ElfRun.start.
End ElfFiles.

Example elf_files_run : fst ElfFiles.run = Ok tt /\
  Forall (fun p => path_key p ∈ paths_seen (snd ElfFiles.run))
    [B "/usr/bin/sh"; B "/opt/lib/libc.so.6"; B "/usr/lib64/ld.so.1"].
Proof. split; [vm_compute; reflexivity|]. apply (bool_decide_unpack (Forall _ _)). vm_compute. exact I. Qed.

Lemma elf_deps_roundtrip_witness :
  elf_deps (elf_open (ElfSample.file Big ELF32)) {[B "libm.so.6"]} =
  (Ok (needed_ent [B "/opt/lib"] <$> filter (fun n => n ∉ ({[B "libm.so.6"]} : gset bytes)) ElfSample.needed),
   list_to_set ElfSample.needed ∪ {[B "libm.so.6"]}).
Proof.
  apply elf_deps_roundtrip.
  - apply ElfSample.file_ok.
  - repeat constructor; vm_compute; done.
  - apply (bool_decide_unpack (NoDup ElfSample.needed)). vm_compute. exact I.
Defined.
