(* ===== verification/CutKmodSpec.v ===== *)
(** * rapido-cut: kernel modules in the archive

    A module that is gathered brings all its hard dependencies; and how modules
    that are recorded as seen, but could not be archived, are treated. *)

From S2P Require Import Prelude RustStr RustWords RustPath RustIo KvConf Cpio CpioArchive Host Kmod.
From S2P Require Import RapidoLib Cut CutKmods CutManifest CutSpec.

#[local] Set Warnings "-clear-no-such-hyp".

(** ** Hard dependencies *)

Section Kmods.
Context {W : Type} `{Write W} (host : Host).
Implicit Types s : CutState W.

Lemma kmod_path_traced src dst s s' :
  archive_kmod_path host src dst (set_paths ({[path_key dst]} ∪ paths_seen s) s) = (Ok tt, s') ->
  path_key dst ∉ paths_seen s ->
  exists qs q, req_path q = dst /\ traced s (qs ++ [q]) s'.
Proof.
  intros Hr Hnew. unfold archive_kmod_path in Hr.
  unfold clift at 1 in Hr. unfold sbind at 1, slift in Hr.
  destruct (host_symlink_metadata host src) as [md|e|]; cbn [map_err] in Hr; [|done..].
  apply sbind_inv_ok in Hr as (amd & s1 & Hamd & Hr). apply amd_from_ok in Hamd as [-> _].
  apply sbind_inv_ok in Hr as ([] & s2 & Hd & Hr).
  assert (one_at dst s2 s') as (q & Hq & Hone).
  { revert Hr. apply asks_bind_l; [auto with rapido|]. intros f. apply (asks_request (ReqFile dst amd f)). }
  destruct (below_traced_first _ _ _ _ _ _ Hq Hd Hnew Hone) as (qs & _ & Ht). by exists qs, q.
Qed.

(** Recording a path and archiving a module there, unless it is seen. *)
Lemma kmod_new_traced src dst s s' :
  (let* new := paths_insert dst in
   if new : bool then archive_kmod_path host src dst else sret tt) s = (Ok tt, s') ->
  exists qs, traced s qs s' /\ (path_key dst ∈ paths_seen s \/ path_key dst ∈ keys qs).
Proof.
  unfold sbind at 1, paths_insert. case_bool_decide as Hnew.
  - intros Hr. apply kmod_path_traced in Hr as (qs & q & Hq & Ht); [|done].
    exists (qs ++ [q]). split; [done|]. right. rewrite keys_app. unfold keys at 2, req_key. simpl.
    rewrite Hq. set_solver.
  - unfold sret. intros [= <-]. exists []. split; [|by left].
    apply traced_refl; [done| |done]. simpl. set_solver.
Qed.

Lemma hard_deps_traced gk deps s s' :
  archive_hard_deps host gk deps s = (Ok tt, s') ->
  exists qs, traced s qs s' /\
    Forall (fun d => path_key (join (kmod_dst_root gk) d) ∈ paths_seen s \/
                     path_key (join (kmod_dst_root gk) d) ∈ keys qs) deps.
Proof.
  revert s. induction deps as [|d deps IH]; intros s Hr; simpl in Hr.
  { unfold sret in Hr. simplify_eq. exists []. split; [by apply traced_refl|constructor]. }
  rewrite <-(sbind_assoc (paths_insert _)
    (fun new : bool => if new then archive_kmod_path host (join (module_root (kmod_ctx gk)) d)
       (join (kmod_dst_root gk) d) else sret tt)) in Hr.
  apply sbind_inv_ok in Hr as ([] & s1 & H1 & Hr).
  apply kmod_new_traced in H1 as (qs1 & Ht1 & Hd). apply IH in Hr as (qs2 & Ht2 & Hds).
  exists (qs1 ++ qs2). split; [by eapply traced_trans|]. rewrite keys_app. constructor.
  - destruct Hd; [by left|right; set_solver].
  - eapply Forall_impl; [exact Hds|]. simpl. intros x. rewrite (tr_seen _ _ _ Ht1). set_solver.
Qed.
End Kmods.

(** C9. Hard dependencies of a module: when a loadable module that was not seen
    is gathered successfully, it is archived first, and every hard dependency
    modules.dep lists is archived or was seen before the soft and weak ones are
    looked at; none of these entries is for a path seen before or occurs twice,
    and parents come before children. *)
Theorem kmod_hard_deps_archived {W} `{Write W} host gk name m (s s' : CutState W) :
  find (kmod_ctx gk) name = Some m -> status m <> Builtin ->
  path_key (join (kmod_dst_root gk) (rel_path m)) ∉ paths_seen s ->
  gather_archive_kmod_and_deps host name gk s = (Ok tt, s') ->
  exists qs s1, run_requests qs (arch s) = (Ok tt, arch s1) /\
    NoDup (req_key <$> qs) /\ Forall (fun q => req_key q ∉ paths_seen s) qs /\
    ordered (paths_seen s) qs /\
    path_key (join (kmod_dst_root gk) (rel_path m)) ∈ keys qs /\
    Forall (fun d => path_key (join (kmod_dst_root gk) d) ∈ paths_seen s \/
                     path_key (join (kmod_dst_root gk) d) ∈ keys qs) (hard_deps_paths m) /\
    archive_soft_deps host gk (soft_deps_pre m ++ soft_deps_post m ++ weak_deps m) s1 = (Ok tt, s').
Proof.
  unfold gather_archive_kmod_and_deps. intros -> Hb Hnew Hr.
  rewrite bool_decide_eq_false_2 in Hr by done. unfold sbind at 1, paths_insert in Hr.
  rewrite bool_decide_eq_true_2 in Hr by done. cbn [negb] in Hr.
  apply sbind_inv_ok in Hr as ([] & s1 & H1 & Hr).
  apply kmod_path_traced in H1 as (qs1 & q & Hq & Ht1); [|done].
  apply sbind_inv_ok in Hr as ([] & s2 & H2 & Hr).
  apply hard_deps_traced in H2 as (qs2 & Ht2 & Hd).
  destruct (traced_trans _ _ _ _ _ Ht1 Ht2) as [Hrun _ Hf Hn Ho _].
  exists ((qs1 ++ [q]) ++ qs2), s2. split_and!; try done.
  - rewrite !keys_app. apply elem_of_union_l, elem_of_union_r. unfold keys, req_key. simpl.
    rewrite Hq. set_solver.
  - eapply Forall_impl; [exact Hd|]. simpl. intros d. rewrite (tr_seen _ _ _ Ht1), keys_app.
    set_solver.
Qed.

(** ** Missing modules *)

Lemma missing_kmod {W} `{Write W} host gk name m e (s : CutState W) :
  find (kmod_ctx gk) name = Some m -> status m <> Builtin ->
  path_key (join (kmod_dst_root gk) (rel_path m)) ∉ paths_seen s ->
  host_symlink_metadata host (join (module_root (kmod_ctx gk)) (rel_path m)) = Err e ->
  gather_archive_kmod_and_deps host name gk s =
    (Err (Io e), set_paths ({[path_key (join (kmod_dst_root gk) (rel_path m))]} ∪ paths_seen s) s).
Proof.
  unfold gather_archive_kmod_and_deps. intros -> Hb Hnew He.
  rewrite bool_decide_eq_false_2 by done. unfold sbind at 1, paths_insert.
  rewrite bool_decide_eq_true_2 by done. cbn [negb].
  unfold archive_kmod_path, sbind, clift, slift. by rewrite He.
Qed.

Lemma seen_kmod {W} `{Write W} host gk name m (s : CutState W) :
  find (kmod_ctx gk) name = Some m -> status m <> Builtin ->
  path_key (join (kmod_dst_root gk) (rel_path m)) ∈ paths_seen s ->
  gather_archive_kmod_and_deps host name gk s = (Ok tt, s).
Proof.
  unfold gather_archive_kmod_and_deps. intros -> Hb Hin.
  rewrite bool_decide_eq_false_2 by done. unfold sbind at 1, paths_insert.
  rewrite bool_decide_eq_false_2 by (intros Hn; done). cbn [negb]. unfold sret. f_equal.
  destruct s; unfold set_paths; simpl in *. f_equal. set_solver.
Qed.

(** C37. A module that modules.dep names but whose file is missing: a kmod line
    for it fails, with NotFound; but after a try-kmod line for it, which archives
    nothing, the same kmod line succeeds and archives nothing either, because the
    path was recorded as seen before it was archived. *)
Theorem try_kmod_hides_missing {W} `{Write W} host gk name m e (s : CutState W) :
  find (kmod_ctx gk) name = Some m -> status m <> Builtin ->
  path_key (join (kmod_dst_root gk) (rel_path m)) ∉ paths_seen s ->
  host_symlink_metadata host (join (module_root (kmod_ctx gk)) (rel_path m)) = Err e ->
  kind e = NotFound ->
  (exists e', kind e' = NotFound /\ fst (gather_kmod_names host gk [name] false s) = Err (Io e')) /\
  exists s', arch s' = arch s /\ gather_kmod_names host gk [name] true s = (Ok tt, s') /\
    gather_kmod_names host gk [name] false s' = (Ok tt, s').
Proof.
  intros Hf Hb Hnew He Hk.
  assert (forall ign, exists e', kind e' = NotFound /\
    gather_kmod_names host gk [name] ign s =
      (if ign then Ok tt else Err (Io e'),
       set_paths ({[path_key (join (kmod_dst_root gk) (rel_path m))]} ∪ paths_seen s) s)) as Hg.
  { intros ign. eexists. split; [|cbn [gather_kmod_names]; unfold found at 1, sbind at 1 2, stry;
      rewrite (missing_kmod _ _ _ _ e) by done; rewrite bool_decide_eq_true_2 by done;
      unfold sret; destruct ign; cbn [negb andb]; [reflexivity|unfold cfail, sfail; reflexivity]].
    done. }
  split.
  - destruct (Hg false) as (e' & He' & ->). by exists e'.
  - destruct (Hg true) as (e' & He' & ->). eexists. split; [|split; [reflexivity|]]; [done|].
    cbn [gather_kmod_names]. unfold found at 1, sbind at 1 2, stry.
    rewrite (seen_kmod _ _ _ m); [done..|]. simpl. set_solver.
Qed.

(** ** A sample module tree *)

Module KmodRun.
Definition a : KmodModule :=
  MkKmod LoadableModule (B "k/a.ko") [B "k/b.ko"; B "k/c.ko"] [] [B "d"] [].
Definition gk : GatherKmods := MkGatherKmods (B "/usr/lib/modules/6") (MkKmodContext
  (list_to_map [(B "a", a); (B "c", MkKmod LoadableModule (B "k/c.ko") [] [] [] []);
                (B "b", MkKmod LoadableModule (B "k/b.ko") [B "k/c.ko"] [] [] []);
                (B "gone", MkKmod LoadableModule (B "k/gone.ko") [] [] [] [])]) ∅ (B "/m")).
Definition host : Host := files_host (list_to_map [
  (B "/m/k/a.ko", B "aa"); (B "/m/k/b.ko", B "b"); (B "/m/k/c.ko", B "c")]).
Definition start : CutState Vector := cut_start (MkVector []).
End KmodRun.

Lemma kmod_hard_deps_archived_witness :
  let r := gather_archive_kmod_and_deps KmodRun.host (B "a") KmodRun.gk KmodRun.start in
  exists qs s1, run_requests qs (arch KmodRun.start) = (Ok tt, arch s1) /\
    NoDup (req_key <$> qs) /\ Forall (fun q => req_key q ∉ paths_seen KmodRun.start) qs /\
    ordered (paths_seen KmodRun.start) qs /\
    path_key (join (kmod_dst_root KmodRun.gk) (rel_path KmodRun.a)) ∈ keys qs /\
    Forall (fun d => path_key (join (kmod_dst_root KmodRun.gk) d) ∈ paths_seen KmodRun.start \/
                     path_key (join (kmod_dst_root KmodRun.gk) d) ∈ keys qs)
      (hard_deps_paths KmodRun.a) /\
    archive_soft_deps KmodRun.host KmodRun.gk
      (soft_deps_pre KmodRun.a ++ soft_deps_post KmodRun.a ++ weak_deps KmodRun.a) s1
    = (Ok tt, snd r).
Proof.
  intros r. apply (kmod_hard_deps_archived KmodRun.host KmodRun.gk (B "a")).
  - vm_compute. reflexivity.
  - discriminate.
  - apply (bool_decide_unpack (_ ∉ _)). vm_compute. exact I.
  - assert (fst r = Ok tt) as Hr by (vm_compute; reflexivity). unfold r in *.
    rewrite <-Hr. apply surjective_pairing.
Defined.

Lemma try_kmod_hides_missing_witness :
  (exists e', kind e' = NotFound /\
     fst (gather_kmod_names KmodRun.host KmodRun.gk [B "gone"] false KmodRun.start)
     = Err (Io e')) /\
  exists s', arch s' = arch KmodRun.start /\
    gather_kmod_names KmodRun.host KmodRun.gk [B "gone"] true KmodRun.start = (Ok tt, s') /\
    gather_kmod_names KmodRun.host KmodRun.gk [B "gone"] false s' = (Ok tt, s').
Proof.
  apply (try_kmod_hides_missing KmodRun.host KmodRun.gk (B "gone")
    (MkKmod LoadableModule (B "k/gone.ko") [] [] [] []) (err_from NotFound)).
  - vm_compute. reflexivity.
  - discriminate.
  - apply (bool_decide_unpack (_ ∉ _)). vm_compute. exact I.
  - vm_compute. reflexivity.
  - reflexivity.
Defined.
