(* ===== verification/Argument.v ===== *)
(** * Command line options (src/src/third_party/crosvm/argument.rs)

    A small state machine over the arguments calls back with the name and the
    value of each option; [set_arguments] checks names and values against the
    options the tool declares. The tool's state is the state of the callback. *)

From S2P Require Import Prelude RustStr.

(** ** Data *)

Inductive arg_error :=
  | Syntax (s : bytes)
  | UnknownArgument (s : bytes)
  | ExpectedArgument (s : bytes)
  | InvalidValue (value expected : bytes)
  | TooManyArguments (s : bytes)
  | ExpectedValue (s : bytes)
  | UnexpectedValue (s : bytes)
  | PrintHelp.

#[export] Instance arg_error_eq_dec : EqDecision arg_error.
Proof. solve_decision. Defined.

(** [impl Display for Error] *)
Definition arg_error_fmt (e : arg_error) : bytes :=
  match e with
  | Syntax s => B "syntax error: " ++ s
  | UnknownArgument s => B "unknown argument: " ++ s
  | ExpectedArgument s => B "expected argument: " ++ s
  | InvalidValue value expected => B "invalid value " ++ fmt_debug value ++ B ": " ++ expected
  | TooManyArguments s => B "too many arguments: " ++ s
  | ExpectedValue s => B "expected parameter value: " ++ s
  | UnexpectedValue s => B "unexpected parameter value: " ++ s
  | PrintHelp => B "help was requested"
  end.

Inductive ArgumentValueMode := Required | Disallowed | Optional.

#[export] Instance ArgumentValueMode_eq_dec : EqDecision ArgumentValueMode.
Proof. solve_decision. Defined.

(** The short name is a character, here as its UTF-8 encoding. *)
Record Argument := MkArgument {
  arg_value : option bytes;
  arg_value_mode : ArgumentValueMode;
  arg_short : option bytes;
  arg_long : bytes;
  arg_help : bytes;
}.

Definition positional (value help : bytes) : Argument := MkArgument (Some value) Required None [] help.
Definition value (long value help : bytes) : Argument :=
  MkArgument (Some value) Required None long help.
Definition short_value (short long value help : bytes) : Argument :=
  MkArgument (Some value) Required (Some short) long help.
Definition flag (long help : bytes) : Argument := MkArgument None Disallowed None long help.
Definition short_flag (short long help : bytes) : Argument :=
  MkArgument None Disallowed (Some short) long help.
Definition flag_or_value (long value help : bytes) : Argument :=
  MkArgument (Some value) Optional None long help.

(** ** Help *)

(** [{:<n}] *)
Definition pad_left_aligned (n : nat) (s : bytes) : bytes :=
  s ++ replicate (n - length (chars s)) SPACE.

(** the line of an option *)
Definition help_line (a : Argument) : bytes :=
  match arg_short a with Some s => B " -" ++ s ++ B ", " | None => B "     " end ++
  (if bool_decide (arg_long a = []) then B "  " else B "--") ++
  pad_left_aligned 12 (arg_long a) ++
  match arg_value a with
  | Some v => (if bool_decide (arg_long a = []) then B " " else B "=") ++ pad_left_aligned 10 v
  | None => pad_left_aligned 11 []
  end ++
  arg_help a ++ [NL].

(** what [print_help] prints *)
Definition print_help (program_name required_arg : bytes) (args : list Argument) : bytes :=
  B "Usage: " ++ program_name ++ [SPACE] ++
  (if bool_decide (args = []) then [] else B "[ARGUMENTS] ") ++ required_arg ++ [NL; NL] ++
  (if bool_decide (args = []) then []
   else B "Argument" ++ (if (1 <? length args)%nat then B "s" else []) ++ B ":" ++ [NL] ++
        concat (help_line <$> args)).

(** ** Parsing *)

Definition HYPHEN : Z := 45.
Definition EQUALS : Z := 61.

(** [trim_start_matches('-')] *)
Definition trim_hyphens (s : bytes) : bytes := drop_while (Z.eqb HYPHEN) s.

Inductive ArgState :=
  | Top
  | Positional
  | Value (name : bytes).

Section Parse.
Context {S : Type}.

(** The closures the parsers call. *)
Definition Callback : Type := bytes -> option bytes -> SM S arg_error unit.

(** [c.map_err(|_| e)?] *)
Definition with_error (e : arg_error) (c : SM S arg_error unit) : SM S arg_error unit := fun s =>
  let '(r, s') := c s in (map_err (fun _ => e) r, s').

Definition parse_long (f : Callback) (param : bytes) : SM S arg_error ArgState :=
  match split_once (Z.eqb EQUALS) param with
  | Some (name, value) =>
      if negb (nonempty name) then sfail (Syntax (B "expected parameter name before `=`"))
      else if negb (nonempty value) then sfail (Syntax (B "expected parameter value after `=`"))
      else do* f name (Some value) ;; sret Top
  | None => sret (Value param)
  end.

(** "-x" and "-xVALUE"; slicing panics inside a character of several bytes *)
Definition parse_short (f : Callback) (rest : bytes) : SM S arg_error ArgState :=
  match rest with
  | [] => sfail (Syntax (B "expected argument short name after `-`"))
  | c :: value =>
      if 0x80 <=? c then spanic
      else
        let* r := stry (f [c] (if nonempty value then Some value else None)) in
        match r with
        | Ok _ => sret Top
        | Err (ExpectedValue _) => sret (Value [c])
        | Err e => sfail e
        | Panic => spanic
        end
  end.

Definition parse_top (f : Callback) (arg : bytes) : SM S arg_error ArgState :=
  if bool_decide (arg = B "--") then sret Positional
  else
    match strip_prefix (B "--") arg with
    | Some rest => parse_long f (trim_hyphens rest)
    | None =>
        match strip_prefix (B "-") arg with
        | Some rest => parse_short f rest
        | None => do* f [] (Some arg) ;; sret Positional
        end
    end.

(** One argument: the inner loop runs at most twice, as only [State::Value]
    leaves the argument to the top state. *)
Definition parse_step (f : Callback) (st : ArgState) (arg : bytes) : SM S arg_error ArgState :=
  match st with
  | Top => parse_top f arg
  | Positional => do* f [] (Some arg) ;; sret Positional
  | Value name =>
      if starts_with (B "-") arg then do* f name None ;; parse_top f arg
      else
        let* r := stry (f name (Some arg)) in
        match r with
        | Ok _ => sret Top
        | Err e => do* with_error e (f name None) ;; parse_top f arg
        | Panic => spanic
        end
  end.

(** The items of the iterator are what [env::args] yields: it panics at an
    argument that is not Unicode, here [None]. *)
Fixpoint parse_from (f : Callback) (st : ArgState) (args : list (option bytes)) :
    SM S arg_error unit :=
  match args with
  | [] => match st with Value name => f name None | _ => sret tt end
  | None :: _ => spanic
  | Some arg :: args => let* st := parse_step f st arg in parse_from f st args
  end.

Definition parse_arguments (f : Callback) (args : list (option bytes)) : SM S arg_error unit :=
  parse_from f Top args.

(** the loop over the declared options *)
Fixpoint match_argument (arg_list : list Argument) (name : bytes) (value : option bytes)
    (matches : option bytes) : result arg_error (option bytes) :=
  match arg_list with
  | [] => Ok matches
  | arg :: arg_list =>
      let? matches :=
        match arg_short arg with
        | Some short =>
            if (length name =? 1)%nat && starts_with short name then
              if negb (eqb (bool_decide (is_Some value)) (bool_decide (is_Some (arg_value arg))))
              then Err (ExpectedValue short)
              else Ok (Some (arg_long arg))
            else Ok matches
        | None => Ok matches
        end in
      let? matches :=
        match matches with
        | Some _ => Ok matches
        | None =>
            if bool_decide (arg_long arg = name) then
              match value, arg_value_mode arg with
              | None, Required => Err (ExpectedValue (arg_long arg))
              | Some _, Disallowed => Err (UnexpectedValue (arg_long arg))
              | _, _ => Ok (Some (arg_long arg))
              end
            else Ok None
        end in
      match_argument arg_list name value matches
  end.

(** the closure [set_arguments] hands to the parser *)
Definition matched (arg_list : list Argument) (f : Callback) : Callback := fun name value =>
  match match_argument arg_list name value None with
  | Ok (Some long) => f long value
  | Ok None => sfail (UnknownArgument name)
  | Err e => sfail e
  | Panic => spanic
  end.

Definition set_arguments (args : list (option bytes)) (arg_list : list Argument) (f : Callback) :
    SM S arg_error unit :=
  parse_arguments (matched arg_list f) args.
End Parse.

Arguments Callback S : clear implicits.

(** [env::args().skip(1)] *)
Definition env_args (args : list bytes) : list (option bytes) := from_utf8 <$> args.

(** ** The unit tests of the crate *)

Definition test_args : list Argument :=
  [positional (B "FILES") (B "files to operate on");
   short_value (B "p") (B "program") (B "PROGRAM") (B "Program to apply to each file");
   short_value (B "c") (B "cpus") (B "N") (B "Number of CPUs to use. (default: 1)");
   flag (B "unmount") (B "Unmount the root");
   short_flag (B "h") (B "help") (B "Print help message.")].

(** Record the calls; "help" asks for the help text. *)
Definition record_calls : Callback (list (bytes * option bytes)) := fun name v s =>
  if bool_decide (name = B "help") then (Err PrintHelp, s) else (Ok tt, s ++ [(name, v)]).

Definition test_run (args : list string) : result arg_error unit * list (bytes * option bytes) :=
  set_arguments (env_args (B <$> args)) test_args record_calls [].

Example test_request_help : fst (test_run ["-h"]%string) = Err PrintHelp.
Proof. reflexivity. Qed.
Example test_mixed_args :
  test_run ["--cpus"; "3"; "--program"; "hello"; "--unmount"; "file"]%string =
  (Ok tt, [(B "cpus", Some (B "3")); (B "program", Some (B "hello")); (B "unmount", None);
           ([], Some (B "file"))]).
Proof. reflexivity. Qed.
Example test_name_value_pair :
  test_run ["-c"; "5"; "--cpus"; "5"; "-c5"; "--cpus=5"]%string =
  (Ok tt, replicate 4 (B "cpus", Some (B "5"))).
Proof. reflexivity. Qed.
Example test_missing_value :
  fst (test_run ["-c"; "5"; "--cpus"]%string) = Err (ExpectedValue (B "cpus")).
Proof. reflexivity. Qed.
(** a request for help that is followed by another argument *)
Example help_then_file : fst (test_run ["--help"; "file"]%string) = Err (UnexpectedValue (B "help")).
Proof. reflexivity. Qed.

(** ** Calls *)

(** The option a long name denotes, and whether a value fits it. *)
Definition find_long (arg_list : list Argument) (name : bytes) : option Argument :=
  List.find (fun a => bool_decide (arg_long a = name)) arg_list.

Definition long_outcome (name : bytes) (v : option bytes) (a : option Argument) :
    result arg_error (option bytes) :=
  match a with
  | None => Ok None
  | Some a =>
      match v, arg_value_mode a with
      | None, Required => Err (ExpectedValue name)
      | Some _, Disallowed => Err (UnexpectedValue name)
      | _, _ => Ok (Some name)
      end
  end.

Lemma match_argument_done arg_list name v long : length name <> 1%nat ->
  match_argument arg_list name v (Some long) = Ok (Some long).
Proof.
  intros Hl. induction arg_list as [|a al IH]; [done|]. simpl.
  destruct (arg_short a); [rewrite (proj2 (Nat.eqb_neq _ _)) by done; simpl|]; done.
Qed.

(** A name of more than one byte is a long one. *)
Lemma match_long arg_list name v : length name <> 1%nat ->
  match_argument arg_list name v None = long_outcome name v (find_long arg_list name).
Proof.
  intros Hl. induction arg_list as [|a al IH]; [done|]. unfold find_long in *. simpl.
  assert ((match arg_short a with
           | Some short => if (length name =? 1)%nat && starts_with short name then
               if negb (eqb (bool_decide (is_Some v)) (bool_decide (is_Some (arg_value a))))
               then Err (ExpectedValue short) else Ok (Some (arg_long a)) else Ok None
           | None => Ok None end : result arg_error (option bytes)) = Ok None) as ->.
  { destruct (arg_short a); [|done]. by rewrite (proj2 (Nat.eqb_neq _ _)). }
  simpl. destruct (bool_decide_reflect (arg_long a = name)) as [<-|_]; [|done].
  simpl. destruct v, (arg_value_mode a); simpl; rewrite ?match_argument_done by done; done.
Qed.

(** What [set_arguments] guarantees of a call. *)
Definition allowed (arg_list : list Argument) (long : bytes) (v : option bytes) : Prop :=
  exists a, a ∈ arg_list /\ arg_long a = long /\
    match arg_value_mode a with
    | Required => is_Some v
    | Disallowed => v = None
    | Optional => True
    end.

(** How the constructors make options. *)
Definition argument_wf (a : Argument) : Prop :=
  match arg_value_mode a with
  | Required | Optional => is_Some (arg_value a)
  | Disallowed => arg_value a = None
  end.

#[export] Instance argument_wf_dec a : Decision (argument_wf a).
Proof. unfold argument_wf. destruct (arg_value_mode a); apply _. Defined.

Lemma match_argument_allowed whole arg_list name v m long :
  Forall argument_wf arg_list -> arg_list ⊆ whole -> (forall l, m = Some l -> allowed whole l v) ->
  match_argument arg_list name v m = Ok (Some long) -> allowed whole long v.
Proof.
  intros Hwf Hsub. revert m Hsub. induction Hwf as [|a al Ha _ IH]; simpl; intros m Hsub Hm.
  { intros [= ->]. by apply Hm. }
  assert (a ∈ whole) as Hin by (apply Hsub; left). intros Hr.
  set (m1 := match arg_short a with Some _ => _ | None => _ end) in Hr.
  assert (forall l, m1 = Ok (Some l) -> allowed whole l v) as Hm1.
  { unfold m1. intros l. destruct (arg_short a); [|by intros [= ->]; apply Hm].
    destruct (_ && _); [|by intros [= ->]; apply Hm].
    destruct (eqb _ _) eqn:He; simpl; [|done]. intros [= <-]. exists a. split_and!; [done..|].
    apply Bool.eqb_prop in He. unfold argument_wf in Ha. destruct (arg_value_mode a); [| |done].
    - rewrite (bool_decide_eq_true_2 _ Ha) in He. by apply bool_decide_eq_true in He.
    - rewrite Ha in He. apply bool_decide_eq_false in He. destruct v; [|done]. destruct He; eauto. }
  destruct m1 as [[l1|]|e|]; simpl in Hr; [| |done..].
  - apply (IH (Some l1)); [intros x Hx; apply Hsub; by right| |exact Hr].
    intros l [= <-]. by apply Hm1.
  - assert (forall l, Some (arg_long a) = Some l -> match arg_value_mode a with
        | Required => is_Some v | Disallowed => v = None | Optional => True end -> allowed whole l v) as Hlong.
    { intros l [= <-] Hv. by exists a. }
    assert (al ⊆ whole) as Hsub' by (intros x Hx; apply Hsub; by right).
    case_bool_decide; [|by apply (IH None)].
    destruct v, (arg_value_mode a); simpl in Hr; try done;
      (apply (IH (Some (arg_long a))); [exact Hsub'| |exact Hr]; intros k Hk; by apply Hlong).
Qed.

Lemma match_argument_no_panic arg_list name v m : match_argument arg_list name v m <> Panic.
Proof.
  revert m. induction arg_list as [|a al IH]; intros m; simpl; [done|].
  destruct (arg_short a) as [sh|]; [destruct (_ && _); [destruct (negb _)|]|]; cbn [rbind]; try done.
  all: match goal with |- context [match ?m with Some _ => _ | None => _ end] => destruct m end;
    cbn [rbind]; try case_bool_decide; try destruct v; try destruct (arg_value_mode a); cbn [rbind]; done || apply IH.
Qed.

(** *** Panics *)

(** An argument is text, and its second character, after a hyphen, is ASCII: it is
    sliced off as one byte. *)
Definition sliceable (arg : option bytes) : Prop :=
  match arg with
  | None => False
  | Some (h :: c :: _) => h = HYPHEN -> c < 0x80
  | Some _ => True
  end.

#[export] Instance sliceable_dec arg : Decision (sliceable arg).
Proof. destruct arg as [[|h [|c l]]|]; simpl; apply _. Defined.

Section Panics.
Context {S : Type} (f : Callback S) (Hf : forall name v s, no_panic (f name v) s).

Lemma top_no_panic arg s : sliceable (Some arg) -> no_panic (parse_top f arg) s.
Proof using Hf.
  intros Ha. unfold parse_top. case_bool_decide; [done|]. destruct (strip_prefix (B "--") arg) as [r|].
  { unfold parse_long. destruct (split_once _ _) as [[n v]|]; [|done]. destruct (negb _); [done|].
    destruct (negb _); [done|]. by apply no_panic_bind. }
  destruct (strip_prefix (B "-") arg) as [r|] eqn:Hr; [|by apply no_panic_bind].
  apply strip_prefix_spec in Hr as ->. unfold parse_short. destruct r as [|c v]; [done|].
  destruct (Z.leb_spec 0x80 c) as [Hc|]; [specialize (Ha eq_refl); lia|].
  apply no_panic_try; [done|]. by intros [[]|[]|] s' Hp _.
Qed.

Lemma step_no_panic st arg s : sliceable (Some arg) -> no_panic (parse_step f st arg) s.
Proof using Hf.
  intros Ha. destruct st as [| |name]; cbn [parse_step]; [by apply top_no_panic|by apply no_panic_bind|].
  destruct (starts_with _ _); [apply no_panic_bind; [done|]; intros; by apply top_no_panic|].
  apply no_panic_try; [done|]. intros [[]|e|] s' Hp _; [done| |done].
  apply no_panic_bind; [|intros; by apply top_no_panic]. unfold no_panic, with_error.
  specialize (Hf name None s'). unfold no_panic in Hf. by destruct (f name None s') as [[]].
Qed.

Lemma from_no_panic st args s : Forall sliceable args -> no_panic (parse_from f st args) s.
Proof using Hf.
  intros Ha. revert st s. induction Ha as [|[arg|] args Ha _ IH]; intros st s; cbn [parse_from]; [by destruct st| |done].
  apply no_panic_bind; [by apply step_no_panic|]. intros st' s' _. apply IH.
Qed.
End Panics.

(** The calls a tool allows for decide whether it panics. *)
Lemma set_arguments_no_panic {S} arg_list (f : Callback S) args s : Forall argument_wf arg_list ->
  (forall long v s, allowed arg_list long v -> no_panic (f long v) s) -> Forall sliceable args ->
  no_panic (set_arguments args arg_list f) s.
Proof.
  intros Hwf Hf. apply from_no_panic. intros name v s1. unfold no_panic, matched.
  pose proof (match_argument_no_panic arg_list name v None) as Hm.
  destruct (match_argument arg_list name v None) as [[long|]|e|] eqn:Hl; [|done..].
  apply Hf. by apply (match_argument_allowed arg_list arg_list name v None).
Qed.

(** The parser only looks at what its callback does. *)
Section Ext.
Context {S : Type} (f g : Callback S) (Hfg : forall name v s, f name v s = g name v s).

Lemma parse_top_ext arg s : parse_top f arg s = parse_top g arg s.
Proof.
  unfold parse_top. case_bool_decide; [done|]. destruct (strip_prefix (B "--") arg) as [r|].
  { unfold parse_long. destruct (split_once _ _) as [[n v]|]; [|done].
    destruct (negb _); [done|]. destruct (negb _); [done|]. unfold sbind. by rewrite Hfg. }
  destruct (strip_prefix (B "-") arg) as [r|]; unfold parse_short, sbind, stry; [|by rewrite Hfg].
  destruct r as [|c v]; [done|]. destruct (_ <=? _); [done|]. by rewrite Hfg.
Qed.

Lemma parse_step_ext st arg s : parse_step f st arg s = parse_step g st arg s.
Proof.
  destruct st as [| |name]; simpl; [apply parse_top_ext|unfold sbind; by rewrite Hfg|].
  destruct (starts_with _ _); unfold sbind, stry; rewrite Hfg.
  - destruct (g name None s) as [[[]|e|] s']; [apply parse_top_ext|done..].
  - destruct (g name (Some arg) s) as [[[]|e|] s']; [done| |done]. unfold with_error. rewrite Hfg.
    destruct (g name None s') as [[[]|e'|] s2]; [apply parse_top_ext|done..].
Qed.

Lemma parse_from_ext st args s : parse_from f st args s = parse_from g st args s.
Proof.
  revert st s. induction args as [|[arg|] args IH]; intros st s; [by destruct st; simpl| |done].
  simpl. unfold sbind. rewrite parse_step_ext. by destruct (parse_step g st arg s) as [[st'|e|] s'].
Qed.
End Ext.

(** ** Printed command lines *)

(** An option as it can be written. *)
Inductive given :=
  | GFlag (long : bytes)               (* --long *)
  | GEq (long v : bytes)               (* --long=v *)
  | GNext (long v : bytes).            (* --long v *)

Definition print_given (g : given) : list bytes :=
  match g with
  | GFlag long => [B "--" ++ long]
  | GEq long v => [B "--" ++ long ++ EQUALS :: v]
  | GNext long v => [B "--" ++ long; v]
  end.

Definition given_call (g : given) : bytes * option bytes :=
  match g with
  | GFlag long => (long, None)
  | GEq long v | GNext long v => (long, Some v)
  end.

Definition long_ok (long : bytes) : Prop :=
  (1 < length long)%nat /\ Forall (fun c => (EQUALS =? c) = false) long /\
  head long <> Some HYPHEN.

Definition has_mode (arg_list : list Argument) (long : bytes) (P : ArgumentValueMode -> Prop) : Prop :=
  match find_long arg_list long with Some a => P (arg_value_mode a) | None => False end.

Definition given_ok (arg_list : list Argument) (g : given) : Prop :=
  match g with
  | GFlag long => long_ok long /\ has_mode arg_list long (eq Disallowed)
  | GEq long v => long_ok long /\ v <> [] /\ has_mode arg_list long (fun m => m <> Disallowed)
  | GNext long v => long_ok long /\ starts_with (B "-") v = false /\
      has_mode arg_list long (eq Required)
  end.

#[export] Instance long_ok_dec long : Decision (long_ok long).
Proof. unfold long_ok. apply _. Defined.

#[export] Instance given_ok_dec arg_list g : Decision (given_ok arg_list g).
Proof.
  destruct g; unfold given_ok, long_ok, has_mode; destruct (find_long _ _); apply _.
Defined.

Section Calls.
Context {S : Type} (arg_list : list Argument) (f : Callback S).

Fixpoint run_calls (calls : list (bytes * option bytes)) : SM S arg_error unit :=
  match calls with
  | [] => sret tt
  | (name, v) :: calls => do* f name v ;; run_calls calls
  end.

(** The call for a flag succeeds. *)
Definition flag_succeeds (g : given) : Prop :=
  match g with GFlag long => forall s, exists s', f long None s = (Ok tt, s') | _ => True end.

Lemma trim_hyphens_long long rest : long_ok long -> trim_hyphens (long ++ rest) = long ++ rest.
Proof.
  intros (Hl & _ & Hh). destruct long as [|c l]; [simpl in Hl; lia|]. unfold trim_hyphens.
  cbn [app drop_while]. destruct (Z.eqb_spec HYPHEN c) as [<-|]; [|done]. by destruct Hh.
Qed.

Lemma long_not_dashes long rest : long_ok long -> B "--" ++ long ++ rest <> B "--".
Proof.
  intros (Hl & _) He. apply (f_equal length) in He. rewrite !length_app in He. simpl in He. lia.
Qed.

(** A long option without "=" waits for the next argument. *)
Lemma parse_long_word (m : Callback S) long s : long_ok long ->
  parse_top m (B "--" ++ long) s = (Ok (Value long), s).
Proof.
  intros Hl. unfold parse_top. pose proof Hl as (Hlen & Heq & _).
  rewrite bool_decide_eq_false_2
    by (rewrite <-(app_nil_r long); by apply long_not_dashes).
  rewrite strip_prefix_app. pose proof (trim_hyphens_long long [] Hl) as Ht.
  rewrite app_nil_r in Ht. rewrite Ht. unfold parse_long. by rewrite split_once_None.
Qed.

Lemma parse_long_eq (m : Callback S) long v s : long_ok long -> v <> [] ->
  parse_top m (B "--" ++ long ++ EQUALS :: v) s = (do* m long (Some v) ;; sret Top) s.
Proof.
  intros Hl Hv. unfold parse_top. pose proof Hl as (Hlen & Heq & _).
  rewrite bool_decide_eq_false_2 by (by apply long_not_dashes).
  rewrite strip_prefix_app, trim_hyphens_long by done. unfold parse_long.
  rewrite split_once_run by done. destruct long; [simpl in Hlen; lia|]. by destruct v.
Qed.

Lemma matched_long long v s : long_ok long ->
  matched arg_list f long v s =
  match long_outcome long v (find_long arg_list long) with
  | Ok (Some l) => f l v s | Ok None => (Err (UnknownArgument long), s)
  | Err e => (Err e, s) | Panic => (Panic, s)
  end.
Proof.
  intros (Hl & _). unfold matched. rewrite match_long by lia.
  by destruct (long_outcome _ _ _) as [[l|]|e|].
Qed.

(** A flag that waits is called without a value, whatever follows. *)
Lemma flag_then args long s : long_ok long -> has_mode arg_list long (eq Disallowed) ->
  flag_succeeds (GFlag long) ->
  parse_from (matched arg_list f) (Value long) (Some <$> args) s =
  (do* f long None ;; parse_from (matched arg_list f) Top (Some <$> args)) s.
Proof.
  intros Hl Hm Hf. destruct (Hf s) as [s' Hs'].
  assert (forall s, matched arg_list f long None s = f long None s) as Hn.
  { intros s1. rewrite matched_long by done. unfold has_mode in Hm.
    destruct (find_long arg_list long); [|done]. simpl. by rewrite <-Hm. }
  rewrite (sbind_ok _ _ _ _ _ Hs').
  destruct args as [|arg args]; [simpl; by rewrite Hn, Hs'|]. rewrite fmap_cons. simpl.
  unfold sbind.
  destruct (starts_with _ _); unfold sbind, stry.
  { rewrite Hn, Hs'. done. }
  rewrite (matched_long long (Some arg)) by done. unfold has_mode in Hm.
  destruct (find_long arg_list long); [|done]. simpl. rewrite <-Hm. unfold with_error.
  rewrite Hn, Hs'. done.
Qed.

Lemma value_then args long v s : long_ok long -> starts_with (B "-") v = false ->
  has_mode arg_list long (eq Required) ->
  parse_from (matched arg_list f) (Value long) (Some v :: args) s =
  (do* f long (Some v) ;; parse_from (matched arg_list f) Top args) s.
Proof.
  intros Hl Hv Hm. cbn [parse_from parse_step]. rewrite Hv. unfold sbind, stry.
  rewrite (matched_long long (Some v)) by done. unfold has_mode in Hm.
  destruct (find_long arg_list long) as [a|] eqn:Ha; [|done]. simpl. rewrite <-Hm.
  destruct (f long (Some v) s) as [[[]|e|] s']; [done| |done]. unfold with_error.
  rewrite matched_long, Ha by done. simpl. by rewrite <-Hm.
Qed.

(** One printed option. *)
Lemma parse_given g args s : given_ok arg_list g -> flag_succeeds g ->
  parse_from (matched arg_list f) Top (Some <$> print_given g ++ args) s =
  (do* f (fst (given_call g)) (snd (given_call g)) ;;
   parse_from (matched arg_list f) Top (Some <$> args)) s.
Proof.
  intros Hg Hf. destruct g as [long|long v|long v]; cbn [given_ok] in Hg;
    cbn [print_given given_call fst snd]; rewrite fmap_app, fmap_cons; cbn [app parse_from parse_step];
    unfold sbind at 1.
  - destruct Hg as [Hl Hm]. pose proof (parse_long_word (matched arg_list f) long s Hl) as ->.
    by apply flag_then.
  - destruct Hg as (Hl & Hv & Hm).
    pose proof (parse_long_eq (matched arg_list f) long v s Hl Hv) as ->.
    unfold sbind. rewrite matched_long by done. unfold has_mode in Hm.
    destruct (find_long arg_list long) as [a|]; [|done]. simpl.
    destruct (arg_value_mode a); [|done|]; by destruct (f long (Some v) s) as [[[]|e|] s'].
  - destruct Hg as (Hl & Hv & Hm).
    pose proof (parse_long_word (matched arg_list f) long s Hl) as ->. by apply value_then.
Qed.

Definition positional_calls (ps : list bytes) : list (bytes * option bytes) :=
  (fun p => ([], Some p)) <$> ps.

Definition positionals_ok (ps : list bytes) : Prop :=
  match ps with
  | [] => True
  | p :: _ => starts_with (B "-") p = false /\ has_mode arg_list [] (fun m => m <> Disallowed)
  end.

Lemma matched_positional p s : has_mode arg_list [] (fun m => m <> Disallowed) ->
  matched arg_list f [] (Some p) s = f [] (Some p) s.
Proof.
  intros Hm. unfold matched. rewrite match_long by done. unfold has_mode in Hm.
  destruct (find_long arg_list []) as [a|]; [|done]. simpl. by destruct (arg_value_mode a).
Qed.

Lemma parse_positionals ps s : has_mode arg_list [] (fun m => m <> Disallowed) ->
  parse_from (matched arg_list f) Positional (Some <$> ps) s = run_calls (positional_calls ps) s.
Proof.
  intros Hm. revert s. induction ps as [|p ps IH]; intros s; [done|]. simpl.
  rewrite sbind_assoc. unfold sbind. rewrite matched_positional by done.
  destruct (f [] (Some p) s) as [[[]|e|] s']; [apply IH|done..].
Qed.

Lemma parse_positionals_top ps s : positionals_ok ps ->
  parse_from (matched arg_list f) Top (Some <$> ps) s = run_calls (positional_calls ps) s.
Proof.
  destruct ps as [|p ps]; [done|]. intros [Hp Hm]. rewrite <-parse_positionals by done.
  rewrite fmap_cons. cbn [parse_from parse_step]. unfold parse_top.
  unfold starts_with in Hp. destruct (strip_prefix (B "-") p) as [r|] eqn:Hs; [done|].
  rewrite bool_decide_eq_false_2 by (intros ->; done).
  destruct (strip_prefix (B "--") p) as [r|] eqn:Hd; [|done].
  apply strip_prefix_spec in Hd as ->. by simpl in Hs.
Qed.
End Calls.

Lemma parse_printed {S} arg_list (f : Callback S) gs ps s :
  Forall (given_ok arg_list) gs -> Forall (flag_succeeds f) gs -> positionals_ok arg_list ps ->
  set_arguments (Some <$> concat (print_given <$> gs) ++ ps) arg_list f s =
  run_calls f ((given_call <$> gs) ++ positional_calls ps) s.
Proof.
  intros Hgs Hf Hps. unfold set_arguments, parse_arguments. revert s.
  induction Hgs as [|g gs Hg _ IH]; intros s; [by apply parse_positionals_top|].
  apply Forall_cons in Hf as [Hg' Hf].
  rewrite fmap_cons. cbn [concat]. rewrite <-app_assoc, parse_given by done.
  rewrite fmap_cons. cbn [app run_calls]. destruct (given_call g) as [name v]. simpl.
  unfold sbind. destruct (f name v s) as [[[]|e|] s']; [by apply IH|done..].
Qed.

(** C20. Command line round trip: options printed as --flag, --name=value or
    --name value, followed by positional arguments, are parsed into the calls
    they stand for, in order, with the effects of the callback and the error of
    the first call that fails; flags are assumed not to fail. *)
Theorem set_arguments_roundtrip {S} arg_list (f : Callback S) gs ps s :
  Forall (given_ok arg_list) gs -> Forall (flag_succeeds f) gs -> positionals_ok arg_list ps ->
  set_arguments (Some <$> concat (print_given <$> gs) ++ ps) arg_list f s =
  run_calls f ((given_call <$> gs) ++ positional_calls ps) s.
Proof. apply parse_printed. Qed.

(** C34. What the callback is told: whatever the arguments, a tool only sees calls
    for options it declared, with a value where the option requires one and
    without where it disallows one. The run does not depend on what the callback
    would do with any other call. *)
Theorem set_arguments_allowed {S} arg_list (f g : Callback S) args s :
  Forall argument_wf arg_list ->
  (forall long v s, allowed arg_list long v -> f long v s = g long v s) ->
  set_arguments args arg_list f s = set_arguments args arg_list g s.
Proof.
  intros Hwf Hfg. apply parse_from_ext. intros name v s1. unfold matched.
  destruct (match_argument arg_list name v None) as [[long|]|e|] eqn:Hm; [|done..].
  apply Hfg. by apply (match_argument_allowed arg_list arg_list name v None).
Qed.

Lemma set_arguments_roundtrip_witness :
  set_arguments (Some <$> concat (print_given <$> [GNext (B "cpus") (B "3"); GFlag (B "unmount");
      GEq (B "program") (B "a=b")]) ++ [B "file"; B "-x"]) (take 4 test_args) record_calls [] =
  run_calls record_calls (([(B "cpus", Some (B "3")); (B "unmount", None);
      (B "program", Some (B "a=b"))]) ++ positional_calls [B "file"; B "-x"]) [].
Proof.
  apply (set_arguments_roundtrip (take 4 test_args) record_calls
    [GNext (B "cpus") (B "3"); GFlag (B "unmount"); GEq (B "program") (B "a=b")]).
  - apply (bool_decide_unpack (Forall (given_ok (take 4 test_args)) _)). vm_compute. exact I.
  - repeat constructor. intros s. eexists. reflexivity.
  - split; [reflexivity|]. vm_compute. discriminate.
Defined.

Lemma set_arguments_allowed_witness :
  set_arguments (env_args (B <$> ["-c"; "--bogus"; "x"]%string)) test_args record_calls [] =
  set_arguments (env_args (B <$> ["-c"; "--bogus"; "x"]%string)) test_args
    (fun long v => if bool_decide (long = B "bogus") then spanic else record_calls long v) [].
Proof.
  apply set_arguments_allowed.
  - apply (bool_decide_unpack (Forall argument_wf test_args)). vm_compute. exact I.
  - intros long v s (a & Ha & <- & _). case_bool_decide as Hb; [|reflexivity].
    assert (Forall (fun a => arg_long a <> B "bogus") test_args) as Hn.
    { apply (bool_decide_unpack (Forall _ _)). vm_compute. exact I. }
    rewrite Forall_forall in Hn. by destruct (Hn a Ha).
Defined.
