(* ===== verification/CutProgram.v ===== *)
(** * rapido-cut: the command line and the program (src/src/bin/rapido-cut.rs)

    The arguments name manifests and the output; without an output the image is
    the one of the configuration, which is the one rapido-vm boots. *)

From S2P Require Import Prelude RustStr RustPath RustIo KvConf Cpio Host RapidoLib Cut CutManifest Argument.

Record ArgsState := MkArgsState { cpio_output_arg : option path; manifests : list Reader }.

Definition cut_params : list Argument :=
  [value (B "output") (B "INITRAMFS") (B "Write initramfs archive to this file path.");
   value (B "manifest") (B "FILE") (B "Manifest file describing initramfs contents");
   short_flag (B "h") (B "help") (B "Print help message.")].

Definition MANIFEST_FORMAT : bytes := B "
Manifest format:

# a comment
bin ELF
try-bin ELF
kmod MODULE
try-kmod MODULE
dir NAME
file NAME [LOCATION]
autorun LOCATION [LOCATION ...]
tree NAME LOCATION
slink NAME TARGET
filter FILTER
include MANIFEST

ELF:      ELF executable, archived with all needed dependencies.
          Directory paths are traversed, with child paths handled as ELFs.
MODULE:   Kernel module, archived with dependencies
NAME:     Name of the file or directory in the archive
LOCATION: Local path to obtain data, user, group, mode etc. for this item
FILTER:   Archive path to treat as already processed. Directory traversals
          will not go beneath this path.
MANIFEST: File containing entries described above. Entries are processed in
          order.
".

(** what [args_usage] prints *)
Definition args_usage (params : list Argument) : bytes := print_help (B "rapido-cut") [] params ++ MANIFEST_FORMAT.

Section Args.
Context (host : Host).
(** [{:?}] of an I/O error, for messages *)
Context (debug_error : io_error -> bytes).

(** the last arm is [unreachable!()] *)
Definition args_process_one : Callback ArgsState := fun name v =>
  if bool_decide (name = B "output") then
    let* v := slift (unwrap v) in
    smodify (fun state => MkArgsState (Some v) (manifests state))
  else if bool_decide (name = B "manifest") then
    let* v := slift (unwrap v) in
    match path_stat host (Manifest v) with
    | Err e => sfail (InvalidValue v (B "failed to stat: " ++ debug_error e))
    | Panic => spanic
    | Ok fs =>
        match host_open host (fs_path fs) with
        | Err e => sfail (InvalidValue v (B "failed to open: " ++ debug_error e))
        | Panic => spanic
        | Ok f => smodify (fun state => MkArgsState (cpio_output_arg state) (manifests state ++ [f]))
        end
    end
  else if bool_decide (name = B "help") then sfail PrintHelp
  else spanic.

(** the arguments after the name of the program *)
Definition args_process (args : list bytes) : result arg_error ArgsState :=
  match set_arguments (env_args args) cut_params args_process_one (MkArgsState None []) with
  | (Ok _, state) => Ok state
  | (Err e, _) => Err e
  | (Panic, _) => Panic
  end.

(** ... and what it prints: the usage, for every error *)
Definition args_process_prints (args : list bytes) : bytes :=
  match args_process args with Err _ => args_usage cut_params | _ => [] end.
End Args.

(** ** The documented format *)

(** the first words of the lines between the heading and the explanations *)
Definition documented_types : list bytes :=
  omap (fun l => head (split_whitespace l)) (take 11 (drop 4 (split (Z.eqb NL) MANIFEST_FORMAT))).

(** Every type of entry that is documented is handled, and no other: with the
    kinds tried by [manifest_entry] these are all. *)
Example format_documented :
  documented_types = B <$> ["bin"; "try-bin"; "kmod"; "try-kmod"; "dir"; "file"; "autorun"; "tree"; "slink"; "filter"; "include"]%string.
Proof. reflexivity. Qed.

Lemma documented_handled {W} `{Write W} host elf_open conf fuel t p :
  t ∈ documented_types <-> (0 < snd (manifest_entry (W := W) host elf_open conf fuel t [p]))%nat.
Proof.
  rewrite format_documented. unfold manifest_entry. split.
  - intros Ht. repeat (apply elem_of_cons in Ht as [->|Ht]; [vm_compute; lia|]). by apply not_elem_of_nil in Ht.
  - repeat (case_bool_decide; [subst; intros _; by (repeat first [left|right])|]). simpl. lia.
Qed.

Section Program.
Context {W : Type} `{Write W} (host : Host) (elf_open : bytes -> option Elf).
Context (debug_error : io_error -> bytes) (fuel lines : nat).
(** creating, or truncating, the output *)
Context (open_out : path -> io W).

Definition cpio_out_open (args_out : option path) (conf : kvmap) : io (path * W) :=
  let? p := match args_out with Some p => Ok p | None => unwrap (conf !! B "DRACUT_OUT") end in
  let? w := open_out p in
  Ok (p, w).

(** [main]: the path, the length and the output it reports, or nothing for help *)
Definition cut_program (args : list bytes) : result cut_error (option (path * Z * W)) :=
  match args_process host debug_error args with
  | Err PrintHelp => Ok None
  | Err e => Err (Io (err_fmt InvalidInput (arg_error_fmt e)))
  | Panic => Panic
  | Ok args_state =>
      let? (conf, cf) := map_err Io (cut_conf host (state_new cut_props)) in
      let? (out, w) := map_err Io (cpio_out_open (cpio_output_arg args_state) conf) in
      let '(r, s) := cut_main host elf_open fuel lines conf cf (manifests args_state) (cut_start w) in
      let? len := r in
      Ok (Some (out, len, cpio_writer s))
  end.
End Program.
