(* ===== verification/CutInclude.v ===== *)
(** * rapido-cut: includes are inlined

    Manifests are read from a stack, and an include pushes another. The outcome,
    errors included, is that of one list of lines, each include replaced by the
    lines of the manifest it names: a line neither sees nor changes the stack. *)

From S2P Require Import Prelude RustStr RustWords RustPath RustIo KvConf Cpio CpioArchive Host Kmod RapidoLib.
From S2P Require Import Cut CutKmods CutManifest CutSpec CutElfSpec.

(** ** Steps that do not see the stack of manifests *)

Section Blind.
Context {W : Type} `{Write W}.
Implicit Types s : CutState W.

Definition blind {A} (c : Cut W A) : Prop := forall l s,
  c (set_fests l s) = (fst (c s), set_fests l (snd (c s))).

Lemma b_sret {A} (a : A) : blind (sret a).
Proof. done. Qed.
Lemma b_cfail {A} e : blind (cfail e : Cut W A).
Proof. done. Qed.
Lemma b_sfail {A} e : blind (sfail e : Cut W A).
Proof. done. Qed.
Lemma b_spanic {A} : blind (spanic : Cut W A).
Proof. done. Qed.
Lemma b_clift {A} (r : io A) : blind (clift r : Cut W A).
Proof. done. Qed.
Lemma b_assert b : blind (sassert b : Cut W unit).
Proof. by destruct b. Qed.
Lemma b_contains p : blind (paths_contains (W := W) p).
Proof. done. Qed.
Lemma b_insert p : blind (paths_insert (W := W) p).
Proof. done. Qed.
Lemma b_cpio {A} (c : Arch W A) : blind (cpio c).
Proof. intros l s. unfold cpio. change (arch (set_fests l s)) with (arch s). by destruct (c (arch s)). Qed.
Lemma b_amd md : blind (amd_from (W := W) md).
Proof. done. Qed.

Lemma b_bind {A C} (c : Cut W A) (f : A -> Cut W C) :
  blind c -> (forall a, blind (f a)) -> blind (sbind c f).
Proof.
  intros Hc Hf l s. unfold sbind. rewrite Hc. destruct (c s) as [[a|e|] s1]; simpl; [apply Hf|done..].
Qed.

(** the state is read, but for the stack *)
Lemma b_sget {A} (f : CutState W -> Cut W A) :
  (forall l s, f (set_fests l s) = f s) -> (forall s, blind (f s)) -> blind (sbind sget f).
Proof. intros Hf Hb l s. unfold sbind, sget. rewrite Hf. apply Hb. Qed.

Lemma b_smodify (f : CutState W -> CutState W) :
  (forall l s, f (set_fests l s) = set_fests l (f s)) -> blind (smodify f).
Proof. intros Hf l s. unfold smodify. simpl. by rewrite Hf. Qed.

Lemma b_found (c : Cut W unit) : blind c -> blind (found c).
Proof.
  intros Hc l s. unfold found, stry, sbind. rewrite Hc.
  destruct (c s) as [[[]|[e|]|] s1]; simpl; try done. by case_bool_decide.
Qed.
End Blind.

#[export] Hint Resolve b_sret b_cfail b_sfail b_spanic b_clift b_assert b_contains b_insert b_cpio b_amd
  b_found : rapido.

Ltac blind_step :=
  first
    [ progress auto with rapido
    | match goal with
      | |- blind (sbind sget _) => apply b_sget; [done|let x := fresh "s" in intros x]
      | |- blind (sbind _ _) => apply b_bind; [|let x := fresh "x" in intros x]
      | |- blind (smodify _) => by apply b_smodify
      | |- blind (if ?b then _ else _) => destruct b
      | |- blind (match ?x with _ => _ end) => destruct x
      end ].
Ltac blind := repeat blind_step.

Section Gathering.
Context {W : Type} `{Write W} (host : Host) (elf_open : bytes -> option Elf) (conf : kvmap).

Lemma b_dirs_loop comps here amd : blind (gather_dirs_loop (W := W) comps here amd).
Proof. revert here. induction comps as [|[| | |n] comps IH]; intros here; cbn [gather_dirs_loop]; blind. Qed.

Lemma b_dirs p amd : blind (gather_archive_dirs (W := W) p amd).
Proof. unfold gather_archive_dirs. pose proof b_dirs_loop. blind. Qed.

Lemma b_file_deps ent amd f : blind (file_deps (W := W) elf_open ent amd f).
Proof.
  unfold file_deps. destruct (_ || _); [|auto with rapido]. intros l s.
  unfold sbind, sget, sput. change (libs_seen (set_fests l s)) with (libs_seen s).
  by destruct (elf_deps _ _) as [[] ?].
Qed.

Lemma b_elf_one ent src dst amd : blind (gather_elf_one (W := W) host elf_open ent src dst amd).
Proof.
  unfold gather_elf_one. destruct (is_type (mode amd) S_IFLNK).
  { destruct ent; blind. }
  destruct (_ && _).
  { apply b_bind; [auto with rapido|]. intros f. apply b_bind; [apply (b_file_deps ent)|].
    intros deps. blind. }
  unfold read_dir_sorted. blind.
Qed.

Lemma b_elf_ent ent : blind (gather_elf_ent (W := W) host elf_open ent).
Proof.
  unfold gather_elf_ent. pose proof b_dirs. pose proof b_elf_one.
  destruct (path_stat host ent) as [got|e|]; [|destruct ent; blind|blind].
  set (dst := match ent with NameDst _ d => d | _ => fs_path got end). clearbody dst.
  set (b := match ent with NameDst _ d => is_absolute d | _ => true end). clearbody b. blind.
Qed.

Lemma b_elfs fuel elfs : blind (gather_archive_elfs (W := W) host elf_open fuel elfs).
Proof.
  pose proof b_elf_ent. revert elfs. induction fuel as [|fuel IH]; intros [|ent elfs]; cbn [gather_archive_elfs]; blind.
Qed.

Lemma b_item item : blind (gather_item (W := W) host item).
Proof.
  unfold gather_item, gather_item_one. pose proof b_dirs.
  destruct (host_symlink_metadata host (gi_src item)) as [md|e|]; blind.
Qed.

Lemma b_data fuel items : blind (gather_archive_data (W := W) host fuel items).
Proof.
  pose proof b_item. revert items. induction fuel as [|fuel IH]; intros [|i items]; cbn [gather_archive_data]; blind.
Qed.

Lemma b_kmod_path src dst : blind (archive_kmod_path (W := W) host src dst).
Proof. unfold archive_kmod_path. pose proof b_dirs. blind. Qed.

Lemma b_hard_deps gk deps : blind (archive_hard_deps (W := W) host gk deps).
Proof. pose proof b_kmod_path. induction deps as [|d deps IH]; cbn [archive_hard_deps]; blind. Qed.

Lemma b_soft_deps gk mods : blind (archive_soft_deps (W := W) host gk mods).
Proof. pose proof b_kmod_path. induction mods as [|m mods IH]; cbn [archive_soft_deps]; blind. Qed.

Lemma b_kmod_and_deps name gk : blind (gather_archive_kmod_and_deps (W := W) host name gk).
Proof.
  unfold gather_archive_kmod_and_deps. pose proof b_kmod_path. pose proof b_hard_deps. pose proof b_soft_deps. blind.
Qed.

Lemma b_db_files dst src files : blind (archive_db_files (W := W) host dst src files).
Proof. pose proof b_kmod_path. induction files as [|f files IH]; cbn [archive_db_files]; blind. Qed.

Lemma b_kmod_names gk kmods ignore : blind (gather_kmod_names (W := W) host gk kmods ignore).
Proof. pose proof b_kmod_and_deps. induction kmods as [|k kmods IH]; cbn [gather_kmod_names]; blind. Qed.

Lemma b_kmods kmods ignore : blind (gather_archive_kmods (W := W) host conf kmods ignore).
Proof. unfold gather_archive_kmods, gather_kmods_init. pose proof b_db_files. pose proof b_kmod_names. blind. Qed.
End Gathering.

(** ** The lines of a manifest *)

Section Lines.
Context {W : Type} `{Write W} (host : Host) (elf_open : bytes -> option Elf) (conf : kvmap) (fuel : nat).
Implicit Types s : CutState W.

Lemma b_autorun name : blind (manifest_autorun (W := W) host conf name).
Proof. unfold manifest_autorun, open_with_metadata. blind. Qed.

Lemma b_autoruns names : blind (manifest_autoruns (W := W) host conf names).
Proof.
  unfold manifest_autoruns. pose proof b_autorun.
  assert (blind (autorun_all (W := W) host conf names)) as Hall by (induction names; cbn [autorun_all]; blind).
  apply b_sget; [done|]. intros s. apply b_bind; [done|]. intros _. blind.
Qed.

Definition is_include (l : bytes) : bool := bool_decide (head (split_whitespace l) = Some (B "include")).

(** All lines but includes. *)
Lemma b_parse_one l : is_include l = false -> blind (manifest_parse_one (W := W) host elf_open conf fuel l).
Proof.
  intros Hi%bool_decide_eq_false. unfold manifest_parse_one. destruct (split_whitespace l) as [|etype params]; [blind|].
  destruct (starts_with _ _); [blind|]. assert (etype <> B "include") as He by (intros ->; by apply Hi).
  unfold manifest_entry. rewrite (bool_decide_false _ He).
  pose proof b_dirs. pose proof b_elfs. pose proof b_kmods. pose proof b_autoruns. pose proof b_data.
  unfold manifest_dir, manifest_slink, manifest_file, open_with_metadata, manifest_bin, manifest_kmod,
    manifest_tree, manifest_filter.
  repeat (case_bool_decide; [blind|]). blind.
Qed.

(** One line after the other. *)
Fixpoint manifest_lines (ls : list bytes) : Cut W unit :=
  match ls with
  | [] => sret tt
  | l :: ls => do* manifest_parse_one host elf_open conf fuel l ;; manifest_lines ls
  end.

Lemma b_lines ls : Forall (fun l => is_include l = false) ls -> blind (manifest_lines ls).
Proof.
  induction 1 as [|l ls Hl _ IH]; cbn [manifest_lines]; [blind|]. apply b_bind; [by apply b_parse_one|done].
Qed.

(** ** Inlining *)

(** A line as the loop takes it. *)
Definition fest_line (l : bytes) : Prop := line_ok l /\ Z.of_nat (length l) + 1 <= MANIFEST_LINE_MAX.

(** The line names the manifest with the lines [ms]. *)
Definition includes (l : bytes) (ms : list bytes) : Prop := exists n p f,
  split_whitespace l = [B "include"; n] /\ manifest_name_sub conf (Some n) = Ok p /\
  path_stat host (Manifest p) = Ok f /\ host_open host (fs_path f) = Ok (reader_of (manifest_text ms)).

(** The lines [ls] with all includes replaced, also those of included manifests. *)
Inductive inlined : list bytes -> list bytes -> Prop :=
  | in_nil : inlined [] []
  | in_line l ls fs : fest_line l -> is_include l = false -> inlined ls fs -> inlined (l :: ls) (l :: fs)
  | in_include l ls ms gs fs : fest_line l -> includes l ms -> inlined ms gs -> inlined ls fs ->
      inlined (l :: ls) (gs ++ fs).

(** The same for a stack of manifests, with the rounds the loop takes. *)
Inductive script : nat -> list (list bytes) -> list bytes -> Prop :=
  | sc_nil : script 0 [] []
  | sc_end n st fs : script n st fs -> script (S n) ([] :: st) fs
  | sc_line n l ls st fs : fest_line l -> is_include l = false ->
      script n (ls :: st) fs -> script (S n) ((l :: ls) :: st) (l :: fs)
  | sc_include n l ls ms st fs : fest_line l -> includes l ms ->
      script n (ms :: ls :: st) fs -> script (S n) ((l :: ls) :: st) fs.

Lemma inlined_script ls fs : inlined ls fs ->
  forall n st gs, script n st gs -> exists m, script m (ls :: st) (fs ++ gs).
Proof.
  intros Hi. induction Hi as [|l ls fs Hl Hni _ IH|l ls ms fs1 fs2 Hl Hinc _ IH1 _ IH2]; intros n st gs Hs.
  - exists (S n). by constructor.
  - destruct (IH n st gs Hs) as [m Hm]. exists (S m). by constructor.
  - destruct (IH2 n st gs Hs) as [m Hm]. destruct (IH1 m _ _ Hm) as [k Hk]. exists (S k).
    rewrite <-app_assoc. by eapply sc_include.
Qed.

Lemma inlined_scripts lss fss : Forall2 inlined lss fss -> exists n, script n lss (concat fss).
Proof.
  induction 1 as [|ls fs lss fss Hi _ [n IH]]; [by exists 0%nat; constructor|].
  destruct (inlined_script _ _ Hi _ _ _ IH) as [m Hm]. by exists m.
Qed.

Lemma script_lines n st fs : script n st fs -> Forall (fun l => is_include l = false) fs.
Proof. induction 1; try done; by constructor. Qed.

(** ** The loop *)

(** The same outcome, and states that differ in the stack of manifests only. *)
Definition same {A} (r r' : result cut_error A * CutState W) : Prop :=
  fst r = fst r' /\ set_fests [] (snd r) = set_fests [] (snd r').

Lemma same_refl {A} (r : result cut_error A * CutState W) : same r r.
Proof. done. Qed.

Lemma same_blind {A} (c : Cut W A) l s r : blind c -> same r (c (set_fests l s)) -> same r (c s).
Proof. intros Hc [H1 H2]. rewrite Hc in H1, H2. by split. Qed.

Lemma parse_one_newline l : manifest_parse_one (W := W) host elf_open conf fuel (l ++ [NL])
  = manifest_parse_one host elf_open conf fuel l.
Proof. unfold manifest_parse_one. by rewrite split_whitespace_newline. Qed.

Lemma parse_include l ms s : includes l ms -> manifest_parse_one host elf_open conf fuel l s
  = (Ok tt, set_fests (reader_of (manifest_text ms) :: fests s) s).
Proof.
  intros (n & p & f & Hs & Hn & Hp & Hf). unfold manifest_parse_one. rewrite Hs.
  change (starts_with (B "#") (B "include")) with false. cbv iota.
  change (manifest_entry host elf_open conf fuel (B "include") [n])
    with (manifest_include (W := W) host conf (Some n), 1%nat).
  cbv beta iota zeta. unfold manifest_include, sbind, clift, slift.
  rewrite Hn. cbn [map_err]. rewrite Hp. cbn [map_err]. by rewrite Hf.
Qed.

Definition stack (st : list (list bytes)) : list Reader := (fun ls => reader_of (manifest_text ls)) <$> st.

(** One round takes one line. *)
Lemma loop_line k l ls st s : fest_line l -> fests s = stack ((l :: ls) :: st) ->
  manifest_loop host elf_open conf fuel (S k) s =
  (do* manifest_parse_one host elf_open conf fuel l ;; manifest_loop host elf_open conf fuel k)
    (set_fests (stack (ls :: st)) s).
Proof.
  intros [Hl Hmax] Hf. cbn [manifest_loop]. unfold sbind at 1, sget. rewrite Hf. unfold stack. rewrite fmap_cons.
  assert (manifest_text (l :: ls) = l ++ NL :: manifest_text ls) as ->.
  { unfold manifest_text. rewrite fmap_cons. cbn [concat]. by rewrite <-app_assoc. }
  rewrite read_line_text by done. unfold sbind at 1, smodify.
  rewrite (proj2 (Z.ltb_ge _ _)), (proj2 (Z.eqb_neq _ _)) by lia. by rewrite parse_one_newline.
Qed.

Lemma loop_script n st fs : script n st fs -> forall k s, (n <= k)%nat -> fests s = stack st ->
  same (manifest_loop host elf_open conf fuel k s) (manifest_lines fs s).
Proof.
  intros Hs. induction Hs as [|n st fs Hs IH|n l ls st fs Hl Hi Hs IH|n l ls ms st fs Hl Hi Hs IH]; intros k s Hk Hf.
  - destruct k; cbn [manifest_loop]; unfold sbind, sget; rewrite Hf; apply same_refl.
  - destruct k as [|k]; [lia|]. cbn [manifest_loop]. unfold sbind at 1, sget. rewrite Hf.
    unfold stack. rewrite fmap_cons. unfold read_line. simpl. unfold sbind, smodify.
    apply (same_blind _ (stack st)); [by eapply b_lines, script_lines|]. by apply IH; [lia|].
  - destruct k as [|k]; [lia|]. rewrite (loop_line k l ls st s Hl Hf). cbn [manifest_lines]. unfold sbind.
    rewrite (b_parse_one l Hi). destruct (manifest_parse_one host elf_open conf fuel l s) as [[[]|e|] s1]; simpl; [|done..].
    apply (same_blind _ (stack (ls :: st))); [by eapply b_lines, script_lines|]. by apply IH; [lia|].
  - destruct k as [|k]; [lia|]. rewrite (loop_line k l ls st s Hl Hf). unfold sbind. rewrite (parse_include l ms) by done.
    apply (same_blind _ (stack (ms :: ls :: st))); [by eapply b_lines, script_lines|]. by apply IH; [lia|].
Qed.
End Lines.

(** C6. Includes are inlined: processing manifests, the last one first, has the
    outcome of processing, one after the other, their lines with every include
    replaced by the lines of the manifest it names, and so on in these: the same
    result or error, and the same archive, with the same paths and libraries
    seen. In particular a line after an include comes after all that is
    included. *)
Theorem includes_inlined {W} `{Write W} host elf_open conf fuel lss fss :
  Forall2 (inlined host conf) lss fss ->
  exists n, forall lines, (n <= lines)%nat -> forall s : CutState W,
    same (manifest_parse host elf_open conf fuel lines ((fun ls => reader_of (manifest_text ls)) <$> lss) s)
      (manifest_lines host elf_open conf fuel (concat (reverse fss)) (set_autorun 0 s)).
Proof.
  intros Hi. assert (Forall2 (inlined host conf) (reverse lss) (reverse fss)) as Hr by by apply Forall2_reverse.
  destruct (inlined_scripts host conf _ _ Hr) as [n Hn]. exists n. intros lines Hl s.
  unfold manifest_parse, sbind at 1, smodify.
  set (s1 := set_autorun 0 _).
  apply (same_blind (manifest_lines host elf_open conf fuel (concat (reverse fss))) (fests s1));
    [by eapply b_lines, script_lines|].
  apply (loop_script host elf_open conf fuel n (reverse lss)); [done|done|]. unfold s1, stack. simpl. by rewrite fmap_reverse.
Qed.

(** ** A sample: two manifests, one with an include that includes *)

Module IncludeRun.
Definition inner : list bytes := B <$> ["dir /b"; "include /more"]%string.
Definition more : list bytes := [B "dir /m"].
Definition host : Host := files_host (list_to_map
  [(B "/inner", manifest_text inner); (B "/more", manifest_text more)]).
Definition first : list bytes := B <$> ["dir /a"; "include /inner"; "dir /c"]%string.
Definition second : list bytes := B <$> ["# the last on the command line"; "dir /z"]%string.
Definition flat : list bytes := B <$> ["dir /a"; "dir /b"; "dir /m"; "dir /c"]%string.
Definition start : CutState Vector := cut_start (MkVector []).

#[export] Instance fest_line_dec l : Decision (fest_line l).
Proof. unfold fest_line. apply _. Defined.

Lemma line l : bool_decide (fest_line l) && negb (is_include l) = true -> fest_line l /\ is_include l = false.
Proof. intros [Hl%bool_decide_eq_true Hi%negb_true_iff]%andb_prop. by split. Qed.

Ltac plain_line := apply in_line; [by apply line; vm_compute|by apply line; vm_compute|].
Ltac include_line ms :=
  eapply (in_include _ _ _ _ ms); [apply (bool_decide_unpack (fest_line _)); by vm_compute
    |eexists _, _, _; (split_and!; vm_compute; reflexivity)| |].

Lemma first_inlined : inlined host ∅ first flat.
Proof.
  unfold first, flat. cbn [fmap list_fmap]. plain_line.
  change (inlined host ∅ (B "include /inner" :: [B "dir /c"]) ([B "dir /b"; B "dir /m"] ++ [B "dir /c"])).
  include_line inner; [|plain_line; constructor].
  unfold inner. cbn [fmap list_fmap]. plain_line.
  change (inlined host ∅ [B "include /more"] ([B "dir /m"] ++ [])).
  include_line more; [|constructor]. unfold more. plain_line. constructor.
Qed.

Lemma second_inlined : inlined host ∅ second second.
Proof. unfold second. cbn [fmap list_fmap]. plain_line. plain_line. constructor. Qed.
End IncludeRun.

(** the directories of the last manifest come first, and "/m" where it is included *)
Example includes_order :
  arch (snd (manifest_parse IncludeRun.host (fun _ => None) ∅ 10 20
    ((fun ls => reader_of (manifest_text ls)) <$> [IncludeRun.first; IncludeRun.second]) IncludeRun.start))
  = snd (run_requests ((fun n => ReqPath (B n) (default_amd (Z.lor S_IFDIR O755))) <$> ["/z"; "/a"; "/b"; "/m"; "/c"]%string)
      (arch IncludeRun.start)).
Proof. vm_compute. reflexivity. Qed.

Lemma includes_inlined_witness : exists n, forall lines, (n <= lines)%nat -> forall s : CutState Vector,
  same (manifest_parse IncludeRun.host (fun _ => None) ∅ 10 lines
         ((fun ls => reader_of (manifest_text ls)) <$> [IncludeRun.first; IncludeRun.second]) s)
    (manifest_lines IncludeRun.host (fun _ => None) ∅ 10
       (concat (reverse [IncludeRun.flat; IncludeRun.second])) (set_autorun 0 s)).
Proof.
  apply (includes_inlined IncludeRun.host (fun _ => None) ∅ 10).
  constructor; [apply IncludeRun.first_inlined|]. constructor; [apply IncludeRun.second_inlined|constructor].
Defined.
