(* ===== verification/CutEnds.v ===== *)
(** * rapido-cut ends

    The whole program: gathering kernel modules and the entries of a manifest
    are straight-line but for the work stacks, and the stack of manifests runs
    empty when no manifest includes itself, directly or not. *)

From S2P Require Import Prelude RustStr RustPath RustIo KvConf Cpio CpioArchive Host Kmod RapidoLib.
From S2P Require Import Cut CutFind CutKmods CutManifest CutSpec CutElfSpec CutTermination Argument CutProgram.

#[local] Set Warnings "-clear-no-such-hyp".

(** ** Kernel modules *)

Section Steps.
Context {W : Type} `{Write W}.

Lemma y_smodify (f : CutState W -> CutState W) :
  (forall s, paths_seen (f s) = paths_seen s /\ fests (f s) = fests s) -> steady (smodify f).
Proof. intros Hf. apply y_same. intros s. split; [done|]. apply Hf. Qed.

Lemma y_found (c : Cut W unit) : steady c -> steady (found c).
Proof.
  intros Hc s. unfold found, stry, sbind. destruct (Hc s) as (Hn & Hs & Hf).
  destruct (c s) as [[[]|[e|]|] s1]; simpl in *; try done. by case_bool_decide.
Qed.
End Steps.

#[export] Hint Resolve y_dirs y_found : rapido.

Ltac steady_set := apply y_smodify; by intros [].

Section KmodSteps.
Context {W : Type} `{Write W} (host : Host) (conf : kvmap).

Lemma y_kmod_path src dst : steady (archive_kmod_path (W := W) host src dst).
Proof. unfold archive_kmod_path. steady. Qed.

Lemma y_hard_deps gk deps : steady (archive_hard_deps (W := W) host gk deps).
Proof. pose proof y_kmod_path. induction deps as [|d deps IH]; cbn [archive_hard_deps]; steady. Qed.

Lemma y_soft_deps gk mods : steady (archive_soft_deps (W := W) host gk mods).
Proof.
  pose proof y_kmod_path. induction mods as [|m mods IH]; cbn [archive_soft_deps]; [steady|].
  destruct (find _ _) as [km|]; [|done]. case_bool_decide; [done|]. steady.
Qed.

Lemma y_kmod_and_deps name gk : steady (gather_archive_kmod_and_deps (W := W) host name gk).
Proof.
  unfold gather_archive_kmod_and_deps. pose proof y_kmod_path. pose proof y_hard_deps. pose proof y_soft_deps.
  destruct (find _ _) as [km|]; steady.
Qed.

Lemma y_db_files dst src files : steady (archive_db_files (W := W) host dst src files).
Proof. pose proof y_kmod_path. induction files as [|f files IH]; cbn [archive_db_files]; steady. Qed.

Lemma y_kmods_init : steady (gather_kmods_init (W := W) host conf).
Proof. unfold gather_kmods_init. pose proof y_db_files. steady. Qed.

Lemma y_kmod_names gk kmods ignore : steady (gather_kmod_names (W := W) host gk kmods ignore).
Proof. pose proof y_kmod_and_deps. induction kmods as [|k kmods IH]; cbn [gather_kmod_names]; steady. Qed.

Lemma y_kmods kmods ignore : steady (gather_archive_kmods (W := W) host conf kmods ignore).
Proof.
  unfold gather_archive_kmods. pose proof y_kmods_init. pose proof y_kmod_names.
  apply y_bind; [auto with rapido|]. intros s. apply y_bind; [|auto]. destruct (cut_gk s); [steady|].
  apply y_bind; [done|]. intros gk. apply y_bind; [steady_set|steady].
Qed.

Lemma y_symlinks : steady (populate_default_symlinks (W := W)).
Proof.
  unfold populate_default_symlinks, default_symlink, archive_kmods_symlink. steady.
Qed.
End KmodSteps.

(** ** The lines of a manifest *)

Section Entries.
Context {W : Type} `{Write W} (host : Host) (elf_open : bytes -> option Elf) (conf : kvmap) (fuel : nat).
Implicit Types s : CutState W.

Lemma gather_elfs_fests elfs s : fests (snd (gather_archive_elfs host elf_open fuel elfs s)) = fests s.
Proof.
  revert elfs s. induction fuel as [|n IH]; intros [|ent elfs] s; try done.
  cbn [gather_archive_elfs]. unfold sbind. pose proof (y_elf_ent host elf_open ent s) as (_ & _ & Hf).
  destruct (gather_elf_ent host elf_open ent s) as [[pushed|e|] s1]; [|done..]. by rewrite IH.
Qed.

Lemma gather_data_fests items s : fests (snd (gather_archive_data host fuel items s)) = fests s.
Proof.
  revert items s. induction fuel as [|n IH]; intros [|item items] s; try done.
  cbn [gather_archive_data]. unfold sbind. pose proof (y_item host item s) as (_ & _ & Hf).
  destruct (gather_item host item s) as [[pushed|e|] s1]; [|done..]. by rewrite IH.
Qed.

(** Enough fuel for every work stack a line can start: the executables it names,
    the tree it names. *)
Record stacks_end : Prop := {
  se_elf : forall n s, fst (gather_archive_elfs host elf_open fuel [Name n] s) <> Err NoFuel;
  se_try : forall n s, fst (gather_archive_elfs host elf_open fuel [NameTry n] s) <> Err NoFuel;
  se_core : forall s, fst (gather_archive_elfs host elf_open fuel (reverse core_elfs) s) <> Err NoFuel;
  se_tree : forall src dst s, fst (gather_archive_data host fuel [MkItem src dst 0] s) <> Err NoFuel;
}.

(** Steps that end and leave the manifests alone. *)
Definition keeps_fests {A} (c : Cut W A) : Prop := forall s,
  fst (c s) <> Err NoFuel /\ fests (snd (c s)) = fests s.

Lemma keeps_fests_steady {A} (c : Cut W A) : steady c -> keeps_fests c.
Proof. intros Hc s. by destruct (Hc s) as (? & _ & ?). Qed.

Lemma keeps_fests_bind {A C} (c : Cut W A) (f : A -> Cut W C) :
  keeps_fests c -> (forall a, keeps_fests (f a)) -> keeps_fests (sbind c f).
Proof.
  intros Hc Hf s. unfold sbind. destruct (Hc s) as (Hn & He).
  destruct (c s) as [[a|e|] s1]; simpl in *; [|by split; [congruence|]|done].
  destruct (Hf a s1) as (Hn1 & He1). split; [done|congruence].
Qed.

Lemma q_dir name : keeps_fests (manifest_dir (W := W) host conf name).
Proof. apply keeps_fests_steady. unfold manifest_dir. steady. Qed.

Lemma q_slink name tgt : keeps_fests (manifest_slink (W := W) host conf name tgt).
Proof. apply keeps_fests_steady. unfold manifest_slink. steady. Qed.

Lemma y_open_with_metadata src : steady (open_with_metadata (W := W) host src).
Proof. unfold open_with_metadata. steady. Qed.

Lemma q_file name src : keeps_fests (manifest_file (W := W) host conf name src).
Proof. apply keeps_fests_steady. unfold manifest_file. pose proof y_open_with_metadata. steady. Qed.

Lemma y_autorun name : steady (manifest_autorun (W := W) host conf name).
Proof.
  unfold manifest_autorun. pose proof y_open_with_metadata.
  apply y_bind; [auto with rapido|]. intros src. apply y_bind; [auto with rapido|]. intros s.
  apply y_bind; [steady|]. intros dst. apply y_bind; [steady|]. intros _. apply y_bind; [steady|].
  intros [f md]. apply y_bind; [steady|]. intros amd. apply y_bind; [steady|]. intros _. steady_set.
Qed.

Lemma q_autoruns names : keeps_fests (manifest_autoruns (W := W) host conf names).
Proof.
  apply keeps_fests_steady. unfold manifest_autoruns. apply y_bind; [auto with rapido|]. intros s.
  apply y_bind; [|intros _; steady]. pose proof y_autorun.
  induction names as [|n names IH]; cbn [autorun_all]; steady.
Qed.

Lemma q_filter name : keeps_fests (manifest_filter (W := W) host conf name).
Proof. apply keeps_fests_steady. unfold manifest_filter. steady. Qed.

Lemma q_kmod name ignore : keeps_fests (manifest_kmod (W := W) host conf name ignore).
Proof. apply keeps_fests_steady. unfold manifest_kmod. pose proof y_kmods. steady. Qed.

Context (Hstacks : stacks_end).

Lemma q_bin ent name : ent = Name \/ ent = NameTry -> keeps_fests (manifest_bin (W := W) host elf_open conf fuel ent name).
Proof.
  intros Hent. apply keeps_fests_bind; [apply keeps_fests_steady; steady|]. intros src s.
  split; [|apply gather_elfs_fests]. destruct Hent as [->| ->]; by apply Hstacks.
Qed.

Lemma q_tree name src : keeps_fests (manifest_tree (W := W) host conf fuel name src).
Proof.
  apply keeps_fests_bind; [apply keeps_fests_steady; steady|]. intros dst. destruct (negb _); [apply keeps_fests_steady; steady|].
  apply keeps_fests_bind; [apply keeps_fests_steady; steady|]. intros p s. split; [|apply gather_data_fests]. by apply Hstacks.
Qed.

(** All entry types but "include". *)
Lemma q_entry etype params : etype <> B "include" ->
  keeps_fests (fst (manifest_entry (W := W) host elf_open conf fuel etype params)).
Proof.
  intros Hi. unfold manifest_entry. rewrite (bool_decide_false _ Hi).
  repeat (case_bool_decide; [first [apply q_dir|apply q_slink|apply q_file|apply q_bin; tauto
    |apply q_kmod|apply q_autoruns|apply q_tree|apply q_filter]|]). apply keeps_fests_steady, y_cfail.
Qed.

(** The manifest a line includes: its path. *)
Definition included (line : bytes) : option path :=
  match split_whitespace line with
  | etype :: params =>
      if bool_decide (etype = B "include") then
        match manifest_name_sub conf (head params) with
        | Ok p => match path_stat host (Manifest p) with Ok fs => Some (fs_path fs) | _ => None end
        | _ => None
        end
      else None
  | [] => None
  end.

(** A line leaves the manifests alone or pushes the one it includes. *)
Lemma parse_one_ends line s :
  let r := manifest_parse_one host elf_open conf fuel line s in
  fst r <> Err NoFuel /\
  (fests (snd r) = fests s \/
   exists q f, included line = Some q /\ host_open host q = Ok f /\ fests (snd r) = f :: fests s).
Proof.
  unfold manifest_parse_one, included. destruct (split_whitespace line) as [|etype params]; [by split; [|left]|].
  destruct (bool_decide (etype = B "include")) eqn:Hi.
  - apply bool_decide_eq_true in Hi as ->. change (starts_with (B "#") (B "include")) with false. cbv iota.
    change (manifest_entry host elf_open conf fuel (B "include") params)
      with (manifest_include (W := W) host conf (head params), 1%nat).
    cbv beta iota zeta. unfold manifest_include, sbind, clift, slift.
    destruct (manifest_name_sub conf (head params)) as [p|e|]; cbn [map_err]; [|by split; [|left]..].
    destruct (path_stat host (Manifest p)) as [fs|e|]; cbn [map_err]; [|by split; [|left]..].
    destruct (host_open host (fs_path fs)) as [f|e|] eqn:Ho; cbn [map_err]; [|by split; [|left]..].
    cbn [smodify]. split; [by case_bool_decide|]. right. exists (fs_path fs), f. split_and!; [done|done|].
    by case_bool_decide.
  - apply bool_decide_eq_false in Hi. destruct (starts_with _ _); [by split; [|left]|].
    pose proof (q_entry etype params Hi) as Hq. destruct (manifest_entry _ _ _ _ _ _) as [c n]. simpl in Hq.
    assert (keeps_fests (do* c ;; if bool_decide (drop n params = []) then sret tt else cfail (err_from InvalidInput))) as Hq2.
    { apply keeps_fests_bind; [done|]. intros _. apply keeps_fests_steady. steady. }
    destruct (Hq2 s) as [? ?]. split; [done|by left].
Qed.
End Entries.

(** ** The stack of manifests *)

(** The lines the loop takes from a manifest: up to its end, an error of reading
    or a line too long. *)
Fixpoint read_lines_of (n : nat) (f : Reader) : list bytes :=
  match n with
  | O => []
  | S n =>
      match read_line f [] with
      | (Ok k, f', l) => if (MANIFEST_LINE_MAX <? k) || (k =? 0) then [] else l :: read_lines_of n f'
      | _ => []
      end
  end.
Definition fest_lines (f : Reader) : list bytes := read_lines_of (S (length (rd_data f))) f.

Section Stack.
Context {W : Type} `{Write W} (host : Host) (elf_open : bytes -> option Elf) (conf : kvmap) (fuel : nat).
Implicit Types s : CutState W.

(** [fest_ends f k]: with everything it includes, reading [f] takes at most [k]
    rounds. *)
Inductive fest_ends : Reader -> nat -> Prop :=
  | fe_last f : (forall k f' l, read_line f [] = (Ok k, f', l) -> MANIFEST_LINE_MAX < k \/ k = 0) -> fest_ends f 1
  | fe_plain f k f' l n : read_line f [] = (Ok k, f', l) -> included host conf l = None ->
      fest_ends f' n -> fest_ends f (S n)
  | fe_missing f k f' l q n : read_line f [] = (Ok k, f', l) -> included host conf l = Some q ->
      (forall g, host_open host q <> Ok g) -> fest_ends f' n -> fest_ends f (S n)
  | fe_include f k f' l q g m n : read_line f [] = (Ok k, f', l) -> included host conf l = Some q ->
      host_open host q = Ok g -> fest_ends g m -> fest_ends f' n -> fest_ends f (S (m + n)).

Lemma fest_ends_pos f k : fest_ends f k -> (1 <= k)%nat.
Proof. destruct 1; lia. Qed.

(** The manifests still to be read take [n] rounds. *)
Inductive stack_ends : list Reader -> nat -> Prop :=
  | st_nil n : stack_ends [] n
  | st_cons f k l m n : fest_ends f k -> stack_ends l m -> (k + m <= n)%nat -> stack_ends (f :: l) n.

Lemma manifest_loop_ends : stacks_end (W := W) host elf_open fuel ->
  forall lines s, stack_ends (fests s) lines -> fst (manifest_loop host elf_open conf fuel lines s) <> Err NoFuel.
Proof.
  intros Hst lines. induction lines as [|lines IH]; intros s Hs; cbn [manifest_loop]; unfold sbind at 1, sget;
    destruct (fests s) as [|f rest] eqn:Hf; try done; inversion Hs as [|? k ? m ? Hk Hm Hle]; subst.
  { apply fest_ends_pos in Hk. lia. }
  destruct (read_line f []) as [[[n|e|] f'] l] eqn:Hr; [|done..].
  unfold sbind at 1. cbn [smodify fst snd]. destruct (MANIFEST_LINE_MAX <? n) eqn:Hmax; [done|].
  destruct (n =? 0) eqn:Hn.
  { unfold sbind, smodify. apply IH. cbn [fests set_fests]. apply fest_ends_pos in Hk.
    inversion Hm; subst; econstructor; [done..|lia]. }
  set (s1 := set_fests (f' :: rest) s). unfold sbind.
  destruct (parse_one_ends host elf_open conf fuel Hst l s1) as [Hnf Hpush].
  destruct (manifest_parse_one host elf_open conf fuel l s1) as [[[]|e|] s2]; simpl in Hnf, Hpush; [|done..].
  apply IH.
  assert (fest_ends f' (k - 1) /\ included host conf l = None \/
    exists q, included host conf l = Some q /\ (fest_ends f' (k - 1) /\ (forall g, host_open host q <> Ok g) \/
      exists g m1 n1, host_open host q = Ok g /\ fest_ends g m1 /\ fest_ends f' n1 /\ k = S (m1 + n1))) as Hinv.
  { apply Z.ltb_ge in Hmax. apply Z.eqb_neq in Hn.
    destruct Hk as [f Hlast|f k1 f1 l1 n1 Hr1 Hi Hk|f k1 f1 l1 q n1 Hr1 Hi Hno Hk|f k1 f1 l1 q g m1 n1 Hr1 Hi Ho Hg Hk];
      [destruct (Hlast _ _ _ Hr); lia|rewrite Hr in Hr1; injection Hr1 as <- <- <-..].
    - left. replace (S n1 - 1)%nat with n1 by lia. done.
    - right. exists q. split; [done|]. left. replace (S n1 - 1)%nat with n1 by lia. done.
    - right. exists q. split; [done|]. right. by exists g, m1, n1. }
  pose proof (fest_ends_pos _ _ Hk).
  destruct Hpush as [->|(q & g & Hi & Ho & ->)]; cbn [fests set_fests s1].
  - destruct Hinv as [[Hf' _]|(q & _ & [[Hf' _]|(g & m1 & n1 & _ & _ & Hf' & ->)])]; econstructor; (done || lia).
  - destruct Hinv as [[_ Hi']|(q' & Hi' & [[_ Hno]|(g' & m1 & n1 & Ho' & Hg & Hf' & ->)])]; simplify_eq.
    + by apply Hno in Ho.
    + rewrite Ho in Ho'. injection Ho' as <-. econstructor; [done|econstructor; [done..|reflexivity]|lia].
Qed.
End Stack.

(** ** Manifests that do not include themselves *)

Lemma read_lines_of_rank (P : bytes -> Prop) n f : (length (rd_data f) < n)%nat ->
  Forall P (read_lines_of n f) ->
  forall k f' l, read_line f [] = (Ok k, f', l) -> MANIFEST_LINE_MAX < k \/ k = 0 \/
    P l /\ (length (rd_data f') < length (rd_data f))%nat /\
    Forall P (read_lines_of (n - 1) f').
Proof.
  intros Hn Hall k f' l Hr. destruct n as [|n]; [lia|]. cbn [read_lines_of] in Hall. rewrite Hr in Hall.
  destruct (Z.ltb_spec MANIFEST_LINE_MAX k); [by left|]. destruct (Z.eqb_spec k 0); [by right; left|].
  right; right. cbn [orb] in Hall. apply Forall_cons in Hall as [Hl Hall].
  apply read_line_progress in Hr as [(-> & _)|[_ Hlt]]; [done|].
  split_and!; [done|done|]. by replace (S n - 1)%nat with n by lia.
Qed.

Section Acyclic.
Context (host : Host) (conf : kvmap).

Definition includes_all (Q : path -> Prop) (f : Reader) : Prop :=
  Forall (fun l => forall q, included host conf l = Some q -> Q q) (fest_lines f).

(** The manifests that come up, with a rank: every one of them only includes
    manifests of a lower rank. *)
Record acyclic (roots : list Reader) (rank : gmap path nat) : Prop := {
  ac_roots : Forall (includes_all (fun q => is_Some (rank !! q))) roots;
  ac_rank : forall p n f, rank !! p = Some n -> host_open host p = Ok f ->
    includes_all (fun q => exists m, rank !! q = Some m /\ (m < n)%nat) f;
}.

Lemma lines_end n f : (length (rd_data f) < n)%nat ->
  Forall (fun l => forall q, included host conf l = Some q -> forall g, host_open host q = Ok g ->
    exists k, fest_ends host conf g k) (read_lines_of n f) ->
  exists k, fest_ends host conf f k.
Proof.
  revert f. induction n as [|n IH]; intros f Hn Hall; [lia|].
  destruct (read_line f []) as [[[k|e|] f'] l] eqn:Hr; [|exists 1%nat; constructor; congruence..].
  destruct (read_lines_of_rank _ _ _ Hn Hall _ _ _ Hr) as [?|[?|(Hl & Hlt & Hrest)]];
    [exists 1%nat; constructor; intros ??? Hr'; rewrite Hr in Hr'; simplify_eq; auto..|].
  destruct (IH f') as [m Hm]; [lia|by replace n with (S n - 1)%nat by lia|].
  destruct (included host conf l) as [q|] eqn:Hi; [|by eexists; eapply fe_plain].
  destruct (host_open host q) as [g|e|] eqn:Ho; [|eexists; eapply fe_missing; try done; congruence..].
  destruct (Hl q eq_refl g Ho) as [m1 Hm1]. eexists. by eapply fe_include.
Qed.

Lemma includes_end Q f : includes_all Q f ->
  (forall q g, Q q -> host_open host q = Ok g -> exists k, fest_ends host conf g k) ->
  exists k, fest_ends host conf f k.
Proof.
  intros Hf HQ. apply (lines_end (S (length (rd_data f)))); [lia|]. eapply Forall_impl; [exact Hf|].
  simpl. intros l Hl q Hi g Ho. by apply (HQ q); [apply Hl|].
Qed.

Lemma stack_acyclic roots rank : acyclic roots rank ->
  exists n, forall m, (n <= m)%nat -> stack_ends host conf (reverse roots) m.
Proof.
  intros [Hroots Hrank].
  assert (forall n p m g, rank !! p = Some m -> (m < n)%nat -> host_open host p = Ok g ->
    exists k, fest_ends host conf g k) as Hends.
  { induction n as [|n IH]; intros p m g Hp Hm Ho; [lia|].
    eapply includes_end; [by eapply Hrank|]. simpl. intros q g' (m' & Hq & Hlt). apply (IH q m'); [done|lia]. }
  apply Forall_reverse in Hroots. induction Hroots as [|f l Hf _ [n IH]]; [exists 0%nat; by constructor|].
  destruct (includes_end _ f Hf) as [k Hk]; [intros q g [m Hq]; by eapply (Hends (S m)); eauto|].
  exists (k + n)%nat. intros m Hm. econstructor; [done|by apply IH|lia].
Qed.
End Acyclic.

(** ** The program *)

(** A host with finitely much to gather for whatever a line names: the entries
    that can come up lie at finitely many paths, so many that the fuel covers
    them. *)
Record host_finite (host : Host) (elf_open : bytes -> option Elf) (fuel : nat) : Prop := {
  hf_elfs : forall ents, ents = reverse core_elfs \/ (exists n, ents = [Name n] \/ ents = [NameTry n]) ->
    exists P U M, elf_closed host elf_open P U M /\ Forall P ents /\ (size U * S M + length ents <= fuel)%nat;
  hf_tree : forall src dst, exists P U M, data_closed host P U M /\ P (MkItem src dst 0) /\
    (size U * S M + 1 <= fuel)%nat;
}.

Section Program.
Context {W : Type} `{Write W} (host : Host) (elf_open : bytes -> option Elf) (fuel : nat).
Context (Hfin : host_finite host elf_open fuel).

Lemma finite_elfs ents s : ents = reverse core_elfs \/ (exists n, ents = [Name n] \/ ents = [NameTry n]) ->
  fst (gather_archive_elfs (W := W) host elf_open fuel ents s) <> Err NoFuel.
Proof.
  intros (P & U & M & Hc & HP & Hf)%(hf_elfs _ _ _ Hfin).
  apply (work_ends (gather_elf_ent host elf_open) (gather_archive_elfs host elf_open)) with (P := P) (U := U) (M := M);
    [by intros []|done|intros; by apply elf_ent_progress|done|].
  assert (paths_left U s <= size U)%nat; [|unfold paths_left in *; nia]. apply subseteq_size. set_solver.
Qed.

Lemma finite_stacks : stacks_end (W := W) host elf_open fuel.
Proof.
  split; intros; [apply finite_elfs; eauto..|]. destruct (hf_tree _ _ _ Hfin src dst) as (P & U & M & Hc & HP & Hf).
  apply (work_ends (gather_item host) (gather_archive_data host)) with (P := P) (U := U) (M := M);
    [by intros []|done|intros; by apply item_progress|by constructor|].
  assert (paths_left U s <= size U)%nat; [|unfold paths_left in *; simpl; nia]. apply subseteq_size. set_solver.
Qed.

Definition ends {A} (c : Cut W A) : Prop := forall s, fst (c s) <> Err NoFuel.

Lemma ends_steady {A} (c : Cut W A) : steady c -> ends c.
Proof. intros Hc s. apply Hc. Qed.

Lemma ends_bind {A C} (c : Cut W A) (f : A -> Cut W C) : ends c -> (forall a, ends (f a)) -> ends (sbind c f).
Proof.
  intros Hc Hf s. unfold sbind. specialize (Hc s). destruct (c s) as [[a|e|] s1]; simpl in *; [apply Hf|congruence|done].
Qed.

Lemma parse_ends conf lines manifests : stack_ends host conf (reverse manifests) lines ->
  ends (manifest_parse (W := W) host elf_open conf fuel lines manifests).
Proof. intros Hs s. apply (manifest_loop_ends host elf_open conf fuel finite_stacks). done. Qed.

Lemma main_ends conf cf lines manifests : stack_ends host conf (reverse manifests) lines ->
  ends (cut_main (W := W) host elf_open fuel lines conf cf manifests).
Proof.
  intros Hs. pose proof (@y_open_with_metadata W host). pose proof (@y_kmods W _ host conf). pose proof (@y_symlinks W _).
  apply ends_bind; [|intros; apply ends_steady; steady].
  apply ends_bind; [apply ends_steady; unfold cut_archive_conf; steady|]. intros _.
  apply ends_bind; [by apply parse_ends|]. intros _.
  apply ends_bind; [by apply ends_steady|]. intros [f md].
  apply ends_bind; [apply ends_steady; steady|]. intros amd.
  apply ends_bind; [apply ends_steady; steady|]. intros _.
  apply ends_bind; [intros s; apply finite_elfs; by left|]. intros _. apply ends_steady. steady.
Qed.
End Program.

(** C12. rapido-cut ends. On a host with finitely much to gather, if no manifest
    includes itself, directly or through others, the whole program comes to
    its end, in success or with an error, for every command line, every
    output and every number of rounds the model is allowed from some number
    on: neither the stack of manifests nor the work stacks are a restriction. *)
Theorem cut_program_ends {W} `{Write W} host elf_open debug fuel args : host_finite host elf_open fuel ->
  (forall st conf cf, args_process host debug args = Ok st -> cut_conf host (state_new cut_props) = Ok (conf, cf) ->
     exists rank, acyclic host conf (manifests st) rank) ->
  exists n, forall lines open_out, (n <= lines)%nat ->
    cut_program (W := W) host elf_open debug fuel lines open_out args <> Err NoFuel.
Proof.
  intros Hfin Hac. unfold cut_program.
  destruct (args_process host debug args) as [st|e|] eqn:Hargs; [|exists O; intros; by destruct e|by exists O].
  destruct (cut_conf host _) as [[conf cf]|e|] eqn:Hc; cbn [map_err rbind]; [|by exists O..].
  destruct (Hac st conf cf eq_refl eq_refl) as [rank Hrank].
  destruct (stack_acyclic host conf _ rank Hrank) as [n Hn]. exists n. intros lines open_out Hl.
  destruct (cpio_out_open open_out _ conf) as [[out w]|e|]; cbn [map_err rbind]; [|done..].
  pose proof (main_ends host elf_open fuel Hfin conf cf lines (manifests st) (Hn _ Hl) (cut_start w)) as Hm.
  destruct (cut_main _ _ _ _ _ _ _ _) as [[len|e|] s]; simpl in *; congruence.
Qed.

(** ** Instances *)

(** A host of regular files that are no executables has finitely much to gather:
    the files, by the names they have and their absolute paths. *)
Section FilesHost.
Context (files : gmap bytes bytes).

Definition file_keys : gset (list Component) :=
  {[path_key (B "/rdinit")]} ∪ set_map path_key (dom files) ∪
  set_map (fun p => match absolute (B "/") p with Ok a => path_key a | _ => [] end) (dom files).

Lemma files_stat p md : host_symlink_metadata (files_host files) p = Ok md ->
  p ∈ dom files /\ is_type (st_mode md) S_IFLNK = false /\ is_type (st_mode md) S_IFDIR = false.
Proof.
  cbn. unfold files_lookup. destruct (files !! p) as [b|] eqn:Hp; [|done]. intros [= <-].
  split_and!; [by eapply elem_of_dom_2|done..].
Qed.

Definition named (ent : GatherEnt) : Prop :=
  match ent with
  | NameDst _ d => d = B "/rdinit"
  | Name _ | NameStatic _ | NameTry _ => True
  | _ => False
  end.

Lemma files_path_stat ent got : named ent -> path_stat (files_host files) ent = Ok got ->
  path_key (ent_dst ent got) ∈ file_keys /\
  is_type (st_mode (fs_md got)) S_IFLNK = false /\ is_type (st_mode (fs_md got)) S_IFDIR = false.
Proof.
  intros Hn (p & _ & (Hd & Hl & Hdir)%files_stat & Hr)%path_stat_found. split_and!; [|done..].
  assert (path_key (fs_path got) ∈ file_keys) as Hk.
  { unfold file_keys. assert (fs_path got = p \/ absolute (B "/") p = Ok (fs_path got)) as [-> | Ha].
    - destruct ent; try done; cbn [resolved] in Hr; destruct (contains _ _); auto.
    - apply elem_of_union_l, elem_of_union_r, elem_of_map. by exists p.
    - apply elem_of_union_r, elem_of_map. exists p. by rewrite Ha. }
  destruct ent; try done. cbn in Hn |- *. subst. unfold file_keys. set_solver.
Qed.

Lemma files_host_finite fuel : (size file_keys + 6 <= fuel)%nat ->
  host_finite (files_host files) (fun _ => None) fuel.
Proof.
  intros Hf. split.
  - intros ents Hents. exists named, file_keys, O. split_and!.
    + split; intros ent got; intros.
      * by eapply files_path_stat.
      * destruct (files_path_stat ent got) as (_ & ? & _); [done..|congruence].
      * destruct (files_path_stat ent got) as (_ & _ & ?); [done..|congruence].
      * done.
    + destruct Hents as [->|(n & [->| ->])]; by repeat constructor.
    + assert (length ents <= 6)%nat; [|lia]. destruct Hents as [->|(n & [->| ->])]; simpl; lia.
  - intros src dst. exists (eq (MkItem src dst 0)), {[path_key dst]}, O. split_and!; [|done|].
    + split; [intros i md <- _; simpl; set_solver|]. intros i md names <- (_ & _ & ?)%files_stat. congruence.
    + rewrite size_singleton. lia.
Qed.
End FilesHost.

Module EndsRun.
Definition files : gmap bytes bytes := list_to_map
  [(B "/a.fest", B "include /b.fest" ++ NL :: B "dir /x" ++ [NL]); (B "/b.fest", B "include /c.fest" ++ [NL]);
   (B "/c.fest", B "dir /y"); (B "/l.fest", B "include /l.fest" ++ [NL])].
Definition host : Host := files_host files.
Definition args : list bytes := [B "--manifest"; B "/a.fest"].
Definition top : Reader := reader_of (B "include /b.fest" ++ NL :: B "dir /x" ++ [NL]).
Definition rank : gmap path nat := {[ B "/b.fest" := 1%nat; B "/c.fest" := O ]}.
End EndsRun.

Lemma cut_program_ends_witness :
  exists n, forall lines (open_out : path -> io Vector), (n <= lines)%nat ->
    cut_program EndsRun.host (fun _ => None) (fun _ => []) 16 lines open_out EndsRun.args <> Err NoFuel.
Proof.
  apply cut_program_ends.
  - apply files_host_finite, (bool_decide_unpack (_ <= _)%nat). vm_compute. exact I.
  - intros st conf cf Hst Hc. exists EndsRun.rank.
    assert (cut_conf EndsRun.host (state_new cut_props) = Ok (conf_defaults, None)) as Hc' by (vm_compute; reflexivity).
    assert (args_process EndsRun.host (fun _ => []) EndsRun.args = Ok (MkArgsState None [EndsRun.top])) as Hst'
      by (vm_compute; reflexivity).
    rewrite Hc in Hc'. rewrite Hst in Hst'. injection Hc' as -> _. injection Hst' as ->. clear Hst Hc.
    split.
    + repeat constructor; intros q Hq; vm_compute in Hq; simplify_eq; by eexists.
    + intros p n f Hp Ho. unfold EndsRun.rank in Hp.
      apply lookup_insert_Some in Hp as [[<- <-]|[_ Hp]]; [|apply lookup_singleton_Some in Hp as [<- <-]];
        vm_compute in Ho; simplify_eq; repeat constructor; intros q Hq; vm_compute in Hq; simplify_eq.
      exists O. split; [done|lia].
Defined.

(** ** A manifest that includes itself *)

(** One round on a manifest of a single include line puts another reader of it on
    the stack. *)
Lemma self_include_loop lines (s : CutState Vector) l :
  fests s = reader_of (B "include /l.fest" ++ [NL]) :: l ->
  fst (manifest_loop EndsRun.host (fun _ => None) conf_defaults 0 lines s) = Err NoFuel.
Proof.
  revert s l. induction lines as [|lines IH]; intros s l Hs; cbn [manifest_loop]; unfold sbind at 1, sget; rewrite Hs; [done|].
  replace (read_line _ _) with (Ok 16 : io Z, reader_of [], B "include /l.fest" ++ [NL]) by (vm_compute; reflexivity).
  unfold sbind at 1. cbn [smodify fst snd]. change (MANIFEST_LINE_MAX <? 16) with false. change (16 =? 0) with false. cbv iota.
  set (s1 := set_fests _ s).
  assert (manifest_parse_one EndsRun.host (fun _ => None) conf_defaults 0 (B "include /l.fest" ++ [NL]) s1
    = (Ok tt, set_fests (reader_of (B "include /l.fest" ++ [NL]) :: fests s1) s1)) as Hp by (clearbody s1; vm_compute; reflexivity).
  unfold sbind. rewrite Hp. eapply IH. reflexivity.
Qed.

(** A manifest that includes itself is read for ever, as long as it can be opened:
    every round opens it once more, and every number of rounds is used up. *)
Example self_include_never_ends lines :
  fst (manifest_parse EndsRun.host (fun _ => None) conf_defaults 0 lines
         [reader_of (B "include /l.fest" ++ [NL])] (cut_start (MkVector []))) = Err NoFuel.
Proof. by eapply self_include_loop. Qed.
