(* ===== verification/DracutCpio.v ===== *)
(** * dracut-cpio: archiving a list of names (src/src/bin/dracut-cpio.rs)

    The names of files, one per line, are read and archived; the archive is
    padded to blocks of 512 bytes and may follow earlier archives in the output
    file. *)

From S2P Require Import Prelude RustStr RustPath RustIo Cpio CpioWalk CpioArchive CpioSim Host Argument.

Definition LIST_SEPARATOR : Z := NL.

(** [reader.by_ref().take(PATH_MAX).read_until(LIST_SEPARATOR, ..)]: an error of
    the reader is met only where the data end before the separator and the limit *)
Definition read_name (r : Reader) : io bytes * Reader :=
  let '(linebuf, _) := take_until (Z.eqb LIST_SEPARATOR) (take (Z.to_nat PATH_MAX) (rd_data r)) in
  let r' := MkReader (drop (length linebuf) (rd_data r)) (rd_err r) in
  match rd_err r with
  | Some e =>
      if ends_with [LIST_SEPARATOR] linebuf || (PATH_MAX <=? zlen linebuf) then (Ok linebuf, r')
      else (Err e, r')
  | None => (Ok linebuf, r')
  end.

Definition BLOCK : Z := 512.

(** "must satisfy both data_align and cpio 4-byte padding alignment" *)
Definition align_refused (p : ArchiveProperties) : bool :=
  (0 <? data_align p) && negb (wrap64 (initial_data_off p + data_align p) mod 4 =? 0).

Section Dracut.
Context {W : Type} `{Write W} (host : Host).

(** archive one name *)
Definition archive_name (p : path) : Arch W unit :=
  let* md := slift (host_symlink_metadata host p) in
  let* st := get_state in
  let* amd := slift (archive_md_from st md) in
  if is_type (mode amd) S_IFREG then
    let* f := slift (host_open host p) in
    archive_file p amd f
  else if is_type (mode amd) S_IFLNK then
    let* tgt := slift (host_read_link host p) in
    archive_symlink p amd tgt
  else archive_path p amd.

(** the loop over the names *)
Fixpoint name_loop (fuel : nat) (reader : Reader) : Arch W unit :=
  match fuel with
  | O => spanic
  | S fuel =>
      let '(r, reader') := read_name reader in
      let* linebuf := slift r in
      if zlen linebuf =? 0 then sret tt
      else if PATH_MAX <=? zlen linebuf then sfail (err_new InvalidInput "path too long")
      else
        match strip_suffix [LIST_SEPARATOR] linebuf with
        | Some [] => name_loop fuel reader'
        | Some p => do* archive_name p ;; name_loop fuel reader'
        | None => do* archive_name linebuf ;; name_loop fuel reader'
        end
  end.

(** the zeros after the trailer *)
Definition emit_block_pad (final_off : Z) : Arch W Z :=
  let block_padlen := archive_padlen final_off BLOCK in
  if 0 <? block_padlen then
    do* emit (zeros block_padlen) ;; sret (wrap64 (final_off + block_padlen))
  else sret final_off.

(** The body of [archive_loop] after the check; a name takes at least one byte
    of the reader. *)
Definition archive_names (reader : Reader) : Arch W Z :=
  do* name_loop (S (length (rd_data reader))) reader ;;
  let* final_off := archive_trailer in
  let* final_off := emit_block_pad final_off in
  do* flush_writer ;; sret final_off.

Definition archive_loop (reader : Reader) (writer : W) (p : ArchiveProperties) : io Z * W :=
  if align_refused p
  then (Err (err_new InvalidInput "data alignment must be a multiple of 4"), writer)
  else let '(r, (_, w)) := archive_names reader (state_new p, writer) in (r, w).
End Dracut.

(** ** The command line *)

(** what the closure of [params_process] assigns *)
Record Params := MkParams {
  pa_props : ArchiveProperties;
  pa_positional : Z;
  pa_truncate : bool;
}.

Definition params : list Argument :=
  [positional (B "OUTPUT") (B "Write cpio archive to this file path.");
   value (B "data-align") (B "ALIGNMENT")
     (B "Attempt to pad archive to achieve ALIGNMENT for file data.");
   short_flag (B "0") (B "null")
     (B "Expect null delimeters in stdin filename list instead of newline.");
   value (B "mtime") (B "EPOCH")
     (B "Use EPOCH for archived mtime instead of filesystem reported values.");
   value (B "owner") (B "UID:GID")
     (B "Use UID and GID instead of filesystem reported owner values.");
   flag (B "truncate-existing")
     (B "Truncate and overwrite any existing OUTPUT file, instead of appending.");
   short_flag (B "h") (B "help") (B "Print help message.")].

Definition set_props (f : ArchiveProperties -> ArchiveProperties) : SM Params arg_error unit :=
  smodify (fun pa => MkParams (f (pa_props pa)) (pa_positional pa) (pa_truncate pa)).

(** [value.unwrap().parse().map_err(..)?] *)
Definition parse_value (v : option bytes) (expected : string) : SM Params arg_error Z :=
  let* v := slift (unwrap v) in
  slift (ok_or (parse_u32 v) (InvalidValue v (B expected))).

Fixpoint parse_ids (ids : list bytes) : result arg_error (list Z) :=
  match ids with
  | [] => Ok []
  | id :: ids =>
      let? n := ok_or (parse_u32 id) (InvalidValue id (B "uid/gid must be an integer")) in
      let? ns := parse_ids ids in
      Ok (n :: ns)
  end.

Definition is_colon (c : Z) : bool := c =? 58.

(** the closure; the last arm is [unreachable!()] *)
Definition params_callback : Callback Params := fun name v =>
  if bool_decide (name = []) then
    smodify (fun pa => MkParams (pa_props pa) (pa_positional pa + 1) (pa_truncate pa))
  else if bool_decide (name = B "data-align") then
    let* v := parse_value v "data-align must be an integer" in
    set_props (fun p => MkProps (initial_ino p) v (namesize_max p) (initial_data_off p)
                          (fixed_mtime p) (fixed_uid p) (fixed_gid p))
  else if bool_decide (name = B "mtime") then
    let* v := parse_value v "mtime must be an integer" in
    set_props (fun p => MkProps (initial_ino p) (data_align p) (namesize_max p)
                          (initial_data_off p) (Some v) (fixed_uid p) (fixed_gid p))
  else if bool_decide (name = B "owner") then
    let* v := slift (unwrap v) in
    let* ugv := slift (parse_ids (split is_colon v)) in
    match ugv with
    | [u; g] =>
        set_props (fun p => MkProps (initial_ino p) (data_align p) (namesize_max p)
                              (initial_data_off p) (fixed_mtime p) (Some u) (Some g))
    | _ => sfail (InvalidValue v (B "owner must be UID:GID"))
    end
  else if bool_decide (name = B "truncate-existing") then
    smodify (fun pa => MkParams (pa_props pa) (pa_positional pa) true)
  else if bool_decide (name = B "help") then sfail PrintHelp
  else spanic.

(** what [params_usage] prints *)
Definition params_usage : bytes :=
  print_help (B "dracut-cpio") (B "OUTPUT") params ++
  [NL] ++ B "Example: find fs-tree/ | dracut-cpio archive.cpio" ++ [NL; NL].

(** [params_process], with the arguments after the program's name; the output
    path is the last of all arguments. *)
Definition params_process (p : ArchiveProperties) (args : list bytes) :
    result arg_error (path * bool * ArchiveProperties) :=
  match set_arguments (env_args args) params params_callback (MkParams p 0 false) with
  | (Ok _, pa) =>
      if negb (pa_positional pa =? 1)
      then Err (ExpectedArgument (B "one OUTPUT parameter required"))
      else let? last_arg := unwrap (last args) in
           Ok (last_arg, pa_truncate pa, pa_props pa)
  | (Err e, _) => Err e
  | (Panic, _) => Panic
  end.

(** ... and what it prints of it: the usage, for every error *)
Definition params_process_prints (p : ArchiveProperties) (args : list bytes) : bytes :=
  match params_process p args with Err _ => params_usage | _ => [] end.

Section Main.
Context {W : Type} `{Write W} (host : Host).
(** opening the output (truncated or not), and where its end is *)
Context (open_output : path -> bool -> io (W * Z)).

Definition with_data_off (off : Z) (p : ArchiveProperties) : ArchiveProperties :=
  MkProps (initial_ino p) (data_align p) (namesize_max p) off (fixed_mtime p) (fixed_uid p)
    (fixed_gid p).

(** [main]: the number of bytes it reports and the output, or nothing for help *)
Definition dracut_main (args : list bytes) (stdin : Reader) : io (option (Z * W)) :=
  match params_process props_default args with
  | Err PrintHelp => Ok None
  | Err e => Err (err_fmt InvalidInput (arg_error_fmt e))
  | Panic => Panic
  | Ok (output_path, truncate_existing, p) =>
      let? (f, end_off) := open_output output_path truncate_existing in
      let p := if negb truncate_existing then with_data_off end_off p else p in
      let '(r, w) := archive_loop host stdin f p in
      let? wrote := r in
      Ok (Some (wrote, w))
  end.
End Main.

(** ** Examples *)

Definition sample_host : Host :=
  files_host (list_to_map [(B "ab", B "hello"); (B "b/c", []); (B "x", B "12345678")]).

(** Whatever follows OUTPUT is an OUTPUT too. *)
Example output_twice : params_process props_default (B <$> ["out"; "--mtime"; "5"]%string)
  = Err (ExpectedArgument (B "one OUTPUT parameter required")).
Proof. reflexivity. Qed.
Example owner_of_files :
  (let? (out, p) := params_process props_default (B <$> ["--owner"; "0:10"; "--mtime=7"; "out"]%string) in
   Ok (out, fixed_uid p, fixed_gid p, fixed_mtime p)) = Ok (B "out", false, Some 0, Some 10, Some 7).
Proof. reflexivity. Qed.
Example null_option : params_process props_default (B <$> ["--null"; "out"]%string) = Panic.
Proof. reflexivity. Qed.
Example null_short_option : params_process props_default (B <$> ["-0"; "out"]%string) = Panic.
Proof. reflexivity. Qed.
Example empty_list : archive_loop sample_host (reader_of []) (MkVector []) props_default
  = (Ok 512, MkVector (trailer_bytes ++ zeros 388)).
Proof. vm_compute. reflexivity. Qed.

(** ** Lists of names *)

(** A line of the list; blank lines are skipped. *)
Definition list_line_ok (l : bytes) : Prop :=
  Forall (fun c => (LIST_SEPARATOR =? c) = false) l /\ zlen l + 1 < PATH_MAX.

#[export] Instance list_line_ok_dec l : Decision (list_line_ok l).
Proof. unfold list_line_ok. apply _. Defined.

Definition list_text (ls : list bytes) : bytes := concat ((fun l => l ++ [LIST_SEPARATOR]) <$> ls).
Definition list_names (ls : list bytes) : list bytes := List.filter nonempty ls.

Section Names.
Context {W : Type} `{WriteOk W} (host : Host).
Implicit Types (st : ArchiveState) (w : W).

Fixpoint run_names (names : list bytes) : Arch W unit :=
  match names with
  | [] => sret tt
  | n :: names => do* archive_name host n ;; run_names names
  end.

Lemma list_text_cons l ls : list_text (l :: ls) = l ++ LIST_SEPARATOR :: list_text ls.
Proof. unfold list_text. rewrite fmap_cons. cbn [concat]. by rewrite <-app_assoc. Qed.

Lemma read_name_line l rest : list_line_ok l ->
  read_name (reader_of (l ++ LIST_SEPARATOR :: rest)) = (Ok (l ++ [LIST_SEPARATOR]), reader_of rest).
Proof.
  intros [Hl Hlen]. unfold read_name. cbn [rd_data rd_err reader_of].
  rewrite take_app_ge by (unfold zlen in Hlen; lia).
  destruct (Z.to_nat PATH_MAX - length l)%nat as [|k] eqn:Hk; [unfold zlen in Hlen; lia|].
  cbn [take]. rewrite take_until_run by done. do 2 f_equal.
  change (l ++ LIST_SEPARATOR :: rest) with (l ++ [LIST_SEPARATOR] ++ rest). rewrite app_assoc.
  by rewrite drop_app_length.
Qed.

(** The loop archives the names in order. *)
Lemma name_loop_list ls fuel s : Forall list_line_ok ls -> (length (list_text ls) < fuel)%nat ->
  name_loop host fuel (reader_of (list_text ls)) s = run_names (list_names ls) s.
Proof.
  revert fuel s. induction ls as [|l ls IH]; intros fuel s Hls Hf.
  { destruct fuel; [simpl in Hf; lia|done]. }
  apply Forall_cons in Hls as [Hl Hls]. rewrite list_text_cons in *.
  destruct fuel as [|fuel]; [simpl in Hf; lia|]. cbn [name_loop].
  rewrite read_name_line by done. unfold sbind at 1, slift.
  rewrite length_app in Hf. simpl in Hf. rewrite zlen_app. change (zlen [LIST_SEPARATOR]) with 1.
  destruct Hl as [Hnl Hlen]. pose proof (zlen_nonneg l).
  rewrite (proj2 (Z.eqb_neq _ _)), (proj2 (Z.leb_gt _ _)), strip_suffix_app by lia.
  destruct l as [|c l]; [apply IH; [done|simpl in Hf; lia]|].
  unfold list_names. cbn [List.filter nonempty run_names]. unfold sbind at 1 2.
  destruct (archive_name host (c :: l) s) as [[[]|e|] s']; [|done..]. apply IH; [done|simpl in Hf; lia].
Qed.

(** The request made for a name. *)
Definition listed (p : ArchiveProperties) (name : bytes) (q : request) : Prop :=
  req_path q = name /\
  exists md, host_symlink_metadata host name = Ok md /\ md_from_spec p md (req_md q) /\
    match q with
    | ReqFile _ _ rd => is_type (st_mode md) S_IFREG = true /\ host_open host name = Ok rd
    | ReqSymlink _ _ tgt => is_type (st_mode md) S_IFLNK = true /\ host_read_link host name = Ok tgt
    | ReqPath _ _ => is_type (st_mode md) S_IFREG = false /\ is_type (st_mode md) S_IFLNK = false
    end.

Context (Hstat : forall p md, host_symlink_metadata host p = Ok md -> stat_ok md).

Lemma archive_name_inv name st w s' : fixed_ok (props st) ->
  archive_name host name (st, w) = (Ok tt, s') ->
  exists q, listed (props st) name q /\ run_request q (st, w) = (Ok tt, s').
Proof.
  intros Hfix Hr. unfold archive_name in Hr. unfold sbind at 1, slift in Hr.
  destruct (host_symlink_metadata host name) as [md|e|] eqn:Hmd; [|done..].
  unfold sbind at 1, get_state in Hr. unfold sbind at 1 in Hr.
  pose proof (archive_md_from_cases st md (Hstat _ _ Hmd) Hfix) as Ha.
  destruct (archive_md_from st md) as [amd|e|]; [|done..].
  pose proof (mf_mode _ _ _ Ha) as Hm. rewrite Hm in Hr.
  destruct (is_type (st_mode md) S_IFREG) eqn:Hreg.
  { unfold sbind in Hr. destruct (host_open host name) as [f|e|] eqn:Ho; [|done..].
    exists (ReqFile name amd f). split; [|done]. split; [done|]. by exists md. }
  destruct (is_type (st_mode md) S_IFLNK) eqn:Hlnk.
  { unfold sbind in Hr. destruct (host_read_link host name) as [tgt|e|] eqn:Ho; [|done..].
    exists (ReqSymlink name amd tgt). split; [|done]. split; [done|]. by exists md. }
  exists (ReqPath name amd). split; [|done]. split; [done|]. by exists md.
Qed.

Lemma run_names_inv names st w st' w' :
  run_names names (st, w) = (Ok tt, (st', w')) -> state_ok st -> room_for st (length names) ->
  fixed_ok (props st) ->
  exists qs, Forall2 (listed (props st)) names qs /\ Forall req_ok qs /\
    run_requests qs (st, w) = (Ok tt, (st', w')).
Proof.
  revert st w. induction names as [|n names IH]; intros st w Hr Hst Hroom Hfix.
  { exists []. by repeat constructor. }
  cbn [run_names] in Hr. apply sbind_inv_ok in Hr as ([] & [st1 w1] & Hn & Hr).
  apply archive_name_inv in Hn as (q & Hq & Hreq); [|done].
  assert (req_ok q) as Hok by (destruct Hq as (_ & md & _ & Hmd & _); apply Hmd).
  pose proof Hreq as Hreq'.
  apply run_request_ok in Hreq' as (fname & seek & He & _ & ->); [|done|by eapply room_off|done].
  pose proof (req_bytes_bound _ _ _ _ Hst Hok He).
  apply IH in Hr as (qs & Hqs & Hoks & Hrun); [| | |done].
  - exists (q :: qs). split_and!; [by constructor..|]. cbn [run_requests].
    by rewrite (sbind_ok _ _ _ _ _ Hreq).
  - by apply after_state_ok.
  - unfold room_for in *. cbn [length after off] in *. lia.
Qed.

(** ** Without panic *)

Context (Hhost : forall p, host_symlink_metadata host p <> Panic /\ host_open host p <> Panic /\
                           host_read_link host p <> Panic).

Lemma no_panic_name name st w : state_ok st -> fixed_ok (props st) ->
  data_align (props st) mod 4 = 0 -> initial_data_off (props st) mod 4 = 0 ->
  no_panic (archive_name host name) (st, w).
Proof.
  intros Hst Hfix Hda Hio. destruct (Hhost name) as (Hm & Ho & Hl). unfold archive_name.
  apply no_panic_bind; [done|]. intros md s Hmd. unfold slift in Hmd. injection Hmd as Hmd <-.
  apply no_panic_bind; [done|]. intros st1 s [= <- <-].
  apply no_panic_bind.
  { unfold no_panic, slift. simpl. intros Ha.
    pose proof (archive_md_from_cases st md (Hstat _ _ Hmd) Hfix) as H1. by rewrite Ha in H1. }
  intros amd s [= _ <-]. destruct (is_type (mode amd) S_IFREG).
  { apply no_panic_bind; [done|]. intros f s [= _ <-]. by apply (no_panic_request (ReqFile name amd f)). }
  destruct (is_type (mode amd) S_IFLNK).
  { apply no_panic_bind; [done|]. intros f s [= _ <-]. by apply (no_panic_request (ReqSymlink name amd f)). }
  by apply (no_panic_request (ReqPath name amd)).
Qed.

Lemma read_name_length r l r' : read_name r = (Ok l, r') ->
  (length (rd_data r') + length l <= length (rd_data r))%nat.
Proof.
  unfold read_name. destruct (take_until _ _) as [line x] eqn:Ht. apply take_until_app in Ht.
  assert (length line <= length (rd_data r))%nat as Hle.
  { apply (f_equal length) in Ht. rewrite length_app, length_take in Ht. lia. }
  destruct (rd_err r); [destruct (_ || _)|]; intros; simplify_eq/=; rewrite length_drop; lia.
Qed.

Lemma name_loop_no_panic fuel reader st w :
  (length (rd_data reader) < fuel)%nat -> state_ok st -> fixed_ok (props st) ->
  data_align (props st) mod 4 = 0 -> initial_data_off (props st) mod 4 = 0 ->
  no_panic (name_loop host fuel reader) (st, w).
Proof.
  revert reader st w. induction fuel as [|fuel IH]; intros reader st w Hf Hst Hfix Hda Hio; [lia|].
  cbn [name_loop]. destruct (read_name reader) as [r reader'] eqn:Hr. apply no_panic_bind.
  { unfold read_name in Hr. destruct (take_until _ _) as [line x].
    destruct (rd_err reader); [destruct (_ || _)|]; by injection Hr as <- _. }
  intros l s [= -> <-]. apply read_name_length in Hr.
  destruct (Z.eqb_spec (zlen l) 0) as [|Hl]; [done|]. destruct (PATH_MAX <=? _); [done|].
  assert (length (rd_data reader') < fuel)%nat as Hf' by (unfold zlen in Hl; lia).
  assert (forall p, no_panic (do* archive_name host p ;; name_loop host fuel reader') (st, w)) as Hp.
  { intros p. apply no_panic_bind; [by apply no_panic_name|]. intros [] [st1 w1] Hn.
    apply archive_name_inv in Hn as (q & Hq & Hreq); [|done].
    pose proof (run_request_props q (st, w)) as Hp. rewrite Hreq in Hp. simpl in Hp.
    apply request_state_ok in Hreq; [|done..]. by apply IH; rewrite ?Hp. }
  destruct (strip_suffix _ l) as [[|c p]|]; [by apply IH|apply Hp..].
Qed.
End Names.

(** ** Whole runs *)

Lemma trailer_length : zlen trailer_bytes = 124.
Proof. reflexivity. Qed.

Section Runs.
Context {W : Type} `{WriteOk W} (host : Host).
Context (Hstat : forall p md, host_symlink_metadata host p = Ok md -> stat_ok md).

Lemma emit_block_pad_ok n st (w : W) n' st' w' : 0 <= n < 2 ^ 63 ->
  emit_block_pad n (st, w) = (Ok n', (st', w')) ->
  exists k, 0 <= k /\ n' = n + k /\ n' mod BLOCK = 0 /\ written w' = written w ++ zeros k.
Proof.
  intros Hn Hr. unfold emit_block_pad in Hr.
  assert (archive_padlen n BLOCK = (- n) mod BLOCK) as Hp by (apply (padlen_pow2 n 9); lia).
  pose proof (Z.mod_pos_bound (- n) BLOCK) as Hb. unfold BLOCK in *. rewrite Hp in Hr.
  assert ((n + (- n) mod 512) mod 512 = 0) as Hm
    by (rewrite Zplus_mod_idemp_r; by rewrite Z.add_opp_diag_r).
  destruct (Z.ltb_spec 0 ((- n) mod 512)) as [Hk|Hk].
  - apply sbind_inv_ok in Hr as ([] & s1 & (w1 & -> & Hw)%emit_inv & Hr). unfold sret in Hr.
    injection Hr as <- <- <-. exists ((- n) mod 512). rewrite wrap64_small by (unfold u64_ok; lia).
    split_and!; [lia|done..].
  - unfold sret in Hr. injection Hr as <- <- <-. assert ((- n) mod 512 = 0) as Hz by lia.
    exists 0. rewrite Hz, Z.add_0_r in Hm. rewrite Z.add_0_r. change (zeros 0) with (@nil Z).
    rewrite app_nil_r. done.
Qed.

(** A successful run is an archive, followed by padding. *)
Lemma archive_loop_inv ls p (w w' : W) n :
  Forall list_line_ok ls -> archive_loop host (reader_of (list_text ls)) w p = (Ok n, w') ->
  written w = [] -> props_ok p -> fixed_ok p -> Z.of_nat (length ls) < 2 ^ 28 ->
  exists qs n0 st0 w0 k, Forall2 (listed host p) (list_names ls) qs /\ Forall req_ok qs /\
    archive qs (state_new p, w) = (Ok n0, (st0, w0)) /\ 0 <= k /\ n = n0 + k /\ n mod BLOCK = 0 /\
    n0 = zlen (written w0) /\ written w' = written w0 ++ zeros k /\ (length qs <= length ls)%nat.
Proof.
  intros Hls Hr Hw Hp Hfix Hlen. unfold archive_loop in Hr. destruct (align_refused p); [done|].
  destruct (archive_names host (reader_of (list_text ls)) (state_new p, w)) as [r [st2 w2]] eqn:Ha.
  injection Hr as -> ->. unfold archive_names in Ha.
  apply sbind_inv_ok in Ha as ([] & [st1 w1] & Hn & Ha).
  rewrite name_loop_list in Hn by (done || (simpl; lia)).
  assert (state_ok (state_new p)) as Hst by (split_and!; [done|done|done|apply Hp]).
  assert (length (list_names ls) <= length ls)%nat as Hle by apply List.filter_length_le.
  apply (run_names_inv host Hstat) in Hn as (qs & Hqs & Hoks & Hrun); [|done| |done].
  2:{ unfold room_for, state_new. simpl off. lia. }
  apply sbind_inv_ok in Ha as (n0 & [st3 w3] & Ht & Ha).
  assert (archive qs (state_new p, w) = (Ok n0, (st3, w3))) as Hqa.
  { unfold archive. by rewrite (sbind_ok _ _ _ _ _ Hrun). }
  pose proof (Forall2_length _ _ _ Hqs) as Hl.
  pose proof Hqa as Hb. apply archive_ok in Hb as (b & st4 & Hb & Hwb & Hn0 & _); [|done| |done].
  2:{ unfold room_for, state_new. simpl off. lia. }
  pose proof (archived_state _ _ _ _ Hb Hst Hoks) as (_ & _ & _ & _ & Hbl).
  rewrite Hw in Hwb. simpl in Hwb. rewrite zlen_app, trailer_length in Hn0. simpl off in Hn0.
  pose proof (zlen_nonneg b). apply sbind_inv_ok in Ha as (n1 & [st5 w5] & Ha & Hfl).
  apply flush_inv in Hfl as (w6 & _ & -> & [= -> ->] & Hflw).
  apply emit_block_pad_ok in Ha as (k & Hk & Hnk & Hm & Hwk); [|lia]. rewrite <-Hflw in Hwk.
  exists qs, n0, st3, w3, k. split_and!; try done; [|lia].
  rewrite Hwb, zlen_app, trailer_length. lia.
Qed.
End Runs.

(** C28. A run of dracut-cpio that succeeds: the archive has one entry per name of
    the list, in order (blank lines are skipped), with the metadata and the
    contents the host reports, and the walker reads them back whatever follows;
    the output is padded to whole blocks and its length is the number reported. *)
Theorem dracut_cpio_roundtrip {W R} `{WriteOk W} `{Reliable R} host ls p (w w' : W) n (r : R) rest :
  (forall p md, host_symlink_metadata host p = Ok md -> stat_ok md) ->
  Forall list_line_ok ls -> Z.of_nat (length ls) < 2 ^ 28 ->
  props_ok p -> fixed_ok p -> namesize_max p <= PATH_MAX + 1 ->
  Forall (fun name => path_trim_prefixes name <> Ok trailer_name) (list_names ls) ->
  written w = [] -> archive_loop host (reader_of (list_text ls)) w p = (Ok n, w') ->
  avail r = written w' ++ rest ->
  n = zlen (written w') /\ n mod BLOCK = 0 /\
  exists qs ents, Forall2 (listed host p) (list_names ls) qs /\
    walk collect (S (length qs)) r [] = Some (Ok tt, ents) /\
    Forall2 (fun q e => exists fname, ent_for q e fname) qs ents.
Proof.
  intros Hstat Hls Hlen Hp Hfix Hmax Hrd Hw Hr Hav.
  apply (archive_loop_inv host Hstat) in Hr
    as (qs & n0 & st0 & w0 & k & Hqs & Hok & Ha & Hk & -> & Hm & -> & Hw' & Hl); [|done..].
  split; [by rewrite Hw', zlen_app, zlen_zeros|]. split; [done|].
  assert (Forall req_readable qs) as Hread.
  { clear -Hqs Hrd. induction Hqs as [|name q names qs [Hq _] _ IH]; [constructor|].
    apply Forall_cons in Hrd as [Hn Hrd]. constructor; [|by apply IH]. unfold req_readable. by rewrite Hq. }
  rewrite Hw', <-app_assoc in Hav.
  destruct (walk_back qs p w w0 _ _ r (zeros k ++ rest) Ha) as (_ & ents & Hwk & Hall); try done; [lia|].
  by exists qs, ents.
Qed.

(** C29. dracut-cpio does not panic on any list of names, over any output, when the
    alignment and the offset of the archive in the output are multiples of four
    (any earlier archive of dracut-cpio is a multiple of 512). *)
Theorem dracut_cpio_no_panic {W} `{WriteOk W} host reader p (w : W) :
  (forall p md, host_symlink_metadata host p = Ok md -> stat_ok md) ->
  (forall p, host_symlink_metadata host p <> Panic /\ host_open host p <> Panic /\
             host_read_link host p <> Panic) ->
  props_ok p -> fixed_ok p -> data_align p mod 4 = 0 -> initial_data_off p mod 4 = 0 ->
  fst (archive_loop host reader w p) <> Panic.
Proof.
  intros Hstat Hhost Hp Hfix Hda Hio. unfold archive_loop. destruct (align_refused p); [done|].
  assert (no_panic (archive_names host reader) (state_new p, w)) as Hn.
  { unfold archive_names. apply no_panic_bind.
    - apply (name_loop_no_panic host Hstat Hhost); try done; [lia|]. by split_and!; try apply Hp.
    - intros [] [st1 w1] _. apply no_panic_bind; [unfold archive_trailer; np|]. intros n [st2 w2] _.
      apply no_panic_bind; [unfold emit_block_pad; destruct (0 <? _); np|]. intros m [st3 w3] _. np. }
  unfold no_panic in Hn. by destruct (archive_names _ _ _) as [r0 [st1 w1]].
Qed.

(** The check of the alignment accepts values that make the archive writer panic:
    it adds the alignment to the offset, and both may be even. *)
Theorem dracut_align_check_insufficient :
  exists p, align_refused p = false /\ data_align p = 2 /\ initial_data_off p = 2 /\
    fst (archive_loop sample_host (reader_of (B "ab" ++ [NL])) (MkVector []) p) = Panic.
Proof.
  exists (MkProps 0 2 (namesize_max props_default) 2 None None None).
  split_and!; vm_compute; reflexivity.
Qed.

(** ** Parameters *)

Inductive dopt :=
  | OAlign (n : Z)
  | OMtime (n : Z)
  | OOwner (u g : Z)
  | OTruncate.

Definition dopt_ok (o : dopt) : Prop :=
  match o with
  | OAlign n | OMtime n => u32_ok n
  | OOwner u g => u32_ok u /\ u32_ok g
  | OTruncate => True
  end.

Definition dopt_given (o : dopt) : given :=
  match o with
  | OAlign n => GEq (B "data-align") (fmt_dec n)
  | OMtime n => GEq (B "mtime") (fmt_dec n)
  | OOwner u g => GNext (B "owner") (fmt_dec u ++ 58 :: fmt_dec g)
  | OTruncate => GFlag (B "truncate-existing")
  end.

Definition dopt_apply (o : dopt) (pa : Params) : Params :=
  let p := pa_props pa in
  match o with
  | OAlign n => MkParams (MkProps (initial_ino p) n (namesize_max p) (initial_data_off p)
                            (fixed_mtime p) (fixed_uid p) (fixed_gid p)) (pa_positional pa) (pa_truncate pa)
  | OMtime n => MkParams (MkProps (initial_ino p) (data_align p) (namesize_max p)
                            (initial_data_off p) (Some n) (fixed_uid p) (fixed_gid p))
                  (pa_positional pa) (pa_truncate pa)
  | OOwner u g => MkParams (MkProps (initial_ino p) (data_align p) (namesize_max p)
                              (initial_data_off p) (fixed_mtime p) (Some u) (Some g))
                    (pa_positional pa) (pa_truncate pa)
  | OTruncate => MkParams p (pa_positional pa) true
  end.

Definition dopt_args (os : list dopt) : list bytes := concat (print_given <$> (dopt_given <$> os)).

(** The ids of an owner. *)
Lemma parse_owner u g : u32_ok u -> u32_ok g ->
  parse_ids (split is_colon (fmt_dec u ++ 58 :: fmt_dec g)) = Ok [u; g].
Proof.
  intros Hu Hg. pose proof (fmt_dec_digits u) as Hdu. pose proof (fmt_dec_digits g) as Hdg.
  assert (forall s, Forall (fun c => 48 <= c <= 57) s -> Forall (fun c => is_colon c = false) s) as Hc.
  { intros s Hs. eapply Forall_impl; [exact Hs|]. unfold is_colon. simpl. intros; lia. }
  unfold u32_ok in *. rewrite split_app_sep, split_run by (done || (apply Hc; auto with lia)).
  cbn [parse_ids]. by rewrite !parse_u32_fmt_dec.
Qed.

Lemma dopt_given_ok o : dopt_ok o -> given_ok params (dopt_given o).
Proof.
  destruct o as [n|n|u g|]; simpl dopt_ok; intros Ho; unfold given_ok, dopt_given;
    (split; [apply (bool_decide_unpack (long_ok _)); vm_compute; exact I|]).
  1,2: split; [apply fmt_dec_not_nil, Ho|vm_compute; discriminate].
  - split; [|reflexivity]. destruct Ho as [[Hu _] _]. destruct (fmt_dec_cons u Hu) as (c & r & Hf & Hc).
    rewrite Hf. unfold starts_with. cbn [app]. change (B "-") with [45]. cbn [strip_prefix].
    by rewrite (proj2 (Z.eqb_neq _ _)) by lia.
  - reflexivity.
Qed.

Lemma dopt_given_succeeds o : flag_succeeds params_callback (dopt_given o).
Proof. destruct o; simpl; try done. intros s. eexists. reflexivity. Qed.

Lemma dopt_args_ascii o : dopt_ok o -> Forall (Forall ascii_ok) (print_given (dopt_given o)).
Proof.
  assert (forall s l, forallb (fun c => (0 <=? c) && (c <? 128)) s = true -> Forall ascii_ok l ->
    Forall ascii_ok (s ++ l)) as Happ.
  { intros s l Hs Hl. apply Forall_app_2; [|done]. apply Forall_forall. intros c Hc.
    rewrite forallb_forall in Hs. apply list_elem_of_In in Hc. specialize (Hs c Hc). unfold ascii_ok. lia. }
  destruct o as [n|n|u g|]; simpl dopt_ok; intros Ho; cbn [dopt_given print_given].
  1,2: constructor; [|constructor]; rewrite app_assoc; apply Happ; [reflexivity|];
       constructor; [unfold ascii_ok, EQUALS; lia|apply fmt_dec_ascii, Ho].
  - destruct Ho as [[Hu _] [Hg _]]. constructor; [by apply (Happ _ (B "owner")); repeat constructor|].
    constructor; [|constructor]. apply Forall_app_2; [by apply fmt_dec_ascii|].
    constructor; [unfold ascii_ok; lia|by apply fmt_dec_ascii].
  - constructor; [|constructor]. by apply (Happ _ (B "truncate-existing")); repeat constructor.
Qed.

Lemma env_args_utf8 args : Forall (fun a => utf8_valid a = true) args -> env_args args = Some <$> args.
Proof.
  unfold env_args. induction 1 as [|a args Ha _ IH]; [done|]. rewrite !fmap_cons, IH.
  unfold from_utf8. by rewrite Ha.
Qed.

Lemma dopt_call o pa : dopt_ok o ->
  params_callback (fst (given_call (dopt_given o))) (snd (given_call (dopt_given o))) pa
  = (Ok tt, dopt_apply o pa).
Proof.
  unfold params_callback. destruct o as [n|n|u g|]; simpl dopt_ok; intros Ho;
    cbn [dopt_given given_call fst snd]; repeat (rewrite bool_decide_eq_false_2 by done);
    rewrite bool_decide_eq_true_2 by done.
  1,2: unfold parse_value, sbind, slift; cbn [unwrap]; by rewrite parse_u32_fmt_dec.
  - unfold sbind, slift. cbn [unwrap]. destruct Ho. by rewrite parse_owner.
  - done.
Qed.

Lemma run_dopts os pa calls : Forall dopt_ok os ->
  run_calls params_callback ((given_call <$> (dopt_given <$> os)) ++ calls) pa
  = run_calls params_callback calls (fold_left (fun pa o => dopt_apply o pa) os pa).
Proof.
  intros Hos. revert pa. induction Hos as [|o os Ho _ IH]; intros pa; [done|].
  rewrite !fmap_cons. cbn [app run_calls fold_left]. pose proof (dopt_call o pa Ho) as Hc.
  destruct (given_call (dopt_given o)) as [name v]. simpl in Hc. by rewrite (sbind_ok _ _ _ _ _ Hc).
Qed.

Lemma dopts_positional os pa :
  pa_positional (fold_left (fun pa o => dopt_apply o pa) os pa) = pa_positional pa.
Proof. revert pa. induction os as [|o os IH]; intros pa; [done|]. simpl. rewrite IH. by destruct o. Qed.

(** C30. The options of dracut-cpio: printed on a command line before OUTPUT, in any
    number and order, they are read back into the properties they set (the last
    of each kind counts), and OUTPUT is the output path. *)
Theorem dracut_params_roundtrip os out p :
  Forall dopt_ok os -> utf8_valid out = true -> starts_with (B "-") out = false ->
  let pa := fold_left (fun pa o => dopt_apply o pa) os (MkParams p 0 false) in
  params_process p (dopt_args os ++ [out]) = Ok (out, pa_truncate pa, pa_props pa).
Proof.
  intros Hos Hu Hd pa. unfold params_process. rewrite env_args_utf8.
  - unfold dopt_args. rewrite parse_printed.
    + rewrite run_dopts by done. fold pa. unfold positional_calls. cbn [fmap list_fmap run_calls].
      rewrite (sbind_ok _ _ _ tt (MkParams (pa_props pa) (pa_positional pa + 1) (pa_truncate pa))) by done.
      unfold sret. simpl pa_positional. unfold pa at 1. rewrite dopts_positional. simpl.
      by rewrite last_snoc.
    + apply Forall_fmap. eapply Forall_impl; [exact Hos|]. apply dopt_given_ok.
    + apply Forall_fmap, Forall_true. apply dopt_given_succeeds.
    + split; [done|]. vm_compute. discriminate.
  - apply Forall_app_2; [|by repeat constructor]. unfold dopt_args.
    clear pa. induction Hos as [|o os Ho _ IH]; [constructor|]. rewrite !fmap_cons. cbn [concat].
    apply Forall_app_2; [|done]. eapply Forall_impl; [by apply dopt_args_ascii|]. apply utf8_valid_ascii.
Qed.

(** ** Sample runs *)

Lemma dracut_params_roundtrip_witness :
  params_process props_default (dopt_args [OAlign 4096; OOwner 0 10; OTruncate] ++ [B "out"])
  = Ok (B "out", true, MkProps (initial_ino props_default) 4096 (namesize_max props_default)
          (initial_data_off props_default) None (Some 0) (Some 10)).
Proof.
  apply (dracut_params_roundtrip [OAlign 4096; OOwner 0 10; OTruncate] (B "out") props_default).
  - repeat constructor; done.
  - reflexivity.
  - reflexivity.
Defined.

Module DracutRun.
Definition ls : list bytes := B <$> ["ab"; ""; "b/c"; "x"]%string.
Definition run : io Z * Vector :=
  archive_loop sample_host (reader_of (list_text ls)) (MkVector []) props_default.

Lemma stats p md : host_symlink_metadata sample_host p = Ok md -> stat_ok md.
Proof.
  unfold sample_host, files_host, host_symlink_metadata, files_lookup. destruct (_ !! p) as [b|] eqn:Hp; [|done]. intros [= <-].
  apply elem_of_list_to_map_2 in Hp. repeat (apply elem_of_cons in Hp as [[= _ ->]|Hp]);
    [repeat split; vm_compute; discriminate || reflexivity..|by apply elem_of_nil in Hp].
Qed.
End DracutRun.

Lemma dracut_cpio_roundtrip_witness :
  exists qs ents, Forall2 (listed sample_host props_default) (list_names DracutRun.ls) qs /\
    walk collect (S (length qs)) (MkCursor (vec_data (snd DracutRun.run)) 0) [] = Some (Ok tt, ents) /\
    Forall2 (fun q e => exists fname, ent_for q e fname) qs ents.
Proof.
  apply (dracut_cpio_roundtrip sample_host DracutRun.ls props_default (MkVector [])
    (snd DracutRun.run) 512 (MkCursor (vec_data (snd DracutRun.run)) 0) []).
  - exact DracutRun.stats.
  - apply (bool_decide_unpack (Forall list_line_ok _)). vm_compute. exact I.
  - reflexivity.
  - by repeat split.
  - by repeat split.
  - discriminate.
  - repeat constructor; vm_compute; discriminate.
  - reflexivity.
  - vm_compute. reflexivity.
  - vm_compute. reflexivity.
Defined.

Lemma dracut_cpio_no_panic_witness :
  fst (archive_loop (files_host ∅) (reader_of (B "a" ++ [NL])) (MkVector [])
         (MkProps 0 4096 (namesize_max props_default) 512 None None None)) <> Panic.
Proof.
  by apply dracut_cpio_no_panic.
Defined.
