(* ===== verification/Vm.v ===== *)
(** * rapido-vm: starting a virtual machine (src/src/bin/rapido-vm.rs)

    The first free machine number is taken, the resources the initramfs asks for
    are collected from its rapido-rsc paths, and the command line of qemu and of
    the kernel are built from them and from the configuration. Running qemu and
    stty, and the hash function of the standard library, are parameters. *)

From S2P Require Import Prelude RustStr RustWords RustPath RustIo KvConf Cpio CpioWalk Host RapidoLib.

(** ** Process ids *)

Section Running.
Context (host : Host).

Definition vm_is_running (vm_pid_file : path) : io bool :=
  match host_open host vm_pid_file with
  | Err e => if bool_decide (kind e = NotFound) then Ok false else Err e
  | Panic => Panic
  | Ok f =>
      let '(r, _, pid) := read_line f [] in
      let? n := r in
      let pid := trim_end pid in
      if (n <? 1) || (16 <? n) || bool_decide (parse_u64 pid = None)
      then Err (err_from InvalidInput)
      else
        match host_symlink_metadata host (B "/proc/" ++ pid) with
        | Err e => if bool_decide (kind e = NotFound) then Ok false else Err e
        | Ok _ => Ok true
        | Panic => Panic
        end
  end.
End Running.

(** ** Resources *)

Record VmResources := MkRsc { cpus : Z; mem : bytes; net : bool }.

#[export] Instance VmResources_eq_dec : EqDecision VmResources.
Proof. solve_decision. Defined.

Definition is_mem_unit (c : Z) : bool := one_of (B "mMgG") c.

(** the value of rapido-rsc/mem/ *)
Definition mem_value (val : bytes) : io bytes :=
  match from_utf8 val with
  | None => Err (err_from InvalidData)
  | Some s =>
      match rsplit_once is_mem_unit s with
      | None => if bool_decide (is_Some (parse_u64 s)) then Ok s else Err (err_from InvalidData)
      | Some (n, u) =>
          if bool_decide (is_Some (parse_u64 n)) && bool_decide (u = []) then Ok s
          else Err (err_from InvalidData)
      end
  end.

(** the value of rapido-rsc/cpu/ *)
Definition cpu_value (val : bytes) : io Z :=
  match from_utf8 val with
  | None => Err (err_from InvalidData)
  | Some s => ok_or (parse_u32 s) (err_from InvalidData)
  end.

Definition vm_resource_line_process (line : bytes) : SM VmResources io_error bool :=
  match strip_prefix (B "rapido-rsc/cpu/") line with
  | Some val =>
      let* c := slift (cpu_value val) in
      do* smodify (fun rscs => MkRsc c (mem rscs) (net rscs)) ;; sret true
  | None =>
  match strip_prefix (B "rapido-rsc/mem/") line with
  | Some val =>
      let* m := slift (mem_value val) in
      do* smodify (fun rscs => MkRsc (cpus rscs) m (net rscs)) ;; sret true
  | None =>
      if bool_decide (line = B "rapido-rsc/qemu/custom_args") then sret true
      else if bool_decide (line = B "rapido-rsc/net") then
        do* smodify (fun rscs => MkRsc (cpus rscs) (mem rscs) true) ;; sret true
      else if starts_with (B "rapido-rsc") line then sret true
      else sret false
  end
  end.

Definition rsc_defaults : VmResources := MkRsc 2 (B "512M") false.

Section Resources.
Context {R : Type} `{ReadSeekOk R}.

(** the loop over the archive; [None] when [fuel] entries were not enough *)
Fixpoint resources_loop (fuel : nat) (r : R) (in_rapido_rsc_path : bool) (rscs : VmResources) :
    option (io VmResources) :=
  match fuel with
  | O => None
  | S fuel =>
      match next r with
      | (Err e, _) => Some (Err e)
      | (Panic, _) => Some Panic
      | (Ok None, _) => Some (Ok rscs)
      | (Ok (Some ent), r') =>
          match vm_resource_line_process (ent_name ent) rscs with
          | (Err e, _) => Some (Err e)
          | (Panic, _) => Some Panic
          | (Ok true, rscs') => resources_loop fuel r' true rscs'
          | (Ok false, rscs') =>
              if in_rapido_rsc_path then Some (Ok rscs')
              else resources_loop fuel r' false rscs'
          end
      end
  end.

(** an entry takes at least one byte of the archive *)
Definition resources_walk (r : R) : io VmResources :=
  default Panic (resources_loop (S (length (avail r))) r false rsc_defaults).

Definition vm_resources_get (open_img : path -> io R) (initramfs_img : path) : io VmResources :=
  let? r := open_img initramfs_img in
  resources_walk r.
End Resources.

(** ** Kernel and architecture *)

Record QemuArgs := MkQemu {
  qemu_bin : bytes;
  kernel_img : bytes;
  console : bytes;
  qemu_params : list bytes;
}.

(** an architecture: the line of the kernel configuration, the image below the
    kernel sources, the image name of distributions, qemu, console, parameters *)
Record VmArch := MkArch {
  arch_line : bytes;
  arch_relpath : bytes;
  arch_prefix : bytes;
  arch_bin : bytes;
  arch_console : bytes;
  arch_params : list bytes;
}.

Definition vm_archs : list VmArch :=
  [MkArch (B "CONFIG_X86_64=y") (B "arch/x86/boot/bzImage") (B "vmlinuz")
     (B "qemu-system-x86_64") (B "ttyS0") [];
   MkArch (B "CONFIG_ARM64=y") (B "arch/arm64/boot/Image") (B "Image")
     (B "qemu-system-aarch64") (B "ttyAMA0")
     [B "-machine"; B "virt,gic-version=max"; B "-cpu"; B "max"];
   MkArch (B "CONFIG_PPC64=y") (B "arch/powerpc/boot/zimage") (B "vmlinux")
     (B "qemu-system-ppc64") (B "hvc0") [];
   MkArch (B "CONFIG_S390=y") (B "arch/s390/boot/bzImage") (B "bzImage")
     (B "qemu-system-s390x") (B "ttysclp0") []].

Section Qemu.
Context (host : Host).

Fixpoint first_file (ps : list path) : io path :=
  match ps with
  | [] => Err (err_from NotFound)
  | p :: ps => if host_is_file host p then Ok p else first_file ps
  end.

Definition ks_kernel_img (ksrc : option bytes) (ks_relpath host_prefix : bytes)
    (krel : option bytes) : io bytes :=
  match ksrc with
  | Some ((_ :: _) as ks) =>
      let p := ks ++ B "/" ++ ks_relpath in
      if host_is_file host p then Ok p else Err (err_from NotFound)
  | _ =>
      let? krel := unwrap krel in
      first_file [B "/boot/" ++ host_prefix ++ B "-" ++ krel;
                  B "/usr/lib/modules/" ++ krel ++ B "/" ++ host_prefix;
                  B "/boot/vmlinuz-" ++ krel]
  end.

(** the kernel configuration and, without kernel sources, the release *)
Definition vm_kconfig (conf : kvmap) : io (Reader * option bytes) :=
  match conf !! B "KERNEL_SRC" with
  | Some ((_ :: _) as ks) => let? f := host_open host (ks ++ B "/.config") in Ok (f, None)
  | _ =>
      let? krel := match conf !! B "KERNEL_RELEASE" with
                   | Some rel => Ok rel
                   | None => host_kernel_vers host
                   end in
      match host_open host (B "/boot/config-" ++ krel) with
      | Ok f => Ok (f, Some krel)
      | Panic => Panic
      | Err _ => let? f := host_open host (B "/usr/lib/modules/" ++ krel ++ B "/config") in
                 Ok (f, Some krel)
      end
  end.

(** the first line, before any read error, that names an architecture *)
Fixpoint find_arch (ls : list (io bytes)) : option VmArch :=
  match ls with
  | Ok line :: ls =>
      match List.find (fun a => bool_decide (arch_line a = line)) vm_archs with
      | Some a => Some a
      | None => find_arch ls
      end
  | _ => None
  end.

Definition vm_qemu_args_get (conf : kvmap) : io QemuArgs :=
  let? (kconfig_f, krel) := vm_kconfig conf in
  let params := match host_symlink_metadata host (B "/dev/kvm") with
                | Ok md => if is_type (st_mode md) S_IFCHR then [B "-machine"; B "accel=kvm"] else []
                | _ => []
                end in
  match find_arch (lines kconfig_f) with
  | None => Err (err_from Unsupported)
  | Some a =>
      let? img := ks_kernel_img (conf !! B "KERNEL_SRC") (arch_relpath a) (arch_prefix a) krel in
      Ok (MkQemu (arch_bin a) img (arch_console a) (params ++ arch_params a))
  end.
End Qemu.

(** ** Terminal size and MAC addresses *)

Definition is_digit (c : Z) : bool := in_range 48 57 c.

(** [host_stty_size], given what a successful stty printed *)
Definition host_stty_size (stty : option bytes) (kcmdline kparam : bytes) : bytes :=
  match split (fun c => negb (is_digit c)) <$> stty with
  | Some ((_ :: _) as rows :: ((_ :: _) as cols) :: _) => kcmdline ++ kparam ++ rows ++ B "," ++ cols
  | _ => kcmdline
  end.

(** [default_hash vm_num tap] is what the standard library's hasher yields for a
    [u64] and the bytes of a string. *)
Definition vm_mac_gen (default_hash : Z -> bytes -> Z) (vm_num : Z) (vm_tap : bytes) : bytes :=
  let h := default_hash vm_num vm_tap in
  let octet k := fmt_hex 2 (Z.land (Z.shiftr h (8 * k)) 0xff) in
  B "b8:" ++ octet 0 ++ B ":" ++ octet 1 ++ B ":" ++ octet 2 ++ B ":" ++ octet 3 ++ B ":" ++ octet 4.

(** ** The command line *)

Definition IFF_TAP : Z := 0x02.

(** The kernel command line, and the parameters of the network devices. *)
Record NetArgs := MkNet { na_kcmdline : bytes; na_params : list bytes; na_count : Z }.

Section Start.
Context {R : Type} `{ReadSeekOk R} (host : Host) (open_img : path -> io R).
(** the output of stty, if it succeeds; the standard hash *)
Context (stty : option bytes) (default_hash : Z -> bytes -> Z).

(** [fs::read_to_string] *)
Definition read_to_string (p : path) : io bytes :=
  let? b := host_read host p in ok_or (from_utf8 b) (err_from InvalidData).

(** the value of tun_flags: [None] where the entry is skipped *)
Definition tun_flags (vm_tap : bytes) : io (option Z) :=
  let tp := push (push (B "/sys/class/net/") vm_tap) (B "tun_flags") in
  match host_read host tp with
  | Err _ => Ok None
  | Panic => Panic
  | Ok flags =>
      match from_utf8 flags with
      | None => Ok None
      | Some flags_str =>
          match strip_prefix (B "0x") flags_str with
          | None => Err (err_from InvalidData)
          | Some s =>
              match from_str_radix 16 U64_MAX (trim_end s) with
              | None => Err (err_from InvalidData)
              | Some v => Ok (Some v)
              end
          end
      end
  end.

(** the interface a file of the network configuration stands for *)
Definition net_entry_tap (entry : path) : option bytes :=
  match extension entry with
  | Some e => if bool_decide (e = B "network") then file_stem entry ≫= from_utf8 else None
  | None => None
  end.

(** the device of an interface, and its address for the kernel command line *)
Definition add_tap (vm_tap tap_mac : bytes) (na : NetArgs) : NetArgs :=
  let i := fmt_dec (na_count na) in
  MkNet (na_kcmdline na ++ B " rapido.mac." ++ vm_tap ++ B "=" ++ tap_mac)
    (na_params na ++
     [B "-device"; B "virtio-net,netdev=if" ++ i ++ B ",mac=" ++ tap_mac ++ B ",romfile=";
      B "-netdev"; B "tap,id=if" ++ i ++ B ",script=no,downscript=no,ifname=" ++ vm_tap])
    (na_count na + 1).

Definition net_entry (vm_num : Z) (entry : path) : SM NetArgs io_error unit :=
  match net_entry_tap entry with
  | None => sret tt
  | Some vm_tap =>
      let* flags := slift (tun_flags vm_tap) in
      match flags with
      | None => sret tt
      | Some flags_val =>
          if negb (Z.land flags_val IFF_TAP =? IFF_TAP) then sret tt
          else
            smodify (add_tap vm_tap (vm_mac_gen default_hash vm_num vm_tap))
      end
  end.

(** the loop over the entries of the directory *)
Fixpoint net_entries (net_conf_dir : path) (vm_num : Z) (entries : list (io bytes)) : SM NetArgs io_error unit :=
  match entries with
  | [] => sret tt
  | entry :: entries =>
      let* name := slift entry in
      do* net_entry vm_num (push net_conf_dir name) ;; net_entries net_conf_dir vm_num entries
  end.

(** what the command line of the kernel begins with *)
Definition kcmdline_start (con : bytes) (vm_num : Z) : bytes :=
  host_stty_size stty
    (B "rdinit=/rdinit console=" ++ con ++ B " rapido.vm_num=" ++ fmt_dec vm_num ++
     B " systemd.machine_id=" ++ fmt_hex 32 vm_num)
    (B " rapido.stty=").

(** the hostname from the network configuration, if it has one *)
Definition kcmdline_hostname (net_conf_dir : path) (kcmdline : bytes) : io bytes :=
  match read_to_string (net_conf_dir ++ B "/hostname") with
  | Err e => if bool_decide (kind e = NotFound) then Ok kcmdline else Err e
  | Ok hn => Ok (kcmdline ++ B " rapido.hostname=" ++ trim_end hn)
  | Panic => Panic
  end.

Definition kcmdline_net (net_conf_dir : path) (vm_num : Z) (rscs : VmResources) (kcmdline : bytes) :
    io NetArgs :=
  if net rscs then
    let? entries := host_dir_entries host net_conf_dir in
    let '(r, na) := net_entries net_conf_dir vm_num entries
                      (MkNet (kcmdline ++ B " net.ifnames=0") [] 0) in
    let? _ := r in Ok na
  else Ok (MkNet kcmdline [] 0).

Definition kcmdline_extra (conf : kvmap) (kcmdline : bytes) : bytes :=
  match conf !! B "QEMU_EXTRA_KERNEL_PARAMS" with
  | Some kp => kcmdline ++ B " " ++ kp
  | None => kcmdline
  end.

Definition is_arg_sep (c : Z) : bool := one_of (B " " ++ [NL]) c.

(** the parameters of qemu up to the kernel command line *)
Definition vm_params_machine (q : QemuArgs) (rscs : VmResources) (initramfs_img vm_pid_file : path) :
    list bytes :=
  qemu_params q ++
  [B "-smp"; fmt_dec (cpus rscs) ++ B ",sockets=" ++ fmt_dec (cpus rscs) ++ B ",cores=1,threads=1";
   B "-m"; mem rscs; B "-kernel"; kernel_img q; B "-initrd"; initramfs_img;
   B "-pidfile"; vm_pid_file] ++
  (if net rscs then [] else [B "-net"; B "none"]).

(** the parameters of qemu from the configuration *)
Definition vm_params_conf (conf : kvmap) : list bytes :=
  match conf !! B "VIRTFS_SHARE_PATH" with
  | Some vsp =>
      [B "-virtfs"; B "local,path=" ++ vsp ++ B ",mount_tag=host0,security_model=mapped,id=host0"]
  | None => []
  end ++
  match conf !! B "QEMU_EXTRA_ARGS" with
  | Some qea => split is_arg_sep qea
  | None => []
  end.

(** the parameters of qemu, before those of the network devices *)
Definition vm_params (q : QemuArgs) (rscs : VmResources) (initramfs_img vm_pid_file : path)
    (kcmdline : bytes) (conf : kvmap) : list bytes :=
  vm_params_machine q rscs initramfs_img vm_pid_file ++ [B "-append"; kcmdline] ++ vm_params_conf conf.

(** The command [vm_start] runs: the program and its arguments. *)
Definition vm_command (vm_num : Z) (vm_pid_file initramfs_img : path) (conf : kvmap) :
    io (bytes * list bytes) :=
  let? q := vm_qemu_args_get host conf in
  let kcmdline := kcmdline_start (console q) vm_num in
  let? dir := unwrap (conf !! B "VM_NET_CONF") in
  let net_conf_dir := dir ++ B "/vm" ++ fmt_dec vm_num in
  let? kcmdline := kcmdline_hostname net_conf_dir kcmdline in
  let? rscs := vm_resources_get open_img initramfs_img in
  let? na := kcmdline_net net_conf_dir vm_num rscs kcmdline in
  let kcmdline := kcmdline_extra conf (na_kcmdline na) in
  Ok (qemu_bin q, vm_params q rscs initramfs_img vm_pid_file kcmdline conf ++ na_params na).

(** Running a command: it may not start ([Err]), be lost while it runs, or end
    with success or failure. *)
Context (spawn : bytes -> list bytes -> io (io bool)).

Definition vm_start (vm_num : Z) (vm_pid_file initramfs_img : path) (conf : kvmap) : io unit :=
  let? (bin, args) := vm_command vm_num vm_pid_file initramfs_img conf in
  let? status := spawn bin args in
  match status with
  | Err _ => Err (err_from BrokenPipe)
  | Ok _ => Ok tt
  | Panic => Panic
  end.

Definition pid_file (pid_dir : path) (vm_num : Z) : path :=
  pid_dir ++ B "/rapido_vm" ++ fmt_dec vm_num ++ B ".pid".

(** the loop of [main] over [count] numbers from [vm_num] *)
Fixpoint start_first_free (count : nat) (vm_num : Z) (pid_dir initramfs_img : path) (conf : kvmap) :
    io unit :=
  match count with
  | O => Ok tt
  | S count =>
      let? running := vm_is_running host (pid_file pid_dir vm_num) in
      if negb running then vm_start vm_num (pid_file pid_dir vm_num) initramfs_img conf
      else start_first_free count (vm_num + 1) pid_dir initramfs_img conf
  end.

(** the configuration: rapido.conf over the defaults *)
Definition vm_conf : io kvmap :=
  match host_rapido_conf_open host RAPIDO_CONF_PATH with
  | Err e => if bool_decide (kind e = NotFound) then Ok conf_defaults else Err e
  | Panic => Panic
  | Ok (f, _) =>
      match kv_conf_process_append f conf_defaults with
      | (Ok _, conf) => Ok conf
      | (Err e, _) => Err e
      | (Panic, _) => Panic
      end
  end.

Definition vm_main : io unit :=
  let? conf := vm_conf in
  let? pid_dir := unwrap (conf !! B "QEMU_PID_DIR") in
  let? initramfs_img := unwrap (conf !! B "DRACUT_OUT") in
  start_first_free 999 1 pid_dir initramfs_img conf.
End Start.
