(* ===== verification/Init.v ===== *)
(** * rapido-init: the init process (src/src/bin/rapido-init.rs)

    It reads its settings from the kernel command line and from rapido.conf,
    prepares the system and runs systemd or a shell. What it does to the system
    is a sequence of actions whose outcomes are a parameter. *)

From S2P Require Import Prelude RustStr RustPath RustIo KvConf Cpio Host RapidoLib.

Definition RAPIDO_CONF : bytes := B "/rapido.conf".
Definition SYSTEMD_BIN_PATH : bytes := B "/usr/lib/systemd/systemd".

(** ** The kernel command line *)

Record KcliArgs := MkKcli {
  rapido_hostname : option bytes;
  rapido_vm_num : option bytes;
  rapido_tap_mac : option (gmap bytes bytes);
  stty_rc : option bytes;
  systemd_machine_id : option bytes;
  kcli_console : option bytes;
}.

Definition kcli_empty : KcliArgs := MkKcli None None None None None None.

Definition is_kcli_sep (c : Z) : bool := one_of (B " " ++ [NL]) c.

(** [str::from_utf8(val)] or an error *)
Definition kcli_str (val : bytes) : io bytes := ok_or (from_utf8 val) (err_from InvalidData).

Definition is_equals (c : Z) : bool := c =? 61.
Definition is_comma (c : Z) : bool := c =? 44.

(** rapido.mac.<tap>=<mac> *)
Definition kcli_mac (tap_mac_kv : bytes) : io (bytes * bytes) :=
  let? s := kcli_str tap_mac_kv in
  ok_or (split_once is_equals s) (err_from InvalidData).

(** rapido.stty=<rows>,<cols> *)
Definition kcli_stty (rows_cols : bytes) : io bytes :=
  let? rs_cs := kcli_str rows_cols in
  match split_once is_comma rs_cs with
  | None => Err (err_from InvalidData)
  | Some (r, c) =>
      if bool_decide (parse_u32 r = None) || bool_decide (parse_u32 c = None)
      then Err (err_from InvalidData) else Ok rs_cs
  end.

(** the match on one word, by its prefix *)
Definition kcli_word (w : bytes) (a : KcliArgs) : io KcliArgs :=
  match strip_prefix (B "rapido.hostname=") w with
  | Some val =>
      let? s := kcli_str val in
      Ok (MkKcli (Some s) (rapido_vm_num a) (rapido_tap_mac a) (stty_rc a) (systemd_machine_id a)
            (kcli_console a))
  | None =>
  match strip_prefix (B "rapido.vm_num=") w with
  | Some val =>
      let? s := kcli_str val in
      Ok (MkKcli (rapido_hostname a) (Some s) (rapido_tap_mac a) (stty_rc a) (systemd_machine_id a)
            (kcli_console a))
  | None =>
  match strip_prefix (B "rapido.mac.") w with
  | Some tap_mac_kv =>
      let? (tap, mac) := kcli_mac tap_mac_kv in
      Ok (MkKcli (rapido_hostname a) (rapido_vm_num a)
            (Some (<[tap := mac]> (default ∅ (rapido_tap_mac a)))) (stty_rc a) (systemd_machine_id a)
            (kcli_console a))
  | None =>
  match strip_prefix (B "rapido.stty=") w with
  | Some rows_cols =>
      let? s := kcli_stty rows_cols in
      Ok (MkKcli (rapido_hostname a) (rapido_vm_num a) (rapido_tap_mac a) (Some s)
            (systemd_machine_id a) (kcli_console a))
  | None =>
  match strip_prefix (B "systemd.machine_id=") w with
  | Some val =>
      let? s := kcli_str val in
      Ok (MkKcli (rapido_hostname a) (rapido_vm_num a) (rapido_tap_mac a) (stty_rc a) (Some s)
            (kcli_console a))
  | None =>
  match strip_prefix (B "console=") w with
  | Some val =>
      let? s := kcli_str val in
      Ok (MkKcli (rapido_hostname a) (rapido_vm_num a) (rapido_tap_mac a) (stty_rc a)
            (systemd_machine_id a) (Some s))
  | None => Ok a
  end end end end end end.

Fixpoint kcli_words (ws : list bytes) (a : KcliArgs) : io KcliArgs :=
  match ws with
  | [] => Ok a
  | w :: ws => let? a := kcli_word w a in kcli_words ws a
  end.

Definition kcli_parse (kcmdline : bytes) : io KcliArgs :=
  kcli_words (split is_kcli_sep kcmdline) kcli_empty.

(** ** Actions *)

(** What init asks of the system. *)
Inductive action :=
  | CreateDirAll (p : path)
  | Run (prog : bytes) (args : list bytes) (envs : list (bytes * bytes))
  | Symlink (original link : path)
  | WriteFile (p : path) (b : bytes)
  | AppendFile (p : path) (create : bool) (b : bytes)
  | Exec (prog : bytes) (envs : list (bytes * bytes))
  | Sleep (secs : Z).

#[export] Instance action_eq_dec : EqDecision action.
Proof. solve_decision. Defined.

(** What came of it: [Done success] when the action was carried out (for a
    command, whether it ended with success), [NotStarted e] when the command did
    not start or the file was not opened, [Lost e] when a started command, or a
    write to an opened file, failed. *)
Inductive outcome := Done (success : bool) | NotStarted (e : io_error) | Lost (e : io_error).

Section Init.
(** the outcome of an action, given the ones before it, the latest first *)
Context (perform : list action -> action -> outcome).
(** the files of the virtual machine, as they are when they are read *)
Context (host : Host).

(** A computation over the actions so far. *)
Definition Init (A : Type) : Type := SM (list action) io_error A.

Definition act (a : action) : Init outcome := fun s => (Ok (perform s a), a :: s).

(** an action of the standard library: [?] on its error *)
Definition act_io (a : action) : Init unit :=
  let* o := act a in
  match o with Done _ => sret tt | NotStarted e | Lost e => sfail e end.

(** [Command::status().expect(..)]: whether the command succeeded *)
Definition status_expect (prog : bytes) (args : list bytes) : Init bool :=
  let* o := act (Run prog args []) in
  match o with Done b => sret b | NotStarted _ | Lost _ => spanic end.

(** ... and an error unless it did *)
Definition status_or_fail (prog : bytes) (args : list bytes) : Init unit :=
  let* ok := status_expect prog args in
  if ok : bool then sret tt else sfail (err_from BrokenPipe).

Definition init_mounts : list (list bytes) :=
  [B <$> ["-t"; "proc"; "-o"; "nosuid,noexec,nodev"; "proc"; "/proc"];
   B <$> ["-t"; "sysfs"; "-o"; "nosuid,noexec,nodev"; "sysfs"; "/sys"];
   B <$> ["-t"; "devtmpfs"; "-o"; "nosuid,noexec"; "devtmpfs"; "/dev"];
   B <$> ["-t"; "devpts"; "-o"; "nosuid,noexec"; "devpts"; "/dev/pts"];
   B <$> ["-t"; "tmpfs"; "-o"; "noexec,nosuid,nodev"; "tmpfs"; "/tmp"]]%string.

Fixpoint mount_all (mounts : list (list bytes)) : Init unit :=
  match mounts with
  | [] => sret tt
  | mount_args :: mounts =>
      let* p := slift (unwrap (last mount_args)) in
      do* act_io (CreateDirAll p) ;;
      do* status_or_fail (B "mount") mount_args ;;
      mount_all mounts
  end.

Definition init_mount (do_debugfs : bool) : Init unit :=
  do* mount_all init_mounts ;;
  do* (if do_debugfs then
         do* status_expect (B "mount")
           (B <$> ["-t"; "debugfs"; "debugfs"; "/sys/kernel/debug/"]%string) ;; sret tt
       else sret tt) ;;
  do* act (Symlink (B "/proc/self/fd") (B "/dev/fd")) ;;
  sret tt.

Definition kmods_load (kmods : list bytes) : Init unit :=
  match kmods with
  | [] => sret tt
  | _ =>
      let* o := act (Run (B "modprobe") (B "-a" :: kmods)
                       [(B "PATH", B "/usr/sbin:/usr/bin:/sbin:/bin")]) in
      match o with Done true => sret tt | _ => sfail (err_from BrokenPipe) end
  end.

Definition init_hostname (kcli_args : KcliArgs) : Init bytes :=
  let* hostname :=
    match rapido_hostname kcli_args with
    | None => let* n := slift (unwrap (rapido_vm_num kcli_args)) in sret (B "rapido" ++ n)
    | Some hd =>
        match split_once (fun c => c =? 46) hd with
        | Some (h, d) => do* act_io (WriteFile (B "/proc/sys/kernel/domainname") d) ;; sret h
        | None => sret hd
        end
    end in
  do* act_io (WriteFile (B "/proc/sys/kernel/hostname") hostname) ;;
  sret hostname.

(** the MAC addresses; the order of a hash map is the argument's *)
Fixpoint append_macs (vm_netdir : path) (macs : list (bytes * bytes)) : Init unit :=
  match macs with
  | [] => sret tt
  | (tap, mac) :: macs =>
      let* o := act (AppendFile (vm_netdir ++ B "/" ++ tap ++ B ".network") false
                       ([NL] ++ B "[Match]" ++ [NL] ++ B "MACAddress=" ++ mac)) in
      do* match o with Lost e => sfail e | _ => sret tt end ;;
      append_macs vm_netdir macs
  end.

Definition init_net_conf (kcli_args : KcliArgs) : Init unit :=
  let* n := slift (unwrap (rapido_vm_num kcli_args)) in
  let vm_netdir := B "/rapido-rsc/net/vm" ++ n in
  do* act_io (Symlink vm_netdir (B "/etc/systemd/network")) ;;
  do* match rapido_tap_mac kcli_args with
      | Some map => append_macs vm_netdir (map_to_list map)
      | None => sret tt
      end ;;
  do* act_io (AppendFile (B "/etc/systemd/network/lo.network") true
                (B "[Match]" ++ [NL] ++ B "Name=lo")) ;;
  act_io (AppendFile (B "/etc/passwd") true
    (B "systemd-network:x:482:482:systemd Network Management:/:/sbin/nologin" ++ [NL])).

Definition init_net_service (machine_id : option bytes) : Init unit :=
  do* match machine_id with
      | None => sfail (err_from InvalidInput)
      | Some mid => act_io (WriteFile (B "/etc/machine-id") mid)
      end ;;
  do* status_or_fail (B "/usr/lib/systemd/systemd-udevd") [B "--daemon"] ;;
  let* names := slift (host_read_dir host (B "/sys/class/net/")) in
  do* status_or_fail (B "udevadm") (B "trigger" :: (push (B "/sys/class/net/") <$> names)) ;;
  do* status_or_fail (B "setsid") [B "--fork"; B "/usr/lib/systemd/systemd-networkd"] ;;
  status_or_fail (B "/usr/lib/systemd/systemd-networkd-wait-online") [B "--timeout=20"].

(** exec only returns on failure *)
Definition init_exec_systemd (envs : list (bytes * bytes)) : Init unit :=
  let* o := act (Exec SYSTEMD_BIN_PATH ((B "DRACUT_SYSTEMD", B "1") :: envs)) in
  spanic.

Definition init_shell (envs : list (bytes * bytes)) : Init unit :=
  let* o := act (Run (B "setsid")
                   (B <$> ["--ctty"; "--"; "bash"; "--rcfile"; "/rapido.rc"; "-i"]%string) envs) in
  match o with
  | NotStarted _ => spanic
  | Lost _ => sfail (err_from BrokenPipe)
  | Done _ => sret tt
  end.

Definition init_shutdown : Init unit :=
  do* act_io (WriteFile (B "/proc/sys/kernel/sysrq") (B "1" ++ [NL])) ;;
  do* act_io (WriteFile (B "/proc/sysrq-trigger") (B "o" ++ [NL])) ;;
  do* act (Sleep 20) ;; sret tt.

Definition is_dir_at (p : path) : bool :=
  match host_symlink_metadata host p with Ok md => is_type (st_mode md) S_IFDIR | _ => false end.

Definition init_envs (hostname : bytes) (kcli_args : KcliArgs) : list (bytes * bytes) :=
  [(B "HOSTNAME", hostname); (B "PATH", B "/usr/sbin:/usr/bin:/sbin:/bin");
   (B "PS1", hostname ++ B ":${PWD}# "); (B "RAPIDO_INIT", B "0.1");
   (B "STTY_RC", default [] (stty_rc kcli_args)); (B "TERM", B "linux")].

Definition init_main : Init unit :=
  let* f := slift (host_open host RAPIDO_CONF) in
  let* conf := slift (kv_conf_process f) in
  let has_net := is_dir_at (B "/rapido-rsc/net") in
  let has_dyn_debug := bool_decide (is_Some (conf !! B "DYN_DEBUG_MODULES")) ||
                       bool_decide (is_Some (conf !! B "DYN_DEBUG_FILES")) in
  let has_virtfs := bool_decide (is_Some (conf !! B "VIRTFS_SHARE_PATH")) in
  let has_systemd := match host_symlink_metadata host SYSTEMD_BIN_PATH with
                     | Ok md => negb (is_type (st_mode md) S_IFDIR) | _ => false end in
  do* init_mount has_dyn_debug ;;
  do* kmods_load (conf_kmod_deps conf ++
        if has_net then [B "virtio_net"; B "af_packet"] else []) ;;
  do* (if has_virtfs then
         do* act_io (CreateDirAll (B "/host")) ;;
         do* status_expect (B "mount") (B <$> ["-t"; "9p"; "host0"; "/host"]%string) ;; sret tt
       else sret tt) ;;
  let* kcmdline := slift (host_read host (B "/proc/cmdline")) in
  let* kcli_args := slift (kcli_parse kcmdline) in
  match rapido_vm_num kcli_args with
  | None => sfail (err_from InvalidInput)
  | Some _ =>
      let* hostname := init_hostname kcli_args in
      do* (if has_net then init_net_conf kcli_args else sret tt) ;;
      let envs := init_envs hostname kcli_args in
      if has_systemd then init_exec_systemd envs
      else
        do* (if has_net then init_net_service (systemd_machine_id kcli_args) else sret tt) ;;
        init_shell envs
  end.

(** [main]: errors are reported, and the machine is shut down *)
Definition main : Init unit :=
  do* stry init_main ;;
  do* stry init_shutdown ;;
  sret tt.
End Init.
