(* ===== verification/InitSpec.v ===== *)
(** * What rapido-init promises

    Init is the first process: it must not end. The theorems say that whatever
    the system answers, it asks for the power to be cut or panics at a command
    that could not be run, and that the shell is only started on a machine that
    was set up. *)

From S2P Require Import Prelude RustStr RustWords RustPath RustIo KvConf Cpio Host RapidoLib Init.

Section Trace.
Context (perform : list action -> action -> outcome) (host : Host).
Implicit Types (s tr : list action) (a : action).

(** ** Where a computation may panic *)

(** The last action is a command that was not carried out, or an exec. *)
Definition stuck (s : list action) : Prop :=
  exists a s', s = a :: s' /\
    match a with
    | Exec _ _ => True
    | Run _ _ _ => forall b, perform s' a <> Done b
    | _ => False
    end.

Definition panic_stuck {A} (c : Init A) : Prop := forall s, fst (c s) = Panic -> stuck (snd (c s)).

Lemma ps_ret {A} (x : A) : panic_stuck (sret x).
Proof using. by intros s. Qed.
Lemma ps_fail {A} e : panic_stuck (@sfail _ _ A e).
Proof using. by intros s. Qed.
Lemma ps_lift {A} (r : io A) : r <> Panic -> panic_stuck (slift r).
Proof using. by intros Hr s. Qed.

Lemma ps_bind {A C} (c : Init A) (f : A -> Init C) :
  panic_stuck c -> (forall x, panic_stuck (f x)) -> panic_stuck (sbind c f).
Proof using.
  intros Hc Hf s. specialize (Hc s). unfold sbind. destruct (c s) as [[x|e|] s']; [apply Hf|done|].
  intros _. by apply Hc.
Qed.

Lemma ps_try {A} (c : Init A) : panic_stuck c -> panic_stuck (@stry _ _ io_error _ c).
Proof using. intros Hc s. specialize (Hc s). unfold stry. destruct (c s) as [[x|e|] s']; [done|done|].
  intros _. by apply Hc. Qed.

Lemma ps_act a : panic_stuck (act perform a).
Proof using. by intros s. Qed.

Lemma ps_act_io a : panic_stuck (act_io perform a).
Proof using. apply ps_bind; [apply ps_act|]. intros [b|e|e]; [apply ps_ret|apply ps_fail..]. Qed.

Lemma ps_status prog args : panic_stuck (status_expect perform prog args).
Proof using.
  intros s. unfold status_expect, sbind, act. destruct (perform s (Run prog args [])) as [b|e|e] eqn:Hp; [done|..];
    (intros _; eexists _, s; split; [done|]; simpl; congruence).
Qed.

Lemma ps_status_or_fail prog args : panic_stuck (status_or_fail perform prog args).
Proof using. apply ps_bind; [apply ps_status|]. intros []; [apply ps_ret|apply ps_fail]. Qed.

Lemma ps_mount_all mounts : Forall (fun m => m <> []) mounts -> panic_stuck (mount_all perform mounts).
Proof using.
  intros Hm. induction Hm as [|m mounts Hm _ IH]; [apply ps_ret|]. cbn [mount_all]. apply ps_bind.
  - apply ps_lift. destruct (last m) eqn:Hl; [done|]. by apply last_None in Hl.
  - intros p. apply ps_bind; [apply ps_act_io|]. intros _. apply ps_bind; [apply ps_status_or_fail|done].
Qed.
End Trace.

#[export] Hint Resolve ps_ret ps_fail ps_act ps_act_io ps_status ps_status_or_fail : rapido.

(** Walk down a sequence of steps that do not panic of themselves. *)
Ltac ps :=
  repeat first
    [ progress auto with rapido
    | match goal with
      | |- panic_stuck _ (sbind _ _) => apply ps_bind; [|let x := fresh "x" in intros x]
      | |- panic_stuck _ (if ?b then _ else _) => destruct b
      | |- panic_stuck _ (match ?o with Done _ => _ | _ => _ end) => destruct o as [[]|?|?]
      end ].

Section Panics.
Context (perform : list action -> action -> outcome) (host : Host) (Hhost : host_total host).

Lemma ps_init_mount debugfs : panic_stuck perform (init_mount perform debugfs).
Proof using. unfold init_mount. ps. apply ps_mount_all. by repeat constructor. Qed.

Lemma ps_kmods_load kmods : panic_stuck perform (kmods_load perform kmods).
Proof using. unfold kmods_load. destruct kmods; ps. Qed.

Lemma ps_hostname ka : is_Some (rapido_vm_num ka) -> panic_stuck perform (init_hostname perform ka).
Proof using.
  intros [n Hn]. unfold init_hostname. rewrite Hn. destruct (rapido_hostname ka) as [hd|]; ps;
    [by destruct (split_once _ hd) as [[]|]; ps|by apply ps_lift].
Qed.

Lemma ps_append_macs dir macs : panic_stuck perform (append_macs perform dir macs).
Proof using. induction macs as [|[tap mac] macs IH]; cbn [append_macs]; ps. Qed.

Lemma ps_net_conf ka : is_Some (rapido_vm_num ka) -> panic_stuck perform (init_net_conf perform ka).
Proof using.
  intros [n Hn]. unfold init_net_conf. rewrite Hn. ps; [by apply ps_lift|].
  destruct (rapido_tap_mac ka); ps. apply ps_append_macs.
Qed.

Lemma ps_net_service mid : panic_stuck perform (init_net_service perform host mid).
Proof using Hhost. unfold init_net_service. ps; [destruct mid; ps|apply ps_lift, ht_read_dir, Hhost]. Qed.

Lemma ps_exec_systemd envs : panic_stuck perform (init_exec_systemd perform envs).
Proof using. intros s _. unfold init_exec_systemd, sbind, act, spanic. by eexists _, s. Qed.

Lemma ps_shell envs : panic_stuck perform (init_shell perform envs).
Proof using.
  intros s. unfold init_shell, sbind, act. set (a := Run _ _ _).
  destruct (perform s a) as [b|e|e] eqn:Hp; [done| |done]. intros _. exists a, s. split; [done|]. simpl. congruence.
Qed.

Lemma kcli_str_no_panic v : kcli_str v <> Panic.
Proof using. unfold kcli_str. by destruct (from_utf8 v). Qed.

Lemma kcli_word_no_panic w ka : kcli_word w ka <> Panic.
Proof using.
  assert (forall v (f : bytes -> KcliArgs), (let? x := kcli_str v in Ok (f x)) <> Panic) as Hs.
  { intros v f. pose proof (kcli_str_no_panic v). by destruct (kcli_str v). }
  unfold kcli_word. destruct (strip_prefix _ w) as [v|]; [apply Hs|]. destruct (strip_prefix _ w) as [v|]; [apply Hs|].
  destruct (strip_prefix _ w) as [v|].
  { unfold kcli_mac. pose proof (kcli_str_no_panic v). destruct (kcli_str v) as [x|e|]; cbn [rbind]; [|done..].
    by destruct (split_once _ x) as [[]|]. }
  destruct (strip_prefix _ w) as [v|].
  { unfold kcli_stty. pose proof (kcli_str_no_panic v). destruct (kcli_str v) as [x|e|]; cbn [rbind]; [|done..].
    destruct (split_once _ x) as [[]|]; [|done]. by destruct (_ || _). }
  destruct (strip_prefix _ w) as [v|]; [apply Hs|]. destruct (strip_prefix _ w) as [v|]; [apply Hs|done].
Qed.

Lemma kcli_parse_no_panic line : kcli_parse line <> Panic.
Proof using.
  unfold kcli_parse. generalize kcli_empty. induction (split is_kcli_sep line) as [|w ws IH]; intros ka; [done|].
  simpl. pose proof (kcli_word_no_panic w ka). destruct (kcli_word w ka); cbn [rbind]; [apply IH|done..].
Qed.

Lemma kv_conf_no_panic rdr : kv_conf_process rdr <> Panic.
Proof using.
  unfold kv_conf_process. destruct (kv_append_loop rdr ∅) as (r & m & _ & -> & Hr). by destruct r.
Qed.

Lemma ps_init_main : panic_stuck perform (init_main perform host).
Proof using Hhost.
  unfold init_main. cbv zeta. apply ps_bind; [apply ps_lift, ht_open, Hhost|intros f].
  apply ps_bind; [apply ps_lift, kv_conf_no_panic|intros conf].
  apply ps_bind; [apply ps_init_mount|intros _]. apply ps_bind; [apply ps_kmods_load|intros _].
  apply ps_bind; [by ps|intros _].
  apply ps_bind; [apply ps_lift, host_read_total, Hhost|intros cmdline].
  apply ps_bind; [apply ps_lift, kcli_parse_no_panic|intros ka].
  destruct (rapido_vm_num ka) as [n|] eqn:Hn; [|by ps].
  apply ps_bind; [apply ps_hostname; by rewrite Hn|intros h].
  apply ps_bind; [|intros _; destruct (match host_symlink_metadata _ _ with Ok _ => _ | _ => _ end)].
  - destruct (is_dir_at _ _); [|by ps]. apply ps_net_conf. by rewrite Hn.
  - apply ps_exec_systemd.
  - apply ps_bind; [|intros _; apply ps_shell]. destruct (is_dir_at _ _); [apply ps_net_service|by ps].
Qed.

(** ** The end *)

(** What init asks for at the end, after the actions [s]. *)
Definition power_off (s : list action) : list action :=
  let sysrq := WriteFile (B "/proc/sys/kernel/sysrq") (B "1" ++ [NL]) in
  let trigger := WriteFile (B "/proc/sysrq-trigger") (B "o" ++ [NL]) in
  match perform s sysrq with
  | Done _ =>
      match perform (sysrq :: s) trigger with
      | Done _ => Sleep 20 :: trigger :: sysrq :: s
      | _ => trigger :: sysrq :: s
      end
  | _ => sysrq :: s
  end.

(** C17. Init never just ends: whatever its files hold and whatever the system
    answers, it either comes to switch the machine off (it writes the two sysrq
    files, the second if the first could be written, and waits), reporting
    success, or it panics right after a command that could not be run or after
    the exec of systemd, which returns only if it failed. Errors on the way end
    the boot, not init. *)
Theorem init_powers_off s :
  match main perform host s with
  | (Ok _, s') => s' = power_off (snd (init_main perform host s)) /\ fst (init_main perform host s) <> Panic
  | (Err _, _) => False
  | (Panic, s') => s' = snd (init_main perform host s) /\ stuck perform s'
  end.
Proof using Hhost.
  pose proof (ps_init_main s) as Hp. unfold main, sbind at 1, stry at 1.
  assert (forall s0, sbind (@stry _ _ io_error _ (init_shutdown perform)) (fun _ => sret tt) s0 = (Ok tt, power_off s0)) as Hs.
  { intros s0. unfold init_shutdown, act_io, act, power_off, sbind, stry, sret, sfail.
    destruct (perform s0 _); [|done..]. by destruct (perform (_ :: s0) _). }
  destruct (init_main perform host s) as [[x|e|] s']; cbn [fst snd] in *; rewrite ?Hs; [done..|].
  split; [done|]. by apply Hp.
Qed.
End Panics.

(** ** Before the shell *)

Definition shell_args : list bytes :=
  B <$> ["--ctty"; "--"; "bash"; "--rcfile"; "/rapido.rc"; "-i"]%string.
Definition shell (envs : list (bytes * bytes)) : action := Run (B "setsid") shell_args envs.
Definition not_shell (a : action) : Prop :=
  match a with Run _ args _ => args <> shell_args | _ => True end.

#[export] Instance not_shell_dec a : Decision (not_shell a).
Proof. destruct a; apply _. Defined.

Section Order.
Context (perform : list action -> action -> outcome) (host : Host).
Implicit Types (s tr : list action) (a : action).

(** A computation that only adds actions, none of them the shell. *)
Definition quiet {A} (c : Init A) : Prop :=
  forall s, exists tr, snd (c s) = tr ++ s /\ Forall not_shell tr.

Lemma quiet_ret {A} (r : io A) : quiet (slift r).
Proof using. intros s. by exists []. Qed.
Lemma iquiet_sret {A} (x : A) : quiet (sret x).
Proof using. apply (quiet_ret (Ok x)). Qed.
Lemma iquiet_sfail {A} e : quiet (@sfail _ _ A e).
Proof using. apply (quiet_ret (Err e)). Qed.
Lemma iquiet_spanic {A} : quiet (@spanic _ _ A).
Proof using. apply (quiet_ret Panic). Qed.

Lemma iquiet_bind {A C} (c : Init A) (f : A -> Init C) : quiet c -> (forall x, quiet (f x)) -> quiet (sbind c f).
Proof using.
  intros Hc Hf s. destruct (Hc s) as (tr & Heq & Htr). unfold sbind.
  destruct (c s) as [[x|e|] s1]; cbn [snd] in Heq; subst s1; [|by exists tr..].
  destruct (Hf x (tr ++ s)) as (tr' & -> & Htr'). exists (tr' ++ tr). rewrite app_assoc. split; [done|].
  by apply Forall_app_2.
Qed.

Lemma quiet_try {A} (c : Init A) : quiet c -> quiet (@stry _ _ io_error _ c).
Proof using. intros Hc s. specialize (Hc s). unfold stry. by destruct (c s) as [[x|e|] s']. Qed.

Lemma quiet_act a : not_shell a -> quiet (act perform a).
Proof using. intros Ha s. exists [a]. by split; [|apply Forall_singleton]. Qed.

Lemma quiet_act_io a : not_shell a -> quiet (act_io perform a).
Proof using.
  intros Ha. apply iquiet_bind; [by apply quiet_act|]. intros [b|e|e]; [apply iquiet_sret|apply iquiet_sfail..].
Qed.

Lemma quiet_status prog args : args <> shell_args -> quiet (status_expect perform prog args).
Proof using.
  intros Ha. apply iquiet_bind; [by apply quiet_act|]. intros [b|e|e]; [apply iquiet_sret|apply iquiet_spanic..].
Qed.

Lemma quiet_status_or_fail prog args : args <> shell_args -> quiet (status_or_fail perform prog args).
Proof using.
  intros Ha. apply iquiet_bind; [by apply quiet_status|]. intros []; [apply iquiet_sret|apply iquiet_sfail].
Qed.
End Order.

#[export] Hint Resolve quiet_ret iquiet_sret iquiet_sfail iquiet_spanic : rapido.

Ltac quiet_step :=
  repeat first
    [ progress auto with rapido
    | match goal with
      | |- quiet (sbind _ _) => apply iquiet_bind; [|let x := fresh "x" in intros x]
      | |- quiet (act _ _) => apply quiet_act; by apply (bool_decide_unpack (not_shell _)); vm_compute
      | |- quiet (act_io _ _) => apply quiet_act_io; exact I
      | |- quiet (status_expect _ _ _) =>
          apply quiet_status; apply (bool_decide_unpack (_ <> _)); vm_compute; exact I
      | |- quiet (status_or_fail _ _ _) =>
          apply quiet_status_or_fail; apply (bool_decide_unpack (_ <> _)); vm_compute; exact I
      | |- quiet (if ?b then _ else _) => destruct b
      | |- quiet (match ?o with Done _ => _ | _ => _ end) => destruct o as [[]|?|?]
      end ].

Section Setup.
Context (perform : list action -> action -> outcome) (host : Host).
Implicit Types (s tr : list action) (a : action).

Lemma quiet_mount_all mounts : Forall (fun m => m <> shell_args) mounts -> quiet (mount_all perform mounts).
Proof using.
  intros Hm. induction Hm as [|m mounts Hm _ IH]; cbn [mount_all]; quiet_step. by apply quiet_status_or_fail.
Qed.

Lemma quiet_init_mount debugfs : quiet (init_mount perform debugfs).
Proof using.
  unfold init_mount. quiet_step. apply quiet_mount_all.
  apply (bool_decide_unpack (Forall _ _)). vm_compute. exact I.
Qed.

Lemma quiet_kmods_load kmods : quiet (kmods_load perform kmods).
Proof using. unfold kmods_load. destruct kmods as [|k ks]; quiet_step. Qed.

Lemma quiet_hostname ka : quiet (init_hostname perform ka).
Proof using.
  unfold init_hostname. quiet_step. destruct (rapido_hostname ka) as [hd|]; quiet_step.
  destruct (split_once _ hd) as [[]|]; quiet_step.
Qed.

Lemma quiet_append_macs dir macs : quiet (append_macs perform dir macs).
Proof using.
  induction macs as [|[tap mac] macs IH]; cbn [append_macs]; quiet_step.
Qed.

Lemma quiet_net_conf ka : quiet (init_net_conf perform ka).
Proof using.
  unfold init_net_conf. quiet_step. destruct (rapido_tap_mac ka); quiet_step. apply quiet_append_macs.
Qed.

Lemma quiet_net_service mid : quiet (init_net_service perform host mid).
Proof using.
  unfold init_net_service. quiet_step. by destruct mid; quiet_step.
Qed.

Lemma quiet_exec_systemd envs : quiet (init_exec_systemd perform envs).
Proof using. unfold init_exec_systemd. quiet_step. Qed.

Lemma quiet_shutdown : quiet (init_shutdown perform).
Proof using. unfold init_shutdown. quiet_step. Qed.

(** An action was carried out on the way to [s], with this success. *)
Definition did (s : list action) (a : action) (b : bool) : Prop :=
  exists s1 s2, s = s2 ++ a :: s1 /\ perform s1 a = Done b.

Lemma did_app tr s a b : did s a b -> did (tr ++ s) a b.
Proof using. intros (s1 & s2 & -> & Hp). exists s1, (tr ++ s2). by rewrite app_assoc. Qed.

Lemma quiet_did {A} (c : Init A) s r s' a b : quiet c -> c s = (r, s') -> did s a b -> did s' a b.
Proof using.
  intros Hc Hr Hd. destruct (Hc s) as (tr & Htr & _). rewrite Hr in Htr. simpl in Htr. subst s'. by apply did_app.
Qed.

Lemma act_io_ok a s s' : act_io perform a s = (Ok tt, s') -> exists b, did s' a b.
Proof using.
  unfold act_io, act, sbind. destruct (perform s a) as [b|e|e] eqn:Hp; [|done..]. intros [= <-].
  exists b, s, []. done.
Qed.

Lemma status_ok prog args s s' : status_or_fail perform prog args s = (Ok tt, s') -> did s' (Run prog args []) true.
Proof using.
  unfold status_or_fail, status_expect, act, sbind.
  destruct (perform s _) as [[]|e|e] eqn:Hp; [|done..]. intros [= <-]. by exists s, [].
Qed.

Lemma mount_all_ok mounts s s' : mount_all perform mounts s = (Ok tt, s') ->
  Forall (fun m => m <> shell_args) mounts -> forall m, m ∈ mounts -> did s' (Run (B "mount") m []) true.
Proof using.
  intros Hr Hq. revert s Hr. induction Hq as [|m mounts Hm Hq IH]; intros s Hr m'; [by intros ?%elem_of_nil|].
  cbn [mount_all] in Hr. apply sbind_inv_ok in Hr as (p & s1 & _ & Hr).
  apply sbind_inv_ok in Hr as ([] & s2 & _ & Hr). apply sbind_inv_ok in Hr as ([] & s3 & H3 & Hr).
  intros [->|Hin]%elem_of_cons; [|by eapply IH].
  eapply (quiet_did _ s3); [by apply quiet_mount_all|exact Hr|]. by eapply status_ok.
Qed.

(** A step before the shell came to its end. *)
Lemma before_shell {A C} (c : Init A) (f : A -> Init C) s later envs earlier :
  quiet c -> Forall not_shell s -> snd (sbind c f s) = later ++ shell envs :: earlier ->
  exists x s1, c s = (Ok x, s1) /\ Forall not_shell s1 /\ snd (f x s1) = later ++ shell envs :: earlier /\
    forall a b, did s a b -> did s1 a b.
Proof using.
  intros Hc Hs Heq. pose proof (Hc s) as (tr & Htr & Hall). unfold sbind in Heq.
  destruct (c s) as [r s1] eqn:Hr. cbn [snd] in Htr. subst s1. destruct r as [x|e|]; cbn [snd] in Heq.
  - exists x, (tr ++ s). split_and!; [done|by apply Forall_app_2|done|intros a b; apply did_app].
  - exfalso. pose proof (Forall_app_2 _ _ _ Hall Hs) as Hn. rewrite Heq in Hn.
    apply Forall_app in Hn as [_ [Hn _]%Forall_cons]. by apply Hn.
  - exfalso. pose proof (Forall_app_2 _ _ _ Hall Hs) as Hn. rewrite Heq in Hn.
    apply Forall_app in Hn as [_ [Hn _]%Forall_cons]. by apply Hn.
Qed.
End Setup.

(** The hostname of a machine: the part before the first dot. *)
Definition hostname_of (ka : KcliArgs) (n : bytes) : bytes :=
  match rapido_hostname ka with
  | None => B "rapido" ++ n
  | Some hd => match split_once (fun c => c =? 46) hd with Some (h, _) => h | None => hd end
  end.

Section Shell.
Context (perform : list action -> action -> outcome) (host : Host).
Implicit Types (s tr : list action) (a : action).

Lemma no_shell {A} (c : Init A) s later envs earlier :
  quiet c -> Forall not_shell s -> snd (c s) = later ++ shell envs :: earlier -> False.
Proof using.
  intros Hc Hs Heq. destruct (Hc s) as (tr & Htr & Hall). rewrite Heq in Htr.
  pose proof (Forall_app_2 _ _ _ Hall Hs) as Hn. rewrite <-Htr in Hn.
  apply Forall_app in Hn as [_ [Hn _]%Forall_cons]. by apply Hn.
Qed.

Lemma shell_unique envs0 s later envs earlier :
  Forall not_shell s -> shell envs0 :: s = later ++ shell envs :: earlier -> envs = envs0 /\ earlier = s.
Proof using.
  intros Hs Heq. destruct later as [|a later]; cbn [app] in Heq; injection Heq as Ha Hs'; [done|].
  subst s. apply Forall_app in Hs as [_ [Hn _]%Forall_cons]. by destruct Hn.
Qed.

Lemma init_shell_trace envs s : snd (init_shell perform envs s) = shell envs :: s.
Proof using. unfold init_shell, sbind, act. by destruct (perform s _). Qed.

Lemma main_trace s : exists tr, snd (main perform host s) = tr ++ snd (init_main perform host s) /\
  Forall not_shell tr.
Proof using.
  assert (forall s, exists tr, snd ((do* stry (F:=io_error) (init_shutdown perform) ;; sret tt) s) = tr ++ s /\
    Forall not_shell tr) as Hq by (apply iquiet_bind; [apply quiet_try, quiet_shutdown|intros x; apply iquiet_sret]).
  unfold main. unfold sbind at 1. unfold stry at 1.
  destruct (init_main perform host s) as [[x|e|] s1]; cbn [snd]; [apply Hq..|]. by exists [].
Qed.

Lemma tail_shell tr s2 later envs earlier : Forall not_shell tr ->
  tr ++ s2 = later ++ shell envs :: earlier -> exists later', s2 = later' ++ shell envs :: earlier.
Proof using.
  intros Htr. revert later. induction Htr as [|a tr Ha _ IH]; intros later Heq; [by exists later|].
  destruct later as [|b later]; cbn [app] in Heq; injection Heq as Hb Heq; [by subst a|]. by eapply IH.
Qed.

Lemma hostname_ok ka n s h s' : rapido_vm_num ka = Some n -> init_hostname perform ka s = (Ok h, s') ->
  h = hostname_of ka n /\ exists b, did perform s' (WriteFile (B "/proc/sys/kernel/hostname") h) b.
Proof using.
  intros Hn Hr. unfold init_hostname in Hr. apply sbind_inv_ok in Hr as (h' & s1 & Hh & Hr).
  apply sbind_inv_ok in Hr as ([] & s2 & Hw & Hr). injection Hr as <- <-. split; [|by eapply act_io_ok].
  revert Hh. unfold hostname_of. rewrite Hn. destruct (rapido_hostname ka) as [hd|].
  - destruct (split_once _ hd) as [[a d]|]; [|by intros [= <- <-]].
    intros Hh. apply sbind_inv_ok in Hh as ([] & s3 & _ & Hh). by injection Hh as <- <-.
  - cbn [unwrap]. intros Hh. apply sbind_inv_ok in Hh as (n' & s3 & Hh' & Hh). injection Hh' as <- <-.
    by injection Hh as <- <-.
Qed.

Lemma net_conf_ok ka n s s' : rapido_vm_num ka = Some n -> init_net_conf perform ka s = (Ok tt, s') ->
  exists b, did perform s' (Symlink (B "/rapido-rsc/net/vm" ++ n) (B "/etc/systemd/network")) b.
Proof using.
  intros Hn Hr. unfold init_net_conf in Hr. rewrite Hn in Hr. cbn [unwrap] in Hr.
  apply sbind_inv_ok in Hr as (n' & s1 & Hn' & Hr). injection Hn' as <- <-.
  apply sbind_inv_ok in Hr as ([] & s2 & Hl & Hr). apply act_io_ok in Hl as [b Hd]. exists b.
  eapply quiet_did; [|exact Hr|exact Hd]. quiet_step. destruct (rapido_tap_mac ka); quiet_step.
  apply quiet_append_macs.
Qed.

Definition wait_online : action :=
  Run (B "/usr/lib/systemd/systemd-networkd-wait-online") [B "--timeout=20"] [].

Lemma net_service_ok mid s s' : init_net_service perform host mid s = (Ok tt, s') ->
  did perform s' wait_online true.
Proof using.
  unfold init_net_service. intros Hr. do 3 apply sbind_inv_ok in Hr as (? & ? & _ & Hr).
  do 2 apply sbind_inv_ok in Hr as (? & ? & _ & Hr). by eapply status_ok.
Qed.

Lemma kmods_ok k ks s s' : kmods_load perform (k :: ks) s = (Ok tt, s') ->
  did perform s' (Run (B "modprobe") (B "-a" :: k :: ks)
    [(B "PATH", B "/usr/sbin:/usr/bin:/sbin:/bin")]) true.
Proof using.
  unfold kmods_load, act, sbind. destruct (perform s _) as [[]|e|e] eqn:Hp; [|done..].
  intros [= <-]. by exists s, [].
Qed.
End Shell.

(** What is true when the shell starts with [envs], after the actions [s]. *)
Record machine_ready (perform : list action -> action -> outcome) (host : Host)
    (envs : list (bytes * bytes)) (s : list action) (f : Reader) (conf : kvmap) (line n : bytes)
    (ka : KcliArgs) : Prop := {
  mr_conf : host_open host RAPIDO_CONF = Ok f /\ kv_conf_process f = Ok conf;
  mr_cmdline : host_read host (B "/proc/cmdline") = Ok line /\ kcli_parse line = Ok ka;
  mr_num : rapido_vm_num ka = Some n;
  mr_envs : envs = init_envs (hostname_of ka n) ka;
  mr_mounts : forall m, m ∈ init_mounts -> did perform s (Run (B "mount") m []) true;
  mr_kmods : forall k ks,
    conf_kmod_deps conf ++ (if is_dir_at host (B "/rapido-rsc/net")
                            then [B "virtio_net"; B "af_packet"] else []) = k :: ks ->
    did perform s (Run (B "modprobe") (B "-a" :: k :: ks)
      [(B "PATH", B "/usr/sbin:/usr/bin:/sbin:/bin")]) true;
  mr_hostname : exists b,
    did perform s (WriteFile (B "/proc/sys/kernel/hostname") (hostname_of ka n)) b;
  mr_net : is_dir_at host (B "/rapido-rsc/net") = true ->
    (exists b, did perform s (Symlink (B "/rapido-rsc/net/vm" ++ n) (B "/etc/systemd/network")) b) /\
    did perform s wait_online true;
}.

(** C13. Order of the boot: if the shell was started at any point, the machine was
    ready for it. All mounts had succeeded, the kernel modules the configuration
    asks for were loaded, the kernel command line named the machine, its
    hostname was set and is in the environment of the shell and, in an image with
    a network, the configuration was linked and the network had come online. *)
Theorem shell_after_setup perform host later envs earlier :
  snd (main perform host []) = later ++ shell envs :: earlier ->
  exists f conf line n ka, machine_ready perform host envs earlier f conf line n ka.
Proof.
  intros Heq. destruct (main_trace perform host []) as (tr & Htr & Hall). rewrite Heq in Htr.
  symmetry in Htr. apply tail_shell in Htr as (later' & Hm); [|exact Hall]. clear Heq Hall tr later.
  unfold init_main in Hm. cbv zeta in Hm.
  apply (before_shell perform) in Hm as (f & s1 & Hf & Hs1 & Hm & _); [|apply quiet_ret|constructor].
  injection Hf as Hf <-.
  apply (before_shell perform) in Hm as (conf & s2 & Hc & Hs2 & Hm & _); [|apply quiet_ret|done].
  injection Hc as Hc <-.
  apply (before_shell perform) in Hm as ([] & s3 & Hmt & Hs3 & Hm & _); [|apply quiet_init_mount|done].
  apply (before_shell perform) in Hm as ([] & s4 & Hk & Hs4 & Hm & H34); [|apply quiet_kmods_load|done].
  apply (before_shell perform) in Hm as ([] & s5 & _ & Hs5 & Hm & H45); [|by quiet_step|done].
  apply (before_shell perform) in Hm as (line & s6 & Hl & Hs6 & Hm & _); [|apply quiet_ret|done].
  injection Hl as Hl <-.
  apply (before_shell perform) in Hm as (ka & s7 & Hka & Hs7 & Hm & _); [|apply quiet_ret|done].
  injection Hka as Hka <-.
  destruct (rapido_vm_num ka) as [n|] eqn:Hn; [|by apply no_shell in Hm; [|apply iquiet_sfail|]].
  apply (before_shell perform) in Hm as (h & s8 & Hh & Hs8 & Hm & H78); [|apply quiet_hostname|done].
  apply (before_shell perform) in Hm as ([] & s9 & Hnc & Hs9 & Hm & H89);
    [|by destruct (is_dir_at _ _); [apply quiet_net_conf|apply iquiet_sret]|done].
  destruct (match host_symlink_metadata _ _ with Ok _ => _ | _ => _ end);
    [by apply no_shell in Hm; [|apply quiet_exec_systemd|]|].
  apply (before_shell perform) in Hm as ([] & s10 & Hns & Hs10 & Hm & H910);
    [|by destruct (is_dir_at _ _); [apply quiet_net_service|apply iquiet_sret]|done].
  rewrite init_shell_trace in Hm. apply shell_unique in Hm as [-> ->]; [|done].
  apply (hostname_ok _ _ n) in Hh as [-> [b Hb]]; [|done].
  exists f, conf, line, n, ka. split; [done|done|done|done| | |eauto|].
  - intros m Hin. apply H910, H89, H78, H45, H34. unfold init_mount in Hmt.
    apply sbind_inv_ok in Hmt as ([] & t1 & Hm1 & Hmt). eapply (quiet_did _ _ t1); [|exact Hmt|].
    + quiet_step.
    + eapply mount_all_ok; [exact Hm1| |done]. apply (bool_decide_unpack (Forall _ _)). vm_compute. exact I.
  - intros k ks Hks. rewrite Hks in Hk. apply H910, H89, H78, H45. by eapply kmods_ok.
  - intros Hnet. rewrite Hnet in Hnc, Hns. split; [|by eapply net_service_ok].
    apply (net_conf_ok _ _ n) in Hnc as [b' Hb']; [|done]. eauto.
Qed.

(** ** Instances of the theorems *)

Module Boot.
Definition host : Host := files_host (list_to_map
  [(RAPIDO_CONF, B "QEMU_EXTRA_ARGS='-device virtio-rng-pci'" ++ [NL]);
   (B "/proc/cmdline", B "rapido.vm_num=2 rapido.hostname=rapido2.lab rapido.stty=24,80" ++ [NL])]).
Definition perform (_ : list action) (_ : action) : outcome := Done true.
(** mount does not start *)
Definition perform_broken (_ : list action) (a : action) : outcome :=
  match a with
  | Run prog _ _ => if bool_decide (prog = B "mount") then NotStarted (err_from NotFound) else Done true
  | _ => Done true
  end.
Definition trace : list action := snd (main perform host []).
Definition envs : list (bytes * bytes) :=
  init_envs (B "rapido2") (MkKcli (Some (B "rapido2.lab")) (Some (B "2")) None (Some (B "24,80")) None None).
End Boot.

Lemma init_powers_off_witness :
  stuck Boot.perform_broken (snd (main Boot.perform_broken Boot.host [])) /\
  Boot.trace = power_off Boot.perform (snd (init_main Boot.perform Boot.host [])).
Proof.
  pose proof (init_powers_off Boot.perform_broken Boot.host (files_host_total _) []) as Hb.
  pose proof (init_powers_off Boot.perform Boot.host (files_host_total _) []) as Hp. split.
  - destruct (main Boot.perform_broken Boot.host []) as [r s] eqn:Hm.
    assert (r = Panic) as -> by (apply (f_equal fst) in Hm; vm_compute in Hm; done).
    apply Hb.
  - unfold Boot.trace. destruct (main Boot.perform Boot.host []) as [r s] eqn:Hm.
    assert (r = Ok tt) as -> by (apply (f_equal fst) in Hm; vm_compute in Hm; done).
    apply Hp.
Defined.

Lemma shell_after_setup_witness :
  exists f conf line n ka,
    machine_ready Boot.perform Boot.host Boot.envs (drop 4 Boot.trace) f conf line n ka.
Proof.
  apply (shell_after_setup Boot.perform Boot.host (take 3 Boot.trace) Boot.envs (drop 4 Boot.trace)).
  vm_compute. reflexivity.
Defined.
