(* ===== verification/VmInit.v ===== *)
(** * The protocol between rapido-vm and rapido-init

    rapido-vm passes its settings to the virtual machine on the kernel command
    line, rapido-init reads them there. The theorems say that what was written
    is what is read. *)

From S2P Require Import Prelude RustStr RustWords RustPath RustIo KvConf Cpio CpioWalk Host RapidoLib.
From S2P Require Import Vm Init.

(** ** Words of the kernel command line *)

Definition kword (w : bytes) : Prop := Forall (fun c => is_kcli_sep c = false) w.

#[export] Instance kword_dec w : Decision (kword w).
Proof. unfold kword. apply _. Defined.

Lemma kword_app a b : kword a -> kword b -> kword (a ++ b).
Proof. apply Forall_app_2. Qed.

Lemma spaced_cons w ws : spaced (w :: ws) = SPACE :: w ++ spaced ws.
Proof. done. Qed.

Lemma spaced_one w : spaced [w] = SPACE :: w.
Proof. rewrite spaced_cons. by rewrite app_nil_r. Qed.

Lemma spaced_app ws1 ws2 : spaced (ws1 ++ ws2) = spaced ws1 ++ spaced ws2.
Proof. unfold spaced. by rewrite fmap_app, concat_app. Qed.

(** The words of a line, and what follows them. *)
Lemma split_kwords w ws c rest : kword w -> Forall kword ws -> is_kcli_sep c = true ->
  split is_kcli_sep (w ++ spaced ws ++ c :: rest) = (w :: ws) ++ split is_kcli_sep rest.
Proof.
  intros Hw Hws Hc. revert w Hw. induction Hws as [|v ws Hv _ IH]; intros w Hw.
  { change (spaced [] ++ c :: rest) with (c :: rest). by rewrite split_app_sep. }
  rewrite spaced_cons. cbn [app]. rewrite split_app_sep by done.
  rewrite <-app_assoc. cbn [app]. by rewrite IH.
Qed.

Lemma kcli_words_app ws1 ws2 a :
  kcli_words (ws1 ++ ws2) a = (let? a := kcli_words ws1 a in kcli_words ws2 a).
Proof.
  revert a. induction ws1 as [|w ws1 IH]; intros a; [done|]. simpl.
  by destruct (kcli_word w a) as [a'|e|]; simpl.
Qed.

(** Words init does not know. *)
Definition kneutral (w : bytes) : Prop :=
  Forall (fun p => starts_with p w = false)
    (B <$> ["rapido.hostname="; "rapido.vm_num="; "rapido.mac."; "rapido.stty=";
            "systemd.machine_id="; "console="]%string).

#[export] Instance kneutral_dec w : Decision (kneutral w).
Proof. unfold kneutral. apply _. Defined.

Lemma kcli_word_neutral w a : kneutral w -> kcli_word w a = Ok a.
Proof.
  unfold kneutral. rewrite !fmap_cons. intros Hn.
  repeat match goal with H : Forall _ (_ :: _) |- _ => apply Forall_cons in H as [? H] end.
  unfold starts_with in *. unfold kcli_word.
  repeat match goal with |- context [strip_prefix ?p w] => destruct (strip_prefix p w); [done|] end.
  done.
Qed.

Lemma kcli_words_neutral ws a : Forall kneutral ws -> kcli_words ws a = Ok a.
Proof.
  intros Hws. induction Hws as [|w ws Hw _ IH]; [done|]. simpl. by rewrite kcli_word_neutral.
Qed.

(** The words rapido-vm writes. *)
Section Words.
Context (v : bytes) (Hv : utf8_valid v = true) (a : KcliArgs).

Lemma kcli_str_ok : kcli_str v = Ok v.
Proof using Hv. unfold kcli_str, from_utf8. by rewrite Hv. Qed.

Lemma word_hostname : kcli_word (B "rapido.hostname=" ++ v) a =
  Ok (MkKcli (Some v) (rapido_vm_num a) (rapido_tap_mac a) (stty_rc a) (systemd_machine_id a)
        (kcli_console a)).
Proof using Hv. unfold kcli_word. rewrite strip_prefix_app. by rewrite kcli_str_ok. Qed.

Lemma word_vm_num : kcli_word (B "rapido.vm_num=" ++ v) a =
  Ok (MkKcli (rapido_hostname a) (Some v) (rapido_tap_mac a) (stty_rc a) (systemd_machine_id a)
        (kcli_console a)).
Proof using Hv. unfold kcli_word. rewrite strip_prefix_app. simpl. by rewrite kcli_str_ok. Qed.

Lemma word_machine_id : kcli_word (B "systemd.machine_id=" ++ v) a =
  Ok (MkKcli (rapido_hostname a) (rapido_vm_num a) (rapido_tap_mac a) (stty_rc a) (Some v)
        (kcli_console a)).
Proof using Hv. unfold kcli_word. rewrite strip_prefix_app. simpl. by rewrite kcli_str_ok. Qed.

Lemma word_console : kcli_word (B "console=" ++ v) a =
  Ok (MkKcli (rapido_hostname a) (rapido_vm_num a) (rapido_tap_mac a) (stty_rc a)
        (systemd_machine_id a) (Some v)).
Proof using Hv. unfold kcli_word. rewrite strip_prefix_app. simpl. by rewrite kcli_str_ok. Qed.
End Words.

(** ** Interfaces *)

(** An interface name that survives the command line. *)
Definition tap_ok (t : bytes) : Prop :=
  kword t /\ utf8_valid t = true /\ Forall (fun c => is_equals c = false) t.

Definition mac_word (t mac : bytes) : bytes := B "rapido.mac." ++ t ++ B "=" ++ mac.

#[export] Instance tap_ok_dec t : Decision (tap_ok t).
Proof. unfold tap_ok. apply _. Defined.

(** The text of a MAC address. *)
Definition mac_ok (m : bytes) : Prop := kword m /\ Forall ascii_ok m.

Lemma word_mac t mac a : tap_ok t -> mac_ok mac -> kcli_word (mac_word t mac) a =
  Ok (MkKcli (rapido_hostname a) (rapido_vm_num a) (Some (<[t := mac]> (default ∅ (rapido_tap_mac a))))
        (stty_rc a) (systemd_machine_id a) (kcli_console a)).
Proof.
  intros (_ & Hu & He) [_ Hm]. unfold kcli_word, mac_word. rewrite strip_prefix_app. simpl.
  unfold kcli_mac. rewrite kcli_str_ok; cbn [rbind].
  - by rewrite split_once_run.
  - apply utf8_valid_app; [done|]. apply utf8_valid_ascii. constructor; [unfold ascii_ok; lia|done].
Qed.

Lemma kword_chars s : Forall (fun c => 33 <= c <= 122) s -> kword s.
Proof.
  intros Hs. eapply Forall_impl; [exact Hs|]. intros c Hc. unfold is_kcli_sep, one_of. simpl in *.
  rewrite !orb_false_iff. unfold NL. repeat split; apply Z.eqb_neq; lia.
Qed.

(** Text of digits, letters and colons: a word, and text. *)
Definition plain_text (s : bytes) : Prop := Forall (fun c => 33 <= c <= 122) s.

#[export] Instance plain_text_dec s : Decision (plain_text s).
Proof. unfold plain_text. apply _. Defined.

Lemma plain_ascii s : plain_text s -> Forall ascii_ok s.
Proof. intros Hs. eapply Forall_impl; [exact Hs|]. unfold ascii_ok. simpl. lia. Qed.

Lemma plain_utf8 s : plain_text s -> utf8_valid s = true.
Proof. intros Hs. by apply utf8_valid_ascii, plain_ascii. Qed.

Lemma plain_hex w n : 0 <= n -> plain_text (fmt_hex w n).
Proof. intros Hn. eapply Forall_impl; [by apply fmt_hex_chars|]. simpl. lia. Qed.

Lemma plain_dec n : 0 <= n -> plain_text (fmt_dec n).
Proof. intros Hn. eapply Forall_impl; [by apply fmt_dec_digits|]. simpl. lia. Qed.

Lemma plain_app a b : plain_text a -> plain_text b -> plain_text (a ++ b).
Proof. apply Forall_app_2. Qed.

Lemma plain_lit s : forallb (fun c => (33 <=? c) && (c <=? 122)) s = true -> plain_text s.
Proof.
  intros Hs. apply Forall_forall. intros c Hc. rewrite forallb_forall in Hs.
  apply list_elem_of_In in Hc. specialize (Hs c Hc). lia.
Qed.

Lemma vm_mac_plain hash n t : plain_text (vm_mac_gen hash n t).
Proof.
  unfold vm_mac_gen. cbv zeta.
  assert (forall h, plain_text (fmt_hex 2 (Z.land h 255))) as Ho.
  { intros h. apply plain_hex, Z.land_nonneg. lia. }
  repeat (apply plain_app; [apply Ho || by apply plain_lit|]). apply Ho.
Qed.

Lemma vm_mac_ok hash n t : mac_ok (vm_mac_gen hash n t).
Proof. split; [apply kword_chars, vm_mac_plain|apply plain_ascii, vm_mac_plain]. Qed.

(** ** What rapido-vm writes *)

(** The size of the terminal. *)
Definition stty_text (stty : option bytes) : option bytes :=
  match split (fun c => negb (is_digit c)) <$> stty with
  | Some ((_ :: _) as rows :: ((_ :: _) as cols) :: _) => Some (rows ++ B "," ++ cols)
  | _ => None
  end.

Definition opt_word (p : string) (o : option bytes) : list bytes :=
  match o with Some v => [B p ++ v] | None => [] end.

Lemma host_stty_text stty k : host_stty_size stty k (B " rapido.stty=")
  = k ++ spaced (opt_word "rapido.stty=" (stty_text stty)).
Proof.
  unfold host_stty_size, stty_text.
  destruct (split _ <$> stty) as [[|[|r rows] [|[|c cols] l]]|];
    cbn [opt_word]; rewrite ?spaced_one; try change (spaced []) with (@nil Z);
    rewrite ?app_nil_r; done.
Qed.

(** The hostname of the network configuration. *)
Definition vm_hostname (host : Host) (dir : path) : option bytes :=
  match read_to_string host (dir ++ B "/hostname") with Ok hn => Some (trim_end hn) | _ => None end.

(** The interfaces that are TAP devices of the host, in directory order. *)
Definition entry_tap (host : Host) (entry : path) : option bytes :=
  match net_entry_tap entry with
  | None => None
  | Some t =>
      match tun_flags host t with
      | Ok (Some f) => if Z.land f IFF_TAP =? IFF_TAP then Some t else None
      | _ => None
      end
  end.

Definition vm_taps (host : Host) (dir : path) : list bytes :=
  match host_read_dir host dir with
  | Ok names => omap (entry_tap host) (push dir <$> names)
  | _ => []
  end.

Section VmWords.
Context (host : Host) (hash : Z -> bytes -> Z) (n : Z).

Definition tap_word (t : bytes) : bytes := mac_word t (vm_mac_gen hash n t).

Lemma net_entries_words dir entries na na' :
  net_entries host hash dir n entries na = (Ok tt, na') -> exists names, entries = Ok <$> names /\
  na_kcmdline na' = na_kcmdline na ++ spaced (tap_word <$> omap (entry_tap host) (push dir <$> names)).
Proof.
  revert na. induction entries as [|x entries IH]; intros na Hr.
  { unfold net_entries, sret in Hr. injection Hr as <-. exists []. simpl. by rewrite app_nil_r. }
  cbn [net_entries] in Hr. destruct x as [name|err|]; [|done..]. unfold sbind at 1, slift in Hr.
  apply sbind_inv_ok in Hr as ([] & na1 & H1 & Hr). destruct (IH _ Hr) as (names & -> & Hk).
  exists (name :: names). split; [done|]. rewrite Hk. clear IH Hr Hk. rewrite fmap_cons. set (e := push dir name) in *.
  change (omap (entry_tap host) (e :: (push dir <$> names))) with
    (match entry_tap host e with Some y => y :: omap (entry_tap host) (push dir <$> names)
     | None => omap (entry_tap host) (push dir <$> names) end).
  unfold net_entry in H1. unfold entry_tap at 2. destruct (net_entry_tap e) as [t|].
  2:{ unfold sret in H1. by injection H1 as <-. }
  unfold sbind, slift in H1. destruct (tun_flags host t) as [[f|]|err|]; [|by injection H1 as <-|done..].
  destruct (_ =? _); cbn [negb] in H1; [|by injection H1 as <-].
  unfold smodify in H1. apply (f_equal snd) in H1. cbn [snd] in H1. rewrite <-H1.
  unfold add_tap. cbn [na_kcmdline]. rewrite fmap_cons, spaced_cons. unfold tap_word at 2, mac_word.
  rewrite <-!app_assoc. done.
Qed.

(** The words after the first. *)
Definition vm_kwords (con : bytes) (stty : option bytes) (hn : option bytes)
    (taps : option (list bytes)) : list bytes :=
  [B "console=" ++ con; B "rapido.vm_num=" ++ fmt_dec n; B "systemd.machine_id=" ++ fmt_hex 32 n] ++
  opt_word "rapido.stty=" stty ++ opt_word "rapido.hostname=" hn ++
  match taps with Some ts => B "net.ifnames=0" :: (tap_word <$> ts) | None => [] end.

Lemma kcmdline_start_words stty con :
  kcmdline_start stty con n = B "rdinit=/rdinit" ++
    spaced ([B "console=" ++ con; B "rapido.vm_num=" ++ fmt_dec n;
             B "systemd.machine_id=" ++ fmt_hex 32 n] ++ opt_word "rapido.stty=" (stty_text stty)).
Proof.
  unfold kcmdline_start. rewrite host_stty_text, spaced_app, !spaced_cons.
  change (spaced []) with (@nil Z). rewrite app_nil_r.
  repeat (rewrite <-!app_assoc; cbn [app]). reflexivity.
Qed.
End VmWords.

(** ** What rapido-init reads *)

(** What stty prints for a size. *)
Definition stty_out (size : Z * Z) : bytes := fmt_dec (fst size) ++ SPACE :: fmt_dec (snd size) ++ [NL].
Definition size_text (size : Z * Z) : bytes := fmt_dec (fst size) ++ B "," ++ fmt_dec (snd size).
Definition size_ok (size : Z * Z) : Prop := u32_ok (fst size) /\ u32_ok (snd size).

Lemma digits_only s : Forall (fun c => 48 <= c <= 57) s -> Forall (fun c => negb (is_digit c) = false) s.
Proof.
  intros Hs. eapply Forall_impl; [exact Hs|]. intros c Hc. apply negb_false_iff. unfold is_digit, in_range.
  simpl in Hc. lia.
Qed.

Lemma stty_text_out size : size_ok size -> stty_text (Some (stty_out size)) = Some (size_text size).
Proof.
  intros [[Hr _] [Hc _]]. unfold stty_text, stty_out. cbn [fmap option_fmap option_map].
  pose proof (digits_only _ (fmt_dec_digits _ Hr)). pose proof (digits_only _ (fmt_dec_digits _ Hc)).
  rewrite !split_app_sep by done. unfold size_text.
  destruct (fmt_dec_cons _ Hr) as (a & r & -> & _), (fmt_dec_cons _ Hc) as (b & s & -> & _). done.
Qed.

Lemma kcli_stty_size size : size_ok size -> kcli_stty (size_text size) = Ok (size_text size).
Proof.
  intros [Hr Hc]. unfold kcli_stty. pose proof Hr as [Hr0 _]. pose proof Hc as [Hc0 _].
  rewrite kcli_str_ok; cbn [rbind].
  - unfold size_text at 1. change (B "," ++ ?x) with (44 :: x). rewrite split_once_run; [|eapply Forall_impl;
      [by apply fmt_dec_digits|unfold is_comma; simpl; intros; lia]|done].
    by rewrite !parse_u32_fmt_dec.
  - apply plain_utf8. unfold size_text.
    apply plain_app; [by apply plain_dec|]. apply plain_app; [by apply plain_lit|by apply plain_dec].
Qed.

Lemma word_stty size a : size_ok size -> kcli_word (B "rapido.stty=" ++ size_text size) a =
  Ok (MkKcli (rapido_hostname a) (rapido_vm_num a) (rapido_tap_mac a) (Some (size_text size))
        (systemd_machine_id a) (kcli_console a)).
Proof. intros Hs. unfold kcli_word. rewrite strip_prefix_app. simpl. by rewrite kcli_stty_size. Qed.

(** The addresses by interface. *)
Definition mac_map (hash : Z -> bytes -> Z) (n : Z) (taps : list bytes) : gmap bytes bytes :=
  list_to_map ((fun t => (t, vm_mac_gen hash n t)) <$> taps).

Lemma mac_map_lookup hash n taps i :
  mac_map hash n taps !! i = if decide (i ∈ taps) then Some (vm_mac_gen hash n i) else None.
Proof.
  unfold mac_map. induction taps as [|t taps IH]; [done|]. rewrite fmap_cons, list_to_map_cons.
  destruct (decide (i = t)) as [->|Hne].
  - rewrite lookup_insert_eq, decide_True; [done|by left].
  - rewrite lookup_insert_ne, IH by done. destruct (decide (i ∈ taps)).
    + by rewrite decide_True by by right.
    + rewrite decide_False; [done|]. intros [|]%elem_of_cons; done.
Qed.

Definition with_macs (a : KcliArgs) (m : option (gmap bytes bytes)) : KcliArgs :=
  MkKcli (rapido_hostname a) (rapido_vm_num a) m (stty_rc a) (systemd_machine_id a) (kcli_console a).

Section Read.
Context (hash : Z -> bytes -> Z) (n : Z).

Lemma kcli_macs taps a m : Forall tap_ok taps -> rapido_tap_mac a = Some m ->
  kcli_words (tap_word hash n <$> taps) a = Ok (with_macs a (Some (mac_map hash n taps ∪ m))).
Proof.
  intros Ht. revert a m. induction Ht as [|t taps Hto _ IH]; intros a m Ha.
  { simpl. unfold mac_map. simpl. rewrite (left_id_L ∅ (∪)), <-Ha. by destruct a. }
  rewrite fmap_cons. cbn [kcli_words]. unfold tap_word at 1.
  rewrite word_mac by (done || apply vm_mac_ok). cbn [rbind]. erewrite IH by done.
  unfold with_macs. simpl. do 3 f_equal. rewrite Ha. simpl. apply map_eq. intros i.
  rewrite !lookup_union, !mac_map_lookup.
  destruct (decide (i = t)) as [->|Hne].
  - rewrite lookup_insert_eq, (decide_True (P := t ∈ t :: taps)) by by left.
    destruct (decide (t ∈ taps)), (m !! t); done.
  - rewrite lookup_insert_ne by done. destruct (decide (i ∈ taps)).
    + by rewrite (decide_True (P := i ∈ t :: taps)) by by right.
    + rewrite (decide_False (P := i ∈ t :: taps)); [done|]. intros [|]%elem_of_cons; done.
Qed.

(** The map rapido-init has in the end; none without an interface. *)
Definition read_macs (taps : option (list bytes)) : option (gmap bytes bytes) :=
  match taps with Some ((_ :: _) as ts) => Some (mac_map hash n ts) | _ => None end.

Lemma kcli_macs_first taps a : Forall tap_ok taps -> rapido_tap_mac a = None ->
  kcli_words (tap_word hash n <$> taps) a = Ok (with_macs a (read_macs (Some taps))).
Proof.
  intros Ht Ha. destruct Ht as [|t taps Hto Ht]; [simpl; rewrite <-Ha; by destruct a|].
  rewrite fmap_cons. cbn [kcli_words]. unfold tap_word at 1.
  rewrite word_mac by (done || apply vm_mac_ok). cbn [rbind]. erewrite kcli_macs by done.
  unfold with_macs. simpl. do 3 f_equal. rewrite Ha. simpl. apply map_eq. intros i.
  rewrite lookup_union, !mac_map_lookup. destruct (decide (i = t)) as [->|Hne].
  - rewrite lookup_insert_eq, (decide_True (P := t ∈ t :: taps)) by by left. by destruct (decide _).
  - rewrite lookup_insert_ne, lookup_empty by done. destruct (decide (i ∈ taps)).
    + by rewrite (decide_True (P := i ∈ t :: taps)) by by right.
    + rewrite (decide_False (P := i ∈ t :: taps)); [done|]. intros [|]%elem_of_cons; done.
Qed.

(** A hostname that survives the command line. *)
Definition hostname_ok (h : bytes) : Prop := kword h /\ utf8_valid h = true.

Definition opt_ok (P : bytes -> Prop) (o : option bytes) : Prop :=
  match o with Some v => P v | None => True end.

(** Everything rapido-vm writes is read back. *)
Lemma kcli_kwords con size hn taps :
  plain_text con -> 0 <= n -> match size with Some s => size_ok s | None => True end ->
  opt_ok hostname_ok hn -> match taps with Some ts => Forall tap_ok ts | None => True end ->
  kcli_words (B "rdinit=/rdinit" :: vm_kwords hash n con (size_text <$> size) hn taps) kcli_empty
  = Ok (MkKcli hn (Some (fmt_dec n)) (read_macs taps) (size_text <$> size) (Some (fmt_hex 32 n))
          (Some con)).
Proof.
  intros Hcon Hn Hsize Hhn Htaps. cbn [kcli_words].
  rewrite kcli_word_neutral by (apply (bool_decide_unpack (kneutral _)); vm_compute; exact I).
  cbn [rbind]. unfold vm_kwords. rewrite !kcli_words_app. cbn [kcli_words].
  rewrite word_console by (by apply plain_utf8). cbn [rbind].
  rewrite word_vm_num by (by apply plain_utf8, plain_dec). cbn [rbind].
  rewrite word_machine_id by (by apply plain_utf8, plain_hex). cbn [rbind].
  cbn [rapido_hostname rapido_vm_num rapido_tap_mac stty_rc systemd_machine_id kcli_console kcli_empty].
  rewrite ?kcli_words_app. set (a1 := MkKcli _ _ _ _ _ _).
  assert (kcli_words (opt_word "rapido.stty=" (size_text <$> size)) a1 =
    Ok (MkKcli None (Some (fmt_dec n)) None (size_text <$> size) (Some (fmt_hex 32 n)) (Some con))) as ->.
  { destruct size as [s|]; [|done]. cbn [fmap option_fmap option_map opt_word kcli_words].
    by rewrite word_stty. }
  cbn [rbind]. rewrite ?kcli_words_app. set (a2 := MkKcli _ _ _ _ _ _).
  assert (kcli_words (opt_word "rapido.hostname=" hn) a2 =
    Ok (MkKcli hn (Some (fmt_dec n)) None (size_text <$> size) (Some (fmt_hex 32 n)) (Some con))) as ->.
  { destruct hn as [h|]; [|done]. cbn [opt_word kcli_words]. by rewrite word_hostname by apply Hhn. }
  cbn [rbind]. destruct taps as [ts|]; [|done]. cbn [kcli_words].
  rewrite kcli_word_neutral by (apply (bool_decide_unpack (kneutral _)); vm_compute; exact I).
  cbn [rbind]. by rewrite kcli_macs_first.
Qed.

Lemma plain_kword s : plain_text s -> kword s.
Proof. apply kword_chars. Qed.

Lemma vm_kwords_kword con size hn taps :
  plain_text con -> 0 <= n -> match size with Some s => size_ok s | None => True end ->
  opt_ok hostname_ok hn -> match taps with Some ts => Forall tap_ok ts | None => True end ->
  Forall kword (vm_kwords hash n con (size_text <$> size) hn taps).
Proof.
  intros Hcon Hn Hsize Hhn Htaps.
  assert (forall p s, kword (B p) -> kword s -> kword (B p ++ s)) as Hp by (intros; by apply kword_app).
  assert (forall s : string, bool_decide (kword (B s)) = true -> kword (B s)) as Hlit
    by (intros s; apply bool_decide_eq_true).
  unfold vm_kwords. rewrite !Forall_app. split_and!.
  - rewrite !Forall_cons, Forall_nil. split_and!; [..|done]; (apply Hp; [by apply Hlit|]);
      apply plain_kword; [done|by apply plain_dec|by apply plain_hex].
  - destruct size as [[r c]|]; [|constructor]. destruct Hsize as [[Hr _] [Hc _]].
    apply Forall_singleton, Hp; [by apply Hlit|]. apply plain_kword, plain_app; [by apply plain_dec|].
    apply plain_app; [by apply plain_lit|by apply plain_dec].
  - destruct hn as [h|]; [|constructor]. apply Forall_singleton, Hp; [by apply Hlit|]. apply Hhn.
  - destruct taps as [ts|]; [|constructor]. constructor; [by apply Hlit|]. apply Forall_fmap.
    eapply Forall_impl; [exact Htaps|]. intros t [Ht _]. simpl. unfold tap_word, mac_word.
    apply Hp; [by apply Hlit|]. apply kword_app; [done|]. apply Hp; [by apply Hlit|]. apply vm_mac_ok.
Qed.
End Read.

(** ** The whole command *)

Lemma find_arch_console ls a : find_arch ls = Some a -> plain_text (arch_console a).
Proof.
  induction ls as [|[l|e|] ls IH]; cbn [find_arch]; [done| |done..].
  assert (Forall (fun a => plain_text (arch_console a)) vm_archs) as Hall
    by (apply (bool_decide_unpack (Forall _ _)); vm_compute; exact I).
  destruct (List.find (fun a => bool_decide (arch_line a = l)) vm_archs) as [a'|] eqn:Hf; [|done]. intros [= <-].
  apply find_some in Hf as [Hin _]. rewrite Forall_forall in Hall. by apply Hall, list_elem_of_In.
Qed.

Lemma vm_qemu_console host conf q : vm_qemu_args_get host conf = Ok q -> plain_text (console q).
Proof.
  unfold vm_qemu_args_get. destruct (vm_kconfig host conf) as [[f krel]|e|]; cbn [rbind]; [|done..].
  destruct (find_arch (lines f)) as [a|] eqn:Ha; [|done].
  destruct (ks_kernel_img _ _ _ _ _) as [img|e|]; cbn [rbind]; [|done..]. intros [= <-]. simpl.
  by eapply find_arch_console.
Qed.

Definition net_dir (dir : path) (n : Z) : path := dir ++ B "/vm" ++ fmt_dec n.

(** The line in its words, and the end of it. *)
Lemma vm_command_words {R} `{ReadSeekOk R} host (open_img : path -> io R) stty hash n pid img conf dir bin args :
  conf !! B "VM_NET_CONF" = Some dir ->
  vm_command host open_img stty hash n pid img conf = Ok (bin, args) ->
  exists q rscs post, vm_qemu_args_get host conf = Ok q /\ vm_resources_get open_img img = Ok rscs /\
    bin = qemu_bin q /\
    args = vm_params q rscs img pid (kcmdline_extra conf (B "rdinit=/rdinit" ++
      spaced (vm_kwords hash n (console q) (stty_text stty) (vm_hostname host (net_dir dir n))
        (if net rscs then Some (vm_taps host (net_dir dir n)) else None)))) conf ++ post.
Proof.
  intros Hdir Hr. unfold vm_command in Hr. destruct (vm_qemu_args_get host conf) as [q|e|]; [|done..].
  cbn [rbind] in Hr. rewrite Hdir in Hr. cbn [unwrap rbind] in Hr. fold (net_dir dir n) in Hr.
  set (k0 := kcmdline_start stty (console q) n) in Hr.
  destruct (kcmdline_hostname host (net_dir dir n) k0) as [k1|e|] eqn:Hk1; [|done..]. cbn [rbind] in Hr.
  destruct (vm_resources_get open_img img) as [rscs|e|]; [|done..]. cbn [rbind] in Hr.
  destruct (kcmdline_net host hash (net_dir dir n) n rscs k1) as [na|e|] eqn:Hna; [|done..].
  cbn [rbind] in Hr. injection Hr as <- <-.
  assert (k1 = k0 ++ spaced (opt_word "rapido.hostname=" (vm_hostname host (net_dir dir n)))) as Hk.
  { unfold kcmdline_hostname in Hk1. unfold vm_hostname.
    destruct (read_to_string _ _) as [hn|e|]; [|case_bool_decide; [|done]|done]; injection Hk1 as <-;
      cbn [opt_word]; rewrite ?spaced_one; [done|]. by rewrite app_nil_r. }
  assert (na_kcmdline na = k1 ++ spaced (match (if net rscs then Some (vm_taps host (net_dir dir n)) else None) with
      Some ts => B "net.ifnames=0" :: (tap_word hash n <$> ts) | None => [] end)) as Hn.
  { unfold kcmdline_net in Hna. destruct (net rscs).
    - unfold vm_taps, host_read_dir. destruct (host_dir_entries host (net_dir dir n)) as [es|e|]; [|done..].
      cbn [rbind] in Hna |- *. destruct (net_entries _ _ _ _ _ _) as [[[]|e|] na'] eqn:He; [|done..].
      cbn [rbind] in Hna. injection Hna as <-. destruct (net_entries_words _ _ _ _ _ _ _ He) as (names & -> & ->).
      rewrite io_collect_ok.
      cbn [na_kcmdline]. rewrite spaced_cons, <-app_assoc. done.
    - injection Hna as <-. cbn [na_kcmdline]. by rewrite app_nil_r. }
  exists q, rscs, (na_params na). split_and!; [done..|]. do 3 f_equal.
  rewrite Hn, Hk. unfold k0. rewrite kcmdline_start_words. unfold vm_kwords. rewrite !spaced_app.
  by rewrite <-!app_assoc.
Qed.

(** The parameters a user adds, if none of them is one of init's. *)
Definition extra_neutral (conf : kvmap) : Prop :=
  match conf !! B "QEMU_EXTRA_KERNEL_PARAMS" with
  | Some kp => Forall kneutral (split is_kcli_sep kp)
  | None => True
  end.

(** Parsing the line, as /proc/cmdline shows it. *)
Lemma kcli_parse_extra conf w ws a : kword w -> Forall kword ws -> extra_neutral conf ->
  kcli_words (w :: ws) kcli_empty = Ok a ->
  kcli_parse (kcmdline_extra conf (w ++ spaced ws) ++ [NL]) = Ok a.
Proof.
  intros Hw Hws Hx Ha. assert (kneutral []) as Hnil by (apply (bool_decide_unpack (kneutral _)); vm_compute; exact I).
  unfold kcli_parse, kcmdline_extra, extra_neutral in *. destruct (conf !! _) as [kp|].
  - rewrite <-!app_assoc. change (B " " ++ kp ++ [NL]) with (SPACE :: kp ++ [NL]).
    rewrite split_kwords, kcli_words_app, Ha by done. cbn [rbind].
    rewrite split_app_any by done. apply kcli_words_neutral, Forall_app_2; [done|by constructor].
  - rewrite <-!app_assoc. rewrite split_kwords, kcli_words_app, Ha by done. cbn [rbind].
    apply kcli_words_neutral. by constructor.
Qed.

(** C3. The kernel command line carries the settings of the virtual machine: if
    rapido-vm comes to start qemu, the kernel command line it passes, parsed by
    rapido-init, gives the number of the machine, its hostname, the size of the
    terminal, the machine id, the console of the architecture and, if the image
    asks for the network, the address of every TAP interface. The hostname and
    the interface names must be words, and added parameters must not be init's. *)
Theorem vm_init_protocol {R} `{ReadSeekOk R} host (open_img : path -> io R) size hash n pid img conf
    dir bin args :
  let taps := vm_taps host (net_dir dir n) in
  let hn := vm_hostname host (net_dir dir n) in
  conf !! B "VM_NET_CONF" = Some dir -> 0 <= n ->
  match size with Some s => size_ok s | None => True end ->
  extra_neutral conf -> opt_ok hostname_ok hn -> Forall tap_ok taps ->
  vm_command host open_img (stty_out <$> size) hash n pid img conf = Ok (bin, args) ->
  exists q rscs kcmdline pre post,
    vm_qemu_args_get host conf = Ok q /\ vm_resources_get open_img img = Ok rscs /\
    args = pre ++ [B "-append"; kcmdline] ++ post /\
    kcli_parse (kcmdline ++ [NL]) =
      Ok (MkKcli hn (Some (fmt_dec n))
            (if net rscs then read_macs hash n (Some taps) else None)
            (size_text <$> size) (Some (fmt_hex 32 n)) (Some (console q))).
Proof.
  intros taps hn Hdir Hn Hsize Hx Hhn Htaps Hr.
  apply (vm_command_words _ _ _ _ _ _ _ _ dir) in Hr as (q & rscs & post & Hq & Hrs & -> & Hargs); [|done].
  assert (stty_text (stty_out <$> size) = size_text <$> size) as Hs.
  { destruct size as [s|]; [by apply stty_text_out|done]. }
  rewrite Hs in Hargs. fold hn in Hargs. fold taps in Hargs.
  pose proof (vm_qemu_console _ _ _ Hq) as Hcon.
  assert (match (if net rscs then Some taps else None) with
          Some ts => Forall tap_ok ts | None => True end) as Ht by (by destruct (net rscs)).
  unfold vm_params in Hargs. rewrite <-!app_assoc in Hargs.
  eexists q, rscs, _, _, _. split; [exact Hq|]. split; [exact Hrs|]. split; [exact Hargs|].
  apply kcli_parse_extra; [by apply (bool_decide_unpack (kword _)); vm_compute| |done|].
  - by apply vm_kwords_kword.
  - rewrite kcli_kwords by done. by destruct (net rscs).
Qed.

(** ** An instance *)

Module Booted.
Definition files : gmap bytes bytes := list_to_map
  [(B "/boot/config-6.4", B "CONFIG_HZ=250" ++ NL :: B "CONFIG_X86_64=y" ++ [NL]);
   (B "/boot/vmlinuz-6.4", B "kernel");
   (B "net-conf/vm1/hostname", B "rapido1" ++ [NL]);
   (B "/sys/class/net/tap0/tun_flags", B "0x1002" ++ [NL]);
   (B "/sys/class/net/tap1/tun_flags", B "0x1001" ++ [NL])].
Definition host : Host :=
  let h := files_host files in {|
    host_open := host_open h; host_metadata := host_metadata h;
    host_symlink_metadata := host_symlink_metadata h; host_read_link := host_read_link h;
    host_canonicalize := host_canonicalize h;
    host_dir_entries d := if bool_decide (d = B "net-conf/vm1")
                          then Ok (Ok <$> [B "tap0.network"; B "hostname"; B "tap1.network"])
                          else Err (err_from NotFound);
    host_env := host_env h; host_cwd := host_cwd h |}.
Definition conf : kvmap := list_to_map
  [(B "KERNEL_RELEASE", B "6.4"); (B "VM_NET_CONF", B "net-conf");
   (B "QEMU_EXTRA_KERNEL_PARAMS", B "quiet loglevel=3")].
Definition rsc_entry (p : bytes) : Arch Vector unit := archive_path p (MkMd 1 (Z.lor S_IFREG 0x1a4) 0 0 7 0 0 0).
Definition img : Vector := snd (snd
  ((do* rsc_entry (B "rapido-rsc/cpu/4") ;; do* rsc_entry (B "rapido-rsc/net") ;; archive_trailer)
     (state_new props_default, MkVector []))).
Definition open_img (_ : path) : io Cursor := Ok (MkCursor (vec_data img) 0).
Definition hash (n : Z) (t : bytes) : Z := 0x0123456789 * n + zlen t.
Definition command : io (bytes * list bytes) :=
  vm_command host open_img (stty_out <$> Some (24, 80)) hash 1 (B "initrds/rapido_vm1.pid") (B "i") conf.
Definition parts : bytes * list bytes := match command with Ok p => p | _ => ([], []) end.
End Booted.

Lemma vm_init_protocol_witness :
  exists q rscs kcmdline pre post,
    vm_qemu_args_get Booted.host Booted.conf = Ok q /\
    vm_resources_get Booted.open_img (B "i") = Ok rscs /\
    snd Booted.parts = pre ++ [B "-append"; kcmdline] ++ post /\
    kcli_parse (kcmdline ++ [NL]) =
      Ok (MkKcli (Some (B "rapido1")) (Some (fmt_dec 1))
            (if net rscs then read_macs Booted.hash 1 (Some [B "tap0"]) else None)
            (size_text <$> Some (24, 80)) (Some (fmt_hex 32 1)) (Some (console q))).
Proof.
  apply (vm_init_protocol Booted.host Booted.open_img (Some (24, 80)) Booted.hash 1
           (B "initrds/rapido_vm1.pid") (B "i") Booted.conf (B "net-conf") (fst Booted.parts) (snd Booted.parts)).
  - vm_compute. reflexivity.
  - lia.
  - by vm_compute.
  - apply (bool_decide_unpack (Forall kneutral _)). vm_compute. exact I.
  - apply (bool_decide_unpack (kword (B "rapido1") /\ utf8_valid (B "rapido1") = true)). vm_compute. exact I.
  - apply (bool_decide_unpack (Forall tap_ok [B "tap0"])). vm_compute. exact I.
  - vm_compute. reflexivity.
Defined.
