(* ===== verification/VmSpec.v ===== *)
(** * What rapido-vm promises

    The resources an image asks for are those of the virtual machine, whatever
    the image is the program ends, the machine started is the first that does
    not run, and configuration never makes the program panic. *)

From S2P Require Import Prelude RustStr RustPath RustIo KvConf Cpio CpioWalk CpioArchive Host RapidoLib.
From S2P Require Import Vm.

(** ** Settings of an image *)

(** A path below rapido-rsc, as a manifest lists it. *)
Inductive setting :=
  | SetCpus (n : Z)
  | SetMem (n : Z) (u : option Z)
  | SetNet
  | SetOther (sub : bytes).

Definition mem_text (n : Z) (u : option Z) : bytes :=
  fmt_dec n ++ match u with Some c => [c] | None => [] end.

Definition setting_name (s : setting) : bytes :=
  match s with
  | SetCpus n => B "rapido-rsc/cpu/" ++ fmt_dec n
  | SetMem n u => B "rapido-rsc/mem/" ++ mem_text n u
  | SetNet => B "rapido-rsc/net"
  | SetOther sub => B "rapido-rsc" ++ sub
  end.

(** Another path has no meaning of its own: parents, the files of the network. *)
Definition setting_ok (s : setting) : Prop :=
  match s with
  | SetCpus n => u32_ok n
  | SetMem n u => u64_ok n /\ match u with Some c => is_mem_unit c = true | None => True end
  | SetNet => True
  | SetOther sub => starts_with (B "/cpu/") sub = false /\ starts_with (B "/mem/") sub = false /\
      sub <> B "/net"
  end.

#[export] Instance setting_ok_dec s : Decision (setting_ok s).
Proof. unfold setting_ok, u32_ok, u64_ok. destruct s as [|? [|]| |]; apply _. Defined.

Definition apply_setting (s : setting) (rscs : VmResources) : VmResources :=
  match s with
  | SetCpus n => MkRsc n (mem rscs) (net rscs)
  | SetMem n u => MkRsc (cpus rscs) (mem_text n u) (net rscs)
  | SetNet => MkRsc (cpus rscs) (mem rscs) true
  | SetOther _ => rscs
  end.

Definition outside (name : bytes) : Prop := starts_with (B "rapido-rsc") name = false.

(** *** A line *)

Lemma mem_unit_range c : is_mem_unit c = true -> c = 109 \/ c = 77 \/ c = 103 \/ c = 71.
Proof.
  unfold is_mem_unit. intros Hu%one_of_spec. change (B "mMgG") with [109; 77; 103; 71] in Hu.
  rewrite !elem_of_cons, elem_of_nil in Hu. tauto.
Qed.

Lemma digit_no_unit n : 0 <= n -> Forall (fun c => is_mem_unit c = false) (fmt_dec n).
Proof.
  intros Hn. eapply Forall_impl; [by apply fmt_dec_digits|]. intros c Hc. simpl in Hc.
  destruct (is_mem_unit c) eqn:Hu; [|done]. apply mem_unit_range in Hu. lia.
Qed.

Lemma rsplit_once_end f a c : Forall (fun x => f x = false) a -> f c = true ->
  rsplit_once f (a ++ [c]) = Some (a, []).
Proof.
  intros Ha Hc. unfold rsplit_once. rewrite reverse_snoc. simpl. rewrite Hc. by rewrite reverse_involutive.
Qed.

Lemma rsplit_once_None f a : Forall (fun x => f x = false) a -> rsplit_once f a = None.
Proof. intros Ha. unfold rsplit_once. rewrite split_once_None; [done|]. by apply Forall_reverse. Qed.

Lemma mem_value_text n u : setting_ok (SetMem n u) -> mem_value (mem_text n u) = Ok (mem_text n u).
Proof.
  intros [[Hn0 Hn] Hu]. unfold mem_value, mem_text.
  assert (parse_u64 (fmt_dec n) = Some n) as Hp by (apply parse_u64_fmt_dec0; unfold U64_MAX; lia).
  assert (utf8_valid (fmt_dec n ++ match u with Some c => [c] | None => [] end) = true) as Hv.
  { apply utf8_valid_ascii, Forall_app_2; [by apply fmt_dec_ascii|]. destruct u as [c|]; [|constructor].
    apply Forall_singleton. apply mem_unit_range in Hu. unfold ascii_ok. lia. }
  unfold from_utf8. rewrite Hv. destruct u as [c|].
  - rewrite rsplit_once_end by (done || by apply digit_no_unit). by rewrite Hp.
  - rewrite app_nil_r, rsplit_once_None by by apply digit_no_unit. by rewrite Hp.
Qed.

Lemma strip_prefix_None p s : starts_with p s = false -> strip_prefix p s = None.
Proof. unfold starts_with. by destruct (strip_prefix p s). Qed.

Lemma starts_with_app p q s : starts_with (p ++ q) (p ++ s) = starts_with q s.
Proof.
  destruct (starts_with q s) eqn:Hq.
  - apply starts_with_spec in Hq as [r ->]. apply starts_with_spec. exists r. by rewrite app_assoc.
  - apply not_true_is_false. intros [r Hr]%starts_with_spec. rewrite <-app_assoc in Hr.
    apply (inj (app p)) in Hr. assert (starts_with q s = true); [apply starts_with_spec; eauto|congruence].
Qed.

Lemma line_setting s rscs : setting_ok s ->
  vm_resource_line_process (setting_name s) rscs = (Ok true, apply_setting s rscs).
Proof.
  intros Hs. unfold vm_resource_line_process. destruct s as [n|n u| |sub].
  - unfold setting_name. rewrite strip_prefix_app. unfold sbind, slift, cpu_value, from_utf8.
    rewrite utf8_valid_ascii by (apply fmt_dec_ascii, Hs). by rewrite parse_u32_fmt_dec.
  - unfold setting_name. rewrite strip_prefix_None by done. rewrite strip_prefix_app.
    unfold sbind, slift. by rewrite mem_value_text.
  - done.
  - destruct Hs as (Hc & Hm & Hn). unfold setting_name.
    rewrite !strip_prefix_None by (change (B "rapido-rsc/cpu/") with (B "rapido-rsc" ++ B "/cpu/") ||
      change (B "rapido-rsc/mem/") with (B "rapido-rsc" ++ B "/mem/"); by rewrite starts_with_app).
    case_bool_decide; [done|]. rewrite bool_decide_eq_false_2.
    + assert (starts_with (B "rapido-rsc") (B "rapido-rsc" ++ sub) = true) as ->; [|done].
      apply starts_with_spec. eauto.
    + change (B "rapido-rsc/net") with (B "rapido-rsc" ++ B "/net"). by intros ?%(inj _).
Qed.

Lemma line_outside name rscs : outside name ->
  vm_resource_line_process name rscs = (Ok false, rscs).
Proof.
  unfold outside. intros Ho. unfold vm_resource_line_process.
  assert (forall q, strip_prefix (B "rapido-rsc" ++ q) name = None) as Hp.
  { intros q. apply strip_prefix_None, not_true_is_false. intros [r ->]%starts_with_spec.
    rewrite <-app_assoc in Ho. assert (starts_with (B "rapido-rsc") (B "rapido-rsc" ++ q ++ r) = true);
      [apply starts_with_spec; eauto|congruence]. }
  assert (strip_prefix (B "rapido-rsc/cpu/") name = None) as -> by exact (Hp (B "/cpu/")).
  assert (strip_prefix (B "rapido-rsc/mem/") name = None) as -> by exact (Hp (B "/mem/")).
  rewrite !bool_decide_eq_false_2 by (by intros ->).
  by rewrite Ho.
Qed.

(** *** The loop *)

Section Loop.
Context {R : Type} `{ReadSeekOk R}.
Implicit Types r : R.

(** The loop over the entries of a walk. *)
Fixpoint rsc_ents (ents : list ArchiveEnt) (inside : bool) (rscs : VmResources) : io VmResources :=
  match ents with
  | [] => Ok rscs
  | e :: ents =>
      match vm_resource_line_process (ent_name e) rscs with
      | (Ok true, rscs') => rsc_ents ents true rscs'
      | (Ok false, rscs') => if inside then Ok rscs' else rsc_ents ents false rscs'
      | (Err e, _) => Err e
      | (Panic, _) => Panic
      end
  end.

Lemma resources_loop_ents fuel r l l' inside rscs :
  walk collect fuel r l = Some (Ok tt, l') -> exists ents, l' = l ++ ents /\
    resources_loop fuel r inside rscs = Some (rsc_ents ents inside rscs).
Proof.
  revert r l inside rscs. induction fuel as [|fuel IH]; intros r l inside rscs; simpl; [done|].
  destruct (next r) as [[[e|]|e|] r']; [| |done..].
  2:{ intros [= <-]. exists []. by rewrite app_nil_r. }
  cbn [collect]. intros Hw.
  assert (forall b s, exists ents, l' = l ++ e :: ents /\
    resources_loop fuel r' b s = Some (rsc_ents ents b s)) as Hn.
  { intros b s. destruct (IH _ _ b s Hw) as (ents & -> & Hr). exists ents. by rewrite <-app_assoc. }
  destruct (vm_resource_line_process (ent_name e) rscs) as [[[]|er|] rscs'] eqn:Hp.
  - destruct (Hn true rscs') as (ents & -> & ->). exists (e :: ents). split; [done|]. simpl. by rewrite Hp.
  - destruct (Hn false rscs') as (ents & -> & ->). exists (e :: ents). split; [done|].
    simpl. rewrite Hp. by destruct inside.
  - destruct (Hn true rscs) as (ents & -> & _). exists (e :: ents). split; [done|]. simpl. by rewrite Hp.
  - destruct (Hn true rscs) as (ents & -> & _). exists (e :: ents). split; [done|]. simpl. by rewrite Hp.
Qed.

(** More fuel does not change a result. *)
Lemma resources_loop_mono fuel fuel' r inside rscs x :
  resources_loop fuel r inside rscs = Some x -> (fuel <= fuel')%nat ->
  resources_loop fuel' r inside rscs = Some x.
Proof.
  revert fuel' r inside rscs. induction fuel as [|fuel IH]; intros [|fuel'] r inside rscs Hr Hle;
    try done; [lia|]. simpl in *. destruct (next r) as [[[e|]|e|] r']; try done.
  destruct (vm_resource_line_process _ _) as [[[]|er|] rscs']; try done.
  - apply IH; [done|lia].
  - destruct inside; [done|]. apply IH; [done|lia].
Qed.

(** What a resource value looks like. *)
Definition rsc_ok (rscs : VmResources) : Prop :=
  u32_ok (cpus rscs) /\ exists n u, mem rscs = n ++ u /\ is_Some (parse_u64 n) /\
    (u = [] \/ exists c, u = [c] /\ is_mem_unit c = true).

Lemma rsc_defaults_ok : rsc_ok rsc_defaults.
Proof.
  split; [done|]. exists (B "512"), (B "M").
  split_and!; [done|by vm_compute; eexists|]. right. exists 77. by split.
Qed.

Lemma mem_value_ok val m : mem_value val = Ok m ->
  exists n u, m = n ++ u /\ is_Some (parse_u64 n) /\ (u = [] \/ exists c, u = [c] /\ is_mem_unit c = true).
Proof.
  unfold mem_value, from_utf8. destruct (utf8_valid val); [|done].
  unfold rsplit_once. destruct (split_once is_mem_unit (reverse val)) as [[a b]|] eqn:Hs.
  - destruct (_ && _) eqn:Hb; [|done]. intros [= <-].
    apply andb_true_iff in Hb as [Hb Ha]. apply bool_decide_eq_true in Hb, Ha.
    apply split_once_spec in Hs as (c & Hv & Hc & _).
    assert (a = []) as -> by (by rewrite <-(reverse_involutive a), Ha).
    exists (reverse b), [c]. split_and!; [|done|by right; eauto].
    by rewrite <-(reverse_involutive val), Hv, app_nil_l, reverse_cons.
  - case_bool_decide as Hp; [|done]. intros [= <-]. exists val, []. rewrite app_nil_r. split_and!; [done|done|by left].
Qed.

Lemma line_safe name rscs : rsc_ok rscs ->
  fst (vm_resource_line_process name rscs) <> Panic /\ rsc_ok (snd (vm_resource_line_process name rscs)).
Proof.
  intros [Hc Hm]. unfold vm_resource_line_process.
  destruct (strip_prefix _ name) as [v|].
  { unfold sbind, slift, cpu_value. destruct (from_utf8 v) as [s|]; [|done].
    destruct (parse_u32 s) as [n|] eqn:Hn; [|done]. cbn. split; [done|]. split; [|done].
    apply from_str_radix_range in Hn; [|lia|unfold U32_MAX; lia]. unfold u32_ok, U32_MAX in *. simpl. lia. }
  destruct (strip_prefix _ name) as [v|].
  { unfold sbind, slift. destruct (mem_value v) as [m|e|] eqn:Hv; [|done|].
    - cbn. split; [done|]. split; [done|]. by eapply mem_value_ok.
    - exfalso. revert Hv. unfold mem_value. destruct (from_utf8 v) as [s|]; [|done].
      destruct (rsplit_once _ s) as [[]|]; [by destruct (_ && _)|by case_bool_decide]. }
  case_bool_decide; [done|]. case_bool_decide; [done|]. by destruct (starts_with _ name).
Qed.

Lemma resources_loop_total fuel r inside rscs : rsc_ok rscs -> (length (avail r) < fuel)%nat ->
  exists x, resources_loop fuel r inside rscs = Some x /\ x <> Panic /\
    (forall rscs', x = Ok rscs' -> rsc_ok rscs').
Proof.
  revert r inside rscs. induction fuel as [|fuel IH]; intros r inside rscs Hok Hlt; [lia|]. simpl.
  pose proof (next_safe r) as Hn. destruct (next r) as [[[e|]|e|] r']; [| | |done].
  2,3: (eexists; split_and!; [done|done|]; by intros ? [= <-]).
  destruct Hn as [_ Hn]. destruct (line_safe (ent_name e) rscs Hok) as [Hp Hok'].
  destruct (vm_resource_line_process _ _) as [[[]|er|] rscs']; cbn [fst snd] in *; [| | |done].
  - apply IH; [done|lia].
  - destruct inside; [|apply IH; [done|lia]]. eexists. split_and!; [done|done|]. by intros ? [= <-].
  - eexists. split_and!; [done|done|]. by intros ? [=].
Qed.
End Loop.

(** *** Entries of a written archive *)

Lemma starts_with_zeros p s k : Forall (fun c => c <> 0) p ->
  starts_with p (s ++ zeros k) = starts_with p s.
Proof.
  intros Hp. revert s. induction Hp as [|c p Hc _ IH]; intros s; [done|].
  destruct s as [|b s].
  - unfold starts_with. cbn [app]. unfold zeros. destruct (Z.to_nat k) as [|m]; [done|]. simpl.
    by destruct (Z.eqb_spec c 0).
  - cbn [app]. specialize (IH s). unfold starts_with in *. simpl. by destruct (c =? b).
Qed.

Lemma ent_name_zeros q e fname : ent_for q e fname ->
  exists k, 0 <= k /\ ent_name e = fname ++ zeros k /\ (req_plain q -> ent_name e = fname).
Proof.
  intros [Hf Hn [Hl Hu] Hpl _ _]. pose proof (zlen_nonneg fname). pose proof (path_trim_ok _ _ Hf).
  exists (namesize e - 1 - zlen fname). assert (forall k, 0 <= k -> namesize e = zlen fname + 1 + k ->
    ent_name e = fname ++ zeros k) as Hz.
  { intros k Hk Hns. unfold ent_name. rewrite Hn, Hns. unfold name_buf.
    replace (PATH_MAX + 1 - zlen fname) with (k + (PATH_MAX + 2 - namesize e)) by lia.
    rewrite zeros_add, app_assoc by lia. apply take_app_length'. unfold zlen, zeros in *.
    rewrite length_app, length_replicate. lia. }
  split; [lia|]. split; [apply Hz; lia|]. intros Hp. rewrite (Hz 0); [|lia|rewrite Hpl by done; lia].
  apply app_nil_r.
Qed.

(** A request for a path outside of rapido-rsc, and one that carries a setting. *)
Definition req_outside (q : request) : Prop :=
  forall fname, path_trim_prefixes (req_path q) = Ok fname -> outside fname.

Record carries (q : request) (s : setting) : Prop := {
  ca_name : path_trim_prefixes (req_path q) = Ok (setting_name s);
  ca_ok : setting_ok s;
  ca_plain : match s with SetOther _ => True | _ => req_plain q end;
}.

Lemma ent_outside q e fname : ent_for q e fname -> req_outside q -> outside (ent_name e).
Proof.
  intros He Ho. destruct (ent_name_zeros _ _ _ He) as (k & _ & -> & _).
  unfold outside. rewrite starts_with_zeros; [|apply (bool_decide_unpack (Forall _ _)); by vm_compute].
  apply Ho, (em_trim _ _ _ He).
Qed.

Lemma ent_setting q e fname s : ent_for q e fname -> carries q s ->
  exists s', ent_name e = setting_name s' /\ setting_ok s' /\ apply_setting s' = apply_setting s.
Proof.
  intros He [Hn Hok Hp]. destruct (ent_name_zeros _ _ _ He) as (k & Hk & Hz & Hpl).
  rewrite (em_trim _ _ _ He) in Hn. injection Hn as ->.
  destruct s as [n|n u| |sub]; [by eexists; split_and!; [apply Hpl| |]..|].
  exists (SetOther (sub ++ zeros k)). rewrite Hz. unfold setting_name. rewrite app_assoc. split; [done|].
  split; [|done]. destruct Hok as (Hc & Hm & Hnet).
  split_and!; [rewrite starts_with_zeros; [done|]..|];
    [apply (bool_decide_unpack (Forall _ _)); by vm_compute..|].
  destruct (decide (k = 0)) as [->|Hk0]; [by rewrite app_nil_r|].
  replace k with (k - 1 + 1) by lia. rewrite zeros_add, app_assoc by lia. change (zeros 1) with [0].
  intros Hf. apply (f_equal last) in Hf. by rewrite last_snoc in Hf.
Qed.

Definition ent_of (q : request) (e : ArchiveEnt) : Prop := exists fname, ent_for q e fname.

Lemma rsc_ents_outside pre ents rest rscs : Forall2 ent_of pre ents -> Forall req_outside pre ->
  rsc_ents (ents ++ rest) false rscs = rsc_ents rest false rscs.
Proof.
  intros Hall Ho. induction Hall as [|q e pre ents [fname He] _ IH]; [done|].
  apply Forall_cons in Ho as [Hq Ho]. simpl. rewrite line_outside by by eapply ent_outside. by apply IH.
Qed.

Lemma rsc_ents_settings blk ss ents rest rscs inside :
  Forall2 ent_of blk ents -> Forall2 carries blk ss ->
  rsc_ents (ents ++ rest) inside rscs =
  rsc_ents rest (match ss with [] => inside | _ => true end) (foldl (fun r s => apply_setting s r) rscs ss).
Proof.
  intros He Hc. revert ents He rscs inside.
  induction Hc as [|q s blk ss Hq _ IH]; intros ents He rscs inside.
  { inversion He; by subst. }
  inversion He as [|? e ? ents' [fname Hent] He' Heq1 Heq2]; subst.
  destruct (ent_setting _ _ _ _ Hent Hq) as (s' & Hn & Hok & Ha). simpl.
  rewrite Hn, line_setting, Ha, (IH _ He') by done. by destruct ss.
Qed.

(** C7. The resources an image asks for are the ones its virtual machine gets: in
    an archive the cpio crate has written, the first run of entries below
    rapido-rsc decides, entry by entry in order, starting from two CPUs, 512
    megabytes and no network; what precedes and what follows the run is
    ignored. The name of a large file may be followed by zeros that align its
    data, so that here an entry that names CPUs or memory has no data. *)
Theorem image_resources {W R} `{WriteOk W} `{Reliable R} pre blk post settings p (w w' : W) n st'
    (open_img : path -> io R) img r rest :
  archive (pre ++ blk ++ post) (state_new p, w) = (Ok n, (st', w')) ->
  written w = [] -> props_ok p -> namesize_max p <= PATH_MAX + 1 ->
  Z.of_nat (length (pre ++ blk ++ post)) < 2 ^ 29 -> Forall req_ok (pre ++ blk ++ post) ->
  Forall req_readable (pre ++ blk ++ post) ->
  Forall req_outside pre -> Forall2 carries blk settings -> settings <> [] ->
  Forall req_outside (take 1 post) ->
  open_img img = Ok r -> avail r = written w' ++ rest ->
  vm_resources_get open_img img = Ok (foldl (fun rscs s => apply_setting s rscs) rsc_defaults settings).
Proof.
  intros Hrun Hw Hp Hmax Hlen Hqs Hrd Hpre Hblk Hne Hpost Himg Hav.
  destruct (walk_back _ p w w' n st' r rest Hrun) as (_ & ents & Hwalk & Hall); [done..|].
  apply (resources_loop_ents _ _ _ _ false rsc_defaults) in Hwalk as (ents' & Heq & Hloop). simpl in Heq. subst ents'.
  unfold vm_resources_get. rewrite Himg. cbn [rbind]. unfold resources_walk.
  destruct (resources_loop_total (S (length (avail r))) r false rsc_defaults) as (x & Hx & _);
    [|lia|].
  { apply rsc_defaults_ok. }
  rewrite Hx. simpl. apply (resources_loop_mono _ (S (length (avail r)) + S (length (pre ++ blk ++ post)))) in Hx; [|lia].
  apply (resources_loop_mono _ (S (length (avail r)) + S (length (pre ++ blk ++ post)))) in Hloop; [|lia].
  rewrite Hx in Hloop. injection Hloop as ->. clear Hx.
  apply Forall2_app_inv_l in Hall as (e1 & e23 & He1 & Hall & ->).
  apply Forall2_app_inv_l in Hall as (e2 & e3 & He2 & He3 & ->).
  rewrite (rsc_ents_outside _ _ _ _ He1 Hpre), (rsc_ents_settings _ _ _ _ _ _ He2 Hblk).
  destruct settings; [done|]. destruct He3 as [|q e post e3 [fname He] _]; [done|].
  simpl. apply Forall_cons in Hpost as [Hq _]. by rewrite line_outside by by eapply ent_outside.
Qed.

(** C32. Whatever the bytes of an image are, reading its resources ends, within one
    step per byte, without panic, and what it yields is well formed: a 32-bit
    number of CPUs, and as memory a number with at most one unit. *)
Theorem vm_resources_safe {R} `{ReadSeekOk R} (r : R) :
  resources_loop (S (length (avail r))) r false rsc_defaults = Some (resources_walk r) /\
  resources_walk r <> Panic /\ (forall rscs, resources_walk r = Ok rscs -> rsc_ok rscs).
Proof.
  destruct (resources_loop_total (S (length (avail r))) r false rsc_defaults) as (x & Hx & Hp & Hok);
    [|lia|].
  - apply rsc_defaults_ok.
  - unfold resources_walk. by rewrite Hx.
Qed.

(** ** The whole program *)

(** Assignments never remove a key. *)
Lemma kv_loop_keeps fuel sep linenum rdr buffer m r m' k :
  is_Some (m !! k) -> kv_loop fuel sep linenum rdr buffer m = Some (r, m') -> is_Some (m' !! k).
Proof.
  revert linenum rdr buffer m. induction fuel as [|f IH]; intros linenum rdr buffer m Hm; [done|].
  simpl. destruct (kv_read_line rdr linenum buffer) as [[[n|e|] rdr'] buffer'];
    [|intros; by simplify_eq..].
  destruct (n =? 0); [intros; by simplify_eq|].
  destruct (kv_process _ _) as [[kv|e|] buffer'']; [|intros; by simplify_eq..].
  apply IH. destruct kv as [[k' v]|]; [|done]. rewrite lookup_insert. by case_decide.
Qed.

Section Main.
Context {R : Type} `{ReadSeekOk R} (host : Host) (open_img : path -> io R).
Context (stty : option bytes) (default_hash : Z -> bytes -> Z).
Context (spawn : bytes -> list bytes -> io (io bool)).
Context (Hhost : host_total host) (Himg : forall p, open_img p <> Panic).
Context (Hspawn : forall bin args, spawn bin args <> Panic /\ forall r, spawn bin args = Ok r -> r <> Panic).

Lemma vm_conf_keys conf k : vm_conf host = Ok conf -> is_Some (conf_defaults !! k) -> is_Some (conf !! k).
Proof using.
  unfold vm_conf. intros Hc Hk.
  destruct (host_rapido_conf_open _ _) as [[f p]|e|]; [|case_bool_decide; by simplify_eq|done].
  destruct (kv_append_loop f conf_defaults) as (r & m' & Hl & Ha & _). rewrite Ha in Hc.
  destruct r; simplify_eq. by eapply kv_loop_keeps.
Qed.

Lemma rapido_conf_opens p f q : host_rapido_conf_open host p = Ok (f, q) -> host_open host q = Ok f.
Proof using.
  unfold host_rapido_conf_open. destruct (host_env host _) as [v|].
  - destruct (from_utf8 v) as [c|]; [|done].
    destruct (host_open host c) eqn:Ho; [by intros [= <- <-]|by case_bool_decide|done].
  - destruct (host_open host p) eqn:Ho; cbn [rbind]; [by intros [= <- <-]|done..].
Qed.

Lemma rapido_conf_no_panic p : host_rapido_conf_open host p <> Panic.
Proof using Hhost.
  unfold host_rapido_conf_open. destruct (host_env host _) as [v|].
  - destruct (from_utf8 v) as [c|]; [|done]. pose proof (ht_open _ Hhost c).
    destruct (host_open host c); [done| |done]. by case_bool_decide.
  - pose proof (ht_open _ Hhost p). by destruct (host_open host p).
Qed.

Lemma vm_conf_no_panic : vm_conf host <> Panic.
Proof using Hhost.
  unfold vm_conf. destruct (host_rapido_conf_open _ _) as [[f p]|e|] eqn:Hf.
  - destruct (kv_append_loop f conf_defaults) as (r & m' & _ & Ha & Hr). rewrite Ha. by destruct r.
  - by case_bool_decide.
  - by apply rapido_conf_no_panic in Hf.
Qed.

Lemma is_running_no_panic p : vm_is_running host p <> Panic.
Proof using Hhost.
  unfold vm_is_running. pose proof (ht_open _ Hhost p). destruct (host_open host p) as [f|e|]; [| |done].
  2:{ by case_bool_decide. }
  destruct (read_line f []) as [[r f'] pid] eqn:Hr. unfold read_line in Hr.
  assert (r <> Panic) as Hnp.
  { revert Hr. repeat case_match; intros; by simplify_eq. }
  destruct r as [n|e|]; cbn [rbind]; [|done..]. destruct (_ || _ || _); [done|].
  pose proof (ht_symlink_metadata _ Hhost (B "/proc/" ++ trim_end pid)).
  destruct (host_symlink_metadata host _); [done|by case_bool_decide|done].
Qed.

Lemma kconfig_krel conf f krel : vm_kconfig host conf = Ok (f, krel) ->
  is_Some krel \/ exists c ks, conf !! B "KERNEL_SRC" = Some (c :: ks).
Proof using.
  unfold vm_kconfig. destruct (conf !! B "KERNEL_SRC") as [[|c ks]|]; [|by right; eauto|];
    intros Hk; left; sinv; eauto.
Qed.

Lemma kernel_vers_no_panic : host_kernel_vers host <> Panic.
Proof using Hhost.
  unfold host_kernel_vers. pose proof (host_read_total _ (B "/proc/version") Hhost).
  destruct (host_read host _) as [b|e|]; cbn [rbind]; [|done..]. unfold host_kernel_vers_parse.
  by repeat case_match.
Qed.

Lemma kconfig_no_panic conf : vm_kconfig host conf <> Panic.
Proof using Hhost.
  assert (forall p k, (let? f := host_open host p in Ok (f, k : option bytes)) <> Panic) as Ho.
  { intros p k. pose proof (ht_open _ Hhost p). by destruct (host_open host p). }
  assert (forall krel, match host_open host (B "/boot/config-" ++ krel) with
    | Ok f => Ok (f, Some krel) | Panic => Panic
    | Err _ => let? f := host_open host (B "/usr/lib/modules/" ++ krel ++ B "/config") in Ok (f, Some krel)
    end <> Panic) as Hb.
  { intros krel. pose proof (ht_open _ Hhost (B "/boot/config-" ++ krel)).
    destruct (host_open host (B "/boot/config-" ++ krel)); [done|apply Ho|done]. }
  pose proof kernel_vers_no_panic as Hv. unfold vm_kconfig.
  destruct (conf !! B "KERNEL_SRC") as [[|c ks]|]; [|apply Ho|];
    (destruct (conf !! B "KERNEL_RELEASE") as [rel|]; [apply Hb|]);
    (destruct (host_kernel_vers host) as [rel|e|]; [apply Hb|done|done]).
Qed.

Lemma first_file_no_panic ps : first_file host ps <> Panic.
Proof using. induction ps as [|p ps IH]; [done|]. simpl. by destruct (host_is_file host p). Qed.

Lemma qemu_args_no_panic conf : vm_qemu_args_get host conf <> Panic.
Proof using Hhost.
  unfold vm_qemu_args_get. pose proof (kconfig_no_panic conf).
  destruct (vm_kconfig host conf) as [[f krel]|e|] eqn:Hk; cbn [rbind]; [|done..].
  destruct (find_arch (lines f)) as [a|]; [|done]. apply kconfig_krel in Hk.
  destruct (ks_kernel_img _ _ _ _ _) as [img|e|] eqn:Hi; cbn [rbind]; [done..|]. exfalso. revert Hi.
  unfold ks_kernel_img. destruct Hk as [[k ->]|(c & ks & ->)].
  - destruct (conf !! B "KERNEL_SRC") as [[|c ks]|]; cbn [unwrap rbind]; [| |];
      try apply first_file_no_panic. by case_match.
  - by case_match.
Qed.

Lemma tun_flags_no_panic tap : tun_flags host tap <> Panic.
Proof using Hhost.
  unfold tun_flags. pose proof (host_read_total _ (push (push (B "/sys/class/net/") tap) (B "tun_flags")) Hhost).
  destruct (host_read host _) as [b|e|]; [|done..]. destruct (from_utf8 b) as [s|]; [|done].
  destruct (strip_prefix _ s) as [s'|]; [|done]. by destruct (from_str_radix _ _ _).
Qed.

Lemma net_entries_no_panic d n entries na : Forall (fun e => e <> Panic) entries ->
  fst (net_entries host default_hash d n entries na) <> Panic.
Proof using Hhost.
  intros He. revert na. induction He as [|e entries He _ IH]; intros na; [done|]. cbn [net_entries].
  destruct e as [name|e|]; [|done..]. unfold sbind at 1, slift.
  apply (no_panic_bind (net_entry host default_hash n (push d name))); [|intros [] s _; apply IH].
  unfold no_panic, net_entry. destruct (net_entry_tap (push d name)) as [t|]; [|done].
  pose proof (tun_flags_no_panic t). unfold sbind, slift.
  destruct (tun_flags host t) as [[f|]|er|]; [|done..]. by destruct (negb _).
Qed.

Lemma vm_command_no_panic n pid img conf : is_Some (conf !! B "VM_NET_CONF") ->
  vm_command host open_img stty default_hash n pid img conf <> Panic.
Proof using Hhost Himg.
  intros [dir Hdir]. unfold vm_command. pose proof (qemu_args_no_panic conf).
  destruct (vm_qemu_args_get host conf) as [q|e|]; cbn [rbind]; [|done..].
  rewrite Hdir. cbn [unwrap rbind]. set (d := dir ++ _). set (k := kcmdline_start _ _ _).
  destruct (kcmdline_hostname host d k) as [k1|e|] eqn:Hk; cbn [rbind]; [|done|].
  2:{ exfalso. revert Hk. unfold kcmdline_hostname, read_to_string.
      pose proof (host_read_total _ (d ++ B "/hostname") Hhost).
      destruct (host_read host _) as [b|e|]; cbn [rbind]; [|by case_bool_decide|done].
      destruct (from_utf8 b); cbn [ok_or]; [done|by case_bool_decide]. }
  pose proof (Himg img). unfold vm_resources_get.
  destruct (open_img img) as [r|e|]; cbn [rbind]; [|done..].
  destruct (resources_loop_total (S (length (avail r))) r false rsc_defaults) as (x & Hx & Hp & _);
    [apply rsc_defaults_ok|lia|].
  unfold resources_walk. rewrite Hx. cbn [default from_option id]. destruct x as [rscs|e|]; cbn [rbind]; [|done..].
  unfold kcmdline_net. destruct (net rscs); [|done]. pose proof (ht_dir_entries _ Hhost d).
  destruct (host_dir_entries host d) as [es|e|] eqn:Hes; cbn [rbind]; [|done..].
  set (na0 := MkNet _ _ _). pose proof (net_entries_no_panic d n es na0 (ht_dir_entry _ Hhost _ _ Hes)) as Hn.
  destruct (net_entries _ _ _ _ _ _) as [[[]|e|] na]; done.
Qed.

Abbreviation running pid_dir n := (vm_is_running host (pid_file pid_dir n)).
Abbreviation start pid_dir img conf n :=
  (vm_start host open_img stty default_hash spawn n (pid_file pid_dir n) img conf).

Lemma vm_start_no_panic n pid img conf : is_Some (conf !! B "VM_NET_CONF") ->
  vm_start host open_img stty default_hash spawn n pid img conf <> Panic.
Proof using Hhost Himg Hspawn.
  intros Hk. unfold vm_start. pose proof (vm_command_no_panic n pid img conf Hk).
  destruct (vm_command _ _ _ _ _ _ _ _) as [[bin args]|e|]; cbn [rbind]; [|done..].
  destruct (Hspawn bin args) as [Hs1 Hs2].
  destruct (spawn bin args) as [[]|e|]; cbn [rbind]; try done. by specialize (Hs2 _ eq_refl).
Qed.

(** What the loop over the numbers from [k] does. *)
Lemma start_first_free_cases count k pid_dir img conf :
  let r := start_first_free host open_img stty default_hash spawn count k pid_dir img conf in
  (exists n, k <= n < k + Z.of_nat count /\ (forall j, k <= j < n -> running pid_dir j = Ok true) /\
     ((running pid_dir n = Ok false /\ r = start pid_dir img conf n) \/
      exists e, running pid_dir n = Err e /\ r = Err e)) \/
  ((forall j, k <= j < k + Z.of_nat count -> running pid_dir j = Ok true) /\ r = Ok tt).
Proof using Hhost.
  cbv zeta. revert k. induction count as [|count IH]; intros k.
  { right. split; [lia|done]. }
  cbn [start_first_free]. pose proof (is_running_no_panic (pid_file pid_dir k)).
  destruct (running pid_dir k) as [[]|e|] eqn:Hr; cbn [rbind negb]; [| | |done].
  - destruct (IH (k + 1)) as [(n & Hn & Hj & Hc)|[Hj Hc]]; [left|right].
    + exists n. split; [lia|]. split; [|done]. intros j Hj'.
      destruct (decide (j = k)) as [->|]; [done|apply Hj; lia].
    + split; [|done]. intros j Hj'. destruct (decide (j = k)) as [->|]; [done|apply Hj; lia].
  - left. exists k. split; [lia|]. split; [lia|]. by left.
  - left. exists k. split; [lia|]. split; [lia|]. right. eauto.
Qed.

Lemma vm_main_conf conf : vm_conf host = Ok conf -> exists pid_dir img,
  conf !! B "QEMU_PID_DIR" = Some pid_dir /\ conf !! B "DRACUT_OUT" = Some img /\
  is_Some (conf !! B "VM_NET_CONF") /\
  vm_main host open_img stty default_hash spawn =
    start_first_free host open_img stty default_hash spawn 999 1 pid_dir img conf.
Proof using.
  intros Hc. pose proof (fun k => vm_conf_keys conf k Hc) as Hk.
  destruct (Hk (B "QEMU_PID_DIR")) as [pid_dir Hp]; [by vm_compute; eexists|].
  destruct (Hk (B "DRACUT_OUT")) as [img Hi]; [by vm_compute; eexists|].
  exists pid_dir, img. split_and!; [done|done|apply Hk; by vm_compute; eexists|].
  unfold vm_main. rewrite Hc. cbn [rbind]. rewrite Hp. cbn [unwrap rbind]. by rewrite Hi.
Qed.

(** C19. rapido-vm starts one machine, the first of the numbers 1 to 999 that does
    not run, with that number; an unreadable pid file before it is an error,
    and if all run nothing is started and that is a success. *)
Theorem vm_main_first_free conf : vm_conf host = Ok conf ->
  exists pid_dir img, conf !! B "QEMU_PID_DIR" = Some pid_dir /\ conf !! B "DRACUT_OUT" = Some img /\
    let r := vm_main host open_img stty default_hash spawn in
    ((exists n, 1 <= n < 1000 /\ (forall j, 1 <= j < n -> running pid_dir j = Ok true) /\
       ((running pid_dir n = Ok false /\ r = start pid_dir img conf n) \/
        exists e, running pid_dir n = Err e /\ r = Err e)) \/
     ((forall j, 1 <= j < 1000 -> running pid_dir j = Ok true) /\ r = Ok tt)).
Proof using Hhost.
  intros (pid_dir & img & Hp & Hi & _ & Hm)%vm_main_conf. exists pid_dir, img. split_and!; [done..|].
  cbv zeta. rewrite Hm. apply (start_first_free_cases 999 1).
Qed.

(** C33. Nothing makes rapido-vm panic: the keys it unwraps have defaults that no
    configuration can remove, the kernel release is known whenever it is
    unwrapped, and images, pid files and network files may hold anything. The
    system must answer with results or errors. *)
Theorem vm_main_no_panic : vm_main host open_img stty default_hash spawn <> Panic.
Proof using Hhost Himg Hspawn.
  pose proof vm_conf_no_panic as Hn. destruct (vm_conf host) as [conf|e|] eqn:Hc; [|by unfold vm_main; rewrite Hc|done].
  destruct (vm_main_conf conf Hc) as (pid_dir & img & _ & _ & Hnet & ->).
  destruct (start_first_free_cases 999 1 pid_dir img conf) as [(n & _ & _ & [[_ ->]|(e & _ & ->)])|[_ ->]];
    [by apply vm_start_no_panic|done|done].
Qed.
End Main.

(** ** Instances of the theorems *)

Module Img.
Definition md (n : Z) : ArchiveMd := MkMd 1 (Z.lor S_IFREG 0x1a4) 0 0 7 0 0 n.
Definition pre : list request := [ReqPath (B "/rdinit") (md 0)].
Definition blk : list request :=
  [ReqPath (B "/rapido-rsc") (md 0); ReqPath (B "/rapido-rsc/cpu") (md 0);
   ReqPath (B "/rapido-rsc/cpu/3") (md 0); ReqFile (B "/rapido-rsc/mem/1G") (md 0) (reader_of []);
   ReqPath (B "/rapido-rsc/net") (md 0);
   ReqFile (B "/rapido-rsc/net/vm1/hostname") (md 5) (reader_of (B "vmone"))].
Definition post : list request := [ReqPath (B "/etc") (md 0); ReqPath (B "/rapido-rsc/cpu/9") (md 0)].
Definition settings : list setting :=
  [SetOther []; SetOther (B "/cpu"); SetCpus 3; SetMem 1 (Some 71); SetNet; SetOther (B "/net/vm1/hostname")].
Definition props4 : ArchiveProperties := MkProps 0 4 PATH_MAX 0 None None None.
Definition run : io Z * (ArchiveState * Vector) :=
  archive (pre ++ blk ++ post) (state_new props4, MkVector []).
Definition image : Cursor := MkCursor (vec_data (snd (snd run))) 0.

Lemma md_ok_small n : 0 <= n < 2 ^ 32 -> md_ok (md n).
Proof. intros Hn. by split_and!. Qed.

Lemma vm_reqs_ok : Forall req_ok (pre ++ blk ++ post).
Proof. repeat (apply Forall_cons; split; [by apply md_ok_small|]). constructor. Qed.

Lemma vm_reqs_readable : Forall req_readable (pre ++ blk ++ post).
Proof. repeat (apply Forall_cons; split; [by vm_compute|]). constructor. Qed.

Lemma outside_name p md fname : path_trim_prefixes p = Ok fname ->
  starts_with (B "rapido-rsc") fname = false -> req_outside (ReqPath p md).
Proof. intros Hf Ho f. simpl. rewrite Hf. by intros [= <-]. Qed.

Lemma blk_carries : Forall2 carries blk settings.
Proof.
  repeat (apply Forall2_cons; split;
    [split; [by vm_compute|apply (bool_decide_unpack (setting_ok _)); vm_compute; exact I|by vm_compute]|]).
  constructor.
Qed.
End Img.

Lemma image_resources_witness :
  vm_resources_get (fun _ => Ok Img.image) (B "i") = Ok (MkRsc 3 (B "1G") true).
Proof.
  apply (image_resources Img.pre Img.blk Img.post Img.settings Img.props4 (MkVector [])
    (snd (snd Img.run)) (match fst Img.run with Ok n => n | _ => 0 end) (fst (snd Img.run))
    (fun _ => Ok Img.image) (B "i") Img.image []).
  - vm_compute. reflexivity.
  - reflexivity.
  - by repeat split.
  - done.
  - done.
  - apply Img.vm_reqs_ok.
  - apply Img.vm_reqs_readable.
  - apply Forall_singleton. by apply (Img.outside_name _ _ (B "rdinit")).
  - apply Img.blk_carries.
  - done.
  - apply Forall_singleton. by apply (Img.outside_name _ _ (B "etc")).
  - reflexivity.
  - vm_compute. reflexivity.
Defined.

Lemma vm_resources_safe_witness :
  resources_walk (MkCursor (B "070701x") 0) <> Panic /\
  forall rscs, resources_walk (MkCursor (B "070701x") 0) = Ok rscs -> rsc_ok rscs.
Proof. apply (vm_resources_safe (MkCursor (B "070701x") 0)). Defined.

Module Started.
Definition host : Host := files_host (list_to_map
  [(B "initrds/rapido_vm1.pid", B "4711" ++ [NL]); (B "/proc/4711", [])]).
Definition spawn (_ : bytes) (_ : list bytes) : io (io bool) := Ok (Ok true).
Definition open_img (_ : path) : io Cursor := Ok Img.image.

Lemma spawn_ok bin args : spawn bin args <> Panic /\ forall r, spawn bin args = Ok r -> r <> Panic.
Proof. split; [done|]. by intros ? [= <-]. Qed.
End Started.

Lemma vm_main_first_free_witness : exists pid_dir img,
  conf_defaults !! B "QEMU_PID_DIR" = Some pid_dir /\ conf_defaults !! B "DRACUT_OUT" = Some img /\
  let running n := vm_is_running Started.host (pid_file pid_dir n) in
  let start n := vm_start Started.host Started.open_img None (fun _ _ => 0) Started.spawn n
                   (pid_file pid_dir n) img conf_defaults in
  let r := vm_main Started.host Started.open_img None (fun _ _ => 0) Started.spawn in
  ((exists n, 1 <= n < 1000 /\ (forall j, 1 <= j < n -> running j = Ok true) /\
     ((running n = Ok false /\ r = start n) \/ exists e, running n = Err e /\ r = Err e)) \/
   ((forall j, 1 <= j < 1000 -> running j = Ok true) /\ r = Ok tt)).
Proof.
  apply (vm_main_first_free Started.host Started.open_img None (fun _ _ => 0) Started.spawn).
  - apply files_host_total.
  - vm_compute. reflexivity.
Defined.

Lemma vm_main_no_panic_witness :
  vm_main Started.host Started.open_img None (fun _ _ => 0) Started.spawn <> Panic.
Proof.
  apply vm_main_no_panic.
  - apply files_host_total.
  - done.
  - apply Started.spawn_ok.
Defined.
