(* ===== verification/Completion.v ===== *)
(** * Command line completion (src/src/bin/bash-completion.rs)

    bash passes the command line and the position of the cursor; the completions
    of the word under the cursor are printed, one per line. The completion of
    file names by bash itself is a parameter. *)

From S2P Require Import Prelude RustStr RustWords RustPath RustIo Host Argument.

Definition RAPIDO_CUT_DIR : bytes := B "cut".
Definition RAPIDO_CMDS : list bytes :=
  B <$> ["boot"; "cut"; "help"; "list"; "setup-network"; "teardown-network"]%string.

Definition UNDERSCORE : Z := 95.
Definition NUL : Z := 0.

Section Complete.
Context {W : Type} `{Write W}.
(** the entries of the directory of cut scripts, each read or not *)
Context (cut_ls : io (list (io bytes))).
(** what [bash -c] prints for a command, and whether it succeeds *)
Context (bash_output : bytes -> io (bytes * bool)).

(** Computations that print to [out]; all errors are unwrapped. *)
Definition Out (A : Type) : Type := SM W io_error A.

(** [out.write_all(..).unwrap()] *)
Definition print_all (b : bytes) : Out unit := fun w =>
  match write_all b w with
  | (Err _, w') => (Panic, w')
  | (r, w') => (r, w')
  end.

(** [writeln!(out, "{}", b).unwrap()] *)
Definition println (b : bytes) : Out unit := do* print_all b ;; print_all [NL].

(** the name of a cut script as completed *)
Definition script_name (ent : bytes) : option bytes :=
  replace UNDERSCORE (B "-") <$> (file_stem (push RAPIDO_CUT_DIR ent) ≫= from_utf8).

Fixpoint complete_scripts (ents : list (io bytes)) (filter_inc : bytes) : Out bool :=
  match ents with
  | [] => sret true
  | Err _ :: _ => sret false
  | Panic :: _ => spanic
  | Ok ent :: ents =>
      do* match script_name ent with
          | Some ent => if starts_with filter_inc ent then println ent else sret tt
          | None => sret tt
          end ;;
      complete_scripts ents filter_inc
  end.

Definition complete_cut_script_name (filter_inc : bytes) : Out bool :=
  match cut_ls with
  | Err _ => sret false
  | Panic => spanic
  | Ok ents => complete_scripts ents filter_inc
  end.

Fixpoint complete_filter (options : list bytes) (filter_inc : bytes) : Out unit :=
  match options with
  | [] => sret tt
  | param :: options =>
      do* (if starts_with filter_inc param then println param else sret tt) ;;
      complete_filter options filter_inc
  end.

Definition complete_local_file (filter_inc : bytes) : Out bool :=
  match bash_output (B "compgen -o filenames -A file -- " ++ filter_inc) with
  | Err _ => sret false
  | Panic => spanic
  | Ok (stdout, success) => do* print_all stdout ;; sret success
  end.

Definition complete_cut_any_param (cursor_cmpl : bytes) (seen_b : bool) : Out bool :=
  do* (if seen_b then complete_filter [B "-f"; B "-x"] cursor_cmpl
       else complete_filter [B "-B"; B "-f"; B "-x"] cursor_cmpl) ;;
  complete_cut_script_name cursor_cmpl.

Definition complete_cut (prior_args : list bytes) (cursor_cmpl : bytes) (seen_b : bool) : Out bool :=
  let* cut := slift (unwrap (prior_args !! 1%nat)) in
  do* sassert (bool_decide (cut = B "cut")) ;;
  if (length prior_args =? 2)%nat then complete_cut_any_param cursor_cmpl false
  else
    let* prev := slift (unwrap (last prior_args)) in
    if bool_decide (prev = B "-f") then complete_local_file cursor_cmpl
    else if bool_decide (prev = B "-x") then sret false
    else if bool_decide (prev = B "-B") then complete_cut_any_param cursor_cmpl true
    else if (length prior_args <=? 3)%nat then sret false
    else
      match prior_args !! (length prior_args - 2)%nat with
      | Some p =>
          if bool_decide (p = B "-f") then complete_cut_any_param cursor_cmpl seen_b
          else sret false
      | None => sret false
      end.

(** The argument without the marker of the cursor, and whether it had it. *)
Definition complete_nil_arg_under_cursor (s : bytes) (comp_tok : option bytes) : io (bytes * bool) :=
  if contains [NUL] s then
    match comp_tok with
    | Some t => Ok (replace NUL t s, true)
    | None => let? s := unwrap (strip_suffix [NUL] s) in Ok (s, true)
    end
  else Ok (s, false).

(** [is_char_boundary] *)
Definition is_char_boundary (s : bytes) (i : nat) : bool :=
  match s !! i with
  | Some b => (i =? 0)%nat || negb (utf8_cont b)
  | None => (i =? length s)%nat
  end.

(** [s.replace_range(i..i + 1, with)] *)
Definition replace_range1 (s : bytes) (i : nat) (repl : bytes) : io bytes :=
  if is_char_boundary s i && is_char_boundary s (S i)
  then Ok (take i s ++ repl ++ drop (S i) s) else Panic.

(** The line with the cursor marked, and what the marker stands for. *)
Definition mark_cursor (comp_line : bytes) (comp_point : nat) : io (bytes * option bytes) :=
  match chars comp_line !! comp_point with
  | Some c =>
      let '(comp_tok, replacement) :=
        if is_whitespace c then (None, [NUL; SPACE]) else (Some c, [NUL]) in
      let? comp_line := replace_range1 comp_line comp_point replacement in
      Ok (comp_line, comp_tok)
  | None => Ok (comp_line ++ [NUL], None)
  end.

(** the loop over the words, [args] the ones before *)
Fixpoint complete_words (comp_tok : option bytes) (ws : list bytes) (args : list bytes)
    (seen_minus_b : bool) : Out bool :=
  match ws with
  | [] => sret false
  | s :: ws =>
      if bool_decide (s = B "-x") then sret false
      else
        let* (arg, under_cursor) := slift (complete_nil_arg_under_cursor s comp_tok) in
        if under_cursor : bool then
          match length args with
          | 0%nat => sret false
          | 1%nat => do* complete_filter RAPIDO_CMDS arg ;; sret true
          | _ =>
              let* cmd := slift (unwrap (args !! 1%nat)) in
              if bool_decide (cmd = B "cut") then complete_cut args arg seen_minus_b
              else sret false
          end
        else
          complete_words comp_tok ws (args ++ [arg]) (seen_minus_b || bool_decide (arg = B "-B"))
  end.

Definition complete_rapido (comp_line : bytes) (comp_point : nat) : Out bool :=
  let* (comp_line, comp_tok) := slift (mark_cursor comp_line comp_point) in
  complete_words comp_tok (split_whitespace comp_line) [] false.

(** [main], with all the arguments *)
Definition completion_main (host : Host) (args : list bytes) : Out unit :=
  match env_args args with
  | [] | [Some _] => sret tt
  | Some _ :: Some prog_cmpl :: _ =>
      match host_env_var host (B "COMP_LINE"), host_env_var host (B "COMP_POINT") with
      | Ok (Some comp_line), Ok (Some ps) =>
          match parse_u64 ps with
          | None => sret tt
          | Some comp_point =>
              if bool_decide (prog_cmpl = B "rapido") || bool_decide (prog_cmpl = B "./rapido") then
                if host_is_file host (B "rapido")
                then do* complete_rapido comp_line (Z.to_nat comp_point) ;; sret tt
                else sret tt
              else sret tt
          end
      | _, _ => sret tt
      end
  | _ => spanic
  end.
End Complete.

(** ** Examples *)

Definition sample_cut : io (list (io bytes)) := Ok [Ok (B "simple_example.sh"); Ok (B "fstests.sh")].

(** The position counts bytes in the shell and in the replacement, but characters
    in the look-up: a character of several bytes under the cursor, or before it,
    makes the program panic. *)
Example cursor_on_umlaut : fst (complete_rapido sample_cut (fun _ => Ok ([], true))
  (B "rapido cut -f " ++ [0xC3; 0xA9]) 14 (MkVector [])) = Panic.
Proof. vm_compute. reflexivity. Qed.
Example cursor_after_umlaut : fst (complete_rapido sample_cut (fun _ => Ok ([], true))
  (B "rapido cut -f " ++ [0xC3; 0xA9] ++ B " ab") 15 (MkVector [])) = Panic.
Proof. vm_compute. reflexivity. Qed.

(** ** What is printed *)

Definition printed (ls : list bytes) : bytes := concat ((fun l => l ++ [NL]) <$> ls).

Section Answer.
Context (cut_ls : io (list (io bytes))) (bash_output : bytes -> io (bytes * bool)).

(** The scripts of the directory, up to an entry that cannot be read. *)
Fixpoint readable (ents : list (io bytes)) : list bytes * bool :=
  match ents with
  | Ok e :: ents => let '(es, ok) := readable ents in (e :: es, ok)
  | [] => ([], true)
  | _ => ([], false)
  end.

Definition scripts : list bytes * bool :=
  match cut_ls with
  | Ok ents => let '(es, ok) := readable ents in (omap script_name es, ok)
  | _ => ([], false)
  end.

(** The options that may follow, and the scripts. *)
Definition any_param (w : bytes) (seen_b : bool) : bytes * bool :=
  (printed (List.filter (starts_with w)
     ((if seen_b then [] else [B "-B"]) ++ [B "-f"; B "-x"] ++ fst scripts)), snd scripts).

Definition nothing : bytes * bool := ([], false).

(** What is printed for the word [w] after the words [prior], and the result. *)
Definition answer (prior : list bytes) (w : bytes) : bytes * bool :=
  if bool_decide (B "-x" ∈ prior) then nothing
  else
    match prior with
    | [_] => (printed (List.filter (starts_with w) RAPIDO_CMDS), true)
    | _ :: cmd :: params =>
        if negb (bool_decide (cmd = B "cut")) then nothing
        else
          match reverse params with
          | [] => any_param w false
          | prev :: before =>
              if bool_decide (prev = B "-f") then
                match bash_output (B "compgen -o filenames -A file -- " ++ w) with
                | Ok o => o | _ => nothing
                end
              else if bool_decide (prev = B "-B") then any_param w true
              else
                match before with
                | p :: _ => if bool_decide (p = B "-f")
                            then any_param w (bool_decide (B "-B" ∈ prior)) else nothing
                | [] => nothing
                end
          end
    | [] => nothing
    end.
End Answer.

(** ** Facts on strings *)

(** ASCII without NUL, as the shell passes it here. *)
Definition plain_byte (c : Z) : Prop := 0 < c < 128.

#[export] Instance plain_byte_dec c : Decision (plain_byte c).
Proof. unfold plain_byte. apply _. Defined.

Definition blank (c : Z) : Prop := is_whitespace [c] = true.

Lemma ascii_no_cont s d : Forall ascii_ok s -> head s = Some d -> utf8_cont d = false.
Proof.
  intros Hs Hd. destruct s as [|c s]; [done|]. injection Hd as <-. apply Forall_cons in Hs as [Hc _].
  unfold utf8_cont, ascii_ok in *. apply in_range_not. lia.
Qed.

Lemma chars_ascii s : Forall ascii_ok s -> chars s = (fun c => [c]) <$> s.
Proof.
  induction 1 as [|c s Hc Hs IH]; [done|]. rewrite chars_ascii_cons, IH; [done|done|].
  intros d. by apply ascii_no_cont.
Qed.

Lemma words_Forall (P : Z -> Prop) cs : Forall (Forall P) cs -> Forall (Forall P) (words cs).
Proof.
  induction 1 as [|c cs Hc _ IH]; [by repeat constructor|]. simpl. destruct (is_whitespace c); [by constructor|].
  destruct (words cs) as [|p ps]; [by repeat constructor|]. apply Forall_cons in IH as [Hp Hps].
  constructor; [|done]. by apply Forall_app_2.
Qed.

Lemma split_whitespace_Forall (P : Z -> Prop) s : Forall ascii_ok s -> Forall P s ->
  Forall (Forall P) (split_whitespace s).
Proof.
  intros Ha Hs. unfold split_whitespace. rewrite chars_ascii by done.
  assert (Forall (Forall P) (words ((fun c => [c]) <$> s))) as Hw.
  { apply words_Forall, Forall_fmap. eapply Forall_impl; [exact Hs|]. intros c Hc. by apply Forall_singleton. }
  rewrite Forall_forall in Hw |- *. intros w [Hin _]%list_elem_of_In%filter_In. apply Hw.
  by apply list_elem_of_In.
Qed.

(** A blank separates the words before it from those after it. *)
Lemma split_at_blank a c b : Forall ascii_ok (a ++ c :: b) -> blank c ->
  split_whitespace (a ++ c :: b) = split_whitespace a ++ split_whitespace b.
Proof.
  intros Ha Hc. pose proof Ha as [Ha1 [_ Ha2]%Forall_cons]%Forall_app. unfold split_whitespace.
  rewrite !chars_ascii by done. rewrite fmap_app, fmap_cons, words_app_space by done.
  apply List.filter_app.
Qed.

Lemma split_before before x : Forall ascii_ok (before ++ x) ->
  before = [] \/ (exists b c, before = b ++ [c] /\ blank c) ->
  split_whitespace (before ++ x) = split_whitespace before ++ split_whitespace x.
Proof.
  intros Ha [->|(b & c & -> & Hc)]; [done|]. rewrite <-app_assoc in Ha |- *. cbn [app] in Ha |- *.
  rewrite !split_at_blank by (done || (apply Forall_app in Ha as [? [? _]%Forall_cons];
    apply Forall_app_2; [done|by constructor])).
  change (split_whitespace []) with (@nil bytes). by rewrite app_nil_r.
Qed.

Lemma split_after x after : Forall ascii_ok (x ++ after) ->
  after = [] \/ (exists c a, after = c :: a /\ blank c) ->
  split_whitespace (x ++ after) = split_whitespace x ++ split_whitespace after.
Proof.
  intros Ha [->|(c & a & -> & Hc)]; [by rewrite !app_nil_r|].
  rewrite split_at_blank by done. f_equal. symmetry. apply (split_at_blank [] c a); [|done].
  by apply Forall_app in Ha as [_ Ha].
Qed.

Definition no_nul (s : bytes) : Prop := Forall (fun c => c <> NUL) s.

Lemma contains_nul_false s : no_nul s -> contains [NUL] s = false.
Proof.
  induction 1 as [|c s Hc _ IH]; [done|]. simpl. rewrite IH, orb_false_r.
  unfold starts_with. simpl. unfold NUL in *. by destruct c.
Qed.

Lemma contains_nul_true a b : contains [NUL] (a ++ NUL :: b) = true.
Proof. induction a as [|c a IH]; [done|]. simpl. rewrite IH. apply orb_true_r. Qed.

Lemma replace_nul_id t s : no_nul s -> replace NUL t s = s.
Proof.
  unfold replace. induction 1 as [|c s Hc _ IH]; [done|]. rewrite fmap_cons. simpl. rewrite IH.
  by destruct (Z.eqb_spec c NUL).
Qed.

Lemma replace_nul a t b : no_nul a -> no_nul b -> replace NUL t (a ++ NUL :: b) = a ++ t ++ b.
Proof.
  intros Ha Hb. unfold replace. rewrite fmap_app, fmap_cons, concat_app. simpl.
  fold (replace NUL t a). fold (replace NUL t b). by rewrite !replace_nul_id by done.
Qed.

(** ** Printing *)

Lemma printed_app a b : printed (a ++ b) = printed a ++ printed b.
Proof. unfold printed. by rewrite fmap_app, concat_app. Qed.

Lemma println_vector l d : println l (MkVector d) = (Ok tt, MkVector (d ++ printed [l])).
Proof.
  unfold println, print_all, sbind, printed. cbn. rewrite app_nil_r. by rewrite <-app_assoc.
Qed.

Lemma complete_filter_vector options f d :
  complete_filter options f (MkVector d) =
  (Ok tt, MkVector (d ++ printed (List.filter (starts_with f) options))).
Proof.
  revert d. induction options as [|o options IH]; intros d; [by rewrite app_nil_r|].
  cbn [complete_filter List.filter]. destruct (starts_with f o).
  - rewrite (sbind_ok _ _ _ _ _ (println_vector o d)), IH, <-app_assoc. by rewrite <-printed_app.
  - apply IH.
Qed.

Section Cut.
Context (cut_ls : io (list (io bytes))) (bash_output : bytes -> io (bytes * bool)).
Context (Hcut : cut_ls <> Panic) (Hents : forall ents, cut_ls = Ok ents -> Forall (fun e => e <> Panic) ents).
Context (Hbash : forall cmd, bash_output cmd <> Panic).

(** Print [b] and return [ok]. *)
Definition gives_answer (c : Out (W := Vector) bool) (a : bytes * bool) : Prop :=
  forall d, c (MkVector d) = (Ok (snd a), MkVector (d ++ fst a)).

Lemma complete_scripts_vector ents f : Forall (fun e => e <> Panic) ents ->
  gives_answer (complete_scripts ents f)
    (printed (List.filter (starts_with f) (omap script_name (fst (readable ents)))), snd (readable ents)).
Proof using.
  intros He d. revert d. induction He as [|e ents He _ IH]; intros d; [cbn; by rewrite app_nil_r|].
  destruct e as [e|er|]; [|cbn; by rewrite app_nil_r|done].
  cbn [complete_scripts readable]. destruct (readable ents) as [es ok]. cbn [fst snd] in *.
  change (omap script_name (e :: es)) with
    (match script_name e with Some y => y :: omap script_name es | None => omap script_name es end).
  destruct (script_name e) as [n|]; [|apply IH]. cbn [List.filter].
  destruct (starts_with f n); [|apply IH].
  rewrite (sbind_ok _ _ _ _ _ (println_vector n d)), IH, <-app_assoc. by rewrite <-printed_app.
Qed.

Lemma complete_names_vector w : gives_answer (complete_cut_script_name cut_ls w)
  (printed (List.filter (starts_with w) (fst (scripts cut_ls))), snd (scripts cut_ls)).
Proof using Hcut Hents.
  intros d. unfold complete_cut_script_name, scripts. destruct cut_ls as [ents|e|] eqn:Hc; [| |done].
  - pose proof (complete_scripts_vector ents w (Hents ents eq_refl)) as Hs.
    destruct (readable ents) as [es ok]. apply Hs.
  - cbn. by rewrite app_nil_r.
Qed.

Lemma complete_any_vector w seen_b :
  gives_answer (complete_cut_any_param cut_ls w seen_b) (any_param cut_ls w seen_b).
Proof using Hcut Hents.
  intros d. unfold complete_cut_any_param, any_param. cbn [fst snd].
  rewrite app_assoc, List.filter_app, printed_app, app_assoc.
  destruct seen_b; rewrite (sbind_ok _ _ _ _ _ (complete_filter_vector _ w d)); apply complete_names_vector.
Qed.

Lemma complete_local_vector w : gives_answer (complete_local_file bash_output w)
  (match bash_output (B "compgen -o filenames -A file -- " ++ w) with Ok o => o | _ => nothing end).
Proof using Hbash.
  intros d. unfold complete_local_file. pose proof (Hbash (B "compgen -o filenames -A file -- " ++ w)) as Hn.
  destruct (bash_output _) as [[o ok]|e|]; [done| |done]. cbn. by rewrite app_nil_r.
Qed.

Lemma nothing_vector : gives_answer (sret false) nothing.
Proof using. intros d. cbn. by rewrite app_nil_r. Qed.

Lemma complete_cut_vector a params w :
  B "-x" ∉ a :: B "cut" :: params ->
  gives_answer (complete_cut cut_ls bash_output (a :: B "cut" :: params) w
                  (bool_decide (B "-B" ∈ a :: B "cut" :: params)))
    (answer cut_ls bash_output (a :: B "cut" :: params) w).
Proof using Hcut Hents Hbash.
  intros Hx d. unfold answer. rewrite (bool_decide_eq_false_2 (B "-x" ∈ _)) by done.
  rewrite (bool_decide_eq_true_2 (B "cut" = B "cut")) by done. cbn [negb].
  unfold complete_cut. change ((a :: B "cut" :: params) !! 1%nat) with (Some (B "cut")).
  unfold unwrap, sbind, slift. rewrite (bool_decide_eq_true_2 (B "cut" = B "cut")) by done.
  unfold sassert, sret at 1. set (seen := bool_decide (B "-B" ∈ _)).
  destruct params as [|prev before _] using rev_ind.
  { cbn [length Nat.eqb reverse]. apply complete_any_vector. }
  rewrite reverse_snoc.
  assert ((length (a :: B "cut" :: before ++ [prev]) =? 2) = false)%nat as ->
    by (apply Nat.eqb_neq; cbn [length]; rewrite length_app; cbn [length]; lia).
  change (a :: B "cut" :: before ++ [prev]) with ((a :: B "cut" :: before) ++ [prev]) at 1.
  rewrite last_snoc. case_bool_decide; [by apply complete_local_vector|].
  rewrite (bool_decide_eq_false_2 (prev = B "-x")).
  2:{ intros ->. apply Hx. rewrite !elem_of_cons, elem_of_app, list_elem_of_singleton. tauto. }
  case_bool_decide; [by apply complete_any_vector|].
  destruct before as [|p before _] using rev_ind; [apply nothing_vector|]. rewrite reverse_snoc.
  assert ((length (a :: B "cut" :: (before ++ [p]) ++ [prev]) <=? 3) = false)%nat as ->
    by (apply Nat.leb_gt; cbn [length]; rewrite !length_app; cbn [length]; lia).
  assert ((a :: B "cut" :: (before ++ [p]) ++ [prev]) !!
    (length (a :: B "cut" :: (before ++ [p]) ++ [prev]) - 2)%nat = Some p) as ->.
  { change (a :: B "cut" :: (before ++ [p]) ++ [prev]) with ((a :: B "cut" :: before ++ [p]) ++ [prev]).
    change (a :: B "cut" :: before ++ [p]) with ((a :: B "cut" :: before) ++ [p]).
    rewrite !length_app. cbn [length]. rewrite <-app_assoc.
    apply list_lookup_middle. cbn [length]. lia. }
  case_bool_decide; [by apply complete_any_vector|apply nothing_vector].
Qed.

(** The loop, up to the word under the cursor. *)
Lemma complete_words_vector tok pre m rest args w : Forall no_nul pre -> m <> B "-x" ->
  complete_nil_arg_under_cursor m tok = Ok (w, true) -> B "-x" ∉ args ->
  gives_answer (complete_words cut_ls bash_output tok (pre ++ m :: rest) args (bool_decide (B "-B" ∈ args)))
    (answer cut_ls bash_output (args ++ pre) w).
Proof using Hcut Hents Hbash.
  intros Hpre Hm Hw. revert args. induction Hpre as [|s pre Hs _ IH]; intros args Hargs d.
  - rewrite app_nil_r. cbn [app complete_words]. rewrite (bool_decide_eq_false_2 (m = _)) by done.
    unfold sbind at 1, slift at 1. rewrite Hw.
    destruct args as [|a [|cmd params]]; cbn [length].
    + unfold answer. rewrite (bool_decide_eq_false_2 (B "-x" ∈ _)) by done. apply nothing_vector.
    + rewrite (sbind_ok _ _ _ _ _ (complete_filter_vector _ w d)). unfold answer.
      by rewrite (bool_decide_eq_false_2 (B "-x" ∈ _)) by done.
    + change ((a :: cmd :: params) !! 1%nat) with (Some cmd). cbn [unwrap]. unfold sbind, slift.
      case_bool_decide as Hc; [subst cmd; by apply complete_cut_vector|].
      unfold answer.
      rewrite (bool_decide_eq_false_2 (B "-x" ∈ _)), (bool_decide_eq_false_2 (cmd = _)) by done. apply nothing_vector.
  - cbn [app complete_words]. case_bool_decide as Hx.
    + subst s. unfold answer. rewrite bool_decide_eq_true_2; [apply nothing_vector|].
      rewrite elem_of_app, elem_of_cons. tauto.
    + unfold sbind at 1, slift at 1, complete_nil_arg_under_cursor.
      rewrite contains_nul_false by done. specialize (IH (args ++ [s])).
      rewrite <-app_assoc in IH. cbn [app] in IH.
      assert (bool_decide (B "-B" ∈ args) || bool_decide (s = B "-B") = bool_decide (B "-B" ∈ args ++ [s])) as ->.
      { apply eq_bool_prop_intro. rewrite orb_True, !bool_decide_spec, elem_of_app, list_elem_of_singleton.
        split; intros [?|?]; auto. }
      apply IH. rewrite elem_of_app, list_elem_of_singleton. intros [?|?]; [done|congruence].
Qed.
End Cut.

(** ** The whole program *)

Definition at_words (before : bytes) : Prop := before = [] \/ exists b c, before = b ++ [c] /\ blank c.
Definition after_words (after : bytes) : Prop := after = [] \/ exists c a, after = c :: a /\ blank c.

Lemma plain_ascii_ok s : Forall plain_byte s -> Forall ascii_ok s.
Proof. intros Hs. eapply Forall_impl; [exact Hs|]. unfold plain_byte, ascii_ok. simpl. lia. Qed.

Lemma plain_no_nul s : Forall plain_byte s -> no_nul s.
Proof. intros Hs. eapply Forall_impl; [exact Hs|]. unfold plain_byte, NUL. simpl. lia. Qed.

Lemma not_space_blank c : ascii_ok c -> not_space_byte c = true -> is_whitespace [c] = false.
Proof. intros _. apply not_space_byte_spec. Qed.

Lemma boundary_ascii s i : Forall ascii_ok s -> (i <= length s)%nat -> is_char_boundary s i = true.
Proof.
  intros Hs Hi. unfold is_char_boundary. destruct (s !! i) as [b|] eqn:Hb.
  - apply orb_true_iff. right. apply list_elem_of_lookup_2 in Hb. rewrite Forall_forall in Hs.
    specialize (Hs _ Hb). unfold utf8_cont, ascii_ok in *. apply negb_true_iff, in_range_not. lia.
  - apply lookup_ge_None in Hb. apply Nat.eqb_eq. lia.
Qed.

(** Marking the cursor on a character of an ASCII line. *)
Lemma mark_ascii a c b : Forall ascii_ok (a ++ c :: b) ->
  mark_cursor (a ++ c :: b) (length a) =
  Ok (if is_whitespace [c] then (a ++ NUL :: SPACE :: b, None) else (a ++ NUL :: b, Some [c])).
Proof.
  intros Hs. unfold mark_cursor. rewrite chars_ascii, list_lookup_fmap, list_lookup_middle by done.
  cbn [fmap option_fmap option_map]. unfold replace_range1.
  rewrite !boundary_ascii by (try done; rewrite length_app; cbn [length]; lia). cbn [andb].
  rewrite take_app_length, (drop_app_ge _ _ (S (length a))) by lia.
  replace (S (length a) - length a)%nat with 1%nat by lia. by destruct (is_whitespace [c]).
Qed.

Lemma mark_end s n : Forall ascii_ok s -> (length s <= n)%nat -> mark_cursor s n = Ok (s ++ [NUL], None).
Proof.
  intros Hs Hn. unfold mark_cursor. rewrite chars_ascii, list_lookup_fmap by done.
  by rewrite lookup_ge_None_2.
Qed.

(** The words of a line with a mark in one of them. *)
Lemma split_marked before w1 w2 after :
  Forall ascii_ok (before ++ (w1 ++ NUL :: w2) ++ after) -> at_words before -> after_words after ->
  Forall (fun c => not_space_byte c = true) (w1 ++ w2) ->
  split_whitespace (before ++ (w1 ++ NUL :: w2) ++ after)
  = split_whitespace before ++ (w1 ++ NUL :: w2) :: split_whitespace after.
Proof.
  intros Ha Hb Hc Hw. rewrite split_before by done. apply Forall_app in Ha as [_ Ha].
  rewrite split_after by done. f_equal. apply Forall_app in Ha as [Ha _].
  rewrite split_whitespace_word; [done|]. apply Forall_app in Hw as [Hw1 Hw2]. split_and!.
  - by intros [_ [=]]%app_nil.
  - apply Forall_app_2; [done|]. by constructor.
  - intros d. by apply ascii_no_cont.
Qed.

Lemma nil_arg_some c w1 w2 : no_nul (w1 ++ w2) ->
  complete_nil_arg_under_cursor (w1 ++ NUL :: w2) (Some [c]) = Ok (w1 ++ c :: w2, true).
Proof.
  intros [H1 H2]%Forall_app. unfold complete_nil_arg_under_cursor. rewrite contains_nul_true.
  by rewrite replace_nul.
Qed.

Lemma nil_arg_none w1 : complete_nil_arg_under_cursor (w1 ++ [NUL]) None = Ok (w1, true).
Proof. unfold complete_nil_arg_under_cursor. by rewrite contains_nul_true, strip_suffix_app. Qed.

Lemma marked_not_x w1 w2 : w1 ++ NUL :: w2 <> B "-x".
Proof.
  intros Heq. assert (NUL ∈ B "-x") as Hin by (rewrite <-Heq, elem_of_app, elem_of_cons; auto).
  change (B "-x") with [45; 120] in Hin. rewrite !elem_of_cons, elem_of_nil in Hin. unfold NUL in Hin. lia.
Qed.

(** The marked line of a cursor on, or just behind, a word. *)
Lemma mark_word before w1 w2 after :
  Forall plain_byte (before ++ (w1 ++ w2) ++ after) -> after_words after ->
  Forall (fun c => not_space_byte c = true) (w1 ++ w2) -> exists w2' after' tok,
    mark_cursor (before ++ (w1 ++ w2) ++ after) (length before + length w1)
      = Ok (before ++ (w1 ++ NUL :: w2') ++ after', tok) /\
    Forall plain_byte (before ++ (w1 ++ w2') ++ after') /\ after_words after' /\
    Forall (fun c => not_space_byte c = true) (w1 ++ w2') /\
    complete_nil_arg_under_cursor (w1 ++ NUL :: w2') tok = Ok (w1 ++ w2, true).
Proof.
  intros Hp Ha Hw. rewrite <-length_app. pose proof (plain_ascii_ok _ Hp) as Hasc.
  destruct w2 as [|c w2].
  - rewrite app_nil_r in *. rewrite app_assoc in Hasc |- *. destruct Ha as [->|(c & a & -> & Hc)].
    + rewrite app_nil_r in *. exists [], [], None. rewrite mark_end by done. rewrite !app_nil_r.
      split; [by rewrite <-app_assoc|]. split_and!; [done|by left|done|apply nil_arg_none].
    + exists [], (SPACE :: a), None. rewrite mark_ascii by done. rewrite Hc. rewrite app_nil_r.
      split; [by rewrite <-!app_assoc|]. split_and!; [|right; by exists SPACE, a|done|apply nil_arg_none].
      rewrite !Forall_app, Forall_cons in Hp |- *. destruct Hp as (? & ? & ? & ?). by repeat split.
  - exists w2, after, (Some [c]).
    assert (before ++ (w1 ++ c :: w2) ++ after = (before ++ w1) ++ c :: (w2 ++ after)) as Heq
      by by rewrite <-!app_assoc.
    rewrite Heq in Hasc |- *. rewrite mark_ascii by done.
    apply Forall_app in Hw as [Hw1 [Hwc Hw2]%Forall_cons].
    rewrite not_space_byte_spec by done. split; [by rewrite <-!app_assoc|].
    assert (Forall plain_byte (before ++ (w1 ++ w2) ++ after)) as Hp'.
    { rewrite !Forall_app, Forall_cons in Hp. rewrite !Forall_app. tauto. }
    split_and!; [done|done|by apply Forall_app_2|]. apply nil_arg_some, plain_no_nul.
    rewrite !Forall_app in Hp'. rewrite Forall_app. tauto.
Qed.

(** C18. Completion is that of the word the cursor is on or just behind: on an ASCII
    line, whatever the position within the word and whatever follows it, the
    program prints what the reference [answer] says for the words before it: the
    subcommands with the prefix after the first word; after "cut" the options and
    the scripts with the prefix, without "-B" when it was given; the file names
    of bash after "-f"; nothing after "-x" or another word. It does not panic. *)
Theorem complete_at_cursor cut_ls bash_output before w1 w2 after d :
  cut_ls <> Panic -> (forall ents, cut_ls = Ok ents -> Forall (fun e => e <> Panic) ents) ->
  (forall cmd, bash_output cmd <> Panic) ->
  Forall plain_byte (before ++ (w1 ++ w2) ++ after) -> at_words before -> after_words after ->
  Forall (fun c => not_space_byte c = true) (w1 ++ w2) ->
  complete_rapido cut_ls bash_output (before ++ (w1 ++ w2) ++ after) (length before + length w1)
    (MkVector d) =
  (Ok (snd (answer cut_ls bash_output (split_whitespace before) (w1 ++ w2))),
   MkVector (d ++ fst (answer cut_ls bash_output (split_whitespace before) (w1 ++ w2)))).
Proof.
  intros Hcut Hents Hbash Hp Hb Ha Hw.
  destruct (mark_word _ _ _ _ Hp Ha Hw) as (w2' & after' & tok & Hm & Hp' & Ha' & Hw' & Hn).
  unfold complete_rapido. unfold sbind, slift. rewrite Hm. cbn [rbind].
  rewrite split_marked; [| |done..].
  - pose proof Hp' as [Hpb _]%Forall_app.
    apply (complete_words_vector _ _ Hcut Hents Hbash tok (split_whitespace before) _ _ []);
      [|apply marked_not_x|done|by apply not_elem_of_nil].
    apply split_whitespace_Forall; [by apply plain_ascii_ok|by apply plain_no_nul].
  - rewrite !Forall_app in Hp' |- *. rewrite Forall_cons. destruct Hp' as (H1 & [H2 H3] & H4).
    split_and!; first [by apply plain_ascii_ok | unfold ascii_ok, NUL; lia].
Qed.

Lemma complete_at_cursor_witness :
  complete_rapido sample_cut (fun _ => Ok (B "whatever" ++ [NL], true))
    (B "rapido cut -B " ++ (B "f" ++ B "s") ++ B " x") 15 (MkVector [])
  = (Ok true, MkVector (B "fstests" ++ [NL])).
Proof.
  apply (complete_at_cursor sample_cut (fun _ => Ok (B "whatever" ++ [NL], true))
           (B "rapido cut -B ") (B "f") (B "s") (B " x") []).
  - done.
  - intros ents [= <-]. by repeat constructor.
  - done.
  - apply (bool_decide_unpack (Forall plain_byte _)). vm_compute. exact I.
  - right. exists (B "rapido cut -B"), SPACE. by split.
  - right. exists SPACE, (B "x"). by split.
  - apply (bool_decide_unpack (Forall (fun c => not_space_byte c = true) _)). vm_compute. exact I.
Defined.
