(* ===== verification/CutImage.v ===== *)
(** * The image rapido-cut writes

    Whatever the manifests, a successful run of rapido-cut has written a whole
    archive: a sequence of complete entries and the trailer. This is shown for
    every step of the tool, those that catch errors included: an error is only
    caught when no entry was begun. The image is the one rapido-vm boots. *)

From S2P Require Import Prelude RustStr RustPath RustIo KvConf Cpio CpioWalk CpioArchive CpioSim Host Kmod.
From S2P Require Import RapidoLib Cut CutFind CutKmods CutManifest Argument CutProgram Vm VmSpec.

(** ** Computations over the archive *)

(** The error the tool catches. *)
Definition not_found (e : io_error) : Prop := kind e = NotFound.

(** Writing and reading an open file never reports a missing file. *)
Definition write_sane (W : Type) `{Write W} : Prop :=
  forall b (w : W) e w', write_all b w = (Err e, w') -> ~ not_found e.
Definition read_sane (r : Reader) : Prop := forall e, rd_err r = Some e -> ~ not_found e.

Section Tame.
Context {W : Type} `{Write W} (Hw : write_sane W).

(** The properties of the archive stay, and no error is a missing file. *)
Definition tame {A} (c : Arch W A) : Prop := forall st w,
  match c (st, w) with
  | (r, (st', _)) => props st' = props st /\ forall e, r = Err e -> ~ not_found e
  end.

Lemma tame_ret {A} (r : io A) : (forall e, r = Err e -> ~ not_found e) -> tame (slift r).
Proof using. by intros Hr st w. Qed.
Lemma tame_sret {A} (a : A) : tame (sret a).
Proof using. by apply (tame_ret (Ok a)). Qed.
Lemma tame_sfail {A} e : ~ not_found e -> tame (@sfail _ _ A e).
Proof using. intros He. apply (tame_ret (Err e)). by intros e' [= <-]. Qed.
Lemma tame_state : tame get_state.
Proof using. by intros st w. Qed.
Lemma tame_ino : tame next_ino.
Proof using. by intros st w. Qed.
Lemma tame_off n : tame (add_off n).
Proof using. by intros st w. Qed.
Lemma tame_assert b : tame (sassert b).
Proof using. by destruct b; intros st w. Qed.

Lemma tame_emit b : tame (emit b).
Proof using Hw.
  intros st w. unfold emit. destruct (write_all b w) as [r w'] eqn:He. split; [done|].
  intros e ->. by eapply Hw.
Qed.

Lemma tame_bind {A C} (c : Arch W A) (f : A -> Arch W C) : tame c -> (forall a, tame (f a)) -> tame (sbind c f).
Proof using.
  intros Hc Hf st w. specialize (Hc st w). unfold sbind.
  destruct (c (st, w)) as [[a|e|] [st1 w1]]; destruct Hc as [Hp He].
  - specialize (Hf a st1 w1). destruct (f a (st1, w1)) as [r [st2 w2]]. by rewrite <-Hp.
  - split; [done|]. intros e' [= <-]. by apply He.
  - by split.
Qed.
End Tame.

#[export] Hint Resolve tame_sret tame_state tame_ino tame_off tame_assert tame_emit : rapido.

Ltac tame_step :=
  repeat first
    [ progress auto with rapido
    | match goal with
      | |- tame (sbind _ _) => apply tame_bind; [|let x := fresh "x" in intros x]
      | |- tame (sfail _) => by apply tame_sfail
      | |- tame (if ?b then _ else _) => destruct b
      end
    | progress unfold emit_hdr, emit_zeros, emit_padding, name_zeros ].

Section Requests.
Context {W : Type} `{Write W} (Hw : write_sane W).

Lemma trim_sane p e : path_trim_prefixes p = Err e -> ~ not_found e.
Proof using. unfold path_trim_prefixes. destruct (_ <=? _); [by intros [= <-]|done]. Qed.

Lemma seek_sane st fname md e : data_align_seek st fname md = Err e -> ~ not_found e.
Proof using.
  unfold data_align_seek. destruct (_ && _); [|done]. destruct (_ <? _); [done|]. by destruct (u32_try_from _).
Qed.

Lemma tame_copy md rd : read_sane rd -> tame (W := W) (copy_data md rd).
Proof using Hw.
  intros Hr. unfold copy_data. destruct (0 <? len md); [|apply tame_sret]. apply tame_bind.
  - intros st w. unfold io_copy. destruct (write_all (rd_data rd) w) as [[[]|e|] w'] eqn:He; [|split; [done|]..].
    + destruct (rd_err rd) as [e|] eqn:Hrd; (split; [done|]); [|done]. intros e' [= <-]. by apply Hr.
    + intros e' [= <-]. by eapply Hw.
    + done.
  - intros n. destruct (negb _); tame_step.
Qed.

Lemma tame_request q : match q with ReqFile _ _ rd => read_sane rd | _ => True end ->
  tame (W := W) (run_request q).
Proof using Hw.
  destruct q as [p md|p md tgt|p md rd]; intros Hq; simpl;
    unfold archive_path, archive_symlink, archive_file; (apply tame_bind; [apply tame_ret; intros e; apply trim_sane|]);
    intros fname.
  - tame_step.
  - tame_step.
  - destruct (negb _); [by apply tame_sfail|]. apply tame_bind; [apply tame_state|intros st].
    apply tame_bind; [apply tame_ret; intros e; apply seek_sane|intros seek]. tame_step. by apply tame_copy.
Qed.
End Requests.

(** ** Computations of the tool *)

(** Metadata as stat delivers it, files whose reading does not report a missing
    file. *)
Record host_sane (host : Host) : Prop := {
  hs_metadata : forall p md, host_metadata host p = Ok md -> stat_ok md;
  hs_symlink_metadata : forall p md, host_symlink_metadata host p = Ok md -> stat_ok md;
  hs_open : forall p r, host_open host p = Ok r -> read_sane r;
}.

Section Writes.
Context {W : Type} `{Write W} (Hw : write_sane W).
Implicit Types s : CutState W.

(** Whole entries were written between [s] and [s']. *)
Definition goes s s' : Prop := exists qs, run_requests qs (arch s) = (Ok tt, arch s') /\
  Forall req_ok qs /\ props (cpio_state s') = props (cpio_state s).

(** A success, and an error that may be caught, leave whole entries. *)
Definition writes {A} (c : Cut W A) : Prop := forall s, props (cpio_state s) = cut_props ->
  match c s with
  | (Ok _, s') => goes s s'
  | (Err (Io e), s') => not_found e -> goes s s'
  | _ => True
  end.

Lemma goes_same s s' : arch s' = arch s -> goes s s'.
Proof using. intros Ha. exists []. rewrite Ha. injection Ha as -> _. by split_and!. Qed.

Lemma run_requests_seq qs1 qs2 (a a1 a2 : ArchiveState * W) :
  run_requests qs1 a = (Ok tt, a1) -> run_requests qs2 a1 = (Ok tt, a2) ->
  run_requests (qs1 ++ qs2) a = (Ok tt, a2).
Proof using.
  revert a. induction qs1 as [|q qs1 IH]; intros a; simpl; [by intros [= <-]|].
  intros ([] & a' & Hq & H1)%sbind_inv_ok H2. rewrite (sbind_ok _ _ _ _ _ Hq). by apply IH.
Qed.

Lemma goes_trans s1 s2 s3 : goes s1 s2 -> goes s2 s3 -> goes s1 s3.
Proof using.
  intros (qs1 & Hr1 & Hq1 & Hp1) (qs2 & Hr2 & Hq2 & Hp2). exists (qs1 ++ qs2).
  split; [by eapply run_requests_seq|]. split; [by apply Forall_app_2|congruence].
Qed.

Lemma goes_props s s' : goes s s' -> props (cpio_state s) = cut_props -> props (cpio_state s') = cut_props.
Proof using. intros (qs & _ & _ & Hp) Hs. congruence. Qed.

Lemma w_same {A} (c : Cut W A) : (forall s, arch (snd (c s)) = arch s) -> writes c.
Proof using.
  intros Hc s _. specialize (Hc s). destruct (c s) as [[a|[e|]|] s']; simpl in Hc; try done; intros;
    by apply goes_same.
Qed.

Lemma w_sret {A} (a : A) : writes (sret a).
Proof using. by apply w_same. Qed.
Lemma w_cfail {A} e : writes (cfail e : Cut W A).
Proof using. by apply w_same. Qed.
Lemma w_sfail {A} e : writes (@sfail _ _ A e : Cut W A).
Proof using. by apply w_same. Qed.
Lemma w_spanic {A} : writes (spanic : Cut W A).
Proof using. by apply w_same. Qed.
Lemma w_sget : writes (sget : Cut W (CutState W)).
Proof using. by apply w_same. Qed.
Lemma w_clift {A} (r : io A) : writes (clift r : Cut W A).
Proof using. by apply w_same. Qed.
Lemma w_assert b : writes (sassert b : Cut W unit).
Proof using. apply w_same. by destruct b. Qed.
Lemma w_contains p : writes (paths_contains (W := W) p).
Proof using. by apply w_same. Qed.
Lemma w_insert p : writes (paths_insert (W := W) p).
Proof using. by apply w_same. Qed.
Lemma w_modify f : (forall s, arch (f s) = arch s) -> writes (smodify f : Cut W unit).
Proof using. intros Hf. by apply w_same. Qed.

Lemma w_bind {A C} (c : Cut W A) (f : A -> Cut W C) : writes c -> (forall a, writes (f a)) -> writes (sbind c f).
Proof using.
  intros Hc Hf s Hs. specialize (Hc s Hs). unfold sbind. destruct (c s) as [[a|e|] s1]; [|exact Hc|done].
  specialize (Hf a s1 (goes_props _ _ Hc Hs)). destruct (f a s1) as [[b|[e|]|] s2]; try done.
  - by eapply goes_trans.
  - intros Hn. eapply goes_trans; [exact Hc|auto].
Qed.

(** The result of a function of the system is known afterwards. *)
Lemma w_known {A C} (r : io A) (f : A -> Cut W C) : (forall a, r = Ok a -> writes (f a)) ->
  writes (sbind (clift r) f).
Proof using.
  intros Hf s Hs. unfold clift, slift, sbind. destruct r as [a|e|]; cbn [map_err];
    [|intros; by apply goes_same|done]. by apply (Hf a).
Qed.

(** Metadata of a file are in range for an entry. *)
Lemma w_amd {C} md (f : ArchiveMd -> Cut W C) : stat_ok md -> (forall a, md_ok a -> writes (f a)) ->
  writes (sbind (amd_from md) f).
Proof using.
  intros Hmd Hf s Hs. unfold amd_from, sbind at 1 2, sget, clift, slift.
  pose proof (archive_md_from_cases (cpio_state s) md Hmd) as Hc.
  destruct (archive_md_from (cpio_state s) md) as [a|e|]; cbn [map_err]; [|intros; by apply goes_same|done].
  apply (Hf a); [|done]. apply (mf_ok _ _ _ (Hc ltac:(by rewrite Hs))).
Qed.

(** A request. *)
Lemma w_request q : req_ok q -> match q with ReqFile _ _ rd => read_sane rd | _ => True end ->
  writes (cpio (run_request q)).
Proof using Hw.
  intros Hq Hrd s Hs. pose proof (tame_request Hw q Hrd (cpio_state s) (cpio_writer s)) as Ht.
  unfold cpio. unfold arch. destruct (run_request q (cpio_state s, cpio_writer s)) as [r [st' w']] eqn:Hr.
  destruct Ht as [Hp He]. destruct r as [[]|e|]; cbn [map_err]; [| |done].
  - exists [q]. split_and!; [|by apply Forall_singleton|done]. simpl. unfold arch. simpl.
    by rewrite (sbind_ok _ _ _ _ _ Hr).
  - intros Hn. by destruct (He e eq_refl).
Qed.

Lemma w_path p md : md_ok md -> writes (cpio (archive_path (W := W) p md)).
Proof using Hw. intros Hmd. by apply (w_request (ReqPath p md)). Qed.
Lemma w_symlink p md tgt : md_ok md -> writes (cpio (archive_symlink (W := W) p md tgt)).
Proof using Hw. intros Hmd. by apply (w_request (ReqSymlink p md tgt)). Qed.
Lemma w_file p md rd : md_ok md -> read_sane rd -> writes (cpio (archive_file (W := W) p md rd)).
Proof using Hw. intros Hmd Hrd. by apply (w_request (ReqFile p md rd)). Qed.
End Writes.

#[export] Hint Resolve w_sret w_cfail w_sfail w_spanic w_sget w_clift w_assert w_contains w_insert
  w_path w_symlink w_file : rapido.

(** Walk down the steps of the tool. *)
Ltac wr_step :=
  first
    [ progress eauto with rapido
    | match goal with
      | |- writes (sbind (amd_from _) _) => apply w_amd; [|let a := fresh "amd" in intros a ?]
      | |- writes (sbind (clift _) _) => apply w_known; let a := fresh "x" in intros a ?
      | |- writes (sbind _ _) => apply w_bind; [|let x := fresh "x" in intros x]
      | |- writes (smodify _) => by apply w_modify
      | |- writes (if ?b then _ else _) => destruct b
      end ].
Ltac wr := repeat wr_step.

Lemma u32_lor a b : u32_ok a -> u32_ok b -> u32_ok (Z.lor a b).
Proof.
  intros [Ha1 Ha2] [Hb1 Hb2]. split; [by apply Z.lor_nonneg|].
  destruct (decide (Z.lor a b = 0)) as [->|Hne]; [done|].
  apply Z.log2_lt_pow2; [pose proof (proj2 (Z.lor_nonneg a b)); lia|]. rewrite Z.log2_lor by done.
  apply Z.max_lub_lt.
  - destruct (decide (a = 0)) as [->|]; [done|]. apply Z.log2_lt_pow2; lia.
  - destruct (decide (b = 0)) as [->|]; [done|]. apply Z.log2_lt_pow2; lia.
Qed.

Lemma u32_land a b : u32_ok a -> 0 <= b -> u32_ok (Z.land a b).
Proof.
  intros [Ha1 Ha2] Hb. split; [apply Z.land_nonneg; by left|].
  destruct (decide (Z.land a b = 0)) as [->|Hne]; [done|].
  assert (0 <= Z.land a b) by (apply Z.land_nonneg; by left).
  apply Z.log2_lt_pow2; [lia|]. eapply Z.le_lt_trans; [by apply Z.log2_land|].
  eapply Z.le_lt_trans; [apply Z.le_min_l|]. apply Z.log2_lt_pow2; [|done].
  destruct (decide (a = 0)) as [->|]; [by rewrite Z.land_0_l in Hne|lia].
Qed.

Lemma parent_amd_ok amd : md_ok amd -> md_ok (parent_dirs_amd amd).
Proof.
  intros (_ & Hm & Hu & Hg & Ht & _). unfold parent_dirs_amd, md_ok. cbn [nlink mode uid gid mtime rmajor rminor len].
  split_and!; try done. destruct (is_type _ _); [done|]. apply u32_lor; [|done]. apply u32_lor; [|done].
  by apply u32_land.
Qed.

Lemma small_md_ok m : u32_ok m -> md_ok (default_amd m).
Proof. intros Hm. by split_and!. Qed.

Section Gather.
Context {W : Type} `{Write W} (Hw : write_sane W) (host : Host) (Hhost : host_sane host).
Context (elf_open : bytes -> option Elf) (conf : kvmap).

Lemma w_found (c : Cut W unit) : writes c -> writes (found c).
Proof using.
  intros Hc s Hs. specialize (Hc s Hs). unfold found, sbind, stry.
  destruct (c s) as [[[]|[e|]|] s']; [exact Hc| |done|done]. simpl. case_bool_decide as Hn; [by apply Hc|].
  done.
Qed.

Lemma w_dirs_loop comps here amd : md_ok amd -> writes (gather_dirs_loop (W := W) comps here amd).
Proof using Hw.
  intros Hamd. revert here. induction comps as [|c comps IH]; intros here; cbn [gather_dirs_loop]; [wr|].
  destruct c; [done..| |wr]. destruct (pop here); [done|wr].
Qed.

Lemma w_dirs p amd : md_ok amd -> writes (gather_archive_dirs (W := W) p amd).
Proof using Hw.
  intros Hamd. unfold gather_archive_dirs. destruct p as [p|]; [|wr]. wr. by apply w_dirs_loop, parent_amd_ok.
Qed.
End Gather.

#[export] Hint Resolve w_found w_dirs : rapido.
#[export] Hint Resolve hs_metadata hs_symlink_metadata hs_open : rapido.

Section Operations.
Context {W : Type} `{Write W} (Hw : write_sane W) (host : Host) (Hhost : host_sane host).
Context (elf_open : bytes -> option Elf) (conf : kvmap).

Lemma path_stat_md ent got : path_stat host ent = Ok got -> stat_ok (fs_md got).
Proof using Hhost.
  intros (p & _ & Hm & _)%path_stat_found. by apply (hs_symlink_metadata _ Hhost _ _ Hm).
Qed.

Lemma w_elf_one ent src dst amd : md_ok amd ->
  writes (gather_elf_one (W := W) host elf_open ent src dst amd).
Proof using Hw Hhost.
  intros Hamd. unfold gather_elf_one. destruct (is_type (mode amd) S_IFLNK).
  { destruct ent; wr; destruct (host_canonicalize host src); wr; destruct (from_utf8 _); wr. }
  destruct (_ && _); [|wr; unfold read_dir_sorted; wr].
  apply w_known. intros f Hf. apply w_bind; [|intros deps; wr].
  destruct (_ || _); [|wr]. apply w_same. intros s. unfold sbind, sget.
  by destruct (elf_deps _ _) as [r libs].
Qed.

Lemma w_elf_ent ent : writes (gather_elf_ent (W := W) host elf_open ent).
Proof using Hw Hhost.
  unfold gather_elf_ent. destruct (path_stat host ent) as [got|e|] eqn:Hp; [|by destruct ent; wr|wr].
  apply path_stat_md in Hp. wr. { by apply w_elf_one. } match goal with |- writes (match ?o with _ => _ end) => destruct o end; wr.
Qed.

Lemma w_elfs fuel elfs : writes (gather_archive_elfs (W := W) host elf_open fuel elfs).
Proof using Hw Hhost.
  revert elfs. induction fuel as [|fuel IH]; intros [|ent elfs]; cbn [gather_archive_elfs]; wr. apply w_elf_ent.
Qed.

Lemma w_item_one item amd : md_ok amd -> writes (gather_item_one (W := W) host item amd).
Proof using Hw Hhost. intros Hamd. unfold gather_item_one. wr. Qed.

Lemma w_item item : writes (gather_item (W := W) host item).
Proof using Hw Hhost.
  unfold gather_item. destruct (host_symlink_metadata host _) as [md|e|] eqn:Hm; [|wr..]. wr.
  by apply w_item_one.
Qed.

Lemma w_data fuel items : writes (gather_archive_data (W := W) host fuel items).
Proof using Hw Hhost.
  revert items. induction fuel as [|fuel IH]; intros [|item items]; cbn [gather_archive_data]; wr. apply w_item.
Qed.

Lemma w_kmod_path src dst : writes (archive_kmod_path (W := W) host src dst).
Proof using Hw Hhost. unfold archive_kmod_path. wr. Qed.
Hint Resolve w_kmod_path : core.

Lemma w_hard gk deps : writes (archive_hard_deps (W := W) host gk deps).
Proof using Hw Hhost. induction deps as [|d deps IH]; cbn [archive_hard_deps]; wr. Qed.

Lemma w_soft gk mods : writes (archive_soft_deps (W := W) host gk mods).
Proof using Hw Hhost.
  induction mods as [|m mods IH]; cbn [archive_soft_deps]; [wr|]. destruct (find _ m); wr.
Qed.
Hint Resolve w_hard w_soft : core.

Lemma w_kmod name gk : writes (gather_archive_kmod_and_deps (W := W) host name gk).
Proof using Hw Hhost. unfold gather_archive_kmod_and_deps. destruct (find _ name); wr. Qed.

Lemma w_db dst src files : writes (archive_db_files (W := W) host dst src files).
Proof using Hw Hhost. induction files as [|f files IH]; cbn [archive_db_files]; wr. Qed.
Hint Resolve w_kmod w_db : core.

Lemma w_kmods_init : writes (gather_kmods_init (W := W) host conf).
Proof using Hw Hhost. unfold gather_kmods_init. wr. Qed.

Lemma w_kmod_names gk kmods ign : writes (gather_kmod_names (W := W) host gk kmods ign).
Proof using Hw Hhost. induction kmods as [|k kmods IH]; cbn [gather_kmod_names]; wr. Qed.
Hint Resolve w_kmods_init w_kmod_names : core.

Lemma w_kmods kmods ign : writes (gather_archive_kmods (W := W) host conf kmods ign).
Proof using Hw Hhost. unfold gather_archive_kmods. wr. destruct (cut_gk _); wr. Qed.

Lemma symlink_amd_ok : md_ok symlink_amd.
Proof using. by split_and!. Qed.
Lemma default_ok : md_ok CPIO_AMD_DEFAULT.
Proof using. by split_and!. Qed.
Hint Resolve symlink_amd_ok default_ok small_md_ok : core.

Lemma w_symlinks : writes (populate_default_symlinks (W := W)).
Proof using Hw.
  unfold populate_default_symlinks, default_symlink, archive_kmods_symlink. wr. destruct (_ : bool); wr.
Qed.

(** ** Manifests *)

Lemma w_open_metadata {C} src (f : Reader * Metadata -> Cut W C) :
  (forall rd md, read_sane rd -> stat_ok md -> writes (f (rd, md))) ->
  writes (sbind (open_with_metadata host src) f).
Proof using Hhost.
  intros Hf s Hs. unfold open_with_metadata, clift, slift, sbind.
  destruct (host_open host src) as [rd|e|] eqn:Ho; cbn [map_err]; [|intros; by apply goes_same|done].
  destruct (host_metadata host src) as [md|e|] eqn:Hm; cbn [map_err]; [|intros; by apply goes_same|done].
  apply (Hf rd md); eauto with rapido.
Qed.

Ltac wrm :=
  repeat first
    [ match goal with
      | |- writes (sbind (open_with_metadata _ _) _) =>
          apply w_open_metadata; let rd := fresh "rd" in let md := fresh "md" in intros rd md ? ?
      | |- writes (match ?o with Some _ => _ | None => _ end) => destruct o
      end
    | wr_step ].

Lemma w_manifest_dir name : writes (manifest_dir (W := W) host conf name).
Proof using Hw. unfold manifest_dir. wr; by apply small_md_ok. Qed.

Lemma w_manifest_slink name tgt : writes (manifest_slink (W := W) host conf name tgt).
Proof using Hw. unfold manifest_slink. wr; by apply small_md_ok. Qed.

Lemma w_manifest_file name src : writes (manifest_file (W := W) host conf name src).
Proof using Hw Hhost.
  unfold manifest_file. wrm.
Qed.

Lemma w_manifest_autorun name : writes (manifest_autorun (W := W) host conf name).
Proof using Hw Hhost.
  unfold manifest_autorun. wrm.
Qed.

Lemma w_autorun_all names : writes (autorun_all (W := W) host conf names).
Proof using Hw Hhost. induction names as [|n names IH]; cbn [autorun_all]; wr. apply w_manifest_autorun. Qed.

Lemma w_manifest_tree fuel name src : writes (manifest_tree (W := W) host conf fuel name src).
Proof using Hw Hhost. unfold manifest_tree. wr. apply w_data. Qed.

Lemma w_manifest_entry fuel etype params : writes (fst (manifest_entry (W := W) host elf_open conf fuel etype params)).
Proof using Hw Hhost.
  unfold manifest_entry.
  repeat match goal with |- context [if bool_decide ?P then _ else _] => destruct (bool_decide P) end; cbn [fst].
  - apply w_manifest_dir.
  - apply w_manifest_slink.
  - unfold manifest_include. wr.
  - apply w_manifest_file.
  - unfold manifest_bin. wr. apply w_elfs.
  - unfold manifest_bin. wr. apply w_elfs.
  - unfold manifest_kmod. destruct (head params); wr. apply w_kmods.
  - unfold manifest_kmod. destruct (head params); wr. apply w_kmods.
  - unfold manifest_autoruns. wr. apply w_autorun_all.
  - apply w_manifest_tree.
  - unfold manifest_filter. wr.
  - wr.
Qed.

Lemma w_parse_one fuel line : writes (manifest_parse_one (W := W) host elf_open conf fuel line).
Proof using Hw Hhost.
  unfold manifest_parse_one. destruct (split_whitespace line) as [|etype params]; [wr|].
  destruct (starts_with _ _); [wr|]. pose proof (w_manifest_entry fuel etype params) as He.
  destruct (manifest_entry _ _ _ _ _ _) as [c n]. cbn [fst] in He. wr.
Qed.

Lemma w_loop fuel lines : writes (manifest_loop (W := W) host elf_open conf fuel lines).
Proof using Hw Hhost.
  induction lines as [|lines IH]; cbn [manifest_loop]; apply w_bind; try apply w_sget; intros s;
    destruct (fests s) as [|fest rest]; [wr..|].
  destruct (read_line fest []) as [[[n|e|] fest'] lbuf]; wr. apply w_parse_one.
Qed.

Lemma w_parse fuel lines ms : writes (manifest_parse (W := W) host elf_open conf fuel lines ms).
Proof using Hw Hhost. unfold manifest_parse. wr. apply w_loop. Qed.

(** ** The whole run *)

Definition cf_sane (cf : option (Reader * ArchiveMd)) : Prop :=
  match cf with Some (f, amd) => read_sane f /\ md_ok amd | None => True end.

Lemma cut_conf_sane conf0 cf : cut_conf host (state_new cut_props) = Ok (conf0, cf) -> cf_sane cf.
Proof using Hhost.
  unfold cut_conf. destruct (host_rapido_conf_open _ _) as [[f p]|e|] eqn:Ho; [|by case_bool_decide; intros; simplify_eq|done].
  destruct (host_metadata host p) as [md|e|] eqn:Hm; cbn [rbind]; [|done..].
  pose proof (archive_md_from_cases (state_new cut_props) md (hs_metadata _ Hhost _ _ Hm)) as Hc.
  destruct (archive_md_from _ md) as [a|e|]; cbn [rbind]; [|done..].
  destruct (kv_conf_process_append _ _) as [[[]|e|] c]; [|done..]. intros [= <- <-]. split.
  - apply rapido_conf_opens in Ho. by eapply hs_open.
  - apply (mf_ok _ _ _ (Hc ltac:(done))).
Qed.

Lemma w_entries fuel lines cf ms : cf_sane cf ->
  writes (cut_entries (W := W) host elf_open fuel lines conf cf ms).
Proof using Hw Hhost.
  intros Hcf. unfold cut_entries. apply w_bind; [|intros _].
  - unfold cut_archive_conf. destruct cf as [[f amd]|]; [destruct Hcf|]; wr.
  - wrm; [apply w_parse|apply w_elfs|apply w_kmods|apply w_symlinks].
Qed.

(** A run up to the trailer, and the trailer. *)
Lemma cut_main_archive fuel lines cf ms (w : W) n s' : cf_sane cf ->
  cut_main host elf_open fuel lines conf cf ms (cut_start w) = (Ok n, s') ->
  exists qs w1, archive qs (state_new cut_props, w) = (Ok n, (cpio_state s', w1)) /\
    flush w1 = (Ok tt, cpio_writer s') /\ Forall req_ok qs.
Proof using Hw Hhost.
  intros Hcf Hr. unfold cut_main in Hr. apply sbind_inv_ok in Hr as ([] & s1 & H1 & H2).
  apply sbind_inv_ok in H2 as (m & s2 & H2 & Hr). apply sbind_inv_ok in Hr as ([] & s3 & H3 & [= -> <-]).
  pose proof (w_entries fuel lines cf ms Hcf (cut_start w) eq_refl) as Hc. rewrite H1 in Hc.
  destruct Hc as (qs & Hqs & Hok & _). exists qs, (cpio_writer s2). unfold cpio, flush_writer, arch in H3.
  destruct (flush (cpio_writer s2)) as [[[]|e|] w3]; cbn [map_err] in H3; [|done..]. injection H3 as <-.
  split_and!; [|done|done]. unfold archive.
  change (state_new cut_props, w) with (arch (cut_start w)). rewrite (sbind_ok _ _ _ _ _ Hqs).
  unfold cpio in H2. destruct (archive_trailer (arch s1)) as [[m|e|] a]; cbn [map_err] in H2; [|done..].
  injection H2 as -> <-. by destruct a.
Qed.
End Operations.

(** ** The program *)

(** rapido-cut and rapido-vm read the same configuration. *)
Lemma cut_conf_vm host st c cf : cut_conf host st = Ok (c, cf) -> vm_conf host = Ok c.
Proof.
  unfold cut_conf, vm_conf. destruct (host_rapido_conf_open _ _) as [[f p]|e|]; [|by case_bool_decide; intros; simplify_eq|done].
  destruct (host_metadata host p) as [md|e|]; cbn [rbind]; [|done..].
  destruct (archive_md_from st md) as [a|e|]; cbn [rbind]; [|done..].
  by destruct (kv_conf_process_append f conf_defaults) as [[[]|e|] m]; intros; simplify_eq.
Qed.

(** The output of a run: the one asked for, or the image of the configuration. *)
Definition output_of (st : ArgsState) (conf : kvmap) (out : path) : Prop :=
  match cpio_output_arg st with Some p => out = p | None => conf !! B "DRACUT_OUT" = Some out end.

Lemma cut_program_ok {W} `{Write W} host elf_open debug fuel lines open_out args out len (w' : W) :
  cut_program host elf_open debug fuel lines open_out args = Ok (Some (out, len, w')) ->
  exists st conf cf w0 s', args_process host debug args = Ok st /\
    cut_conf host (state_new cut_props) = Ok (conf, cf) /\ output_of st conf out /\
    open_out out = Ok w0 /\
    cut_main host elf_open fuel lines conf cf (CutProgram.manifests st) (cut_start w0) = (Ok len, s') /\
    cpio_writer s' = w'.
Proof.
  unfold cut_program. destruct (args_process host debug args) as [st|e|]; [|by destruct e|done].
  destruct (cut_conf host _) as [[conf cf]|e|] eqn:Hc; cbn [map_err rbind]; [|done..].
  destruct (cpio_out_open open_out (cpio_output_arg st) conf) as [[o w0]|e|] eqn:Ho; cbn [map_err rbind]; [|done..].
  destruct (cut_main _ _ _ _ _ _ _ _) as [[n|e|] s'] eqn:Hm; cbn [rbind]; [|done..].
  intros [= -> -> <-]. exists st, conf, cf, w0, s'. unfold cpio_out_open in Ho. unfold output_of.
  destruct (cpio_output_arg st) as [p|]; cbn [rbind] in Ho.
  - destruct (open_out p) as [w1|e|] eqn:Hw; cbn [rbind] in Ho; [|done..]. by simplify_eq.
  - destruct (conf !! B "DRACUT_OUT") as [p|] eqn:Hd; cbn [unwrap rbind] in Ho; [|done].
    destruct (open_out p) as [w1|e|] eqn:Hw; cbn [rbind] in Ho; [|done..]. by simplify_eq.
Qed.

(** C1. rapido-cut writes a whole archive. Whatever the arguments, the manifests
    and the system, if the program succeeds its output is a sequence of
    complete entries, none cut short by an error the tool caught on the way, and
    the trailer, and it was flushed; the metadata of the entries are in range, and the length
    reported is the one of the file; every reliable reader gets the
    entries back one by one, unless one has the name of the trailer. Without an
    explicit output the file is the image rapido-vm boots. *)
Theorem cut_image_complete {W} `{WriteOk W} host elf_open debug fuel lines open_out args out len (w' : W) :
  host_sane host -> write_sane W -> (forall p w, open_out p = Ok w -> written w = []) ->
  cut_program host elf_open debug fuel lines open_out args = Ok (Some (out, len, w')) ->
  exists st conf qs w0 st' w1, args_process host debug args = Ok st /\ vm_conf host = Ok conf /\
    output_of st conf out /\ open_out out = Ok w0 /\ Forall req_ok qs /\
    archive qs (state_new cut_props, w0) = (Ok len, (st', w1)) /\ flush w1 = (Ok tt, w') /\
    (Z.of_nat (length qs) < 2 ^ 29 -> Forall req_readable qs ->
     len = zlen (written w') /\
     exists ents, walk collect (S (length qs)) (MkCursor (written w') 0) [] = Some (Ok tt, ents) /\
       Forall2 (fun q e => exists fname, ent_for q e fname) qs ents).
Proof.
  intros Hhost Hw Hempty Hr.
  apply cut_program_ok in Hr as (st & conf & cf & w0 & s' & Hst & Hc & Hout & Ho & Hm & <-).
  pose proof (cut_conf_sane host Hhost conf cf Hc) as Hcf.
  apply (cut_main_archive Hw host Hhost elf_open) in Hm as (qs & w1 & Ha & Hf & Hok); [|done].
  exists st, conf, qs, w0, (cpio_state s'), w1. split_and!; try done; [by eapply cut_conf_vm|].
  intros Hlen Hrd. rewrite (flush_ok _ _ Hf). apply (walk_back qs cut_props w0 _ _ _ (MkCursor (written w1) 0) [] Ha);
    try done; [by eapply Hempty|by rewrite app_nil_r].
Qed.

(** ** An instance *)

(** A host of small regular files. *)
Lemma files_host_sane files : map_Forall (fun _ b => zlen b < 2 ^ 32) files -> host_sane (files_host files).
Proof.
  intros Hf. assert (forall p (b : bytes), files !! p = Some b -> stat_ok (file_metadata b)) as Hs.
  { intros p b Hp. specialize (Hf p b Hp). simpl in Hf. pose proof (zlen_nonneg b). unfold stat_ok, u64_ok.
    cbn. split_and!; try done; lia. }
  split; intros p x Hx; cbn in Hx; unfold files_lookup in Hx; destruct (files !! p) as [b|] eqn:Hp; [|done| |done| |done];
    injection Hx as <-; [by eapply Hs..|done].
Qed.

Lemma vector_sane : write_sane Vector.
Proof. done. Qed.

Module ImageRun.
Definition files : gmap bytes bytes := list_to_map
  [(B "/m.fest", B "dir /rapido-rsc/cpu/4" ++ NL :: B "file /etc/motd /m.fest" ++ [NL]);
   (B "target/release/rapido-init", B "init"); (B "/target/release/rapido-init", B "init"); (RAPIDO_BASH_RC_PATH, B "rc");
   (B "/usr/bin/mount", []); (B "/usr/bin/setsid", []); (B "/usr/bin/bash", B "#"); (B "/usr/bin/stty", []);
   (B "/usr/sbin/modprobe", []); (B "/proc/version", B "Linux version 6.4 x");
   (B "/lib/modules/6.4/modules.builtin", B "kernel/virtio_rng.ko" ++ [NL])].
Definition host : Host := files_host files.
Definition open_out (_ : path) : io Vector := Ok (MkVector []).
Definition args : list bytes := [B "--manifest"; B "/m.fest"].
Definition run : result cut_error (option (path * Z * Vector)) :=
  cut_program host (fun _ => None) (fun _ => []) 20 10 open_out args.
Definition image : Vector := match run with Ok (Some (_, _, w)) => w | _ => MkVector [] end.
End ImageRun.

(** The machine booted from it has the four CPUs of the manifest. *)
Example image_run_resources :
  vm_resources_get (fun _ => Ok (MkCursor (vec_data ImageRun.image) 0)) RAPIDO_DRACUT_OUT
  = Ok (MkRsc 4 (B "512M") false).
Proof. vm_compute. reflexivity. Qed.

Lemma cut_image_complete_witness :
  exists st conf qs w0 st' w1, args_process ImageRun.host (fun _ => []) ImageRun.args = Ok st /\
    vm_conf ImageRun.host = Ok conf /\ output_of st conf RAPIDO_DRACUT_OUT /\
    ImageRun.open_out RAPIDO_DRACUT_OUT = Ok w0 /\ Forall req_ok qs /\
    archive qs (state_new cut_props, w0) = (Ok 3204, (st', w1)) /\ flush w1 = (Ok tt, ImageRun.image) /\
    (Z.of_nat (length qs) < 2 ^ 29 -> Forall req_readable qs ->
     3204 = zlen (written ImageRun.image) /\
     exists ents, walk collect (S (length qs)) (MkCursor (written ImageRun.image) 0) [] = Some (Ok tt, ents) /\
       Forall2 (fun q e => exists fname, ent_for q e fname) qs ents).
Proof.
  apply (cut_image_complete ImageRun.host (fun _ => None) (fun _ => []) 20 10 ImageRun.open_out ImageRun.args
    RAPIDO_DRACUT_OUT 3204 ImageRun.image).
  - apply files_host_sane, (bool_decide_unpack (map_Forall _ _)). vm_compute. exact I.
  - apply vector_sane.
  - by intros p w [= <-].
  - vm_compute. reflexivity.
Defined.
