(* ===== verification/CutPanic.v ===== *)
(** * rapido-cut does not panic

    A computation of the tool is safe when, from a state an archive can go on
    from, it does not panic and leaves such a state, also with an error that is
    caught. The rules follow the monad, for results and for caught errors. What
    can panic are the alignment assertion of the cpio crate, the [expect] and
    [unwrap] calls of the tool, and its check that paths are absolute. *)

From S2P Require Import Prelude RustStr RustPath RustIo KvConf Cpio CpioArchive Host Kmod.
From S2P Require Import RapidoLib Cut CutFind CutKmods CutManifest CutSpec CutElfSpec Argument CutProgram Vm VmSpec CutImage.

(** ** Libraries beside the executable *)

(** [dir] is a run path of the ELF file, and [n] a library it needs. *)
Definition run_needs (file : option Elf) (dir n : bytes) : Prop :=
  match file with
  | Some (MkElf (Some (Some dynamics)) (Some (Some strs))) =>
      dir ∈ omap strs (dyn_vals DT_RUNPATH dynamics) /\ n ∈ omap strs (dyn_vals DT_NEEDED dynamics)
  | _ => False
  end.

(** No library is found through a relative run path: looked up as they are
    written, such paths are below the current directory of the tool. *)
Definition no_relative_library (host : Host) (elf_open : bytes -> option Elf) : Prop :=
  forall p f dir n, host_open host p = Ok f -> run_needs (elf_open (rd_data f)) dir n ->
    is_absolute dir = false -> is_ok (host_symlink_metadata host (join dir n)) = false.

(** ** Calm computations *)

Section Calm.
Context {W : Type} `{WriteOk W} (Hw : write_sane W).
Implicit Types s : CutState W.

(** The archive can go on, and modules go to an absolute directory. *)
Definition ready s : Prop :=
  state_ok (cpio_state s) /\ props (cpio_state s) = cut_props /\
  (forall gk, cut_gk s = Some gk -> is_absolute (kmod_dst_root gk) = true).

Definition safe {A} (c : Cut W A) (P : A -> Prop) : Prop := forall s, ready s ->
  match c s with
  | (Ok a, s') => ready s' /\ P a
  | (Err (Io e), s') => not_found e -> ready s'
  | (Err NoFuel, _) => True
  | (Panic, _) => False
  end.

Abbreviation always := (fun _ => True).

Lemma safe_weaken {A} (c : Cut W A) (P Q : A -> Prop) : safe c P -> (forall a, P a -> Q a) -> safe c Q.
Proof using.
  intros Hc HPQ s Hs. specialize (Hc s Hs). destruct (c s) as [[a|[e|]|] s']; [|done..].
  destruct Hc. by split; [|apply HPQ].
Qed.

Lemma safe_bind {A C} (c : Cut W A) (f : A -> Cut W C) P Q :
  safe c P -> (forall a, P a -> safe (f a) Q) -> safe (sbind c f) Q.
Proof using.
  intros Hc Hf s Hs. specialize (Hc s Hs). unfold sbind.
  destruct (c s) as [[a|[e|]|] s1]; [|done..]. destruct Hc as [Hs1 Ha]. by apply Hf.
Qed.

Lemma safe_sret {A} (a : A) (P : A -> Prop) : P a -> safe (sret a) P.
Proof using. intros Ha s Hs. by split. Qed.
Lemma safe_cfail {A} e (P : A -> Prop) : safe (cfail e) P.
Proof using. by intros s Hs ?. Qed.
Lemma safe_no_fuel {A} (P : A -> Prop) : safe (sfail NoFuel) P.
Proof using. intros s Hs. exact I. Qed.
Lemma safe_contains p : safe (paths_contains p) always.
Proof using. intros s Hs. by split. Qed.
Lemma safe_insert p : safe (paths_insert p) always.
Proof using. intros s Hs. by split. Qed.
Lemma safe_get {C} (f : CutState W -> Cut W C) Q : (forall s, ready s -> safe (f s) Q) -> safe (sbind sget f) Q.
Proof using. intros Hf s Hs. by apply Hf. Qed.
Lemma safe_modify f : (forall s, ready s -> ready (f s)) -> safe (smodify f) always.
Proof using. intros Hf s Hs. split; [by apply Hf|done]. Qed.

Lemma safe_clift {A} (r : io A) (P : A -> Prop) : r <> Panic -> (forall a, r = Ok a -> P a) -> safe (clift r) P.
Proof using. intros Hr HP s Hs. unfold clift, slift. destruct r; cbn [map_err]; [|done..]. split; [done|by apply HP]. Qed.

(** The result of a function of the system is known afterwards. *)
Lemma safe_known {A C} (r : io A) (f : A -> Cut W C) Q : r <> Panic -> (forall a, r = Ok a -> safe (f a) Q) ->
  safe (sbind (clift r) f) Q.
Proof using. intros Hr Hf. apply (safe_bind _ _ (fun a => r = Ok a)); [by apply safe_clift|done]. Qed.

Lemma safe_amd md : safe (amd_from md) always.
Proof using.
  intros s Hs. unfold amd_from, sbind, sget. apply (safe_clift _ always); [|done|done].
  by apply archive_md_from_no_panic.
Qed.

Lemma safe_found (c : Cut W unit) : safe c always -> safe (found c) always.
Proof using.
  intros Hc s Hs. specialize (Hc s Hs). unfold found, sbind, stry.
  destruct (c s) as [[[]|[e|]|] s']; [done| |done..]. simpl. case_bool_decide as Hn; [|done].
  split; [by apply Hc|done].
Qed.

Lemma safe_request q : match q with ReqFile _ _ rd => read_sane rd | _ => True end ->
  safe (cpio (run_request q)) always.
Proof using Hw H0.
  intros Hrd s (Hst & Hp & Hgk). unfold cpio, arch.
  pose proof (no_panic_request q (cpio_state s) (cpio_writer s) Hst) as Hn. unfold no_panic in Hn.
  pose proof (tame_request Hw q Hrd (cpio_state s) (cpio_writer s)) as Ht.
  destruct (run_request q (cpio_state s, cpio_writer s)) as [r [st' w']] eqn:Hr.
  destruct Ht as [Hp' He]. rewrite Hp in Hn, Hp'. destruct r as [[]|e|]; cbn [map_err].
  - split; [|done]. split_and!; [|done|done]. apply request_state_ok in Hr; [done|done|by rewrite Hp..].
  - intros Hnf. by destruct (He e eq_refl).
  - by apply Hn.
Qed.

Lemma safe_path p md : safe (cpio (archive_path p md)) always.
Proof using Hw H0. by apply (safe_request (ReqPath p md)). Qed.
Lemma safe_symlink p md tgt : safe (cpio (archive_symlink p md tgt)) always.
Proof using Hw H0. by apply (safe_request (ReqSymlink p md tgt)). Qed.
Lemma safe_file p md rd : read_sane rd -> safe (cpio (archive_file p md rd)) always.
Proof using Hw H0. intros Hrd. by apply (safe_request (ReqFile p md rd)). Qed.
End Calm.

Abbreviation always := (fun _ => True).

#[export] Hint Resolve safe_sret safe_cfail safe_no_fuel safe_contains safe_insert safe_amd
  safe_path safe_symlink safe_file : rapido.

(** Walk down the steps of the tool, past those that always go well. *)
Ltac safe :=
  repeat first
    [ done
    | progress eauto with rapido
    | match goal with
      | |- safe (sbind (clift _) _) _ => apply safe_known; [|let a := fresh "x" in intros a ?]
      | |- safe (sbind _ _) _ => apply (safe_bind _ _ always); [solve [safe]|let x := fresh "x" in intros x _]
      | |- safe (if ?b then _ else _) _ => let E := fresh "E" in destruct b eqn:E
      | |- safe (match ?o with Some _ => _ | None => _ end) _ => destruct o
      end ].

(** ** What the tool finds *)

Record safe_host (host : Host) (elf_open : bytes -> option Elf) : Prop := {
  ch_total : host_total host;
  ch_open : forall p r, host_open host p = Ok r -> read_sane r;
  ch_cwd : is_absolute (host_cwd host) = true;
  ch_libs : no_relative_library host elf_open;
}.

Section Find.
Context (host : Host) (elf_open : bytes -> option Elf) (Hhost : safe_host host elf_open).

(** a relative directory does not have the name *)
Definition dir_safe (n dir : bytes) : Prop :=
  is_absolute dir = false -> is_ok (host_symlink_metadata host (join dir n)) = false.

(** What is found for an entry, and where it goes, is absolute. *)
Definition ent_safe (ent : GatherEnt) : Prop :=
  match ent with
  | Path p => is_absolute p = true
  | NameDst _ d => is_absolute d = true
  | LibRunPath n dirs => Forall (dir_safe n) dirs
  | Manifest _ => False
  | _ => True
  end.

Lemma path_stat_no_panic ent : path_stat host ent <> Panic.
Proof using Hhost.
  pose proof (path_stat_spec host ent) as Hs. destruct (path_stat host ent); [done..|].
  destruct Hs as (p & _ & Hp). by apply (ht_symlink_metadata _ (ch_total _ _ Hhost)) in Hp.
Qed.

Lemma path_stat_absolute ent got : ent_safe ent -> path_stat host ent = Ok got -> is_absolute (fs_path got) = true.
Proof using Hhost.
  intros He (p & Hc & Hm & Hr)%path_stat_found.
  assert (forall n dirs, Forall (dir_safe n) dirs -> p ∈ (fun dir => join dir n) <$> dirs -> is_absolute p = true) as Hd.
  { intros n dirs Hdirs (dir & -> & Hdir)%list_elem_of_fmap. rewrite Forall_forall in Hdirs.
    destruct (is_absolute dir) eqn:Ha; [by apply push_absolute|]. specialize (Hdirs dir Hdir Ha).
    by rewrite Hm in Hdirs. }
  assert (Forall (dir_safe (ent_name ent)) (ent_dirs ent)) as Hdirs.
  { destruct ent; try done; [..|apply Forall_app_2; [done|]]; by repeat constructor. }
  destruct ent; [..|done]; try (apply list_elem_of_singleton in Hc as ->; by rewrite Hr);
    unfold candidates, resolved in Hc, Hr; (destruct (contains [SEP] _); [eapply absolute_is_absolute; [apply Hhost|done]|]);
    rewrite Hr; by eapply Hd.
Qed.

Lemma needed_safe strs runpaths offs ret libs :
  (forall n, n ∈ omap strs offs -> Forall (dir_safe n) runpaths) -> Forall ent_safe ret ->
  match elf_needed strs runpaths offs ret libs with
  | (Ok ents, _) => Forall ent_safe ents
  | (Err _, _) => True
  | (Panic, _) => False
  end.
Proof using.
  revert ret libs. induction offs as [|off offs IH]; intros ret libs Hd Hret; cbn [elf_needed]; [done|].
  destruct (strs off) as [n|] eqn:Hn; [|done]. unfold sbind, sget, sput. apply IH.
  - intros m Hm. apply Hd. simpl. rewrite Hn. by right.
  - case_bool_decide; [done|]. apply Forall_snoc. split; [done|].
    destruct runpaths as [|r rs]; [done|]. apply Hd. simpl. rewrite Hn. left.
Qed.

Lemma deps_safe p f libs : host_open host p = Ok f ->
  let '(r, _) := elf_deps (elf_open (rd_data f)) libs in Forall ent_safe (match r with Ok d => d | _ => [] end).
Proof using Hhost.
  intros Ho. pose proof (fun dir n => ch_libs _ _ Hhost p f dir n Ho) as Hl. unfold elf_deps.
  destruct (elf_open (rd_data f)) as [[[[dyn|]|] [[strs|]|]]|]; cbn; try constructor.
  pose proof (needed_safe strs (omap strs (dyn_vals DT_RUNPATH dyn)) (dyn_vals DT_NEEDED dyn) [] libs) as Hc.
  destruct (elf_needed _ _ _ _ _) as [[ents|e|] l]; [|constructor..]. apply Hc; [|constructor].
  intros n Hn. apply Forall_forall. intros dir Hdir Habs. by apply Hl.
Qed.
End Find.

(** ** Gathering *)

Section Gather.
Context {W : Type} `{WriteOk W} (Hw : write_sane W).
Context (host : Host) (elf_open : bytes -> option Elf) (Hhost : safe_host host elf_open).
Context (conf : kvmap).

Let Htotal : host_total host := ch_total _ _ Hhost.
Let Hcwd : is_absolute (host_cwd host) = true := ch_cwd _ _ Hhost.

Hint Resolve ch_open ht_open ht_metadata ht_symlink_metadata ht_read_link ht_read_dir : rapido.

Lemma safe_dirs_loop comps here amd : safe (W := W) (gather_dirs_loop comps here amd) always.
Proof using Hw H0.
  revert here. induction comps as [|c comps IH]; intros here; cbn [gather_dirs_loop]; [safe|].
  destruct c; [done..| |safe]. destruct (pop here); [done|safe].
Qed.

(** The parent of an absolute path is absolute. *)
Lemma safe_dirs p amd : is_absolute p = true -> safe (W := W) (gather_archive_dirs (parent p) amd) always.
Proof using Hw H0.
  intros Hp%parent_absolute. unfold gather_archive_dirs. destruct (parent p) as [d|]; [|safe].
  destruct Hp as [-> _]. cbn [negb]. safe. apply safe_dirs_loop.
Qed.
Hint Resolve safe_dirs push_absolute : rapido.

(** The pushed entries of a file, a directory or a link. *)
Definition pushed_safe (r : option (list GatherEnt)) : Prop :=
  match r with Some ents => Forall (ent_safe host) ents | None => True end.

Lemma safe_elf_one ent src dst amd : is_absolute src = true ->
  safe (W := W) (gather_elf_one host elf_open ent src dst amd) pushed_safe.
Proof using Hw H0 Hhost.
  intros Hsrc. unfold gather_elf_one. destruct (is_type (mode amd) S_IFLNK).
  { assert (forall t, safe (W := W) (do* cpio (archive_symlink dst amd t) ;;
      match from_utf8 t with Some t => sret (Some [if is_lib_ent ent then Lib t else Name t])
      | None => cfail (err_from InvalidInput) end) pushed_safe) as Hl.
    { intros t. safe. apply safe_sret. destruct (is_lib_ent ent); by repeat constructor. }
    destruct ent; [..|]; try apply safe_cfail; destruct (host_canonicalize host src); try apply Hl; by apply safe_sret. }
  destruct (_ && _); [|destruct (is_type (mode amd) S_IFDIR)].
  - safe. apply (safe_bind _ _ (Forall (ent_safe host))).
    + destruct (_ || _); [|by apply safe_sret]. intros s Hs. unfold sbind, sget, sput.
      pose proof (deps_safe host elf_open Hhost src x (libs_seen s)) as Hd.
      destruct (elf_deps _ _) as [r libs]. split; [done|by apply Hd].
    + intros deps Hd. safe.
  - safe. apply (safe_bind _ _ (Forall (fun p => is_absolute p = true))).
    + unfold read_dir_sorted. safe. apply safe_sret. apply sort_by_Forall, Forall_fmap, Forall_forall.
      intros n _. by apply push_absolute.
    + intros entries Hents. apply safe_sret. by apply Forall_fmap.
  - safe. apply safe_sret. constructor.
Qed.

Lemma safe_elf_ent ent : ent_safe host ent ->
  safe (W := W) (gather_elf_ent host elf_open ent) (Forall (ent_safe host)).
Proof using Hw H0 Hhost.
  intros He. unfold gather_elf_ent. pose proof (path_stat_no_panic host elf_open Hhost ent) as Hn.
  destruct (path_stat host ent) as [got|e|] eqn:Hgot; [| |done]; [|destruct ent; safe].
  pose proof (path_stat_absolute host elf_open Hhost ent got He Hgot) as Hsrc.
  set (dst := match ent with NameDst _ d => d | _ => _ end).
  assert (is_absolute dst = true) as Hdst by (by destruct ent).
  replace (match ent with NameDst _ d => is_absolute d | _ => true end) with true by (by destruct ent).
  unfold sassert. safe.
  eapply safe_bind; [by apply safe_elf_one|]. intros [ents|] Hents; safe.
Qed.

Lemma safe_elfs fuel elfs : Forall (ent_safe host) elfs ->
  safe (W := W) (gather_archive_elfs host elf_open fuel elfs) always.
Proof using Hw H0 Hhost.
  revert elfs. induction fuel as [|fuel IH]; intros [|ent elfs] He; cbn [gather_archive_elfs]; [safe..|].
  apply Forall_cons in He as [He Hes]. eapply safe_bind; [by apply safe_elf_ent|]. intros ents Hents.
  apply IH, Forall_app_2; [by apply Forall_reverse|done].
Qed.

(** Of the items of a tree only the root makes its parents. *)
Definition item_safe (item : GatherItem) : Prop :=
  is_absolute (gi_dst item) = true \/ Z.land (gi_flags item) GATHER_ITEM_IGNORE_PARENT <> 0.

Lemma safe_item_one item amd : safe (W := W) (gather_item_one host item amd) (Forall item_safe).
Proof using Hw H0 Hhost.
  unfold gather_item_one. safe; apply safe_sret; try constructor. apply Forall_fmap, Forall_forall. by right.
Qed.

Lemma safe_item item : item_safe item -> safe (W := W) (gather_item host item) (Forall item_safe).
Proof using Hw H0 Hhost.
  intros Hi. unfold gather_item. pose proof (ht_symlink_metadata _ Htotal (gi_src item)).
  assert (forall amd, safe (W := W) (if Z.land (gi_flags item) GATHER_ITEM_IGNORE_PARENT =? 0
    then gather_archive_dirs (parent (gi_dst item)) amd else sret tt) always) as Hparent.
  { intros amd. safe. apply Z.eqb_eq in E. destruct Hi; [|done]. by apply safe_dirs. }
  destruct (host_symlink_metadata host _); [| |done]; safe. apply safe_item_one.
Qed.

Lemma safe_data fuel items : Forall item_safe items -> safe (W := W) (gather_archive_data host fuel items) always.
Proof using Hw H0 Hhost.
  revert items. induction fuel as [|fuel IH]; intros [|item items] Hi; cbn [gather_archive_data]; [safe..|].
  apply Forall_cons in Hi as [Hi His]. eapply safe_bind; [by apply safe_item|]. intros l Hl.
  apply IH, Forall_app_2; [by apply Forall_reverse|done].
Qed.

(** ** Kernel modules *)

Lemma safe_kmod_path src dst : is_absolute dst = true -> safe (W := W) (archive_kmod_path host src dst) always.
Proof using Hw H0 Hhost. intros Hd. unfold archive_kmod_path. safe. Qed.
Hint Resolve safe_kmod_path safe_found : rapido.

Section Modules.
Context (gk : GatherKmods) (Hgk : is_absolute (kmod_dst_root gk) = true).

Lemma safe_hard deps : safe (W := W) (archive_hard_deps host gk deps) always.
Proof using Hw H0 Hhost Hgk. induction deps as [|d deps IH]; cbn [archive_hard_deps]; safe. Qed.

Lemma safe_soft mods : safe (W := W) (archive_soft_deps host gk mods) always.
Proof using Hw H0 Hhost Hgk. induction mods as [|m mods IH]; cbn [archive_soft_deps]; safe. Qed.
Hint Resolve safe_hard safe_soft : rapido.

Lemma safe_kmod name : safe (W := W) (gather_archive_kmod_and_deps host name gk) always.
Proof using Hw H0 Hhost Hgk. unfold gather_archive_kmod_and_deps. safe. Qed.
Hint Resolve safe_kmod : rapido.

Lemma safe_kmod_names kmods ign : safe (W := W) (gather_kmod_names host gk kmods ign) always.
Proof using Hw H0 Hhost Hgk. induction kmods as [|k kmods IH]; cbn [gather_kmod_names]; safe. Qed.
End Modules.

Lemma safe_db dst src files : is_absolute dst = true -> safe (W := W) (archive_db_files host dst src files) always.
Proof using Hw H0 Hhost. intros Hd. induction files as [|f files IH]; cbn [archive_db_files]; safe. Qed.

Lemma kernel_vers_safe : conf_src_or_host_kernel_vers host conf <> Panic.
Proof using Hhost.
  pose proof (kernel_vers_no_panic host Htotal) as Hk. unfold conf_src_or_host_kernel_vers.
  set (release := match conf !! B "KERNEL_RELEASE" with Some _ => _ | None => _ end).
  assert (release <> Panic) by (unfold release; by destruct (conf !! B "KERNEL_RELEASE")).
  destruct (conf !! B "KERNEL_SRC") as [ksrc|]; [|done]. destruct (nonempty ksrc); [|done].
  pose proof (host_read_total host (ksrc ++ B "/include/config/kernel.release") Htotal).
  by destruct (host_read host _).
Qed.

Lemma safe_kmods_init :
  safe (W := W) (gather_kmods_init host conf) (fun gk => is_absolute (kmod_dst_root gk) = true).
Proof using Hw H0 Hhost.
  unfold gather_kmods_init. apply safe_known; [apply kernel_vers_safe|]. intros krel _. cbv zeta.
  set (root := join (B "/usr/lib/modules/") krel).
  assert (is_absolute root = true) as Hroot by (by apply push_absolute).
  apply safe_known; [|intros ctx _].
  - pose proof (kmod_context_no_panic host (ht_open _ Htotal) (kmod_src_root host conf krel root)).
    by destruct (kmod_context_new host _).
  - apply (safe_bind _ _ always); [by apply safe_db|]. intros _ _. by apply safe_sret.
Qed.

Lemma safe_kmods kmods ign : safe (W := W) (gather_archive_kmods host conf kmods ign) always.
Proof using Hw H0 Hhost.
  unfold gather_archive_kmods. apply safe_get. intros s (_ & _ & Hgk).
  apply (safe_bind _ _ (fun gk => is_absolute (kmod_dst_root gk) = true)); [|intros gk Hd; by apply safe_kmod_names].
  destruct (cut_gk s) as [gk|]; [by apply safe_sret, Hgk|].
  eapply safe_bind; [apply safe_kmods_init|]. intros gk Hd. apply (safe_bind _ _ always); [|by safe].
  apply safe_modify. intros s' (Hst & Hp & _). split_and!; [done|done|]. by intros gk' [= <-].
Qed.

Lemma safe_symlinks : safe (W := W) populate_default_symlinks always.
Proof using Hw H0.
  unfold populate_default_symlinks, default_symlink, archive_kmods_symlink.
  assert (forall p t, safe (W := W) (cpio (archive_symlink p symlink_amd t)) always) as Hl by safe.
  safe. match goal with x : bool |- _ => by destruct x end.
Qed.

(** ** Manifests *)

Lemma sub_blocks_safe blocks var_next val : sub_path_blocks conf blocks var_next val <> Panic.
Proof using.
  revert var_next val. induction blocks as [|b blocks IH]; intros var_next val; [done|]. cbn [sub_path_blocks].
  assert (path_var_block conf b <> Panic) as Hb by (unfold path_var_block; by repeat case_match).
  assert (forall v (q : option bytes), match q with
    | None => sub_path_blocks conf blocks false v
    | Some q => match strip_suffix [DOLLAR] q with
                | Some q => sub_path_blocks conf blocks true (v ++ q)
                | None => sub_path_blocks conf blocks false (v ++ q) end
    end <> Panic) as Hq by (intros v [q|]; [destruct (strip_suffix _ q)|]; apply IH).
  destruct var_next; [|apply (Hq _ (Some b))]. destruct (path_var_block conf b) as [[v t]|e|]; [|done..]. apply Hq.
Qed.

Lemma name_sub_safe name : manifest_name_sub conf name <> Panic.
Proof using.
  unfold manifest_name_sub. destruct name as [n|]; [|done]. pose proof (sub_blocks_safe (split_inclusive is_dollar n) false []).
  unfold sub_path_vars. by destruct (sub_path_blocks _ _ _ _).
Qed.

Lemma abs_path_safe {C} name (f : path -> Cut W C) Q : (forall p, is_absolute p = true -> safe (f p) Q) ->
  safe (sbind (clift (manifest_name_sub_abs_path host conf name)) f) Q.
Proof using Hhost.
  intros Hf. unfold manifest_name_sub_abs_path. pose proof (name_sub_safe name).
  destruct (manifest_name_sub conf name) as [n|e|]; cbn [rbind]; [| |done].
  - pose proof (absolute_no_panic (host_cwd host) n). apply safe_known; [by destruct (absolute _ n)|].
    intros p Hp. apply Hf. apply (absolute_is_absolute (host_cwd host) n); [done|].
    by destruct (absolute _ n); simplify_eq/=.
  - by apply safe_known.
Qed.

Lemma open_metadata_safe {C} src (f : Reader * Metadata -> Cut W C) Q :
  (forall rd md, read_sane rd -> safe (f (rd, md)) Q) -> safe (sbind (open_with_metadata host src) f) Q.
Proof using Hhost.
  intros Hf. apply (safe_bind _ _ (fun fm => read_sane (fst fm))); [|intros [rd md]; apply Hf].
  unfold open_with_metadata. safe.
Qed.

Ltac safe_manifest :=
  repeat first
    [ match goal with
      | |- safe (sbind (clift (manifest_name_sub_abs_path _ _ _)) _) _ =>
          apply abs_path_safe; let p := fresh "p" in intros p ?
      | |- safe (sbind (open_with_metadata _ _) _) _ =>
          apply open_metadata_safe; let rd := fresh "rd" in let md := fresh "md" in intros rd md ?
      end
    | progress safe ].
Hint Resolve name_sub_safe safe_modify : rapido.

Lemma safe_manifest_dir name : safe (W := W) (manifest_dir host conf name) always.
Proof using Hw H0 Hhost. unfold manifest_dir. safe_manifest. Qed.

Lemma safe_manifest_slink name tgt : safe (W := W) (manifest_slink host conf name tgt) always.
Proof using Hw H0 Hhost. unfold manifest_slink. safe_manifest. Qed.

Lemma safe_manifest_file name src : safe (W := W) (manifest_file host conf name src) always.
Proof using Hw H0 Hhost.
  unfold manifest_file. safe_manifest. apply (safe_bind _ _ always); [|safe]. safe_manifest.
Qed.

Lemma safe_autorun name : safe (W := W) (manifest_autorun host conf name) always.
Proof using Hw H0 Hhost.
  unfold manifest_autorun. apply abs_path_safe. intros src _. apply safe_get. intros s _. cbv zeta.
  apply (safe_bind _ _ always); [safe|]. intros dst _. apply (safe_bind _ _ always); [safe|]. intros _ _.
  safe_manifest.
Qed.

Lemma safe_autorun_all names : safe (W := W) (autorun_all host conf names) always.
Proof using Hw H0 Hhost.
  induction names as [|n names IH]; cbn [autorun_all]; [safe|].
  apply (safe_bind _ _ always); [apply safe_autorun|done].
Qed.

Lemma safe_tree fuel name src : safe (W := W) (manifest_tree host conf fuel name src) always.
Proof using Hw H0 Hhost.
  unfold manifest_tree. safe_manifest. apply safe_data, Forall_singleton. by left.
Qed.

Lemma safe_include name : safe (W := W) (manifest_include host conf name) always.
Proof using Hhost.
  unfold manifest_include. safe_manifest. by apply (path_stat_no_panic host elf_open).
Qed.

Lemma safe_bin fuel ent name : ent = Name \/ ent = NameTry ->
  safe (W := W) (manifest_bin host elf_open conf fuel ent name) always.
Proof using Hw H0 Hhost.
  intros He. unfold manifest_bin. safe_manifest. apply safe_elfs, Forall_singleton. by destruct He as [-> | ->].
Qed.

Lemma safe_manifest_kmod name ign : safe (W := W) (manifest_kmod host conf name ign) always.
Proof using Hw H0 Hhost. unfold manifest_kmod. destruct name; [apply safe_kmods|safe]. Qed.

Lemma safe_entry fuel etype params :
  safe (W := W) (fst (manifest_entry host elf_open conf fuel etype params)) always.
Proof using Hw H0 Hhost.
  unfold manifest_entry.
  repeat match goal with |- context [if bool_decide ?P then _ else _] => destruct (bool_decide P) end; cbn [fst].
  - apply safe_manifest_dir.
  - apply safe_manifest_slink.
  - apply safe_include.
  - apply safe_manifest_file.
  - apply safe_bin. by left.
  - apply safe_bin. by right.
  - apply safe_manifest_kmod.
  - apply safe_manifest_kmod.
  - unfold manifest_autoruns. apply safe_get. intros before _. apply (safe_bind _ _ always); [apply safe_autorun_all|].
    intros _ _. apply safe_get. intros after _. safe.
  - apply safe_tree.
  - unfold manifest_filter. safe_manifest.
  - safe.
Qed.

Lemma safe_parse_one fuel line : safe (W := W) (manifest_parse_one host elf_open conf fuel line) always.
Proof using Hw H0 Hhost.
  unfold manifest_parse_one. destruct (split_whitespace line) as [|etype params]; [safe|].
  destruct (starts_with _ _); [safe|]. pose proof (safe_entry fuel etype params) as He.
  destruct (manifest_entry _ _ _ _ _ _) as [c n]. cbn [fst] in He.
  apply (safe_bind _ _ always); [done|]. intros _ _. destruct (bool_decide _); safe.
Qed.

Lemma safe_loop fuel lines : safe (W := W) (manifest_loop host elf_open conf fuel lines) always.
Proof using Hw H0 Hhost.
  induction lines as [|lines IH]; cbn [manifest_loop]; apply safe_get; intros s _;
    destruct (fests s) as [|fest rest]; [safe..|].
  pose proof (read_line_no_panic fest []) as Hr. destruct (read_line fest []) as [[[n|e|] fest'] lbuf]; [| |done];
    (apply (safe_bind _ _ always); [by apply safe_modify|intros _ _]); [|safe].
  destruct (_ <? _); [safe|]. destruct (_ =? _).
  - apply (safe_bind _ _ always); [by apply safe_modify|done].
  - apply (safe_bind _ _ always); [apply safe_parse_one|done].
Qed.

(** ** The whole run *)

Lemma core_safe : Forall (ent_safe host) (reverse core_elfs).
Proof using. by apply Forall_reverse; repeat constructor. Qed.

Lemma safe_entries fuel lines cf ms : (forall f amd, cf = Some (f, amd) -> read_sane f) ->
  safe (W := W) (cut_entries host elf_open fuel lines conf cf ms) always.
Proof using Hw H0 Hhost.
  intros Hcf. unfold cut_entries, manifest_parse. apply (safe_bind _ _ always); [|intros _ _].
  - unfold cut_archive_conf. destruct cf as [[f amd]|]; [apply safe_file; [done|by eapply Hcf]|safe].
  - apply (safe_bind _ _ always); [apply (safe_bind _ _ always); [by apply safe_modify|intros _ _; apply safe_loop]|].
    intros _ _. safe_manifest. apply (safe_bind _ _ always); [apply safe_elfs, core_safe|]. intros _ _.
    apply (safe_bind _ _ always); [apply safe_kmods|]. intros _ _. apply safe_symlinks.
Qed.

Lemma main_no_panic fuel lines cf ms (w : W) : (forall f amd, cf = Some (f, amd) -> read_sane f) ->
  no_panic (cut_main host elf_open fuel lines conf cf ms) (cut_start w).
Proof using Hw H0 Hhost.
  intros Hcf. unfold cut_main. apply no_panic_bind.
  - assert (ready (cut_start w)) as Hs by (by repeat split).
    pose proof (safe_entries fuel lines cf ms Hcf (cut_start w) Hs) as Hc. unfold no_panic.
    by destruct (cut_entries _ _ _ _ _ _ _ _) as [[]].
  - intros [] s _. assert (no_panic archive_trailer (cpio_state s, cpio_writer s)) as Ht.
    { unfold archive_trailer. np. }
    apply no_panic_bind; [|intros n s2 _; apply no_panic_bind; [|done]].
    + unfold no_panic, cpio, arch in *. by destruct (archive_trailer _) as [[] ?].
    + pose proof (no_panic_flush (cpio_state s2) (cpio_writer s2)) as Hf. unfold no_panic, cpio, arch in *.
      by destruct (flush_writer _) as [[] ?].
Qed.
End Gather.

(** ** The program *)

Section Program.
Context (host : Host) (elf_open : bytes -> option Elf) (Hhost : safe_host host elf_open).
Context (debug_error : io_error -> bytes).

Lemma args_no_panic args : Forall sliceable (env_args args) -> args_process host debug_error args <> Panic.
Proof using Hhost.
  intros Ha. unfold args_process.
  assert (no_panic (set_arguments (env_args args) cut_params (args_process_one host debug_error)) (MkArgsState None [])) as Hn.
  { apply set_arguments_no_panic; [by apply (bool_decide_unpack (Forall argument_wf cut_params))| |done]. intros long v s (a & Hin & <- & Hv).
    unfold cut_params in Hin.
    apply elem_of_cons in Hin as [-> | [-> | ->%list_elem_of_singleton]%elem_of_cons];
      cbn [value short_flag arg_long arg_value_mode] in Hv |- *; unfold no_panic, args_process_one.
    - by destruct Hv as [o ->].
    - destruct Hv as [m ->]. rewrite bool_decide_eq_false_2, bool_decide_eq_true_2 by done. unfold sbind, slift. cbn [unwrap].
      pose proof (path_stat_no_panic host elf_open Hhost (Manifest m)).
      destruct (path_stat host (Manifest m)) as [fs|e|]; [|done..].
      pose proof (ht_open _ (ch_total _ _ Hhost) (fs_path fs)). by destruct (host_open host (fs_path fs)).
    - done. }
  unfold no_panic in Hn. by destruct (set_arguments _ _ _ _) as [[]].
Qed.

Lemma conf_no_panic st : cut_conf host st <> Panic.
Proof using Hhost.
  unfold cut_conf. pose proof (rapido_conf_no_panic host (ch_total _ _ Hhost) RAPIDO_CONF_PATH).
  destruct (host_rapido_conf_open host _) as [[f p]|e|]; [|by case_bool_decide|done].
  pose proof (ht_metadata _ (ch_total _ _ Hhost) p). destruct (host_metadata host p) as [md|e|]; cbn [rbind]; [|done..].
  pose proof (archive_md_from_no_panic st md). destruct (archive_md_from st md); cbn [rbind]; [|done..].
  destruct (kv_append_loop f conf_defaults) as (r & m & _ & -> & Hr). by destruct r.
Qed.

Lemma conf_readable st conf f amd : cut_conf host st = Ok (conf, Some (f, amd)) -> read_sane f.
Proof using Hhost.
  unfold cut_conf. destruct (host_rapido_conf_open host _) as [[f' p]|e|] eqn:Ho; [|by case_bool_decide|done].
  destruct (host_metadata host p) as [md|e|]; cbn [rbind]; [|done..]. destruct (archive_md_from st md); cbn [rbind]; [|done..].
  destruct (kv_conf_process_append f' conf_defaults) as [[[]|e|] c]; [|done..]. intros [= _ <- _].
  apply rapido_conf_opens in Ho. by eapply ch_open.
Qed.

(** The output has a path: the default of DRACUT_OUT cannot be removed. *)
Lemma out_no_panic {W} (open_out : path -> io W) st conf cf out : (forall p, open_out p <> Panic) ->
  cut_conf host st = Ok (conf, cf) -> cpio_out_open open_out out conf <> Panic.
Proof using.
  intros Hout Hc%cut_conf_vm. unfold cpio_out_open.
  assert (forall p, (let? w := open_out p in Ok (p, w)) <> Panic) as Ho.
  { intros p. specialize (Hout p). by destruct (open_out p). }
  destruct out as [p|]; [apply Ho|]. destruct (vm_conf_keys host conf (B "DRACUT_OUT") Hc) as [p ->]; [|apply Ho].
  by vm_compute; eexists.
Qed.
End Program.

(** C25. rapido-cut does not panic. Whatever the manifests, the configuration and the
    output, if the arguments are text (with no character of several bytes
    right after a hyphen), the system answers with results or errors and no
    library is found through a relative run path, the program ends with an image or an
    error: paths are absolute where the tool insists on it, every [unwrap] finds a
    value, and the archive stays aligned, also when an error is caught. *)
Theorem cut_program_no_panic {W} `{WriteOk W} host elf_open debug fuel lines open_out args :
  safe_host host elf_open -> write_sane W -> (forall p, open_out p <> Panic) -> Forall sliceable (env_args args) ->
  cut_program (W := W) host elf_open debug fuel lines open_out args <> Panic.
Proof.
  intros Hhost Hw Hout Hargs. unfold cut_program.
  pose proof (args_no_panic host elf_open Hhost debug args Hargs).
  destruct (args_process host debug args) as [st|e|]; [|by destruct e|done].
  pose proof (conf_no_panic host elf_open Hhost (state_new cut_props)).
  destruct (cut_conf host _) as [[conf cf]|e|] eqn:Hc; cbn [map_err rbind]; [|done..].
  pose proof (out_no_panic host open_out _ conf cf (cpio_output_arg st) Hout Hc).
  destruct (cpio_out_open _ _ _) as [[out w]|e|]; cbn [map_err rbind]; [|done..].
  pose proof (main_no_panic Hw host elf_open Hhost conf fuel lines cf (CutProgram.manifests st) w) as Hm.
  unfold no_panic in Hm. destruct (cut_main _ _ _ _ _ _ _ _) as [[n|e|] s]; cbn [rbind]; [done..|].
  exfalso. apply Hm; [|done]. intros f amd ->. by eapply conf_readable.
Qed.

(** ** Instances *)

(** A host on which every file may be executed. *)
Definition exec_host (files : gmap bytes bytes) : Host := {|
  host_open := files_lookup files reader_of;
  host_metadata := files_lookup files ElfRun.md_x;
  host_symlink_metadata := files_lookup files ElfRun.md_x;
  host_read_link _ := Err (err_from InvalidInput);
  host_canonicalize p := Ok p;
  host_dir_entries _ := Err (err_from NotFound);
  host_env _ := None;
  host_cwd := B "/" |}.

Module RunPath.
Definition shell : bytes := B "#!elf".
(** a shell that needs libx.so and has the run path [dir] *)
Definition elf_open (dir : bytes) (b : bytes) : option Elf :=
  if bool_decide (b = shell)
  then Some (MkElf (Some (Some [(DT_NEEDED, 1); (DT_RUNPATH, 0)]))
                   (Some (Some (fun off => [dir; B "libx.so"] !! Z.to_nat off))))
  else None.
Definition files : gmap bytes bytes := <[B "/usr/bin/bash" := shell]> (<[B "/usr/lib/libx.so" := B "x"]> ImageRun.files).
Definition host : Host := exec_host files.
Definition run (h : Host) (dir : bytes) : result cut_error unit * CutState Vector :=
  gather_archive_elfs h (elf_open dir) 10 [Name (B "bash")] (cut_start (MkVector [])).
End RunPath.

(** A library that is found through a relative run path makes the tool panic: its
    path is not made absolute, which gathering its parent directories insists on. *)
Example relative_run_path_panics :
  fst (RunPath.run (exec_host (<[B "lib/libx.so" := B "x"]> RunPath.files)) (B "lib")) = Panic /\
  fst (RunPath.run RunPath.host (B "lib")) = Ok tt /\
  fst (RunPath.run (exec_host (<[B "/lib/libx.so" := B "x"]> RunPath.files)) (B "/lib")) = Ok tt.
Proof. vm_compute. done. Qed.

Lemma exec_host_total files : host_total (exec_host files).
Proof. split; intros p; cbn; unfold files_lookup; try done; by destruct (files !! p). Qed.

Lemma exec_host_sane files p r : host_open (exec_host files) p = Ok r -> read_sane r.
Proof. cbn. unfold files_lookup. destruct (files !! p); [|done]. intros [= <-] e He. discriminate He. Qed.

Lemma run_path_safe : safe_host RunPath.host (RunPath.elf_open (B "$ORIGIN/../lib")).
Proof.
  split.
  - apply exec_host_total.
  - apply exec_host_sane.
  - done.
  - intros p f dir n _ Hn _. unfold RunPath.elf_open in Hn. case_bool_decide; [|done].
    destruct Hn as [->%list_elem_of_singleton ->%list_elem_of_singleton]. by vm_compute.
Qed.

Lemma cut_program_no_panic_witness :
  cut_program (W := Vector) RunPath.host (RunPath.elf_open (B "$ORIGIN/../lib")) (fun _ => []) 20 10
    ImageRun.open_out ImageRun.args <> Panic.
Proof.
  apply cut_program_no_panic.
  - apply run_path_safe.
  - apply vector_sane.
  - done.
  - apply (bool_decide_unpack (Forall sliceable (env_args ImageRun.args))). vm_compute. exact I.
Defined.
