(* ===== verification/CutLinked.v ===== *)
(** * rapido-cut: the archive is closed under its libraries

    Gathering executables, the ELF parser and the archive together: the bytes of
    every executable or library file that is written decide which libraries are
    written with it, and these bring theirs. *)

From S2P Require Import Prelude RustStr RustPath RustIo Cpio CpioArchive Host Kmod.
From S2P Require Import Cut CutManifest CutSpec CutElfSpec Elf ElfStream ElfImage.

(** A file that was linked against the libraries [needed], of either class and
    byte order, as the reference writer [exe] lays it out. *)
Definition linked (needed : list bytes) (b : bytes) : Prop :=
  exists e c runpaths rest, b = exe e c needed runpaths rest /\
    image_ok e c (exe_secs e c needed runpaths rest) /\ Forall name_ok (needed ++ runpaths).

Lemma linked_names needed b : linked needed b -> elf_wf (elf_open b) /\ elf_names (elf_open b) = needed.
Proof.
  intros (e & c & runpaths & rest & -> & Hok & [Hn _]%Forall_app). rewrite elf_open_exe by done. cbn [elf_wf elf_names].
  destruct (exe_dyn_vals needed runpaths) as [-> _].
  pose proof (strtab_offs [] [0] needed (str_concat runpaths) Hn) as Hs.
  change ([0] ++ str_concat needed ++ str_concat runpaths) with (exe_strs needed runpaths) in Hs. split; [|by apply Forall2_omap].
  eapply Forall2_Forall_l; [exact Hs|]. apply Forall_true. by intros n off ->.
Qed.

(** A request for a directory above an entry that is wanted, or for such an entry;
    a file in the latter case is what the host has there, and when it is
    executable, or wanted as a library, and was [linked] against some libraries,
    these are provided. *)
Definition closed_request (host : Host) (elfs : list GatherEnt) (st : ArchiveState) (libs : gset bytes)
    (seen : gset (list Component)) (qs : list request) (q : request) : Prop :=
  exists ent got amd, wanted host elf_open elfs ent /\ path_stat host ent = Ok got /\
    archive_md_from st (fs_md got) = Ok amd /\
    (above (ent_dst ent got) amd q \/
     elf_amd host (fs_path got) (ent_dst ent got) amd = Some q /\
     forall f needed, q = ReqFile (ent_dst ent got) amd f ->
       Z.land (mode amd) O111 <> 0 \/ is_lib_ent ent = true -> linked needed (rd_data f) ->
       Forall (provided host elf_open elfs libs seen qs) needed).

(** C8. The archive is closed under libraries. On a host whose files that the ELF
    parser accepts have the names of their needed libraries in their string tables,
    when gathering the entries [elfs] succeeds, the archive has grown by the
    requests [qs]. Each entry asked for is written by one of them, unless its path
    was seen before the call (archived earlier or filtered out), it is a link that
    leads nowhere, or an optional name that is missing. Each request is for a
    directory above an entry that is asked for or needed, or copies such an entry from
    the host; and for every file copied that is executable or a library, and whose bytes are
    those of a file linked against the libraries [needed] (laid out as by the
    reference writer, in either class and byte order), every library of [needed]
    is provided: a library entry for it, which some file needs with its run paths, is
    written by one of the requests (with the same exceptions), unless its name was recorded before the call. The
    names are read from the bytes of the file by the ELF parser. *)
Theorem linked_archive_closed {W} `{Write W} host fuel elfs (s s' : CutState W) :
  (forall p f, host_open host p = Ok f -> elf_wf (elf_open (rd_data f))) ->
  gather_archive_elfs host elf_open fuel elfs s = (Ok tt, s') ->
  exists qs, run_requests qs (arch s) = (Ok tt, arch s') /\
    Forall (supplied host (paths_seen s) qs) elfs /\
    Forall (closed_request host elfs (cpio_state s) (libs_seen s) (paths_seen s) qs) qs.
Proof.
  intros Hwf Hr. apply (elfs_gathered host elf_open Hwf) in Hr as [qs [[Hrun _ _ _ _ _] Hask Hfrom _]].
  exists qs. split_and!; [done..|]. eapply Forall_impl; [exact Hfrom|].
  intros q (ent & got & Hw & Hst & [(amd & Hamd & Ha)|[Hq Hb]]).
  { exists ent, got, amd. split_and!; [done..|]. by left. }
  unfold elf_request in Hq. destruct (archive_md_from (cpio_state s) (fs_md got)) as [amd|e|] eqn:Hamd; [|done..].
  exists ent, got, amd. split_and!; [done..|]. right. split; [done|].
  intros f needed -> Hx [_ Hn]%linked_names. apply Forall_forall. intros n Hin. apply (Hb Hx). by rewrite Hn.
Qed.

(** The files of [ElfFiles] were linked. *)
Lemma exe_linked e c needed runpaths : image_ok e c (exe_secs e c needed runpaths []) ->
  Forall name_ok (needed ++ runpaths) -> exists n, linked n (exe e c needed runpaths []).
Proof. intros Hok Hn. by exists needed, e, c, runpaths, []. Qed.

Lemma elf_files_linked p f : host_open ElfFiles.host p = Ok f -> exists needed, linked needed (rd_data f).
Proof.
  change (host_open ElfFiles.host p) with (files_lookup ElfFiles.files reader_of p). unfold files_lookup.
  destruct (ElfFiles.files !! p) as [b|] eqn:Hp; [|done]. intros [= <-]. cbn [reader_of rd_data].
  unfold ElfFiles.files in Hp. cbn [list_to_map foldr uncurry fst snd] in Hp.
  repeat (apply lookup_insert_Some in Hp as [[_ <-]|[_ Hp]];
    [apply exe_linked; [split; [repeat constructor; done|done|done|vm_compute; done]|repeat constructor; vm_compute; done]|]).
  by rewrite lookup_empty in Hp.
Qed.

Lemma linked_archive_closed_witness :
  exists qs, run_requests qs (arch ElfRun.start) = (Ok tt, arch (snd ElfFiles.run)) /\
    Forall (supplied ElfFiles.host (paths_seen ElfRun.start) qs) [Name (B "sh")] /\
    Forall (closed_request ElfFiles.host [Name (B "sh")] (cpio_state ElfRun.start) (libs_seen ElfRun.start)
              (paths_seen ElfRun.start) qs) qs.
Proof.
  apply (linked_archive_closed ElfFiles.host 10 [Name (B "sh")]).
  - intros p f Ho. destruct (elf_files_linked p f Ho) as [needed Hl]. apply (linked_names _ _ Hl).
  - assert (fst ElfFiles.run = Ok tt) as Hr by (vm_compute; reflexivity). rewrite <-Hr. apply surjective_pairing.
Defined.
