(* ===== verification/CutOrder.v ===== *)
(** * rapido-cut: the order of the archive

    What the lines of manifests do to the archive, whatever their kind: a run is
    described by steps, which are the entries written, one for each path and after
    their parents, and the paths that are recorded without an entry: filtered ones
    and kernel modules that are missing. Autorun scripts are entries whose paths
    are not looked up. *)

From S2P Require Import Prelude RustStr RustWords RustPath RustIo KvConf Cpio CpioArchive Host Kmod.
From S2P Require Import RapidoLib Cut CutKmods CutManifest CutSpec CutKmodSpec CutElfSpec CutInclude CutImage.

#[local] Set Warnings "-clear-no-such-hyp".

(** ** Steps *)

(** An entry whose path is recorded, an entry whose path is not, and a path that
    is recorded alone. *)
Inductive cut_step :=
  | Entry (q : request)
  | Loose (q : request)
  | Mark (k : list Component).

Definition step_adds (st : cut_step) : gset (list Component) :=
  match st with Entry q => {[req_key q]} | Loose _ => ∅ | Mark k => {[k]} end.
Definition step_request (st : cut_step) : option request :=
  match st with Entry q | Loose q => Some q | Mark _ => None end.
Definition step_entry (st : cut_step) : option request := match st with Entry q => Some q | _ => None end.

(** An entry is for a new path; it finds its parent among the paths seen. *)
Definition step_ok (S : gset (list Component)) (st : cut_step) : Prop :=
  match st with
  | Entry q => (req_key q ∉ S) /\ parent_in S (req_path q)
  | Loose q => parent_in S (req_path q)
  | Mark _ => True
  end.

Fixpoint steps_ok (S : gset (list Component)) (l : list cut_step) : Prop :=
  match l with [] => True | st :: l => step_ok S st /\ steps_ok (step_adds st ∪ S) l end.

Definition seen_after (S : gset (list Component)) (l : list cut_step) : gset (list Component) :=
  union_list (step_adds <$> l) ∪ S.

(** All requests, and those whose paths are recorded. *)
Definition requests (l : list cut_step) : list request := omap step_request l.
Definition entries (l : list cut_step) : list request := omap step_entry l.

Lemma seen_after_nil S : seen_after S [] = S.
Proof. unfold seen_after. simpl. by rewrite (left_id_L ∅ (∪)). Qed.

Lemma seen_after_cons S st l : seen_after S (st :: l) = seen_after (step_adds st ∪ S) l.
Proof. unfold seen_after. rewrite fmap_cons. cbn [union_list]. set_solver. Qed.

Lemma seen_after_app S l1 l2 : seen_after S (l1 ++ l2) = seen_after (seen_after S l1) l2.
Proof.
  revert S. induction l1 as [|st l1 IH]; intros S; [by rewrite seen_after_nil|].
  simpl app. by rewrite !seen_after_cons.
Qed.

Lemma steps_ok_app S l1 l2 : steps_ok S (l1 ++ l2) <-> steps_ok S l1 /\ steps_ok (seen_after S l1) l2.
Proof.
  revert S. induction l1 as [|st l1 IH]; intros S.
  - rewrite seen_after_nil. simpl. tauto.
  - simpl. rewrite seen_after_cons, IH. tauto.
Qed.

(** Entries alone are a trace. *)
Lemma entries_ok S qs : Forall (fun q => req_key q ∉ S) qs -> NoDup (req_key <$> qs) -> ordered S qs ->
  steps_ok S (Entry <$> qs).
Proof.
  revert S. induction qs as [|q qs IH]; intros S; [done|].
  rewrite Forall_cons, fmap_cons, NoDup_cons. intros [Hq Hf] [Hn Hd] [Hp Ho]. split; [done|]. cbn [step_adds].
  apply IH; [|done..]. rewrite Forall_forall in Hf |- *. intros x Hx [Heq%elem_of_singleton|]%elem_of_union; [|by eapply Hf].
  apply Hn. rewrite <-Heq. by apply list_elem_of_fmap_2.
Qed.

Lemma entries_seen S qs : seen_after S (Entry <$> qs) = keys qs ∪ S.
Proof.
  revert S. induction qs as [|q qs IH]; intros S.
  { rewrite seen_after_nil. unfold keys. simpl. by rewrite (left_id_L ∅ (∪)). }
  rewrite fmap_cons, seen_after_cons, IH.
  unfold keys. rewrite fmap_cons. cbn [list_to_set step_adds]. set_solver.
Qed.

Lemma entries_requests qs : requests (Entry <$> qs) = qs.
Proof. induction qs as [|q qs IH]; [done|]. unfold requests in *. cbn. f_equal. exact IH. Qed.

(** The entries are new, and no two are for the same path. *)
Lemma steps_new S l : steps_ok S l ->
  NoDup (req_key <$> entries l) /\ Forall (fun q => req_key q ∉ S) (entries l).
Proof.
  revert S. induction l as [|st l IH]; intros S; [repeat constructor|]. intros [Hst Hl]. apply IH in Hl as [Hn Hf].
  assert (Forall (fun q => req_key q ∉ S) (entries l)) as Hf'.
  { eapply Forall_impl; [exact Hf|]. set_solver. }
  unfold entries in *. destruct st as [q|q|k]; simpl; try done. destruct Hst as [Hq _]. cbn [step_adds] in Hf.
  split; [|by constructor]. apply NoDup_cons. split; [|done]. intros (x & Hx & Hin)%list_elem_of_fmap_1.
  rewrite Forall_forall in Hf. specialize (Hf x Hin). set_solver.
Qed.

(** ** Runs *)

Section Tracks.
Context {W : Type} `{Write W}.
Implicit Types s : CutState W.

Record tracks s (l : list cut_step) s' : Prop := {
  tk_run : run_requests (requests l) (arch s) = (Ok tt, arch s');
  tk_ok : steps_ok (paths_seen s) l;
  tk_seen : paths_seen s' = seen_after (paths_seen s) l;
}.

Lemma tracks_refl s s' : arch s' = arch s -> paths_seen s' = paths_seen s -> tracks s [] s'.
Proof. intros Ha Hp. split; [by rewrite Ha|done|]. by rewrite Hp, seen_after_nil. Qed.

Lemma tracks_trans s1 s2 s3 l1 l2 : tracks s1 l1 s2 -> tracks s2 l2 s3 -> tracks s1 (l1 ++ l2) s3.
Proof.
  intros [Hr1 Hk1 Hs1] [Hr2 Hk2 Hs2]. split.
  - unfold requests in *. rewrite omap_app, run_requests_app. by rewrite (sbind_ok _ _ _ _ _ Hr1).
  - apply steps_ok_app. split; [done|]. by rewrite <-Hs1.
  - by rewrite Hs2, Hs1, seen_after_app.
Qed.

Lemma traced_tracks s qs s' : traced s qs s' -> tracks s (Entry <$> qs) s'.
Proof.
  intros [Hr Hs Hf Hn Ho _]. split; [by rewrite entries_requests|by apply entries_ok|by rewrite entries_seen].
Qed.

Lemma tracks_mark s k : tracks s [Mark k] (set_paths ({[k]} ∪ paths_seen s) s).
Proof. split; [by destruct s|done|]. by rewrite seen_after_cons, seen_after_nil. Qed.

Lemma tracks_loose q s s' : parent_in (paths_seen s) (req_path q) -> cpio (run_request q) s = (Ok tt, s') ->
  tracks s [Loose q] s'.
Proof.
  intros Hp (Hr & Hs & _)%cpio_request. split; [done|done|].
  rewrite Hs, seen_after_cons, seen_after_nil. cbn [step_adds]. by rewrite (left_id_L ∅ (∪)).
Qed.

Lemma tracks_sub s l s' : tracks s l s' -> paths_seen s ⊆ paths_seen s'.
Proof. intros [_ _ ->]. unfold seen_after. apply union_subseteq_r. Qed.
End Tracks.

(** ** What explains a step *)

Definition AUTORUN : path := B "/rapido_autorun".

(** The kind of a line, if it is not blank. *)
Definition line_kind (l : bytes) : option bytes := head (split_whitespace l).

(** The lines whose entries are recorded. *)
Definition recording_kinds : list bytes :=
  B <$> ["dir"; "slink"; "file"; "tree"; "bin"; "try-bin"; "kmod"; "try-kmod"]%string.

Section Explained.
Context (host : Host) (conf : kvmap).

(** A file that is not on the host. *)
Definition missing_file (p : path) : Prop := exists e,
  (host_symlink_metadata host p = Err e \/ host_open host p = Err e) /\ not_found e.

(** The directories of the kernel's modules, in the image and on the host. *)
Definition kmod_roots (dst src : path) : Prop := exists krel, conf_src_or_host_kernel_vers host conf = Ok krel /\
  dst = join (B "/usr/lib/modules/") krel /\ src = kmod_src_root host conf krel dst.

(** What a line of a manifest explains. *)
Inductive explains (l : bytes) : cut_step -> Prop :=
  | ex_entry k q : line_kind l = Some k -> k ∈ recording_kinds -> explains l (Entry q)
  | ex_filter name params p : split_whitespace l = B "filter" :: name :: params ->
      manifest_name_sub_abs_path host conf (Some name) = Ok p -> explains l (Mark (path_key p))
  | ex_kmod k dst src rel : line_kind l = Some k -> k ∈ B <$> ["kmod"; "try-kmod"]%string ->
      kmod_roots dst src -> missing_file (join src rel) -> explains l (Mark (path_key (join dst rel)))
  | ex_autorun_dir : line_kind l = Some (B "autorun") ->
      explains l (Loose (ReqPath AUTORUN (default_amd (Z.lor S_IFDIR O755))))
  | ex_autorun_mark : line_kind l = Some (B "autorun") -> explains l (Mark (path_key AUTORUN))
  | ex_autorun_file n amd f : line_kind l = Some (B "autorun") -> plain_name n ->
      explains l (Loose (ReqFile (push AUTORUN n) amd f)).
End Explained.

(** ** Steps of a computation *)

Section Leads.
Context {W : Type} `{Write W} (Hw : write_sane W) (host : Host) (conf : kvmap).
Implicit Types s : CutState W.

(** Between the lines: the directory of the autorun scripts is there when one was
    archived, and the modules are those of the configuration. *)
Record orderly s : Prop := {
  or_autorun : autorun_idx s <> 0 -> path_key AUTORUN ∈ paths_seen s;
  or_idx : 0 <= autorun_idx s;
  or_gk : forall gk, cut_gk s = Some gk -> kmod_roots host conf (kmod_dst_root gk) (module_root (kmod_ctx gk));
}.

Lemma orderly_book s s' : book s' = book s -> paths_seen s ⊆ paths_seen s' -> orderly s -> orderly s'.
Proof using.
  intros [= _ Hi Hg] Hs [Ha Hp Hk]. split; rewrite ?Hi, ?Hg; [|done|done]. intros Hne. by apply Hs, Ha.
Qed.

(** From [s] to [s'] by steps that satisfy [E]. *)
Definition led (E : cut_step -> Prop) s s' : Prop := exists l, tracks s l s' /\ Forall E l /\ orderly s'.

Lemma led_steps (E : cut_step -> Prop) l s s' : tracks s l s' -> Forall E l -> book s' = book s -> orderly s -> led E s s'.
Proof using.
  intros Ht HE Hb Ho. exists l. split_and!; [done..|]. eapply orderly_book; [exact Hb|by eapply tracks_sub|done].
Qed.

Lemma led_same (E : cut_step -> Prop) s : orderly s -> led E s s.
Proof using. intros Ho. exists []. split_and!; [by apply tracks_refl|constructor|done]. Qed.

Lemma led_trans (E : cut_step -> Prop) s1 s2 s3 : led E s1 s2 -> led E s2 s3 -> led E s1 s3.
Proof using.
  intros (l1 & Ht1 & H1 & _) (l2 & Ht2 & H2 & Ho). exists (l1 ++ l2).
  split_and!; [by eapply tracks_trans|by apply Forall_app|done].
Qed.

(** The outcome of [c] in [s0]: a success, and an error that may be caught, are
    explained from [s] on. *)
Definition leaves_at (E : cut_step -> Prop) {A} (c : Cut W A) s s0 : Prop :=
  match c s0 with
  | (Ok _, s') => led E s s'
  | (Err (Io e), s') => not_found e -> led E s s'
  | _ => True
  end.
Definition leaves (E : cut_step -> Prop) {A} (c : Cut W A) : Prop := forall s, orderly s -> leaves_at E c s s.
(** ... or successes only. *)
Definition leads (E : cut_step -> Prop) {A} (c : Cut W A) : Prop := forall s a s', orderly s ->
  c s = (Ok a, s') -> led E s s'.

Lemma leaves_leads E {A} (c : Cut W A) : leaves E c -> leads E c.
Proof using. intros Hc s a s' Ho Hr. specialize (Hc s Ho). unfold leaves_at in Hc. by rewrite Hr in Hc. Qed.

Lemma leads_bind E {A C} (c : Cut W A) (f : A -> Cut W C) : leads E c -> (forall a, leads E (f a)) -> leads E (sbind c f).
Proof using.
  intros Hc Hf s a s' Ho (b & s1 & H1 & H2)%sbind_inv_ok. pose proof (Hc _ _ _ Ho H1) as Hl.
  eapply led_trans; [exact Hl|]. destruct Hl as (_ & _ & _ & Ho1). by eapply Hf.
Qed.

Lemma leaves_at_bind E {A C} (c : Cut W A) (f : A -> Cut W C) s s0 :
  leaves_at E c s s0 -> (forall a, leaves E (f a)) -> leaves_at E (sbind c f) s s0.
Proof using.
  unfold leaves_at. intros Hc Hf. unfold sbind. destruct (c s0) as [[a|e|] s1]; [|by destruct e|done].
  pose proof Hc as (_ & _ & _ & Ho1). specialize (Hf a s1 Ho1). unfold leaves_at in Hf.
  destruct (f a s1) as [[b|[e|]|] s2]; [|intros He|done..].
  - by eapply led_trans.
  - eapply led_trans; [exact Hc|by apply Hf].
Qed.

Lemma leaves_bind E {A C} (c : Cut W A) (f : A -> Cut W C) : leaves E c -> (forall a, leaves E (f a)) -> leaves E (sbind c f).
Proof using. intros Hc Hf s Ho. apply leaves_at_bind; auto. Qed.

Lemma leaves_at_found E (c : Cut W unit) s s0 : leaves_at E c s s0 -> leaves_at E (found c) s s0.
Proof using.
  unfold leaves_at. intros Hc. unfold found, sbind, stry.
  destruct (c s0) as [[[]|[e|]|] s']; simpl; [done| |done|done]. case_bool_decide as He; [by apply Hc|done].
Qed.

Lemma leaves_found E (c : Cut W unit) : leaves E c -> leaves E (found c).
Proof using. intros Hc s Ho. apply leaves_at_found; auto. Qed.

(** A path is recorded first: what follows is seen with the path as a mark. *)
Lemma leaves_insert E {A} dst (f : bool -> Cut W A) :
  (forall s, orderly s -> path_key dst ∉ paths_seen s ->
     leaves_at E (f true) s (set_paths ({[path_key dst]} ∪ paths_seen s) s)) ->
  leaves E (f false) -> leaves E (sbind (paths_insert dst) f).
Proof using.
  intros Ht Hf s Ho. unfold leaves_at, sbind, paths_insert. case_bool_decide as Hnew; [by apply Ht|].
  assert (set_paths ({[path_key dst]} ∪ paths_seen s) s = s) as ->; [|by apply Hf].
  destruct s; unfold set_paths; simpl in *. f_equal. clear - Hnew. set_solver.
Qed.

Lemma leaves_sret E {A} (a : A) : leaves E (sret a).
Proof using. intros s Ho. by apply led_same. Qed.
Lemma leaves_cfail E {A} e : leaves E (cfail e : Cut W A).
Proof using. intros s Ho _. by apply led_same. Qed.
Lemma leads_fail E {A} e : leads E (cfail e : Cut W A).
Proof using. by intros s a s' _ Hr. Qed.
Lemma leads_clift E {A} (r : io A) : leads E (clift r : Cut W A).
Proof using. intros s a s' Ho Hr. destruct r; simplify_eq/=; try done. injection Hr as _ <-. by apply led_same. Qed.

(** A trace of entries. *)
Lemma leads_emits E {A} (c : Cut W A) : (forall q, E (Entry q)) -> emits c -> leads E c.
Proof using.
  intros HE Hc s a s' Ho Hr. apply Hc in Hr as [qs Ht]. eapply led_steps; [by apply traced_tracks| |by apply tr_book in Ht|done].
  apply Forall_fmap, Forall_true. intros q. apply HE.
Qed.

(** ** Errors that are never caught *)

Definition sober {A} (c : Cut W A) : Prop := forall s e s', c s = (Err (Io e), s') -> ~ not_found e.

Lemma sober_bind {A C} (c : Cut W A) (f : A -> Cut W C) : sober c -> (forall a, sober (f a)) -> sober (sbind c f).
Proof using.
  intros Hc Hf s e s'. unfold sbind. destruct (c s) as [[a|e1|] s1] eqn:Hr; [apply Hf|intros [= -> ->]; by eapply Hc|done].
Qed.

Lemma sober_request q : match q with ReqFile _ _ rd => read_sane rd | _ => True end -> sober (cpio (W := W) (run_request q)).
Proof using Hw.
  intros Hq s e s'. pose proof (tame_request Hw q Hq (cpio_state s) (cpio_writer s)) as Ht.
  unfold cpio, arch. destruct (run_request q (cpio_state s, cpio_writer s)) as [r [st w]]. destruct Ht as [_ He].
  destruct r as [a|e1|]; cbn [map_err]; [done|intros [= -> _]; by apply He|done].
Qed.

Lemma sober_dirs p amd : sober (gather_archive_dirs (W := W) p amd).
Proof using Hw.
  unfold gather_archive_dirs. destruct p as [p|]; [|done]. destruct (negb _); [done|].
  apply sober_bind; [done|]. intros []; [done|]. generalize (B "/"), (parent_dirs_amd amd). generalize (components p).
  intros cs. induction cs as [|[| | |n] cs IH]; intros here a; cbn [gather_dirs_loop]; [done|apply IH..| |].
  - destruct (pop here); [apply IH|]. by intros s e s' [= <- _].
  - apply sober_bind; [done|]. intros []; [|apply IH]. apply sober_bind; [|intros _; apply IH].
    by apply (sober_request (ReqPath (push here n) a)).
Qed.

Lemma sober_amd md : sober (amd_from (W := W) md).
Proof using.
  intros s e s' Hr. unfold amd_from, sbind, sget, clift, slift in Hr.
  destruct (archive_md_from (cpio_state s) md) as [a|e1|] eqn:Ha; cbn [map_err] in Hr; [done| |done]. injection Hr as <- <-.
  unfold archive_md_from, ok_or in Ha.
  destruct (fixed_mtime (props (cpio_state s))), (u32_try_from (st_mtime md)),
    (is_type (st_mode md) S_IFBLK || is_type (st_mode md) S_IFCHR), (u32_try_from (st_len md)), (u32_try_from (st_nlink md)), (is_type (st_mode md) S_IFREG);
    by simplify_eq/=.
Qed.
End Leads.

#[export] Hint Resolve leaves_sret leaves_cfail leaves_found leads_fail leads_clift : rapido.

(** ** Kernel modules *)

Section Modules.
Context {W : Type} `{Write W} (Hw : write_sane W) (host : Host) (Hopen : forall p r, host_open host p = Ok r -> read_sane r) (conf : kvmap).
Context (E : cut_step -> Prop) (Hentry : forall q, E (Entry q)).
Context (Hmiss : forall dst src rel, kmod_roots host conf dst src -> missing_file host (join src rel) ->
  E (Mark (path_key (join dst rel)))).
Implicit Types s : CutState W.

(** A module or a file of the database: archived, or its path stays recorded. *)
Lemma kmod_path_leaves src dst s : orderly host conf s -> path_key dst ∉ paths_seen s ->
  (missing_file host src -> E (Mark (path_key dst))) ->
  leaves_at host conf E (archive_kmod_path host src dst) s (set_paths ({[path_key dst]} ∪ paths_seen s) s).
Proof using Hw Hopen Hentry.
  intros Ho Hnew HE. set (s0 := set_paths _ s). unfold leaves_at.
  destruct (archive_kmod_path host src dst s0) as [[[]|[e|]|] s'] eqn:Hr; [| |done|done].
  { apply kmod_path_traced in Hr as (qs & q & _ & Ht); [|done].
    eapply led_steps; [by apply traced_tracks| |by apply tr_book in Ht|done]. apply Forall_fmap, Forall_true. intros x. apply Hentry. }
  intros He. unfold archive_kmod_path in Hr. unfold sbind at 1, clift at 1, slift in Hr.
  destruct (host_symlink_metadata host src) as [md|e1|] eqn:Hmd; cbn [map_err] in Hr; [| |done].
  2: { injection Hr as -> <-. eapply led_steps; [by apply tracks_mark| |done|done].
       constructor; [|constructor]. apply HE. exists e. auto. }
  unfold sbind at 1 in Hr. destruct (amd_from md s0) as [[amd|e1|] s1] eqn:Hamd; [| |done].
  2: { injection Hr as -> ->. by apply sober_amd in Hamd. }
  apply amd_from_ok in Hamd as [-> _]. unfold sbind at 1 in Hr.
  destruct (gather_archive_dirs (parent dst) amd s0) as [[[]|e1|] s1] eqn:Hd; [| |done].
  2: { injection Hr as -> ->. by apply (sober_dirs Hw) in Hd. }
  apply gather_archive_dirs_traced in Hd as (qs & Ht & _ & _ & _).
  unfold sbind, clift, slift in Hr. destruct (host_open host src) as [f|e1|] eqn:Hf; cbn [map_err] in Hr; [| |done].
  - by apply (sober_request Hw (ReqFile dst amd f)) in Hr; [|by eapply Hopen].
  - injection Hr as -> <-. apply (led_steps host conf E (Mark (path_key dst) :: (Entry <$> qs))).
    + apply (tracks_trans s s0 s1 [_]); [apply tracks_mark|by apply traced_tracks].
    + constructor; [apply HE; exists e; auto|]. apply Forall_fmap, Forall_true. intros x. apply Hentry.
    + by apply tr_book in Ht.
    + done.
Qed.

Context (gk : GatherKmods) (Hgk : kmod_roots host conf (kmod_dst_root gk) (module_root (kmod_ctx gk))).

Lemma hard_leaves deps : leaves host conf E (archive_hard_deps (W := W) host gk deps).
Proof using Hw Hopen Hentry Hmiss Hgk.
  induction deps as [|d deps IH]; cbn [archive_hard_deps]; [auto with rapido|]. apply leaves_insert.
  - intros s Ho Hnew. apply leaves_at_bind; [|done]. apply kmod_path_leaves; [done..|]. by apply Hmiss.
  - apply leaves_bind; auto with rapido.
Qed.

Lemma soft_leaves mods : leaves host conf E (archive_soft_deps (W := W) host gk mods).
Proof using Hw Hopen Hentry Hmiss Hgk.
  induction mods as [|m mods IH]; cbn [archive_soft_deps]; [auto with rapido|].
  destruct (find (kmod_ctx gk) m) as [km|]; [|done]. destruct (bool_decide _); [done|]. apply leaves_insert.
  - intros s Ho Hnew. apply leaves_at_bind; [|done]. apply leaves_at_bind; [|auto with rapido].
    apply leaves_at_found, kmod_path_leaves; [done..|]. by apply Hmiss.
  - apply leaves_bind; auto with rapido.
Qed.

Lemma kmod_leaves name : leaves host conf E (gather_archive_kmod_and_deps (W := W) host name gk).
Proof using Hw Hopen Hentry Hmiss Hgk.
  unfold gather_archive_kmod_and_deps. destruct (find (kmod_ctx gk) name) as [km|]; [|auto with rapido].
  destruct (bool_decide _); [auto with rapido|]. apply leaves_insert; [|apply leaves_sret].
  intros s Ho Hnew. cbn [negb]. apply leaves_at_bind; [apply kmod_path_leaves; [done..|]; by apply Hmiss|].
  intros _. apply leaves_bind; [apply hard_leaves|]. intros _. apply soft_leaves.
Qed.

Lemma kmod_names_leaves kmods ign : leaves host conf E (gather_kmod_names (W := W) host gk kmods ign).
Proof using Hw Hopen Hentry Hmiss Hgk.
  induction kmods as [|k kmods IH]; cbn [gather_kmod_names]; [auto with rapido|].
  apply leaves_bind; [apply leaves_found, kmod_leaves|]. intros ok. destruct (_ && _); auto with rapido.
Qed.
End Modules.

Section Database.
Context {W : Type} `{Write W} (Hw : write_sane W) (host : Host) (Hopen : forall p r, host_open host p = Ok r -> read_sane r) (conf : kvmap).
Context (E : cut_step -> Prop) (Hentry : forall q, E (Entry q)).
Context (Hmiss : forall dst src rel, kmod_roots host conf dst src -> missing_file host (join src rel) ->
  E (Mark (path_key (join dst rel)))).
Implicit Types s : CutState W.

Lemma db_leaves dst src files : kmod_roots host conf dst src ->
  leaves host conf E (archive_db_files (W := W) host dst src files).
Proof using Hw Hopen Hentry Hmiss.
  intros Hr. induction files as [|f files IH]; cbn [archive_db_files]; [auto with rapido|]. apply leaves_insert.
  - intros s Ho Hnew. apply leaves_at_bind; [|done]. apply leaves_at_bind; [|auto with rapido].
    apply leaves_at_found, kmod_path_leaves; [done..|]. by apply Hmiss.
  - apply leaves_bind; auto with rapido.
Qed.

Lemma context_root d c : kmod_context_new host d = Ok c -> module_root c = d.
Proof using. intros (r & c1 & _ & _ & (_ & Hr & _) & [-> _])%kmod_context_new_inv. exact Hr. Qed.

Lemma kmods_init_leads s gk s' : orderly host conf s -> gather_kmods_init host conf s = (Ok gk, s') ->
  led host conf E s s' /\ kmod_roots host conf (kmod_dst_root gk) (module_root (kmod_ctx gk)).
Proof using Hw Hopen Hentry Hmiss.
  intros Ho Hr. unfold gather_kmods_init, sbind at 1, clift at 1, slift in Hr.
  destruct (conf_src_or_host_kernel_vers host conf) as [krel|e|] eqn:Hk; cbn [map_err] in Hr; [|done..].
  set (dst := join (B "/usr/lib/modules/") krel) in Hr. unfold sbind at 1, clift, slift in Hr.
  destruct (kmod_context_new host (kmod_src_root host conf krel dst)) as [ctx|e|] eqn:Hc; cbn [map_err] in Hr; [|done..].
  apply context_root in Hc. assert (kmod_roots host conf dst (module_root ctx)) as Hroots by (exists krel; by rewrite Hc).
  apply sbind_inv_ok in Hr as ([] & s1 & H1 & Hr). injection Hr as <- <-. split; [|exact Hroots].
  by apply (leaves_leads host conf E _ (db_leaves _ _ _ Hroots)) in H1.
Qed.

Lemma kmods_leads kmods ign : leads host conf E (gather_archive_kmods (W := W) host conf kmods ign).
Proof using Hw Hopen Hentry Hmiss.
  intros s [] s' Ho Hr. unfold gather_archive_kmods, sbind at 1, sget in Hr.
  apply sbind_inv_ok in Hr as (gk & s1 & Hgk & Hr).
  assert (led host conf E s s1 /\ kmod_roots host conf (kmod_dst_root gk) (module_root (kmod_ctx gk))) as [Hl Hroots].
  { destruct (cut_gk s) as [gk0|] eqn:Hg.
    - injection Hgk as <- <-. split; [by apply led_same|by eapply or_gk].
    - apply sbind_inv_ok in Hgk as (gk1 & s2 & H2 & Hgk). unfold smodify, sbind, sret in Hgk. injection Hgk as <- <-.
      apply kmods_init_leads in H2 as [(l & Ht & HE & [Ha Hp _]) Hroots]; [|done]. split; [|done].
      exists l. split_and!; [|done|split; [done|done|by intros gk [= <-]]]. destruct Ht as [Hrun Hk Hs]. by split. }
  eapply led_trans; [exact Hl|]. destruct Hl as (_ & _ & _ & Ho1).
  apply (leaves_leads host conf E) in Hr; [done| |done].
  by apply kmod_names_leaves.
Qed.
End Database.

(** ** Autorun scripts *)

Section Autorun.
Context {W : Type} `{Write W} (host : Host) (conf : kvmap) (E : cut_step -> Prop).
Context (Hdir : E (Loose (ReqPath AUTORUN (default_amd (Z.lor S_IFDIR O755))))) (Hmark : E (Mark (path_key AUTORUN))).
Context (Hfile : forall n amd f, plain_name n -> E (Loose (ReqFile (push AUTORUN n) amd f))).
Implicit Types s : CutState W.

(** The script's name in the image. *)
Lemma autorun_name idx src n : 0 <= idx -> file_name src ≫= from_utf8 = Some n ->
  plain_name (fmt_dec0 3 idx ++ B "-" ++ n).
Proof using.
  intros Hi Hn. assert (no_sep n) as Hns.
  { destruct (file_name src) as [m|] eqn:Hm; [|done]. simpl in Hn. unfold from_utf8 in Hn.
    destruct (utf8_valid m); [|done]. injection Hn as <-. by eapply file_name_no_sep. }
  assert (45 ∈ fmt_dec0 3 idx ++ B "-" ++ n) as Hin by (apply elem_of_app; right; apply elem_of_app; left; left).
  assert (forall b : bytes, bool_decide (45 ∈ b) = false -> fmt_dec0 3 idx ++ B "-" ++ n <> b) as Hne
    by (intros b Hb <-; by apply bool_decide_eq_false in Hb).
  split_and!; [by apply Hne; vm_compute..|]. apply Forall_app_2; [|apply Forall_app_2; [by repeat constructor|exact Hns]].
  eapply Forall_impl; [by apply fmt_dec0_digits|]. intros c Hc. apply Z.eqb_neq. unfold SEP. simpl in Hc. lia.
Qed.

Lemma autorun_push x : plain_name x -> B "/rapido_autorun/" ++ x = push AUTORUN x.
Proof using.
  intros Hx. change AUTORUN with (render [B "rapido_autorun"]). rewrite push_render; [done| |done].
  repeat constructor; by vm_compute.
Qed.

Lemma autorun_dir_led s s' : orderly host conf s ->
  (if autorun_idx s =? 0 then
     do* cpio (archive_path AUTORUN (default_amd (Z.lor S_IFDIR O755))) ;;
     do* paths_insert AUTORUN ;; sret tt
   else sret tt) s = (Ok tt, s') ->
  led host conf E s s' /\ book s' = book s /\ path_key AUTORUN ∈ paths_seen s'.
Proof using Hdir Hmark.
  intros Ho. destruct (Z.eqb_spec (autorun_idx s) 0) as [Hz|Hz].
  - intros ([] & s1 & H1 & Hr)%sbind_inv_ok. unfold sbind, paths_insert, sret in Hr. injection Hr as <-.
    assert (parent_in (paths_seen s) AUTORUN) as Hp.
    { intros _ d Hd. left. assert (parent AUTORUN = Some (B "/")) as He by (by vm_compute). rewrite He in Hd. by injection Hd as <-. }
    pose proof (tracks_loose (ReqPath AUTORUN (default_amd (Z.lor S_IFDIR O755))) s s1 Hp H1) as Ht.
    apply (cpio_request (ReqPath AUTORUN _)) in H1 as (_ & _ & Hb).
    split_and!; [|exact Hb|cbn [paths_seen set_paths]; by apply elem_of_union_l, elem_of_singleton].
    eapply led_steps; [exact (tracks_trans _ _ _ _ _ Ht (tracks_mark s1 (path_key AUTORUN)))|by repeat constructor|exact Hb|done].
  - intros [= <-]. split_and!; [by apply led_same|done|by apply (or_autorun host conf s Ho) in Hz].
Qed.
End Autorun.
Section Script.
Context {W : Type} `{Write W} (host : Host) (conf : kvmap) (E : cut_step -> Prop).
Context (Hdir : E (Loose (ReqPath AUTORUN (default_amd (Z.lor S_IFDIR O755))))) (Hmark : E (Mark (path_key AUTORUN))).
Context (Hfile : forall n amd f, plain_name n -> E (Loose (ReqFile (push AUTORUN n) amd f))).
Implicit Types s : CutState W.

(** The script itself, in its directory. *)
Lemma autorun_file_led n amd f s s1 : orderly host conf s -> path_key AUTORUN ∈ paths_seen s -> plain_name n ->
  cpio (archive_file (push AUTORUN n) amd f) s = (Ok tt, s1) ->
  led host conf E s (set_autorun (wrap32 (autorun_idx s1 + 1)) s1).
Proof using Hfile.
  intros [_ _ Hk] Ha Hn Hc.
  assert (parent_in (paths_seen s) (push AUTORUN n)) as Hp.
  { intros _ d Hd. right. change AUTORUN with (render [B "rapido_autorun"]) in Hd, Ha.
    assert (Forall plain_name [B "rapido_autorun"]) as Hr by (repeat constructor; by vm_compute).
    rewrite push_render in Hd by done. rewrite parent_render in Hd by (by apply Forall_app_2; [|constructor]).
    by injection Hd as <-. }
  pose proof (tracks_loose (ReqFile (push AUTORUN n) amd f) s s1 Hp Hc) as Ht. pose proof (tracks_sub _ _ _ Ht) as Hs.
  apply (cpio_request (ReqFile _ _ _)) in Hc as (_ & _ & [= _ Hi Hg]).
  exists [Loose (ReqFile (push AUTORUN n) amd f)]. split_and!.
  - destruct Ht as [Hrun Hok Hseen]. by split.
  - constructor; [by apply Hfile|constructor].
  - split; [intros _; by apply Hs|apply Z.mod_pos_bound; lia|]. simpl. by rewrite Hg.
Qed.

Lemma autorun_leads name : leads host conf E (manifest_autorun (W := W) host conf name).
Proof using Hdir Hmark Hfile.
  intros s [] s' Ho Hr. unfold manifest_autorun in Hr. apply sbind_inv_ok in Hr as (src & s1 & H1 & Hr).
  unfold clift, slift in H1. injection H1 as _ <-. unfold sbind at 1, sget in Hr.
  destruct (file_name src ≫= from_utf8) as [n|] eqn:Hn; [|done]. unfold sbind at 1, sret in Hr.
  apply sbind_inv_ok in Hr as ([] & s1 & H1 & Hr). apply (autorun_dir_led host conf E) in H1 as (Hl & Hb & Ha); [|done..].
  eapply led_trans; [exact Hl|]. destruct Hl as (_ & _ & _ & Ho1).
  apply sbind_inv_ok in Hr as ([f md] & s2 & H2 & Hr). apply (quiet_open host src) in H2 as (Ha2 & Hs2 & Hb2).
  apply sbind_inv_ok in Hr as (amd & s3 & [-> _]%amd_from_ok & Hr). apply sbind_inv_ok in Hr as ([] & s3 & H3 & Hr).
  injection Hr as <-. pose proof (or_idx host conf s Ho) as Hi.
  apply (autorun_name _ _ _ Hi) in Hn. rewrite (autorun_push _ Hn) in H3.
  eapply led_trans; [apply (led_steps host conf E []); [by apply tracks_refl|constructor|exact Hb2|done]|].
  eapply autorun_file_led; [|by rewrite Hs2|exact Hn|exact H3].
  eapply orderly_book; [exact Hb2|by rewrite Hs2|done].
Qed.

Lemma autoruns_leads names : leads host conf E (manifest_autoruns (W := W) host conf names).
Proof using Hdir Hmark Hfile.
  assert (leads host conf E (sget (S := CutState W) (E := cut_error))) as Hget.
  { intros s a s' Ho [= _ <-]. by apply led_same. }
  unfold manifest_autoruns. apply leads_bind; [done|]. intros before. apply leads_bind.
  - induction names as [|n names IH]; cbn [autorun_all]; [by apply leaves_leads, leaves_sret|].
    apply leads_bind; [apply autorun_leads|done].
  - intros _. apply leads_bind; [done|]. intros after. destruct (_ =? _); [apply leads_fail|by apply leaves_leads, leaves_sret].
Qed.
End Script.

(** ** Lines *)

Section Reading.
Context (host : Host) (conf : kvmap).

(** The manifest that a line includes. *)
Definition included (l : bytes) : option Reader :=
  match split_whitespace l with
  | k :: params =>
      if bool_decide (k = B "include") then
        match manifest_name_sub conf (head params) with
        | Ok p => match path_stat host (Manifest p) with
                  | Ok f => match host_open host (fs_path f) with Ok r => Some r | _ => None end
                  | _ => None
                  end
        | _ => None
        end
      else None
  | [] => None
  end.

(** The lines that are read, from a stack of manifests, in at most [n] rounds. *)
Fixpoint lines_read (n : nat) (st : list Reader) : list bytes :=
  match n, st with
  | S n, f :: rest =>
      match read_line f [] with
      | (Ok k, f', l) =>
          if k =? 0 then lines_read n rest
          else l :: lines_read n (match included l with Some g => g :: f' :: rest | None => f' :: rest end)
      | _ => []
      end
  | _, _ => []
  end.

Lemma not_included l : is_include l = false -> included l = None.
Proof.
  unfold is_include, included. intros Hi%bool_decide_eq_false. destruct (split_whitespace l) as [|k params]; [done|].
  case_bool_decide; [|done]. by destruct Hi; subst k.
Qed.
End Reading.

Section Lines.
Context {W : Type} `{Write W} (Hw : write_sane W) (host : Host) (Hopen : forall p r, host_open host p = Ok r -> read_sane r).
Context (elf_open : bytes -> option Elf) (conf : kvmap) (fuel : nat).
Context (Hread : forall p names, host_read_dir host p = Ok names -> Forall plain_name names).
Implicit Types s : CutState W.

Lemma filter_leads l name params : split_whitespace l = B "filter" :: params -> name = head params ->
  leads host conf (explains host conf l) (manifest_filter (W := W) host conf name).
Proof using.
  intros Hl -> s [] s' Ho Hr. unfold manifest_filter in Hr. apply sbind_inv_ok in Hr as (p & s1 & H1 & Hr).
  unfold clift, slift in H1. destruct params as [|n params]; [done|]. cbn [head] in H1.
  destruct (manifest_name_sub_abs_path host conf (Some n)) as [p0|e|] eqn:Hp; cbn [map_err] in H1; [|done..].
  injection H1 as -> <-. unfold sbind, paths_insert, sret in Hr. injection Hr as <-.
  apply (led_steps host conf _ [Mark (path_key p)]); [apply tracks_mark| |done|done].
  constructor; [|constructor]. by eapply ex_filter.
Qed.

(** What a line does, by its kind. *)
Lemma entry_leads l etype params : split_whitespace l = etype :: params -> etype <> B "include" ->
  leads host conf (explains host conf l) (fst (manifest_entry (W := W) host elf_open conf fuel etype params)).
Proof using Hw Hopen Hread.
  intros Hl He. assert (line_kind l = Some etype) as Hk by (unfold line_kind; by rewrite Hl).
  assert (etype ∈ recording_kinds -> forall q, explains host conf l (Entry q)) as Hent
    by (intros Hin q; by eapply ex_entry).
  assert (forall c : Cut W unit, etype ∈ recording_kinds -> emits c -> leads host conf (explains host conf l) c) as Hemit.
  { intros c Hin Hc. apply leads_emits; auto. }
  assert (etype ∈ B <$> ["kmod"; "try-kmod"]%string -> forall name ign,
    leads host conf (explains host conf l) (manifest_kmod (W := W) host conf name ign)) as Hkmod.
  { intros Hin [name|] ign; [|apply leads_fail]. apply kmods_leads; [done|done| |].
    - apply Hent. rewrite !fmap_cons in Hin.
      apply elem_of_cons in Hin as [->|[->|Hin%not_elem_of_nil]%elem_of_cons];
        [by apply (bool_decide_unpack (_ ∈ _)); vm_compute..|done].
    - intros dst src rel Hr Hm. by eapply ex_kmod. }
  unfold manifest_entry.
  repeat (case_bool_decide as Hc; [cbn [fst]; first
    [ by destruct He
    | eapply Hemit; [rewrite Hc; apply (bool_decide_unpack (_ ∈ _)); by vm_compute|];
      first [ apply emits_manifest_dir | apply emits_manifest_slink | apply emits_manifest_file
            | by apply emits_manifest_tree | apply emits_manifest_bin ]
    | apply Hkmod; rewrite Hc; apply (bool_decide_unpack (_ ∈ _)); by vm_compute
    | apply autoruns_leads; subst etype; intros; by constructor
    | subst etype; by eapply filter_leads ]|clear Hc]).
  apply leads_fail.
Qed.

Lemma line_leads l : is_include l = false ->
  leads host conf (explains host conf l) (manifest_parse_one (W := W) host elf_open conf fuel l).
Proof using Hw Hopen Hread.
  intros Hi%bool_decide_eq_false. unfold manifest_parse_one.
  destruct (split_whitespace l) as [|etype params] eqn:Hl; [by apply leaves_leads, leaves_sret|].
  destruct (starts_with _ _); [by apply leaves_leads, leaves_sret|].
  assert (etype <> B "include") as He by (intros ->; by apply Hi).
  pose proof (entry_leads l etype params Hl He) as Hc.
  destruct (manifest_entry host elf_open conf fuel etype params) as [c n]. apply leads_bind; [exact Hc|]. intros _.
  case_bool_decide; [by apply leaves_leads, leaves_sret|apply leads_fail].
Qed.

Lemma led_weaken (E F : cut_step -> Prop) s s' : (forall st, E st -> F st) -> led host conf E s s' -> led host conf F s s'.
Proof using. intros HEF (l & Ht & HE & Ho). exists l. split_and!; [done|by eapply Forall_impl|done]. Qed.

(** A line that is no include leaves the stack of manifests alone, *)
Lemma line_fests l s r s' : is_include l = false -> manifest_parse_one host elf_open conf fuel l s = (r, s') ->
  fests s' = fests s.
Proof using.
  intros Hi Hr. pose proof (b_parse_one host elf_open conf fuel l Hi (fests s) s) as Hb.
  assert (set_fests (fests s) s = s) as Hs by by destruct s. rewrite Hs, Hr in Hb. injection Hb as Hb. by rewrite Hb.
Qed.

(** and an include does nothing else than pushing a manifest. *)
Lemma include_fests l s s' : is_include l = true -> manifest_parse_one host elf_open conf fuel l s = (Ok tt, s') ->
  exists f, included host conf l = Some f /\ s' = set_fests (f :: fests s) s.
Proof using.
  intros Hi%bool_decide_eq_true Hr. unfold manifest_parse_one in Hr. unfold included.
  destruct (split_whitespace l) as [|k params]; [done|]. injection Hi as ->. rewrite bool_decide_eq_true_2 by done.
  change (starts_with (B "#") (B "include")) with false in Hr. cbv iota in Hr.
  change (manifest_entry host elf_open conf fuel (B "include") params)
    with (manifest_include (W := W) host conf (head params), 1%nat) in Hr. cbv beta iota zeta in Hr.
  apply sbind_inv_ok in Hr as ([] & s1 & H1 & Hr).
  assert (s' = s1) as -> by (revert Hr; case_bool_decide; by intros [= <-]).
  unfold manifest_include, sbind, clift, slift in H1.
  destruct (manifest_name_sub conf (head params)) as [p|e|]; cbn [map_err] in H1; [|done..].
  destruct (path_stat host (Manifest p)) as [g|e|]; cbn [map_err] in H1; [|done..].
  destruct (host_open host (fs_path g)) as [f|e|]; cbn [map_err] in H1; [|done..].
  injection H1 as <-. by exists f.
Qed.

(** The stack does not matter. *)
Lemma led_fests E l s s' : orderly host conf s -> led host conf E (set_fests l s) s' -> led host conf E s s'.
Proof using.
  intros Ho (t & [Hr Hk Hs] & HE & Ho'). exists t. split_and!; [by split|done..].
Qed.

Lemma orderly_fests l s : orderly host conf s -> orderly host conf (set_fests l s).
Proof using. intros [Ha Hi Hg]. by split. Qed.

(** The loop: every step is explained by a line that is read. *)
Lemma loop_led n s s' : orderly host conf s -> manifest_loop host elf_open conf fuel n s = (Ok tt, s') ->
  led host conf (fun st => exists l, l ∈ lines_read host conf n (fests s) /\ explains host conf l st) s s'.
Proof using Hw Hopen Hread.
  revert s. induction n as [|n IH]; intros s Ho; cbn [manifest_loop lines_read]; unfold sbind at 1, sget;
    destruct (fests s) as [|f rest]; [by intros [= <-]; apply led_same|done|by intros [= <-]; apply led_same|].
  destruct (read_line f []) as [[[k|e|] f'] l]; [unfold sbind at 1, smodify|done..].
  destruct (_ <? k); [done|]. destruct (k =? 0).
  { unfold sbind. intros Hr. apply IH in Hr; [|by apply orderly_fests, orderly_fests].
    by eapply led_fests, led_fests; [|apply orderly_fests|]. }
  intros ([] & s1 & H1 & Hr)%sbind_inv_ok. pose proof (orderly_fests (f' :: rest) s Ho) as Ho0.
  apply (led_fests _ (f' :: rest)); [done|]. destruct (is_include l) eqn:Hi.
  - destruct (include_fests _ _ _ Hi H1) as (g & -> & ->). apply IH in Hr; [|by apply orderly_fests].
    cbn [fests set_fests] in Hr. eapply led_fests; [done|]. eapply led_weaken; [|exact Hr].
    intros st (m & Hm & Hst). exists m. split; [by right|done].
  - pose proof (line_fests _ _ _ _ Hi H1) as Hf. cbn [fests set_fests] in Hf.
    pose proof (line_leads l Hi _ _ _ Ho0 H1) as Hl. eapply led_trans.
    + eapply led_weaken; [|exact Hl]. intros st Hst. exists l. split; [left|done].
    + destruct Hl as (_ & _ & _ & Ho1). apply IH in Hr; [|done]. rewrite Hf in Hr.
      rewrite (not_included host conf l Hi). eapply led_weaken; [|exact Hr].
      intros st (m & Hm & Hst). exists m. split; [by right|done].
Qed.
End Lines.

(** C4. The order of a manifest, whatever its lines: when the processing of
    manifests succeeds, there is a list of steps that tells what it did. The archive
    has grown by the entries of the steps, in their order. Each entry finds its
    parent directory among the paths seen so far, unless that is the root (or the
    path has ".." components); an entry whose path is recorded is for a path not
    seen so far, so that no two of them are for the same path and none is for a
    path seen before. The paths seen have grown by exactly the paths of these
    entries and those recorded without one. And every step is explained by a line
    that was read, of the manifests or of those they include: recorded entries
    come from dir, slink, file, tree, bin, try-bin, kmod and try-kmod lines; a
    path is recorded without an entry for a filter line that names it, or for a
    kernel module, or a file of its database, that is missing on the host; and the
    entries that are not looked up are the autorun scripts and their directory. *)
Theorem manifest_archive_ordered {W} `{Write W} host elf_open conf fuel lines manifests (s s' : CutState W) :
  write_sane W -> (forall p r, host_open host p = Ok r -> read_sane r) ->
  (forall p names, host_read_dir host p = Ok names -> Forall plain_name names) ->
  cut_gk s = None ->
  manifest_parse host elf_open conf fuel lines manifests s = (Ok tt, s') ->
  exists l, run_requests (requests l) (arch s) = (Ok tt, arch s') /\
    steps_ok (paths_seen s) l /\ paths_seen s' = seen_after (paths_seen s) l /\
    NoDup (req_key <$> entries l) /\ Forall (fun q => req_key q ∉ paths_seen s) (entries l) /\
    Forall (fun st => exists ln, ln ∈ lines_read host conf lines (reverse manifests) /\ explains host conf ln st) l.
Proof.
  intros Hw Hopen Hread Hgk. unfold manifest_parse, sbind, smodify. intros Hr.
  apply (loop_led Hw host Hopen elf_open conf fuel Hread) in Hr as (l & [Hrun Hok Hseen] & HE & _).
  - exists l. destruct (steps_new _ _ Hok) as [Hn Hf]. split_and!; done.
  - split; [done|done|]. intros gk. cbn. by rewrite Hgk.
Qed.

(** ** A sample manifest, with every kind of step *)

Module OrderRun.
Definition main : bytes := text ["# a sample"; "filter /x"; "dir /a/b"; "file /a/b/f /data"; "tree /x /data";
  "autorun /run.sh"; "include /more"; "slink /l /a"]%string ++ B "dir /a/b".
Definition more : bytes := text ["kmod a"; "try-kmod gone"; "autorun /run.sh"]%string.
Definition host : Host := files_host (list_to_map
  [(B "/data", B "data"); (B "/run.sh", B "run"); (B "/more", more); (B "/mods/lib/modules/6/k/a.ko", B "ko");
   (B "/mods/lib/modules/6/modules.builtin", []);
   (B "/mods/lib/modules/6/modules.dep", text ["k/a.ko:"; "k/gone.ko:"]%string)]).
Definition conf : kvmap := {[B "KERNEL_INSTALL_MOD_PATH" := B "/mods"; B "KERNEL_RELEASE" := B "6"]}.
Definition start : CutState Vector := cut_start (MkVector []).
Definition run : result cut_error unit * CutState Vector :=
  manifest_parse host (fun _ => None) conf 10 20 [reader_of main] start.
End OrderRun.

Lemma files_read_sane files p r : host_open (files_host files) p = Ok r -> read_sane r.
Proof. cbn. unfold files_lookup. destruct (files !! p); [|done]. intros [= <-] e He. discriminate He. Qed.

(** what is filtered and what is missing is recorded, but not archived *)
Example order_run_seen :
  let '(r, s) := OrderRun.run in r = Ok tt /\
  (fun p => bool_decide (path_key (B p) ∈ paths_seen s)) <$>
    ["/x"; "/rapido_autorun"; "/usr/lib/modules/6/k/a.ko"; "/usr/lib/modules/6/k/gone.ko"]%string
  = [true; true; true; true] /\
  (fun p => contains (B p) (vec_data (cpio_writer s))) <$>
    ["a/b/f"; "rapido_autorun/001-run.sh"; "modules/6/k/a.ko"; "modules/6/k/gone.ko"]%string
  = [true; true; true; false].
Proof. vm_compute. done. Qed.

Lemma manifest_archive_ordered_witness :
  let r := manifest_parse OrderRun.host (fun _ => None) OrderRun.conf 10 20 [reader_of OrderRun.main] OrderRun.start in
  exists l, run_requests (requests l) (arch OrderRun.start) = (Ok tt, arch (snd r)) /\
    steps_ok (paths_seen OrderRun.start) l /\ paths_seen (snd r) = seen_after (paths_seen OrderRun.start) l /\
    NoDup (req_key <$> entries l) /\ Forall (fun q => req_key q ∉ paths_seen OrderRun.start) (entries l) /\
    Forall (fun st => exists ln, ln ∈ lines_read OrderRun.host OrderRun.conf 20 (reverse [reader_of OrderRun.main]) /\
      explains OrderRun.host OrderRun.conf ln st) l.
Proof.
  intros r. apply (manifest_archive_ordered OrderRun.host (fun _ => None) OrderRun.conf 10 20 [reader_of OrderRun.main]).
  - apply vector_sane.
  - apply files_read_sane.
  - discriminate.
  - reflexivity.
  - assert (fst r = Ok tt) as Hr by (vm_compute; reflexivity). unfold r in *. rewrite <-Hr. apply surjective_pairing.
Defined.
