(* ===== verification/TestHost.v ===== *)
(** * The repository's unit tests: what they share

    The [#[cfg(test)]] modules of the program are run on the model: every test is
    a boolean, the conjunction of what it asserts, computed to [true]. This file
    has string literals of Rust, the verdict and a file system of directories
    and files, as the tests set them up. *)

From S2P Require Import Prelude RustStr RustPath RustIo Cpio Host.

(** ** Literals *)

Definition hex_digit (c : Z) : Z := default 0 (to_digit 16 c).

(** the escapes of a Rust string or byte string literal *)
Fixpoint unescape (s : bytes) : bytes :=
  match s with
  | [] => []
  | c :: s' =>
      if negb (c =? 92) then c :: unescape s'
      else
        match s' with
        | [] => []
        | e :: r =>
            if e =? 110 then NL :: unescape r
            else if e =? 116 then 9 :: unescape r
            else if e =? 48 then 0 :: unescape r
            else if e =? 120 then
              match r with
              | h :: l :: r => (16 * hex_digit h + hex_digit l) :: unescape r
              | _ => []
              end
            else e :: unescape r
        end
  end.

(** a literal as it stands in the source, but for a quote, which is [\x22] *)
Definition R (s : string) : bytes := unescape (B s).

Example literal : R "a\tb\\c\x22\n" = [97; 9; 98; 92; 99; 34; 10].
Proof. reflexivity. Qed.

(** ** Verdicts *)

(** all the assertions of a test *)
Definition asserts (l : list bool) : bool := forallb id l.

(** [assert_eq!] *)
Definition eqs {A} `{EqDecision A} (x y : A) : bool := bool_decide (x = y).

(** [unwrap] or [expect] of a result or option the test goes on with *)
Definition expect {E A} (r : result E A) (rest : A -> bool) : bool :=
  match r with Ok a => rest a | _ => false end.
Definition expect_some {A} (o : option A) (rest : A -> bool) : bool :=
  match o with Some a => rest a | None => false end.

(** [e.unwrap_err().kind() == k] *)
Definition err_kind {A} (r : io A) (k : ErrorKind) : bool :=
  match r with Err e => eqs (kind e) k | _ => false end.

(** [format!("{:?}", e)] of an error with a message *)
Definition kind_name (k : ErrorKind) : bytes :=
  match k with
  | NotFound => B "NotFound"
  | PermissionDenied => B "PermissionDenied"
  | BrokenPipe => B "BrokenPipe"
  | InvalidInput => B "InvalidInput"
  | InvalidData => B "InvalidData"
  | UnexpectedEof => B "UnexpectedEof"
  | Unsupported => B "Unsupported"
  | StorageFull => B "StorageFull"
  | OtherKind => B "Other"
  end.
Definition custom_debug (e : io_error) : option bytes :=
  (fun m => B "Custom { kind: " ++ kind_name (kind e) ++ B ", error: " ++ fmt_debug m ++ B " }") <$> msg e.

(** ** A file system *)

(** a file with its permissions, a directory, a symbolic link, a fifo or device *)
Inductive Node :=
  | NFile (data : bytes) (perm : Z)
  | NDir
  | NLink (tgt : path)
  | NSpecial (mode rdev : Z).

(** What there is in a file system, by absolute paths. *)
Definition Tree : Type := gmap (list Component) Node.

Definition O644 : Z := 0x1a4.

Section Tree.
Context (cwd : path).

Definition tree_key (p : path) : list Component := path_key (join cwd p).

(** [fs::write], the creation of anything, [fs::create_dir_all] *)
Definition write_file (p data : bytes) (perm : Z) (t : Tree) : Tree := <[tree_key p := NFile data perm]> t.
Definition insert_node (p : path) (n : Node) (t : Tree) : Tree := <[tree_key p := n]> t.
Definition create_dir_all (p : path) (t : Tree) : Tree :=
  foldr (fun n t => let k := take n (tree_key p) in
    match t !! k with Some _ => t | None => <[k := NDir]> t end) t (seq 1 (length (tree_key p))).

(** the time all of it was last changed *)
Definition MTIME : Z := 1700000000.

Definition node_metadata (n : Node) : Metadata :=
  match n with
  | NFile data perm => MkStat MTIME (Z.lor S_IFREG perm) 0 1 (zlen data) 0 0
  | NDir => MkStat MTIME (Z.lor S_IFDIR 0x1ed) 0 2 4096 0 0
  | NLink tgt => MkStat MTIME (Z.lor S_IFLNK 0x1ff) 0 1 (zlen tgt) 0 0
  | NSpecial mode rdev => MkStat MTIME mode rdev 1 0 0 0
  end.

(** where a path leads to, after at most one symbolic link *)
Definition resolve (t : Tree) (p : path) : option (path * Node) :=
  match t !! tree_key p with
  | Some (NLink tgt) =>
      let q := join (default (B "/") (parent p)) tgt in
      (fun n => (q, n)) <$> t !! tree_key q
  | Some n => Some (p, n)
  | None => None
  end.

(** the name of [k] in the directory [dir] *)
Definition child_name (dir k : list Component) : option bytes :=
  match reverse k with
  | Normal n :: up => if bool_decide (reverse up = dir) then Some n else None
  | _ => None
  end.

Definition tree_host (t : Tree) : Host := {|
  host_open p := match resolve t p with
                 | Some (_, NFile data _) => Ok (reader_of data)
                 | Some _ => Ok (MkReader [] (Some (err_from OtherKind)))
                 | None => Err (err_from NotFound)
                 end;
  host_metadata p := match resolve t p with
                     | Some (_, n) => Ok (node_metadata n) | None => Err (err_from NotFound) end;
  host_symlink_metadata p := match t !! tree_key p with
                             | Some n => Ok (node_metadata n) | None => Err (err_from NotFound) end;
  host_read_link p := match t !! tree_key p with
                      | Some (NLink tgt) => Ok tgt
                      | Some _ => Err (err_from InvalidInput)
                      | None => Err (err_from NotFound)
                      end;
  host_canonicalize p := match resolve t p with
                         | Some (q, _) => Ok (join cwd q) | None => Err (err_from NotFound) end;
  host_dir_entries p := match t !! tree_key p with
                        | Some NDir => Ok (Ok <$> omap (child_name (tree_key p)) ((map_to_list t).*1))
                        | Some _ => Err (err_from OtherKind)
                        | None => Err (err_from NotFound)
                        end;
  host_env _ := None;
  host_cwd := cwd;
|}.
End Tree.
