(* ===== verification/KvConfTests.v ===== *)
(** * The unit tests of kv-conf (src/src/kv-conf/src/lib.rs)

    One definition for each test of the crate, in its order; all of them hold of
    the model. *)

From S2P Require Import Prelude RustStr RustIo KvConf TestHost.

(** [io::Cursor::new("..")] *)
Definition cursor (text : string) : Reader := reader_of (R text).

(** [HashMap::from([..])] *)
Definition hash_map (l : list (string * string)) : kvmap :=
  list_to_map ((fun '(k, v) => (R k, R v)) <$> l).

(** [assert_eq!(kv_conf_process(c).expect(..), HashMap::from(..))] *)
Definition conf_is (text : string) (l : list (string * string)) : bool :=
  eqs (kv_conf_process (cursor text)) (Ok (hash_map l)).
Definition conf_fails (text : string) : bool := is_err (kv_conf_process (cursor text)).

(** [format!("{:?}", kv_conf_process(c).expect_err(..))] *)
Definition conf_error_is (text : string) (debug : string) : bool :=
  match kv_conf_process (cursor text) with
  | Err e => eqs (custom_debug e) (Some (R debug))
  | _ => false
  end.

Definition test_simple : bool := asserts [conf_is "key=val" [("key", "val")]%string].

Definition test_quoted : bool := asserts
  [conf_is "key=\x22val\x22" [("key", "val")]%string;
   conf_is "key=\x22val spaced\x22" [("key", "val spaced")]%string;
   conf_is "key=\'val spaced\'" [("key", "val spaced")]%string;
   conf_is "key=\'val\ttabbed\'" [("key", "val\ttabbed")]%string;
   conf_is "key=\'qu\x22ot\x22ed\'" [("key", "qu\x22ot\x22ed")]%string;
   conf_is "key=\x22qu\'oted\x22" [("key", "qu\'oted")]%string;
   conf_error_is "key=\x22eof_before_closing_quote"
     "Custom { kind: InvalidInput, error: \x22line 2: unexpected EOF\x22 }"].

Definition test_comments : bool := asserts
  [conf_is "# this is a comment\nkey=val\n #key=newval" [("key", "val")]%string;
   conf_is "key=val # this is a trailing comment" [("key", "val")]%string;
   conf_is "key=val  # this is a trailing comment " [("key", "val")]%string;
   conf_is "key=val\t\t# this is a trailing comment " [("key", "val")]%string;
   conf_is "k=not#a#comment #comment" [("k", "not#a#comment")]%string].

Definition test_multiple : bool := asserts
  [conf_is "key=val\nnextkey=nextval" [("key", "val"); ("nextkey", "nextval")]%string].

Definition test_overwrite : bool := asserts [conf_is "key=val\nkey=newval" [("key", "newval")]%string].

Definition test_var : bool := asserts
  [conf_is "k=val\nnextk=${k}" [("k", "val"); ("nextk", "val")]%string;
   conf_is "k=val\nnextk=abc${k}def" [("k", "val"); ("nextk", "abcvaldef")]%string;
   conf_is "k=val\nnextk=abc\x22${k}\x22def" [("k", "val"); ("nextk", "abcvaldef")]%string;
   conf_is "k=val\nnextk=123\nfink=a${k}b${nextk}c"
     [("k", "val"); ("nextk", "123"); ("fink", "avalb123c")]%string;
   conf_is "k=val\nnextk=abc\'${k}\'def" [("k", "val"); ("nextk", "abc${k}def")]%string].

Definition test_escaped : bool := asserts
  [conf_is "key=val\\ spaced" [("key", "val spaced")]%string;
   conf_is "key=val\\ #spaced\t" [("key", "val #spaced")]%string;
   conf_is "key=val\\\ttabbed     " [("key", "val\ttabbed")]%string;
   conf_is "key=val\\\\" [("key", "val\\")]%string].

Definition test_multiline_kv : bool := asserts
  [conf_is "key=\x22line1 \\\nline2\x22" [("key", "line1 line2")]%string;
   conf_is "key=\x22line1   \nline2\x22" [("key", "line1 line2")]%string;
   conf_is "key=\x22line1\\\nline2\x22" [("key", "line1line2")]%string;
   conf_is "key=\'line1\\\nline2\'" [("key", "line1\\ line2")]%string;
   conf_is "key=\'line1\\  \nline2\'" [("key", "line1\\ line2")]%string;
   conf_is "key=\x22line1\nline2\x22" [("key", "line1 line2")]%string].

Definition test_bad_key : bool := asserts
  (conf_fails <$> ["ke/y=val"; "ke$y=val"; "key =val"; "\x22key\x22=val"; "key#=val"; "key.=val"; "key`=val"]%string).

Definition test_empty : bool := asserts
  [conf_is "key=" [("key", EmptyString)]%string;
   conf_is EmptyString []; conf_is "\n\n# comment" []; conf_fails "="].

(** [Vec::resize] with number signs *)
Definition resize (n : Z) (v : bytes) : bytes := v ++ replicate (Z.to_nat n - length v) 35.

Definition test_limit : bool :=
  let vec := resize (CONF_LINE_MAX - 1) (R "k=v #") ++ [NL] in
  let long := resize (CONF_LINE_MAX + 1) (take (Z.to_nat (CONF_LINE_MAX - 1)) vec) in
  asserts
    [eqs (kv_conf_process (reader_of vec)) (Ok (hash_map [("k", "v")]%string));
     is_err (kv_conf_process (reader_of long))].

Definition test_append : bool :=
  expect (kv_conf_process (cursor "key=")) (fun map =>
  let before := map in
  let map := <[R "extra" := R "val"]> map in
  let '(r, map) := kv_conf_process_append (cursor "key=overwritten\nnextkey=stuff${extra}") map in
  asserts
    [eqs before (hash_map [("key", EmptyString)]%string);
     is_ok r;
     eqs map (hash_map [("key", "overwritten"); ("extra", "val"); ("nextkey", "stuffval")]%string)]).

Definition test_err_line : bool := asserts
  [conf_error_is "k=val\nnextk=123\nfink=a$k"
     "Custom { kind: InvalidInput, error: \x22line 3: variables must be wrapped in {} braces\x22 }"].

Definition test_append_varmap : bool :=
  expect (kv_conf_process (cursor "key=val\nextra=overhere")) (fun varmap =>
  let '(r, sepmap) := kv_conf_process_append_separate (cursor "key=separate\nnextkey=stuff${extra}") varmap ∅ in
  asserts
    [eqs varmap (hash_map [("key", "val"); ("extra", "overhere")]%string);
     is_ok r;
     eqs sepmap (hash_map [("key", "separate"); ("nextkey", "stuffoverhere")]%string)]).

Example kv_conf_tests : asserts
  [test_simple; test_quoted; test_comments; test_multiple; test_overwrite; test_var; test_escaped;
   test_multiline_kv; test_bad_key; test_empty; test_append; test_err_line; test_append_varmap] = true.
Proof. vm_compute. reflexivity. Qed.

Example kv_conf_limit_test : test_limit = true.
Proof. vm_compute. reflexivity. Qed.
