(* ===== verification/CpioTests.v ===== *)
(** * The unit tests of the cpio crate (src/src/cpio/src/lib.rs)

    One definition for each test of the crate, in its order; all of them hold of
    the model. The cursor the archive is written to is a [Vector], and a [Cursor]
    over its bytes once it is read back. *)

From S2P Require Import Prelude RustStr RustPath RustIo Cpio CpioWalk TestHost.

(** [aw.next()], repeated: the entries up to the end *)
Definition next_ents (w : bytes) : option (io unit * list ArchiveEnt) :=
  walk collect (S (length w)) (MkCursor w 0) [].

(** [let mut buf = [0u8; PATH_MAX + 1]; .. write_all(name)] *)
Definition name_array (n : bytes) : bytes := n ++ zeros (PATH_MAX + 1 - zlen n).

(** one call and the next; the state survives, and [k] sees the outcome *)
Definition run {A} (c : Arch Vector A) (a : ArchiveState * Vector) : io A * (ArchiveState * Vector) := c a.

Definition ent_of (amd : ArchiveMd) (n : bytes) : ArchiveEnt := MkEnt amd (zlen n + 1) (name_array n).

Definition test_archive_iter : bool :=
  let amd := MkMd 1 (Z.lor S_IFDIR 0x1ff) 1 2 3 4 5 0 in
  let p := B "hello" in
  let start := (state_new props_default, MkVector []) in
  let '(r1, a) := run (archive_path p amd) start in
  let '(r2, (_, w)) := run archive_trailer a in
  match next (MkCursor (vec_data w) 0) with
  | (Ok (Some ae), c) =>
      asserts [is_ok r1; is_ok r2; eqs ae (ent_of amd (B "hello")); eqs (name_str ae) (Ok (B "hello"));
               eqs (fst (next c)) (Ok None)]
  | _ => false
  end.

(** the header and the name "A" of [test_archive_iter_bogus] *)
Definition bogus (magic : bytes) : bytes :=
  magic ++ concat (fmt_HEX 8 <$> [0; 1; 2; 3; 4; 5; 0; 6; 7; 8; 9; 2; 0]) ++ B "A" ++ [0].

(** overwrite from an offset *)
Definition overwrite (off : nat) (s b : bytes) : bytes := take off b ++ s ++ drop (off + length s) b.

Definition corrupted (corrupt_field : nat) : io (option ArchiveEnt) :=
  fst (next (MkCursor (overwrite (6 + corrupt_field * 8) (B "not hex") (bogus (B "070701"))) 0)).

Definition corrupt_field_test (corrupt_field : nat) : bool :=
  let amd := MkMd 4 1 2 3 5 8 9 0 in
  if bool_decide (corrupt_field ∈ [0; 7; 8; 12]%nat)
  then eqs (corrupted corrupt_field) (Ok (Some (ent_of amd (B "A"))))
  else err_kind (corrupted corrupt_field) InvalidData.

(** the last assertion is about the walker of the bad magic *)
Definition test_archive_iter_bogus : bool :=
  let '(r, aw) := next (MkCursor (bogus (B "370701")) 0) in
  asserts (err_kind r InvalidInput :: (corrupt_field_test <$> seq 0 12) ++ [eqs (fst (next aw)) (Ok None)]).

Definition test_archive_path_trim : bool := asserts
  [eqs (path_trim_prefixes (B "hello")) (Ok (B "hello"));
   eqs (path_trim_prefixes (B "./hello")) (Ok (B "hello"));
   eqs (path_trim_prefixes (B "//hello")) (Ok (B "hello"));
   eqs (path_trim_prefixes (B "/")) (Ok (B "/"));
   eqs (path_trim_prefixes (B "//")) (Ok (B "//"))].

Definition data : bytes := B "this is some file data".
Definition amd1 : ArchiveMd := MkMd 1 (Z.lor S_IFREG 0x1ff) 1 2 3 4 5 0.
Definition amd2 : ArchiveMd := MkMd 1 (Z.lor S_IFREG 0x1ff) 1 2 3 4 5 (zlen data).
Definition p1 : bytes := B "hello".
Definition p2 : bytes := B "bye".

Definition test_archive_file : bool :=
  let start := (state_new props_default, MkVector []) in
  let '(r1, a1) := run (archive_path p1 amd1) start in
  let '(r2, a2) := run (archive_file p2 amd2 (reader_of data)) a1 in
  let '(r3, a3) := run (archive_path p2 amd2) a2 in
  asserts
    [is_ok r1; off (fst start) <? off (fst a1); is_ok r2; off (fst a1) <? off (fst a2);
     is_err r3; off (fst a2) =? off (fst a3);
     eqs (next_ents (vec_data (snd a3))) (Some (Ok tt, [ent_of amd1 p1; ent_of amd2 p2]))].

Definition test_archive_file_aligned : bool :=
  let props := MkProps 0 16 (namesize_max props_default) 0 None None None in
  let '(r1, a1) := run (archive_path p1 amd1) (state_new props, MkVector []) in
  let '(r2, a2) := run (archive_file p2 amd2 (reader_of data)) a1 in
  let '(r3, a3) := run (archive_path p2 amd2) a2 in
  match next_ents (vec_data (snd a3)) with
  | Some (Ok _, ents) =>
      asserts [is_ok r1; is_ok r2; is_err r3; eqs (name_str <$> ents) [Ok (B "hello"); Ok (B "bye")]]
  | _ => false
  end.

Example cpio_tests : asserts
  [test_archive_iter; test_archive_iter_bogus; test_archive_path_trim; test_archive_file;
   test_archive_file_aligned] = true.
Proof. vm_compute. reflexivity. Qed.
