(* ===== verification/KmodTests.v ===== *)
(** * The unit tests of kmod-parser (src/src/kmod-parser/src/lib.rs)

    One definition for each test of the crate, in its order; all of them hold of
    the model. The directory a test sets up is a [Tree]. *)

From S2P Require Import Prelude RustStr RustPath RustIo Cpio Host Kmod TestHost.

Definition cwd : path := B "/work".
Definition TEST_ROOT_DIR : path := B "target/kmod_test_root".

Definition root_of (test_name : string) : path := join TEST_ROOT_DIR (B test_name).
Definition setup_test_dir (test_name : string) : Tree := create_dir_all cwd (root_of test_name) ∅.

Definition write_test_file (base_path : path) (filename content : string) (t : Tree) : Tree :=
  let p := join base_path (B filename) in
  let t := match parent p with Some d => create_dir_all cwd d t | None => t end in
  write_file cwd p (R content) O644 t.

Fixpoint write_test_files (base_path : path) (l : list (string * string)) (t : Tree) : Tree :=
  match l with
  | [] => t
  | (f, content) :: l => write_test_files base_path l (write_test_file base_path f content t)
  end.

(** the directory of a test with its files *)
Definition test_dir (test_name : string) (l : list (string * string)) : Host :=
  tree_host cwd (write_test_files (root_of test_name) l (setup_test_dir test_name)).

Definition set_context (root_path : path) : KmodContext := empty_context root_path.

(** run loaders on a context; [unwrap] every one *)
Definition load (c : Kmod unit) (ctx : KmodContext) (rest : KmodContext -> bool) : bool :=
  match c ctx with (Ok _, ctx) => rest ctx | _ => false end.

(** a loadable module with nothing else known *)
Definition plain_module : KmodModule := MkKmod LoadableModule [] [] [] [] [].

Definition insert_module (n : string) (m : KmodModule) : KmodContext -> KmodContext :=
  set_hash <[B n := m]>.
Definition get_module (ctx : KmodContext) (n : string) : option KmodModule := modules_hash ctx !! B n.
Definition words (l : list string) : list bytes := B <$> l.

(** [expect] of a module, and what is asserted of it *)
Definition module_is (m : option KmodModule) (l : list (KmodModule -> bool)) : bool :=
  expect_some m (fun m => asserts ((fun f => f m) <$> l)).
Definition has_status (s : ModuleStatus) (m : KmodModule) : bool := eqs (status m) s.
Definition has_path (p : string) (m : KmodModule) : bool := eqs (rel_path m) (B p).
Definition has_hard (l : list string) (m : KmodModule) : bool := eqs (hard_deps_paths m) (words l).
Definition has_pre (l : list string) (m : KmodModule) : bool := eqs (soft_deps_pre m) (words l).
Definition has_post (l : list string) (m : KmodModule) : bool := eqs (soft_deps_post m) (words l).
Definition has_weak (l : list string) (m : KmodModule) : bool := eqs (weak_deps m) (words l).

Definition test_new_with_valid_dir : bool :=
  let host := test_dir "test_new_success"
    [("modules.dep", EmptyString); ("modules.softdep", EmptyString); ("modules.weakdep", EmptyString);
     ("modules.builtin", EmptyString)]%string in
  expect (kmod_context_new host (root_of "test_new_success")) (fun context =>
  eqs (module_root context) (root_of "test_new_success")).

Definition test_kmod_context_new_error : bool :=
  let root_path := root_of "missing_dep_dir" in
  asserts
    [match kmod_context_new (test_dir "missing_dep_dir" []) root_path with
     | Err e => eqs (le_fext e) (B "builtin")
     | _ => false
     end;
     is_ok (kmod_context_new (test_dir "missing_dep_dir" [("modules.builtin", EmptyString)]%string) root_path)].

Definition test_extract_module_name : bool := asserts
  [eqs (extract_module_name (B "drivers/sub1/sub2/sub3/module_name.ko.zst")) (B "module_name");
   eqs (extract_module_name (B "drivers/sub1/sub2/sub3/module_name.ko.xz")) (B "module_name");
   eqs (extract_module_name (B "drivers/sub1/sub2/sub3/module_name.ko.zst")) (B "module_name");
   eqs (extract_module_name (B "drivers/sub1/sub2/sub3/module-name.ko.zst")) (B "module_name");
   eqs (extract_module_name (B "module_name")) (B "module_name");
   eqs (extract_module_name (B "/lib/modules/x.y.z/drivers/sub1/sub2/sub3/module-name.ko.zst")) (B "module_name")].

Definition test_load_harddeps : bool :=
  let host := test_dir "harddeps"
    [("modules.dep", "kernel/mod_a.ko: kernel/dep1.ko kernel/dep2.ko.xz\nkernel/mod-b.ko:\n");
     ("kernel/dep1.ko", EmptyString)]%string in
  load (load_hard_dependencies host) (set_context (root_of "harddeps")) (fun ctx => asserts
    [module_is (get_module ctx "mod_a")
       [has_status LoadableModule; has_path "kernel/mod_a.ko"; has_hard ["kernel/dep1.ko"; "kernel/dep2.ko.xz"]%string];
     module_is (get_module ctx "mod_b") [has_status LoadableModule; has_path "kernel/mod-b.ko"; has_hard []]]).

Definition test_load_harddeps_dup : bool :=
  let host := test_dir "harddeps_dup"
    [("modules.dep", "kernel/mod_a.ko: kernel/dep1.ko kernel/dep2.ko.xz\nkernel/mod_b.ko: kernel/dep1.ko\nkernel/mod-a.ko:\n")]%string in
  err_kind (fst (load_hard_dependencies host (set_context (root_of "harddeps_dup")))) InvalidData.

Definition test_load_softdeps : bool :=
  let host := test_dir "softdeps"
    [("modules.softdep", "softdep mod_a pre: softdep_pre_1 softdep_pre_2 post: softdep_post_1\nsoftdep mod_b pre: softdep_b_pre post: softdep_b_post\n")]%string in
  let ctx := insert_module "mod_a" plain_module (set_context (root_of "softdeps")) in
  load (load_soft_dependencies host) ctx (fun ctx => asserts
    [module_is (get_module ctx "mod_a")
       [has_pre ["softdep_pre_1"; "softdep_pre_2"]%string; has_post ["softdep_post_1"]%string];
     eqs (get_module ctx "mod_b") None]).

Definition test_load_weakdeps : bool :=
  let host := test_dir "weakdeps"
    [("modules.weakdep", "weakdep mod_a weakdep_1\nweakdep mod_a weakdep_2\nweakdep mod_b weakdep_3\n")]%string in
  let ctx := insert_module "mod_b" plain_module
    (insert_module "mod_a" plain_module (set_context (root_of "weakdeps"))) in
  load (load_weak_dependencies host) ctx (fun ctx => asserts
    [module_is (get_module ctx "mod_a") [has_weak ["weakdep_1"; "weakdep_2"]%string];
     module_is (get_module ctx "mod_b") [has_weak ["weakdep_3"]%string]]).

Definition test_load_builtin : bool :=
  let host := test_dir "builtin"
    [("modules.builtin", "kernel/builtin_mod1.ko\nkernel/builtin-mod2.ko\n")]%string in
  load (load_builtin_modules host) (set_context (root_of "builtin")) (fun ctx => asserts
    [module_is (get_module ctx "builtin_mod1") [has_status Builtin; has_path EmptyString];
     module_is (get_module ctx "builtin_mod2") [has_status Builtin]]).

Definition test_load_harddeps_builtin_dup : bool :=
  let dup := test_dir "harddeps_builtin_dup"
    [("modules.dep", "kernel/mod_a.ko: kernel/dep1.ko kernel/dep2.ko.xz\nkernel/drivers/mod_a.ko: kernel/dep1.ko\n")]%string in
  let host := test_dir "harddeps_builtin_dup"
    [("modules.dep", "kernel/mod_a.ko: kernel/dep1.ko kernel/dep2.ko.xz\nkernel/mod_b.ko: kernel/dep1.ko\n");
     ("modules.builtin", "kernel/builtin_mod1.ko\nkernel/mod_b.ko\n")]%string in
  let ctx := set_context (root_of "harddeps_builtin_dup") in
  asserts
    [err_kind (fst (load_hard_dependencies dup ctx)) InvalidData;
     load (load_hard_dependencies host) ctx (fun ctx =>
     load (load_builtin_modules host) ctx (fun ctx =>
     module_is (get_module ctx "mod_b") [has_status LoadableModule]))].

Definition test_load_aliases : bool :=
  let host := test_dir "aliases"
    [("modules.alias", "alias alias_1 mod_target\nalias alias_2 mod_target\n# this line should be ignored: alias bad_line mod_target\nalias complex_alias:v*d* mod_target\nalias mod_name_is_alias mod_target\n")]%string in
  load (load_aliases host) (insert_module "mod_target" plain_module (set_context (root_of "aliases"))) (fun ctx => asserts
    [eqs (alias_map ctx !! B "alias_1") (Some (B "mod_target"));
     eqs (alias_map ctx !! B "alias_2") (Some (B "mod_target"));
     eqs (alias_map ctx !! B "complex_alias:v*d*") (Some (B "mod_target"));
     eqs (alias_map ctx !! B "bad_line") None]).

Definition test_find : bool :=
  let target_module := MkKmod LoadableModule (B "kernel/target.ko") [B "kernel/dep1.ko"] [] [] [] in
  let ctx := insert_module "builtin_mod" (MkKmod Builtin [] [] [] [] [])
    (set_alias <[B "alias_target" := B "mod_target"]>
      (insert_module "mod_target" target_module (set_context []))) in
  let ctx2 := set_alias <[B "bad_alias" := B "ghost_mod"]> ctx in
  asserts
    [module_is (find ctx (B "mod_target")) [has_status LoadableModule; fun m => (length (hard_deps_paths m) =? 1)%nat];
     eqs (find ctx (B "alias_target")) (Some target_module);
     module_is (find ctx (B "builtin_mod")) [has_status Builtin];
     eqs (find ctx (B "non_existent")) None;
     eqs (find ctx2 (B "bad_alias")) None].

Definition test_kmod_context_full_load : bool :=
  let host := test_dir "full_load"
    [("kernel/mod_a.ko", EmptyString); ("kernel/mod_b.ko.xz", EmptyString);
     ("modules.dep", "kernel/mod_a.ko: kernel/mod_b.ko.xz kernel/mod_c.ko\nkernel/mod_b.ko.xz:\n");
     ("modules.softdep", "softdep mod_a pre: mod_d post: mod_e mod_f\n");
     ("modules.weakdep", "weakdep mod_a mod_g\nweakdep mod_a mod_h\nweakdep mod_b mod_i\nweakdep mod_b mod_j\n");
     ("modules.builtin", "kernel/mod_builtin.ko\n");
     ("modules.alias", "alias alias_for_b mod_b\nalias mod-b mod_b\nalias mod-intel-b mod_b\n")]%string in
  expect (kmod_context_new host (root_of "full_load")) (fun context => asserts
    [module_is (find context (B "mod_a"))
       [has_status LoadableModule; has_path "kernel/mod_a.ko";
        has_hard ["kernel/mod_b.ko.xz"; "kernel/mod_c.ko"]%string; has_pre ["mod_d"]%string;
        has_post ["mod_e"; "mod_f"]%string; has_weak ["mod_g"; "mod_h"]%string];
     module_is (find context (B "mod_b"))
       [has_status LoadableModule; has_path "kernel/mod_b.ko.xz";
        fun m => (length (hard_deps_paths m) =? 0)%nat; has_weak ["mod_i"; "mod_j"]%string];
     module_is (find context (B "mod_builtin")) [has_status Builtin];
     module_is (find context (B "alias_for_b")) [fun m => eqs (Some m) (find context (B "mod_b"))];
     eqs (find context (B "non_existent_mod")) None]).

Definition test_kmod_context_complex_alias_resolve : bool :=
  let host := test_dir "alias_test"
    [("kernel/arch/x86/sub/mod32c-intel.ko.zst", EmptyString); ("kernel/fs/fsmodule/fsmodule.ko.zst", EmptyString);
     ("modules.dep", "kernel/fs/fsmodule/fsmodule.ko.zst: kernel/lib/other_dep.ko\nkernel/arch/x86/sub/mod32c-intel.ko.zst:\nkernel/drivers/char/hw_random/virtio-rng.ko.zst:\nkernel/lib/other_dep.ko:\n");
     ("modules.softdep", "softdep fsmodule pre: mod32c\n");
     ("modules.alias", "alias sub-mod32c-intel mod32c_intel\nalias mod32c-intel mod32c_intel\nalias sub-mod32c mod32c_intel\nalias mod32c mod32c_intel\nalias cpu:type:x86,ven*fam*mod*:feature:*1234* mod32c_intel\n");
     ("modules.builtin", EmptyString)]%string in
  expect (kmod_context_new host (root_of "alias_test")) (fun context => asserts
    [module_is (find context (B "fsmodule")) [has_pre ["mod32c"]%string];
     eqs (alias_map context !! B "mod32c") (Some (B "mod32c_intel"));
     module_is (find context (B "mod32c"))
       [has_status LoadableModule; has_path "kernel/arch/x86/sub/mod32c-intel.ko.zst"];
     module_is (find context (B "virtio_rng")) [has_path "kernel/drivers/char/hw_random/virtio-rng.ko.zst"];
     module_is (find context (B "virtio-rng")) [has_path "kernel/drivers/char/hw_random/virtio-rng.ko.zst"]]).

Definition test_load_builtin_softdep_order : bool :=
  let host := test_dir "builtin_softdep_order"
    [("modules.builtin", "kernel/builtin_mod1.ko\n"); ("modules.softdep", "softdep builtin_mod1 mod_a\n");
     ("modules.dep", "kernel/mod_a.ko:\n")]%string in
  expect (kmod_context_new host (root_of "builtin_softdep_order")) (fun ctx =>
  module_is (get_module ctx "builtin_mod1")
    [has_status Builtin; has_pre ["mod_a"]%string; fun m => (length (soft_deps_post m) =? 0)%nat]).

Example kmod_tests : asserts
  [test_new_with_valid_dir; test_kmod_context_new_error; test_extract_module_name; test_load_harddeps;
   test_load_harddeps_dup; test_load_softdeps; test_load_weakdeps; test_load_builtin;
   test_load_harddeps_builtin_dup; test_load_aliases; test_find; test_kmod_context_full_load;
   test_kmod_context_complex_alias_resolve; test_load_builtin_softdep_order] = true.
Proof. vm_compute. reflexivity. Qed.
