(* ===== verification/ToolTests.v ===== *)
(** * The unit tests of the rapido library and the smaller tools
    (src/src/lib.rs, src/src/bin/rapido-vm.rs, rapido-init.rs, bash-completion.rs)

    One definition for each test; all of them hold of the model. A test that
    looks at the machine it runs on is one of a machine set up here. *)

From S2P Require Import Prelude RustStr RustPath RustIo KvConf Cpio Host RapidoLib Vm Init Completion TestHost.

Definition cwd : path := B "/work".

(** ** lib.rs *)

Definition test_host_kernel_vers_parse : bool :=
  let line := R "Linux version 6.17.0-2-default (geeko@buildhost) (gcc (SUSE Linux) 15.2.0, GNU ld (GNU Binutils; openSUSE Tumbleweed) 2.43.1.20241209-10) #1 SMP PREEMPT_DYNAMIC Thu Oct  2 08:12:40 UTC 2025 (190326b)" in
  asserts [eqs (host_kernel_vers_parse line) (Ok (B "6.17.0-2-default"))].

Definition test_conf_kmod_deps : bool :=
  let conf : kvmap := {[B "QEMU_EXTRA_ARGS" := B "-device virtio-rng-pci"]} in
  asserts [bool_decide (B "virtio_rng" ∈ conf_kmod_deps conf)].

(** in a temporary directory [dirname] *)
Definition test_conf_parse_from_defaults (dirname : bytes) : bool :=
  let conf_path := dirname ++ B "/rapido.conf" in
  let host := tree_host cwd
    (write_file cwd conf_path (B "DRACUT_OUT=thisfile") O644 (create_dir_all cwd dirname ∅)) in
  expect (host_rapido_conf_open host conf_path) (fun '(f, p) =>
  let '(r, c) := kv_conf_process_append f conf_defaults in
  asserts
    [is_ok r;
     eqs (c !! B "DRACUT_OUT") (Some (B "thisfile"));
     expect_some (c !! B "QEMU_EXTRA_ARGS") (contains (B "-nographic"));
     eqs (path_key p) (path_key conf_path)]).

Example lib_tests : asserts
  [test_host_kernel_vers_parse; test_conf_kmod_deps; test_conf_parse_from_defaults (B "test-rapido-lib-00")] = true.
Proof. vm_compute. reflexivity. Qed.

(** ** rapido-vm.rs *)

(** the lines of the test, one after the other on the same resources, with what is
    expected of each: true, false or an error, and of the resources after it *)
Fixpoint rsc_lines (l : list (string * option bool * (VmResources -> bool))) (rscs : VmResources) : bool :=
  match l with
  | [] => true
  | (line, expected, check) :: l =>
      let '(r, rscs) := vm_resource_line_process (R line) rscs in
      asserts [match expected with Some b => eqs r (Ok b) | None => is_err r end; check rscs; rsc_lines l rscs]
  end.

Definition any : VmResources -> bool := fun _ => true.

Definition test_vm_resources_parse : bool :=
  rsc_lines
    [("rapido-rsc/cpu/5"%string, Some true, fun rscs => cpus rscs =? 5);
     ("rapido-rsc/mem/5G"%string, Some true, fun rscs => eqs (mem rscs) (B "5G"));
     ("rapido-rsc/mem/5m"%string, Some true, fun rscs => eqs (mem rscs) (B "5m"));
     ("rapido-rsc/mem/5t"%string, None, any);
     ("rapido-rsc/net"%string, Some true, fun rscs => net rscs);
     ("not/a/root/rapido-rsc/path"%string, Some false, any);
     ("rapido-rsc/mem/5GG"%string, None, any);
     ("rapido-rsc/mem/5mG"%string, None, any)]
    (MkRsc 0 [] false).

(** can we locate the host's kernel configuration and image? *)
Definition test_vm_distro_kconfig_kernel (host : Host) : bool :=
  expect (vm_qemu_args_get host ∅) (fun qemu_args => asserts [host_is_file host (kernel_img qemu_args)]).

(** a host of an installed distribution *)
Definition distro : Host := tree_host cwd
  (foldr (fun '(p, c) => write_file cwd (B p) (R c) O644) ∅
    [("/proc/version", "Linux version 6.17.0-2-default (geeko@buildhost) #1 SMP\n");
     ("/usr/lib/modules/6.17.0-2-default/config", "# config\nCONFIG_X86_64=y\nCONFIG_X86=y\n");
     ("/boot/vmlinuz-6.17.0-2-default", "image")]%string).

Example vm_tests : asserts [test_vm_resources_parse; test_vm_distro_kconfig_kernel distro] = true.
Proof. vm_compute. reflexivity. Qed.

(** ** rapido-init.rs *)

Definition kcli_is (kcli : string) (args : KcliArgs) : Prop := kcli_parse (R kcli) = Ok args.

Definition test_kcli_parse : Prop :=
  kcli_is "rapido.vm_num=3\n" {|
    rapido_vm_num := Some (B "3"); rapido_hostname := None; rapido_tap_mac := None;
    stty_rc := None; systemd_machine_id := None; kcli_console := None |} /\
  kcli_is "rapido.vm_num=3  rapido.hostname=rapido1 rapido.vm_num=4 console=ttyS0" {|
    rapido_vm_num := Some (B "4"); rapido_hostname := Some (B "rapido1"); rapido_tap_mac := None;
    stty_rc := None; systemd_machine_id := None; kcli_console := Some (B "ttyS0") |} /\
  kcli_is "rapido.mac.tap1=b8:ac:24:45:c5:01 rapido.mac.tap2=b8:ac:24:45:c5:02 rapido.stty=120,12" {|
    rapido_vm_num := None; rapido_hostname := None;
    rapido_tap_mac := Some (list_to_map [(B "tap1", B "b8:ac:24:45:c5:01"); (B "tap2", B "b8:ac:24:45:c5:02")]);
    stty_rc := Some (B "120,12"); systemd_machine_id := None; kcli_console := None |}.

Example init_tests : test_kcli_parse.
Proof. vm_compute. split_and!; reflexivity. Qed.

(** ** bash-completion.rs *)

(** the scripts in the directory cut of the repository that the tests come to *)
Definition cut_dir : io (list (io bytes)) :=
  Ok ((fun n => Ok (B n)) <$> ["cephfs.sh"; "fstests_xfs.sh"; "simple_example.sh"; "simple_network.sh"; "simple_systemd.sh"]%string).

(** [complete_rapido] with the cursor at the end: what it printed *)
Definition completed (line : string) : option bytes :=
  match complete_rapido cut_dir (fun _ => Err (err_from OtherKind)) (R line) (length (R line)) (MkVector []) with
  | (Panic, _) => None
  | (_, out) => Some (vec_data out)
  end.

Definition test_good_completions : bool := asserts
  ((fun '(line, exp) => eqs (completed line) (Some (R exp))) <$>
    [("rapido ", "boot\ncut\nhelp\nlist\nsetup-network\nteardown-network\n");
     ("rapido cu", "cut\n");
     ("rapido cut -", "-B\n-f\n-x\n");
     ("rapido cut -B -", "-f\n-x\n");
     ("rapido cut simple-e", "simple-example\n");
     ("rapido cut -f ./whatever simple-e", "simple-example\n")]%string).

Definition test_bad_completions : bool := asserts
  ((fun bad_line => eqs (completed bad_line) (Some [])) <$> ["rapido qwer"; "rapido cut -G"; "rapido cut qwer"]%string).

Example completion_tests : asserts [test_good_completions; test_bad_completions] = true.
Proof. vm_compute. reflexivity. Qed.
