(* ===== verification/CutTests.v ===== *)
(** * The unit tests of rapido-cut (src/src/bin/rapido-cut.rs)

    One definition for each test of the program, in its order; all of them hold of
    the model. The temporary directory and the host's own files are a [Tree];
    the bash of the host is an executable laid out by the writer of ElfImage, and
    is read by the ELF parser. *)

From S2P Require Import Prelude RustStr RustPath RustIo KvConf Cpio CpioWalk Host Kmod RapidoLib.
From S2P Require Import Cut CutManifest Elf ElfStream ElfImage TestHost.

Definition cwd : path := B "/work".

(** [TempDir::new]; the digits are random in the source *)
Definition td : bytes := B "test-rapido-cut-00112233445566778899aabbccddeeff".
Definition in_td (p : string) : bytes := td ++ B p.

(** the host the tests run on: bash and its libraries *)
Definition bash : bytes := exe Little ELF64 [B "libreadline.so.8"; B "libc.so.6"] [] [].
Definition lib : bytes := exe Little ELF64 [B "libc.so.6"] [] [].
Definition system : Tree :=
  write_file cwd (B "/usr/bin/bash") bash 0x1ed
    (write_file cwd (B "/usr/lib64/libreadline.so.8") lib 0x1ed
      (write_file cwd (B "/lib64/libc.so.6") lib 0x1ed ∅)).

(** [fs::write] below the temporary directory, [fs::create_dir_all] *)
Definition write (p : string) (data : bytes) (t : Tree) : Tree := write_file cwd (in_td p) data O644 t.
Definition mkdirs (ps : list string) (t : Tree) : Tree :=
  foldr (fun p => create_dir_all cwd (in_td p)) t (reverse ps).
Definition new_td : Tree := create_dir_all cwd td system.

(** [ArchiveProperties { data_align: 4096, ..ArchiveProperties::default() }] *)
Definition test_props : ArchiveProperties :=
  MkProps (initial_ino props_default) 4096 (namesize_max props_default) 0 None None None.

(** the state a test starts from *)
Definition test_start : CutState Vector :=
  MkCut ∅ ∅ None 0 [] (state_new test_props) (MkVector []).

Definition parse_fest (t : Tree) (conf : kvmap) (fest : bytes) : result cut_error unit * CutState Vector :=
  let host := tree_host cwd t in
  match host_open host fest with
  | Ok rdr => manifest_parse host elf_open conf 200 20 [rdr] test_start
  | _ => (Panic, test_start)
  end.

(** [test_manifest_parse(..).expect("bad manifest")], then the entries walked to the
    end, [aw.next().unwrap()] each *)
Definition archived (t : Tree) (conf : kvmap) (fest : bytes) (rest : list ArchiveEnt -> CutState Vector -> bool) : bool :=
  let '(r, s) := parse_fest t conf fest in
  let w := vec_data (cpio_writer s) in
  match r, walk collect (S (length w)) (MkCursor w 0) [] with
  | Ok _, Some (Ok _, ents) => rest ents s
  | _, _ => false
  end.

Definition an (e : ArchiveEnt) : bytes := match name_str e with Ok n => n | _ => [] end.
Definition fmt_of (e : ArchiveEnt) : Z := file_type (mode (ent_md e)).
Definition is_reg (e : ArchiveEnt) : bool := fmt_of e =? S_IFREG.

(** the first entries, by name, type and length *)
Definition ents_are (l : list (string * Z * Z)) (ents : list ArchiveEnt) : bool :=
  eqs ((fun e => (an e, fmt_of e, len (ent_md e))) <$> ents) ((fun '(n, f, l) => (B n, f, l)) <$> l).

Definition names_are (l : list string) (ents : list ArchiveEnt) : bool := eqs (an <$> ents) (B <$> l).

(** [Path::new(an).file_name().unwrap()] of the entries of a kind *)
Definition base_names (f : ArchiveEnt -> bool) (ents : list ArchiveEnt) : list bytes :=
  omap (fun e => if f e then file_name (an e) else None) ents.

(** a set built with [assert!(got.insert(p))] equals another *)
Definition is_set (l : list bytes) (expected : list string) : bool :=
  asserts [bool_decide (NoDup l); eqs (list_to_set l : gset bytes) (list_to_set (B <$> expected))].

Definition test_manifest_include : bool :=
  let fs := write "/base.fest" (B "dir /basefirst" ++ [NL] ++ B "include " ++ in_td "/readthis.fest" ++ [NL] ++ B "dir /baseafter")
    (write "/readthis.fest" (R "dir /frominclude\n") new_td) in
  archived fs conf_defaults (in_td "/base.fest") (fun ents _ =>
  names_are ["basefirst"; "frominclude"; "baseafter"]%string (take 3 ents)).

Definition test_manifest_symlink : bool :=
  let fs := write "/test.fest" (R "dir /a\nslink /b /a") new_td in
  archived fs conf_defaults (in_td "/test.fest") (fun ents _ =>
  ents_are [("a"%string, S_IFDIR, 0); ("b"%string, S_IFLNK, 2)] (take 2 ents)).

Definition test_manifest_vars : bool :=
  let conf : kvmap := {[B "KEY1" := B "VAL1"; B "KEY2" := B "VAL2"]} in
  let fs := write "/test.fest" (R "dir /a${KEY1}x\nslink /${KEY2} /a${KEY1}x") new_td in
  archived fs conf (in_td "/test.fest") (fun ents _ =>
  ents_are [("aVAL1x"%string, S_IFDIR, 0); ("VAL2"%string, S_IFLNK, 7)] (take 2 ents)).

Definition test_manifest_file : bool :=
  let data := B "this is some data" in
  let fs := write "/test.fest" (B "file /a/b " ++ in_td "/test.data" ++ [NL] ++ B "file /c") (write "/test.data" data new_td) in
  archived fs conf_defaults (in_td "/test.fest") (fun ents _ =>
  ents_are [("a"%string, S_IFDIR, 0); ("a/b"%string, S_IFREG, zlen data); ("c"%string, S_IFREG, 0)] (take 3 ents)).

Definition test_manifest_bin : bool :=
  let fs := write "/test.fest" (R "bin bash\ntry-bin th1s-doe5-not-ex1st") new_td in
  archived fs conf_defaults (in_td "/test.fest") (fun ents _ =>
  existsb (fun e => is_reg e && ends_with (B "/bash") (an e)) ents).

Definition test_manifest_elf_dir_traverse : bool :=
  let host := tree_host cwd system in
  expect (path_stat host (NameStatic (B "bash"))) (fun src =>
  expect (host_open host (fs_path src)) (fun inf =>
  let fs := write "/test.fest" (B "bin ./" ++ td)
    (write_file cwd (in_td "/this/is/bash") (rd_data inf) 0x1ff
      (mkdirs ["/this/is/dir/child"]%string (write "/this/file" [] (mkdirs ["/this/is/a/tree"]%string new_td)))) in
  expect (fst (elf_deps (elf_open (rd_data inf)) ∅)) (fun deps =>
  archived fs conf_defaults (in_td "/test.fest") (fun ents _ =>
  let got_files := base_names (fun e => is_reg e || (fmt_of e =? S_IFLNK)) ents in
  asserts
    [forallb (fun e => bool_decide (e ∈ got_files)) [B "file"; B "bash"; B "test.fest"];
     forallb (fun e => match e with
                       | LibRunPath n _ | Lib n => bool_decide (n ∈ got_files)
                       | _ => false
                       end) deps])))).

Definition test_kmods_populate (kmods_root : bytes) (t : Tree) : Tree :=
  foldr (fun '(f, c) => write_file cwd (kmods_root ++ B f) (R c) O644)
    (create_dir_all cwd (kmods_root ++ B "/kernel") t)
    [("/kernel/mod_a.ko", EmptyString); ("/kernel/mod_b.ko.xz", EmptyString); ("/kernel/mod_c.ko", EmptyString);
     ("/modules.dep", "kernel/mod_a.ko: kernel/mod_b.ko.xz kernel/mod_c.ko\nkernel/mod_b.ko.xz:\n");
     ("/modules.softdep", "softdep mod_a pre: mod_d post: mod_e mod_f\n");
     ("/modules.weakdep", "weakdep mod_a mod_g\nweakdep mod_a mod_h\nweakdep mod_b mod_i\nweakdep mod_b mod_j\n");
     ("/modules.builtin", "kernel/mod_builtin.ko\n");
     ("/modules.alias", "alias alias_for_b mod_b\nalias mod-b mod_b\nalias mod-intel-b mod_b\n")]%string.

Definition test_manifest_kmods : bool :=
  let conf : kvmap := {[B "KERNEL_INSTALL_MOD_PATH" := in_td "/mods"; B "KERNEL_RELEASE" := B "6.66"]} in
  let fs := write "/test.fest" (R "kmod mod_a\nkmod mod-builtin\ntry-kmod mod-no")
    (test_kmods_populate (in_td "/mods/lib/modules/6.66") new_td) in
  archived fs conf (in_td "/test.fest") (fun ents _ =>
  is_set (base_names is_reg ents)
    ["modules.dep"; "modules.softdep"; "modules.alias"; "modules.builtin"; "modules.weakdep"; "mod_a.ko";
     "mod_b.ko.xz"; "mod_c.ko"]%string).

Definition test_manifest_autorun : bool :=
  let fs :=
    write "/test.fest" (B "autorun " ++ in_td "/autorun.sh" ++ [NL] ++ B "include " ++ in_td "/included.fest" ++ [NL] ++ B "dir /baseafter")
      (write "/autorun.sh" (R "echo first\n")
        (write "/included.fest" (B "autorun " ++ in_td "/inc_autorun.sh" ++ B " " ++ in_td "/last_autorun.sh" ++ [NL])
          (write "/last_autorun.sh" (R "echo third\n") (write "/inc_autorun.sh" (R "echo second\n") new_td)))) in
  archived fs conf_defaults (in_td "/test.fest") (fun ents _ =>
  asserts
    [forallb (fun e => is_reg e || (fmt_of e =? S_IFDIR)) ents;
     is_set (base_names is_reg ents) ["000-autorun.sh"; "001-inc_autorun.sh"; "002-last_autorun.sh"]%string;
     is_set (base_names (fun e => fmt_of e =? S_IFDIR) ents) ["rapido_autorun"; "baseafter"]%string]).

Definition test_manifest_tree : bool :=
  let fs := write "/test.fest" (B "tree / " ++ td)
    (mkdirs ["/this/is/dir/child"]%string (write "/this/is/file" [] (write "/this/file" []
      (mkdirs ["/this/is/a/tree"]%string new_td)))) in
  archived fs conf_defaults (in_td "/test.fest") (fun ents _ =>
  names_are ["/"; "this"; "this/is"; "this/is/file"; "this/is/dir"; "this/is/dir/child"; "this/is/a";
             "this/is/a/tree"; "this/file"; "test.fest"]%string ents).

Definition test_paths_seen : bool :=
  let fs := write "/test.fest" (B "bin bash" ++ [NL] ++ B "tree / " ++ td) (mkdirs ["/this/is/dir"]%string new_td) in
  archived fs conf_defaults (in_td "/test.fest") (fun ents s =>
  forallb (fun e =>
    let p := if bool_decide (an e = B "/") then B "/" else B "/" ++ an e in
    bool_decide (path_key p ∈ paths_seen s)) ents).

Definition test_manifest_filter : bool :=
  let fs := write "/test.fest" (B "filter /this/is" ++ [NL] ++ B "filter /this/filter" ++ [NL] ++ B "tree / " ++ td)
    (mkdirs ["/this/isnt/filtered"]%string (write "/this/filter" [] (mkdirs ["/this/is/a/filtered/tree"]%string new_td))) in
  archived fs conf_defaults (in_td "/test.fest") (fun ents _ =>
  names_are ["/"; "this"; "this/isnt"; "this/isnt/filtered"; "test.fest"]%string ents).

Definition test_manifest_file_parent_collapse : bool :=
  let data := B "this is some data" in
  let fs := write "/test.fest" (B "file /a/b/.././b/../b/c " ++ in_td "/test.data") (write "/test.data" data new_td) in
  archived fs conf_defaults (in_td "/test.fest") (fun ents _ =>
  ents_are [("a"%string, S_IFDIR, 0); ("a/b"%string, S_IFDIR, 0);
            ("a/b/../b/../b/c"%string, S_IFREG, zlen data)] (take 3 ents)).

Definition test_manifest_file_parent_collapse_below_root : bool :=
  let fs := write "/test.fest" (B "file /a/b/.././../../below") new_td in
  match fst (parse_fest fs conf_defaults (in_td "/test.fest")) with
  | Err (Io e) => eqs (kind e) InvalidInput
  | _ => false
  end.

Example cut_tests :
  [test_manifest_include; test_manifest_symlink; test_manifest_vars; test_manifest_file; test_manifest_bin;
   test_manifest_elf_dir_traverse; test_manifest_kmods; test_manifest_autorun; test_manifest_tree; test_paths_seen;
   test_manifest_filter; test_manifest_file_parent_collapse; test_manifest_file_parent_collapse_below_root]
  = replicate 13 true.
Proof. vm_compute. reflexivity. Qed.
