(* ===== verification/DracutTests.v ===== *)
(** * The unit tests of dracut-cpio (src/src/bin/dracut-cpio.rs)

    One definition for each test. The tests compare with GNU cpio, which is a parameter:
    what it writes for a list of names, and the files it extracts. They hold of
    the model when GNU cpio writes the newc format as it is documented. *)

From S2P Require Import Prelude RustStr RustPath RustIo Cpio CpioWalk Host DracutCpio TestHost.

(** the temporary directory, which the tests change to *)
Definition cwd : path := B "/work/cpio-selftest-00".

(** [!(i & 0xFF) as u8] for the bytes of a block of 512 *)
Definition tmp_byte (i : Z) : Z := 255 - i mod 256.
Definition tmp_data (len_bytes : Z) : bytes := tmp_byte <$> seqZ 0 len_bytes.

(** [TempWorkDir] *)
Definition twd_new : Tree := create_dir_all cwd cwd ∅.
Definition create_tmp_file (name : string) (len_bytes : Z) (t : Tree) : Tree :=
  write_file cwd (B name) (tmp_data len_bytes) O644 t.
Definition create_tmp_dir (name : string) (t : Tree) : Tree := insert_node cwd (B name) NDir t.

(** [fs::hard_link]: another name with the same data. The data do not change
    afterwards, and how many links there are is not among what is compared. *)
Definition hard_link (original link : string) (t : Tree) : Tree :=
  match t !! tree_key cwd (B original) with Some n => insert_node cwd (B link) n t | None => t end.

(** [makedev] of the C library *)
Definition makedev (major minor : Z) : Z :=
  Z.lor (Z.lor (Z.shiftl (Z.land major 0xfffff000) 32) (Z.shiftl (Z.land major 0xfff) 8))
    (Z.lor (Z.shiftl (Z.land minor 0xffffff00) 12) (Z.land minor 0xff)).

(** mknod NAME TYPE [MAJOR MINOR] *)
Definition create_tmp_mknod (name : string) (typ : Z) (rdev : Z) (t : Tree) : Tree :=
  insert_node cwd (B name) (NSpecial (Z.lor typ O644) rdev) t.

(** ** GNU cpio *)

(** cpio -o -H newc --ignore-devno --renumber-inodes for a list of names on standard
    input, and cpio -i -H newc: what it extracts, or nothing if it fails *)
Record GnuCpio := {
  gnu_cpio_create : Host -> bytes -> bytes;
  gnu_cpio_extract : bytes -> option (list (bytes * (Metadata * bytes)));
}.

(** the archive written for a list of names, with the length reported *)
Definition dracut (host : Host) (list : bytes) (p : ArchiveProperties) : io Z * bytes :=
  let '(r, w) := archive_loop host (reader_of list) (MkVector []) p in (r, vec_data w).

(** [assert_eq!(wrote, ..)] or another check, and the comparison with GNU cpio for
    the list of names [gnu_list] on the host [gnu_host] *)
Definition like_gnu (gnu : GnuCpio) (gnu_host host : Host) (gnu_list list : bytes) (check : Z -> bool) : bool :=
  let '(r, out) := dracut host list props_default in
  expect r (fun wrote => asserts [check wrote; eqs (gnu_cpio_create gnu gnu_host gnu_list) out]).

Definition same_as_gnu (gnu : GnuCpio) (t : Tree) (list : string) (check : Z -> bool) : bool :=
  let host := tree_host cwd t in like_gnu gnu host host (R list) (R list) check.

Section Tests.
Context (gnu : GnuCpio).

Definition test_archive_empty_file : bool :=
  same_as_gnu gnu (create_tmp_file "file.txt" 0 twd_new) "file.txt\n" (Z.eqb 512).

Definition test_archive_small_file : bool :=
  same_as_gnu gnu (create_tmp_file "file.txt" 33 twd_new) "file.txt\n"
    (fun wrote => NEWC_HDR_LEN * 2 + 33 <? wrote).

Definition test_archive_prefixed_path : bool :=
  same_as_gnu gnu (create_tmp_file "file.txt" 0 twd_new) "./file.txt\n" (Z.eqb 512).

Definition test_archive_dir : bool :=
  same_as_gnu gnu (create_tmp_dir "dir" twd_new) "dir\n" (Z.eqb 512).

(** a file of [len] bytes in a directory; the source has 32 blocks of 512 *)
Definition dir_file (len : Z) : Tree := create_tmp_file "dir/file.txt" len (create_tmp_dir "dir" twd_new).

Definition test_archive_dir_file (len : Z) : bool :=
  same_as_gnu gnu (dir_file len) "dir\n\ndir/file.txt\n" (fun wrote => NEWC_HDR_LEN * 3 + len <? wrote).

Definition test_archive_dot_path (len : Z) : bool :=
  same_as_gnu gnu (dir_file len) ".\ndir\ndir/file.txt\n" (fun wrote => NEWC_HDR_LEN * 4 + len <? wrote).

Definition test_archive_dot_slash_path (len : Z) : bool :=
  same_as_gnu gnu (dir_file len) "./\ndir\ndir/file.txt\n" (fun wrote => NEWC_HDR_LEN * 4 + len <? wrote).

Definition test_archive_symlink : bool :=
  same_as_gnu gnu (insert_node cwd (B "symlink.txt") (NLink (B "file.txt")) (create_tmp_file "file.txt" 0 twd_new))
    "file.txt\nsymlink.txt\n" (Z.eqb 512).

Definition test_archive_fifo : bool :=
  same_as_gnu gnu (create_tmp_mknod "fifo" S_IFIFO 0 twd_new) "fifo\n" (Z.eqb 512).

(** GNU cpio runs in the root directory *)
Definition test_archive_char : bool :=
  let t := insert_node cwd (B "/dev/zero") (NSpecial (Z.lor S_IFCHR 0x1b6) (makedev 1 5)) twd_new in
  like_gnu gnu (tree_host (B "/") t) (tree_host (B "/") t) (R "dev/zero\n") (R "/dev/zero\n") (Z.eqb 512).

(** [ArchiveProperties { data_align: .., initial_data_off: .., ..default() }] *)
Definition align_props (align data_off : Z) : ArchiveProperties :=
  MkProps 0 align (namesize_max props_default) data_off None None None.

(** the data at an offset of a file *)
Definition segment (off len : Z) (b : bytes) : bytes := take (Z.to_nat len) (drop (Z.to_nat off) b).

(** an archive extracted by GNU cpio, with a check of each file by its name *)
Definition extracted (out : bytes) (l : list (string * (Metadata * bytes -> bool))) : bool :=
  expect_some (gnu_cpio_extract gnu out) (fun fs =>
  forallb (fun '(n, f) => existsb (fun '(m, x) => bool_decide (m = B n) && f x) fs) l).

(** for a file of [len] bytes; the source has 1 MiB *)
Definition test_archive_data_align (len : Z) : bool :=
  let host := tree_host cwd (dir_file len) in
  let '(r, out) := dracut host (R "dir\ndir/file.txt\n") (align_props 4096 0) in
  expect r (fun wrote => asserts
    [NEWC_HDR_LEN * 3 + len <? wrote;
     eqs (segment 4096 len out) (tmp_data len);
     extracted out [("dir/file.txt"%string, fun x => eqs (snd x) (tmp_data len))]]).

(** for a file of [len] bytes; the source has 514 KiB *)
Definition test_archive_data_align_off (len : Z) : bool :=
  let t := create_tmp_file "dir1/file.txt" len
    (create_tmp_dir "dir3" (create_tmp_dir "dir2" (create_tmp_dir "dir1" twd_new))) in
  let data_before_cpio := replicate (Z.to_nat (16384 + 4)) 5 in
  let '(r, w) := archive_loop (tree_host cwd t) (reader_of (R "dir1\ndir2\ndir3\ndir1/file.txt\n"))
    (MkVector data_before_cpio) (align_props 4096 (zlen data_before_cpio)) in
  expect r (fun wrote => asserts
    [NEWC_HDR_LEN * 5 + len <? wrote; eqs (segment (16384 + 4096) len (vec_data w)) (tmp_data len)]).

(** for a file of [len] bytes; the source has 514 KiB *)
Definition test_archive_data_align_off_bad (len : Z) : bool :=
  let t := create_tmp_file "file.txt" len twd_new in
  let data_before_cpio := replicate (Z.to_nat (16384 + 3)) 5 in
  err_kind (fst (archive_loop (tree_host cwd t) (reader_of (R "file.txt\n")) (MkVector data_before_cpio)
    (align_props 4096 (zlen data_before_cpio)))) InvalidInput.

(** the data of an extracted file *)
Definition data_of (l : list (bytes * (Metadata * bytes))) (f : bytes) : option bytes :=
  match (list_to_map l : gmap bytes (Metadata * bytes)) !! f with Some (_, b) => Some b | None => None end.

(** the archives of both extracted: the data of the files are the same *)
Definition test_archive_hardlinks : bool :=
  let t := create_tmp_file "another.txt" (512 * 4) (hard_link "file.txt" "link2.txt"
    (hard_link "file.txt" "link1.txt" (create_tmp_file "file.txt" (512 * 4) twd_new))) in
  let host := tree_host cwd t in
  let file_list := R "file.txt\nanother.txt\nlink1.txt\nlink2.txt\n" in
  let '(r, out) := dracut host file_list props_default in
  expect r (fun wrote =>
  expect_some (gnu_cpio_extract gnu (gnu_cpio_create gnu host file_list)) (fun g =>
  expect_some (gnu_cpio_extract gnu out) (fun d =>
  asserts [NEWC_HDR_LEN * 5 + 512 * 8 <? wrote;
    forallb (fun f => expect_some (data_of g f) (fun x => eqs (data_of d f) (Some x)))
      (List.filter nonempty (split (Z.eqb NL) file_list))]))).

Definition test_archive_duplicates : bool :=
  same_as_gnu gnu (create_tmp_file "another.txt" (512 * 4) (create_tmp_file "file.txt" (512 * 4) twd_new))
    "file.txt\nanother.txt\nfile.txt\n" (fun wrote => NEWC_HDR_LEN * 4 + 512 * 12 <? wrote).

Definition two_files : Host := tree_host cwd (create_tmp_file "file2" 55 (create_tmp_file "file1" 33 twd_new)).

(** the files of [two_files], archived and extracted *)
Definition extract_two (p : ArchiveProperties) (check : string -> Metadata -> bool) : bool :=
  let '(r, out) := dracut two_files (R "file1\nfile2\n") p in
  expect r (fun wrote => asserts
    [NEWC_HDR_LEN * 3 + 33 + 55 <? wrote;
     extracted out [("file1"%string, fun x => check "file1"%string (fst x));
                    ("file2"%string, fun x => check "file2"%string (fst x))]]).

Definition test_archive_fixed_mtime : bool :=
  extract_two (MkProps 0 0 (namesize_max props_default) 0 (Some 0) None None) (fun _ md => st_mtime md =? 0).

(** [fs::symlink_metadata(n)] of the file that was archived *)
Definition src_md (n : string) (f : Metadata -> bool) : bool :=
  expect (host_symlink_metadata two_files (B n)) f.

Definition test_archive_stat_mtime : bool := asserts
  [eqs (fixed_mtime props_default) None;
   extract_two props_default (fun n ex_md => src_md n (fun md => st_mtime md =? st_mtime ex_md))].

Definition test_archive_fixed_owner : bool :=
  extract_two (MkProps 0 0 (namesize_max props_default) 0 None (Some 65534) (Some 65534))
    (fun _ md => (st_uid md =? 65534) && (st_gid md =? 65534)).

Definition test_archive_stat_owner : bool := asserts
  [eqs (fixed_uid props_default) None; eqs (fixed_gid props_default) None;
   extract_two props_default (fun n ex_md => src_md n (fun md =>
     (st_uid md =? st_uid ex_md) && (st_gid md =? st_gid ex_md)))].

(** the archives of both extracted: the device numbers are the same *)
Definition test_archive_dev_maj_min : bool :=
  let t := foldr (fun '(n, (major, minor)) => create_tmp_mknod n S_IFBLK (makedev major minor))
    (create_tmp_file "file1" 0 twd_new)
    [("bdev1", (0x01, 0x01)); ("bdev2", (0x02, 0x100)); ("bdev3", (0x03, 0x1000)); ("bdev4", (0x04, 0x10000));
     ("bdev5", (0x100, 0x05)); ("bdev6", (0x100, 0x06))]%string in
  let host := tree_host cwd t in
  let file_list := R "file1\nbdev1\nbdev2\nbdev3\nbdev4\nbdev5\nbdev6\n" in
  let '(r, out) := dracut host file_list props_default in
  expect r (fun wrote =>
  expect_some (gnu_cpio_extract gnu (gnu_cpio_create gnu host file_list)) (fun g =>
  expect_some (gnu_cpio_extract gnu out) (fun d =>
  let rdevs := fun l : list (bytes * (Metadata * bytes)) => (fun '(n, (md, _)) => (n, st_rdev md)) <$> l in
  asserts [NEWC_HDR_LEN * 7 + zlen file_list <=? wrote; eqs (length d) 7%nat; eqs (rdevs g) (rdevs d)]))).

(** The device a file is on is not in [Metadata], since the program does not read
    it; the test is for "/tmp" and the temporary directory on different ones. *)
Definition test_archive_major_minor : bool :=
  let t := insert_node cwd (B "/tmp") NDir (create_tmp_file "file1" 0 twd_new) in
  let fin := join cwd (B "file1") in
  let host := tree_host (B "/") t in
  expect_some (strip_prefix (B "/") fin) (fun fin =>
  let file_list := fin ++ R "\ntmp\n" in
  like_gnu gnu host host file_list file_list (fun wrote => NEWC_HDR_LEN <? wrote)).
End Tests.

(** ** The newc format as documented *)

(** The fields of a header: eight hexadecimal digits each, after the magic. *)
Definition newc_header (fields : list Z) : bytes := B "070701" ++ concat (fmt_HEX 8 <$> fields).

(** filled up with zeros to a multiple of [n] *)
Definition pad (n : Z) (b : bytes) : bytes := b ++ zeros ((n - zlen b mod n) mod n).

Definition newc_entry (ino : Z) (md : Metadata) (name data : bytes) : bytes :=
  let rdev := st_rdev md in
  let rmajor := Z.lor (Z.land (Z.shiftr rdev 8) 0xfff) (Z.land (Z.shiftr rdev 32) 0xfffff000) in
  let rminor := Z.lor (Z.land rdev 0xff) (Z.land (Z.shiftr rdev 12) 0xffffff00) in
  pad 4 (newc_header [ino; st_mode md; st_uid md; st_gid md; st_nlink md; st_mtime md; zlen data; 0; 0;
                      rmajor; rminor; zlen name + 1; 0] ++ name ++ [0]) ++ pad 4 data.

(** the data of a file or link *)
Definition newc_data (host : Host) (md : Metadata) (p : path) : bytes :=
  if is_type (st_mode md) S_IFREG then match host_read host p with Ok b => b | _ => [] end
  else if is_type (st_mode md) S_IFLNK then match host_read_link host p with Ok t => t | _ => [] end
  else [].

(** a leading "./" is left out *)
Definition newc_name (p : path) : bytes :=
  match strip_prefix (B "./") p with Some [] => p | Some n => n | None => p end.

Fixpoint newc_entries (host : Host) (ino : Z) (names : list path) : bytes :=
  match names with
  | [] => newc_entry 0 (MkStat 0 0 0 1 0 0 0) (B "TRAILER!!!") []
  | p :: names =>
      match host_symlink_metadata host p with
      | Ok md => newc_entry ino md (newc_name p) (newc_data host md p) ++ newc_entries host (ino + 1) names
      | _ => []
      end
  end.

Definition newc_create (host : Host) (list : bytes) : bytes :=
  pad 512 (newc_entries host 0 (List.filter nonempty (split (Z.eqb NL) list))).

(** a number of eight hexadecimal digits *)
Definition newc_number (b : bytes) : Z := default 0 (from_str_radix 16 U32_MAX b).

Fixpoint newc_files (fuel : nat) (b : bytes) : option (list (bytes * (Metadata * bytes))) :=
  match fuel with
  | O => None
  | S fuel =>
      let f := fun i => newc_number (segment (6 + 8 * i) 8 b) in
      let name := before_nul (segment 110 (f 11) b) in
      let rest := drop (Z.to_nat ((110 + f 11 + 3) / 4 * 4)) b in
      if bool_decide (name = B "TRAILER!!!") then Some []
      else if negb (bool_decide (take 6 b = B "070701")) then None
      else
        let md := MkStat (f 5) (f 1) (makedev (f 9) (f 10)) (f 4) (f 6) (f 2) (f 3) in
        fs ← newc_files fuel (drop (Z.to_nat ((f 6 + 3) / 4 * 4)) rest);
        Some ((name, (md, segment 0 (f 6) rest)) :: fs)
  end.

Definition newc : GnuCpio := {|
  gnu_cpio_create := newc_create;
  gnu_cpio_extract out := newc_files (length out) out;
|}.

(** ** The tests on the model *)

Example dracut_tests_gnu : asserts
  [test_archive_empty_file newc; test_archive_small_file newc; test_archive_prefixed_path newc;
   test_archive_dir newc; test_archive_dir_file newc 520; test_archive_dot_path newc 520;
   test_archive_dot_slash_path newc 520; test_archive_symlink newc; test_archive_fifo newc;
   test_archive_char newc; test_archive_hardlinks newc; test_archive_duplicates newc] = true.
Proof. vm_compute. reflexivity. Qed.

Example dracut_tests_align : asserts
  [test_archive_data_align newc 4097; test_archive_data_align_off 4097;
   test_archive_data_align_off_bad 4097] = true.
Proof. vm_compute. reflexivity. Qed.

(** a smaller file is not aligned: the lengths of the source matter *)
Example dracut_align_small : test_archive_data_align newc 600 = false.
Proof. vm_compute. reflexivity. Qed.

Example dracut_tests_metadata : asserts
  [test_archive_fixed_mtime newc; test_archive_stat_mtime newc; test_archive_fixed_owner newc;
   test_archive_stat_owner newc; test_archive_dev_maj_min newc; test_archive_major_minor newc] = true.
Proof. vm_compute. reflexivity. Qed.
